(** * Motion-vector candidate derivation of libgav1 (src/motion_vector.cc)

    A shallow embedding of the reference-MV stack construction
    ([FindMvStack]), the warp-sample collector ([FindWarpSamples]) and the
    motion-field projector ([MotionFieldProjection], [SetupMotionField]),
    together with the properties the design document states about them.

    Conventions.
    - C++ [int] values are [Z]; a store into an [int16_t] object is written
      [to_int16], the two's-complement wrap-around.
    - Counters that index the fixed-size stacks ([num_mv_found],
      [num_warp_samples], ...) start at zero and are only incremented; they
      are [nat].
    - Fixed-size arrays are lists updated in place ([<[i:=x]>]); every write
      of the source is guarded so that the index is in range.
    - Output pointer parameters become components of the returned state. *)

From Stdlib Require Import ZArith Lia List Bool Permutation Sorted.
From stdpp Require Import base option list numbers.

Local Open Scope Z_scope.

(** ** Machine integers *)

Definition to_int16 (x : Z) : Z := (x + 32768) mod 65536 - 32768.

Definition is_int16 (x : Z) : Prop := -32768 <= x <= 32767.

(** The value of an [int] expression: arithmetic on [int] wraps at 32 bits
    (two's complement), which is what the compiled code computes. *)
Definition to_int32 (x : Z) : Z := (x + 2147483648) mod 4294967296 - 2147483648.

(** Modelled from the spec: the arithmetic helpers [Clip3], [MultiplyBy2],
    [MultiplyBy4], [MultiplyBy8] and [DivideBy2] of src/utils/common.h
    (absent): the clamp of §4.3 and shifts by the amount in their names. *)
Definition Clip3 (value low high : Z) : Z :=
  if value <? low then low else if value >? high then high else value.

Definition MultiplyBy2 (x : Z) : Z := Z.shiftl x 1.
Definition MultiplyBy4 (x : Z) : Z := Z.shiftl x 2.
Definition MultiplyBy8 (x : Z) : Z := Z.shiftl x 3.
Definition DivideBy2 (x : Z) : Z := Z.shiftr x 1.

(** Modelled from the spec: [ApplySign] lives in src/utils/common.h, which is
    not part of the excerpt.  The comment above [MotionFieldProjection] fixes
    its shape: the sign is 0 or -1 and is "XORed and subtracted directly". *)
Definition ApplySign (value sign : Z) : Z := Z.lxor value sign - sign.

(** Modelled from the spec: [RightShiftWithRoundingSigned] (src/utils/common.h,
    absent) is the signed rounding shift "round(x / 2^bits)" of §4.3, rounding
    the magnitude and re-applying the sign. *)
Definition RightShiftWithRounding (value bits : Z) : Z :=
  Z.shiftr (value + Z.shiftr (Z.shiftl 1 bits) 1) bits.

Definition RightShiftWithRoundingSigned (value bits : Z) : Z :=
  if 0 <=? value then RightShiftWithRounding value bits
  else - RightShiftWithRounding (- value) bits.

(** ** Constants (src/utils/constants.h, absent from the excerpt) *)

(** Modelled from the spec: §8 gives the capacity of the stack, "never
    exceeds kMaxRefMvStackSize (8)". *)
Definition kMaxRefMvStackSize : nat := 8.

(** Modelled from the spec: the "fixed maximum number of least-squares
    sample points" of §4.7, the length of [candidates]. *)
Definition kMaxLeastSquaresSamples : nat := 8.

(** Modelled from the spec: the bound of the reference distances of §3,
    "within [1, kMaxFrameDistance]"; the division table has one entry for
    each of them. *)
Definition kMaxFrameDistance : Z := 31.

(** Modelled from the spec: the "fixed symmetric clamp range" of projected
    vectors (§3), 2^14 - 1. *)
Definition kProjectionMvClamp : Z := 16383.

(** Modelled from the spec: the "sentinel value" of §3 that marks a cell
    without valid projection, the least [int16_t]. *)
Definition kInvalidMvValue : Z := -32768.

(** Modelled from the spec: the fractional bits of the warp model
    parameters, which §4.1 shifts down to MV precision. *)
Definition kWarpedModelPrecisionBits : Z := 16.

(** Modelled from the spec: the "reciprocal(denominator)" table of §4.3,
    2^14 / d rounded down, for d in [1, kMaxFrameDistance]. *)
Definition kProjectionMvDivisionLookup (denominator : Z) : Z :=
  if (1 <=? denominator) && (denominator <=? kMaxFrameDistance)
  then 16384 / denominator else 0.

(** ** Motion vectors *)

(** Modelled from the spec: the [MotionVector] of §3, "a pair of signed
    integer components (row, column)", in the source [int16_t mv[2]]: [mv0]
    is the row ([kRow]), [mv1] the column. *)
Record MotionVector := MkMv { mv0 : Z; mv1 : Z }.

(** Modelled from the spec: the [CompoundMotionVector] of §3, in the source
    [MotionVector mv[2]], one per reference direction. *)
Record CompoundMotionVector := MkCompound { cmv0 : MotionVector; cmv1 : MotionVector }.

#[global] Instance MotionVector_eq_dec : EqDecision MotionVector.
Proof. solve_decision. Defined.

#[global] Instance CompoundMotionVector_eq_dec : EqDecision CompoundMotionVector.
Proof. solve_decision. Defined.

Definition zero_mv_value : MotionVector := MkMv 0 0.
Definition zero_compound : CompoundMotionVector := MkCompound zero_mv_value zero_mv_value.

(** [mv.mv[i]] for [i] in {0, 1}. *)
Definition cmv_get (c : CompoundMotionVector) (i : nat) : MotionVector :=
  match i with O => cmv0 c | _ => cmv1 c end.

Definition cmv_set (c : CompoundMotionVector) (i : nat) (m : MotionVector) :=
  match i with
  | O => MkCompound m (cmv1 c)
  | _ => MkCompound (cmv0 c) m
  end.

(** ** Enumerations

    The enumerations are declared in src/utils/constants.h and
    src/utils/types.h (absent); the source names their enumerators and
    relies on their order. *)

(** Modelled from the spec: the reference-frame identifiers of §3, "none",
    "intra" and the seven inter references. *)
Inductive ReferenceFrameType :=
| kReferenceFrameNone | kReferenceFrameIntra | kReferenceFrameLast
| kReferenceFrameLast2 | kReferenceFrameLast3 | kReferenceFrameGolden
| kReferenceFrameBackward | kReferenceFrameAlternate2 | kReferenceFrameAlternate.

#[global] Instance ReferenceFrameType_eq_dec : EqDecision ReferenceFrameType.
Proof. solve_decision. Defined.

(** The enumerator values: [kReferenceFrameNone] is -1, intra is 0. *)
Definition reference_frame_value (r : ReferenceFrameType) : Z :=
  match r with
  | kReferenceFrameNone => -1 | kReferenceFrameIntra => 0
  | kReferenceFrameLast => 1 | kReferenceFrameLast2 => 2
  | kReferenceFrameLast3 => 3 | kReferenceFrameGolden => 4
  | kReferenceFrameBackward => 5 | kReferenceFrameAlternate2 => 6
  | kReferenceFrameAlternate => 7
  end.

(** Modelled from the spec: the transform types of §3, "identity /
    translation / rotation-zoom / affine". *)
Inductive GlobalMotionTransformationType :=
| kGlobalMotionTransformationTypeIdentity
| kGlobalMotionTransformationTypeTranslation
| kGlobalMotionTransformationTypeRotZoom
| kGlobalMotionTransformationTypeAffine.

#[global] Instance GlobalMotionTransformationType_eq_dec :
  EqDecision GlobalMotionTransformationType.
Proof. solve_decision. Defined.

(** Modelled from the spec: the block sizes, in the order in which
    [kWarpValidThreshold] lists their thresholds. *)
Inductive BlockSize :=
| kBlock4x4 | kBlock4x8 | kBlock4x16 | kBlock8x4 | kBlock8x8 | kBlock8x16
| kBlock8x32 | kBlock16x4 | kBlock16x8 | kBlock16x16 | kBlock16x32
| kBlock16x64 | kBlock32x8 | kBlock32x16 | kBlock32x32 | kBlock32x64
| kBlock64x16 | kBlock64x32 | kBlock64x64 | kBlock64x128 | kBlock128x64
| kBlock128x128.

#[global] Instance BlockSize_eq_dec : EqDecision BlockSize.
Proof. solve_decision. Defined.

(** Modelled from the spec: the extents of a block size, as its name gives
    them; the tables in units of four samples follow. *)
Definition kBlockWidthPixels (s : BlockSize) : Z :=
  match s with
  | kBlock4x4 | kBlock4x8 | kBlock4x16 => 4
  | kBlock8x4 | kBlock8x8 | kBlock8x16 | kBlock8x32 => 8
  | kBlock16x4 | kBlock16x8 | kBlock16x16 | kBlock16x32 | kBlock16x64 => 16
  | kBlock32x8 | kBlock32x16 | kBlock32x32 | kBlock32x64 => 32
  | kBlock64x16 | kBlock64x32 | kBlock64x64 | kBlock64x128 => 64
  | kBlock128x64 | kBlock128x128 => 128
  end.

Definition kBlockHeightPixels (s : BlockSize) : Z :=
  match s with
  | kBlock4x4 | kBlock8x4 | kBlock16x4 => 4
  | kBlock4x8 | kBlock8x8 | kBlock16x8 | kBlock32x8 => 8
  | kBlock4x16 | kBlock8x16 | kBlock16x16 | kBlock32x16 | kBlock64x16 => 16
  | kBlock8x32 | kBlock16x32 | kBlock32x32 | kBlock64x32 => 32
  | kBlock16x64 | kBlock32x64 | kBlock64x64 | kBlock128x64 => 64
  | kBlock64x128 | kBlock128x128 => 128
  end.

Definition kNum4x4BlocksWide (s : BlockSize) : Z := kBlockWidthPixels s / 4.
Definition kNum4x4BlocksHigh (s : BlockSize) : Z := kBlockHeightPixels s / 4.

(** Position of the enumerator, used by [block.size <= kBlock64x64]. *)
Definition block_size_value (s : BlockSize) : Z :=
  match s with
  | kBlock4x4 => 0 | kBlock4x8 => 1 | kBlock4x16 => 2 | kBlock8x4 => 3
  | kBlock8x8 => 4 | kBlock8x16 => 5 | kBlock8x32 => 6 | kBlock16x4 => 7
  | kBlock16x8 => 8 | kBlock16x16 => 9 | kBlock16x32 => 10
  | kBlock16x64 => 11 | kBlock32x8 => 12 | kBlock32x16 => 13
  | kBlock32x32 => 14 | kBlock32x64 => 15 | kBlock64x16 => 16
  | kBlock64x32 => 17 | kBlock64x64 => 18 | kBlock64x128 => 19
  | kBlock128x64 => 20 | kBlock128x128 => 21
  end.

(** Entry at index i is Clip3(max(width, height), 16, 112). *)
Definition kWarpValidThreshold (s : BlockSize) : Z :=
  nth (Z.to_nat (block_size_value s))
      [16; 16; 16; 16; 16; 16; 32; 16; 16; 16; 32;
       64; 32; 32; 32; 64; 64; 64; 64; 112; 112; 112] 0.

(** Modelled from the spec: the prediction modes; the source only asks
    whether a mode is one of the six "new MV" modes. *)
Inductive PredictionMode :=
| kPredictionModeDc | kPredictionModeVertical | kPredictionModeHorizontal
| kPredictionModeD45 | kPredictionModeD135 | kPredictionModeD113
| kPredictionModeD157 | kPredictionModeD203 | kPredictionModeD67
| kPredictionModeSmooth | kPredictionModeSmoothVertical
| kPredictionModeSmoothHorizontal | kPredictionModePaeth
| kPredictionModeChromaFromLuma
| kPredictionModeNearestMv | kPredictionModeNearMv | kPredictionModeGlobalMv
| kPredictionModeNewMv | kPredictionModeNearestNearestMv
| kPredictionModeNearNearMv | kPredictionModeNearestNewMv
| kPredictionModeNewNearestMv | kPredictionModeNearNewMv
| kPredictionModeNewNearMv | kPredictionModeGlobalGlobalMv
| kPredictionModeNewNewMv.

(** [kPredictionModeNewMvMask.Contains]. *)
Definition kPredictionModeNewMvMask (m : PredictionMode) : bool :=
  match m with
  | kPredictionModeNewMv | kPredictionModeNewNewMv | kPredictionModeNearNewMv
  | kPredictionModeNewNearMv | kPredictionModeNearestNewMv
  | kPredictionModeNewNearestMv => true
  | _ => false
  end.

(** [kTemporalScanMask.Contains]. *)
Definition kTemporalScanMask (s : BlockSize) : bool :=
  match s with
  | kBlock8x8 | kBlock8x16 | kBlock8x32 | kBlock16x8 | kBlock16x16
  | kBlock16x32 | kBlock32x8 | kBlock32x16 | kBlock32x32 => true
  | _ => false
  end.

(** Modelled from the spec: the frame types, of which §4.8 singles out the
    intra ones. *)
Inductive FrameType := kFrameKey | kFrameInter | kFrameIntraOnly | kFrameSwitch.

(** Modelled from the spec: [IsIntraFrame] (src/utils/common.h, absent); §4.8
    and §7 call the rejected sources "intra-only" / "intra source". *)
Definition IsIntraFrame (t : FrameType) : bool :=
  match t with
  | kFrameKey | kFrameIntraOnly => true
  | _ => false
  end.

(** ** Frame-level records *)

(** Modelled from the spec: the [GlobalMotion] record of §3, "transform type
    and its parameters"; [params[6]] is a function of the index. *)
Record GlobalMotion := MkGlobalMotion {
  gm_type : GlobalMotionTransformationType;
  gm_params : Z -> Z
}.

(** Modelled from the spec: the fields of the frame header that the source
    reads, the "frame-scoped read access" of §6. *)
Record ObuFrameHeader := MkFrameHeader {
  allow_high_precision_mv : bool;
  force_integer_mv : Z;
  use_ref_frame_mvs : bool;
  rows4x4 : Z;
  columns4x4 : Z;
  order_hint : Z;
  global_motion : ReferenceFrameType -> GlobalMotion;
  reference_frame_index : Z -> Z
}.

(** ** 7.10.2.10: precision lowering *)

Definition LowerMvComponentInteger (v : Z) : Z :=
  let value := Z.land (Z.abs v + 3) (Z.lnot 7) in
  let sign := Z.shiftr v 15 in
  to_int16 (ApplySign value sign).

Definition LowerMvComponentFractional (v : Z) : Z :=
  if negb (Z.land v 1 =? 0)
  then to_int16 (v - Z.lor (Z.shiftr v 15) 1)
  else v.

Definition LowerMvPrecision (frame_header : ObuFrameHeader)
    (mvs : MotionVector) : MotionVector :=
  if allow_high_precision_mv frame_header then mvs
  else if negb (force_integer_mv frame_header =? 0) then
    MkMv (LowerMvComponentInteger (mv0 mvs)) (LowerMvComponentInteger (mv1 mvs))
  else
    MkMv (LowerMvComponentFractional (mv0 mvs))
         (LowerMvComponentFractional (mv1 mvs)).

(** ** 7.9.3: projection of a stored vector *)

(** [mv.mv[i] * numerator * kProjectionMvDivisionLookup[denominator]] (lines
    66-70) is a product of [int]s, taken from the left: each multiplication
    wraps at 32 bits. *)
Definition GetMvProjectionComponent (v numerator denominator : Z) : Z :=
  Clip3 (RightShiftWithRoundingSigned
           (to_int32 (to_int32 (v * numerator)
                      * kProjectionMvDivisionLookup denominator)) 14)
        (- kProjectionMvClamp) kProjectionMvClamp.

Definition GetMvProjection (mv : MotionVector) (numerator denominator : Z)
    : MotionVector :=
  let numerator := Clip3 numerator (- kMaxFrameDistance) kMaxFrameDistance in
  MkMv (GetMvProjectionComponent (mv0 mv) numerator denominator)
       (GetMvProjectionComponent (mv1 mv) numerator denominator).

(** ** 7.10.2.14 (part 2): context derivation *)

(** Returns [(new_mv_context, reference_mv_context)]. *)
Definition ComputeContexts (found_new_mv : bool)
    (nearest_matches total_matches : Z) : Z * Z :=
  if nearest_matches =? 0 then (Z.min total_matches 1, total_matches)
  else if nearest_matches =? 1 then
    (3 - Z.b2z found_new_mv, 2 + total_matches)
  else (5 - Z.b2z found_new_mv, 5).

(** ** Block-level records *)

(** Modelled from the spec: the [BlockParameters] record of §3, without the
    pointer to the prediction parameters, which are threaded apart. *)
Record BlockParameters := MkBlockParameters {
  bp_size : BlockSize;
  reference_frame : ReferenceFrameType * ReferenceFrameType;
  mv : CompoundMotionVector;
  is_inter : bool;
  is_global_mv_block : bool;
  y_mode : PredictionMode
}.

(** [bp.reference_frame[i]] for [i] in {0, 1}. *)
Definition reference_frame_at (bp : BlockParameters) (i : nat) : ReferenceFrameType :=
  match i with O => fst (reference_frame bp) | _ => snd (reference_frame bp) end.

(** Modelled from the spec: [PredictionParameters] is declared in
    src/utils/types.h (absent).  §3 gives it two global MVs, the candidate
    stacks, "a parallel weight-index array" of [int16_t] and the two counts.
    The stacks are C arrays of [kMaxRefMvStackSize] entries. *)
Record PredictionParameters := MkPredictionParameters {
  global_mv : MotionVector * MotionVector;
  ref_mv_stack : list MotionVector;
  compound_ref_mv_stack : list CompoundMotionVector;
  weight_index_stack : list Z;
  nearest_mv_count : nat;
  ref_mv_count : nat
}.

Definition global_mv_at (pp : PredictionParameters) (i : nat) : MotionVector :=
  match i with O => fst (global_mv pp) | _ => snd (global_mv pp) end.

Definition set_global_mv (pp : PredictionParameters) (i : nat) (m : MotionVector) :=
  MkPredictionParameters
    (match i with O => (m, snd (global_mv pp)) | _ => (fst (global_mv pp), m) end)
    (ref_mv_stack pp) (compound_ref_mv_stack pp) (weight_index_stack pp)
    (nearest_mv_count pp) (ref_mv_count pp).

Definition set_ref_mv_stack (pp : PredictionParameters)
    (s : list MotionVector) (w : list Z) :=
  MkPredictionParameters (global_mv pp) s (compound_ref_mv_stack pp) w
    (nearest_mv_count pp) (ref_mv_count pp).

Definition set_compound_ref_mv_stack (pp : PredictionParameters)
    (s : list CompoundMotionVector) (w : list Z) :=
  MkPredictionParameters (global_mv pp) (ref_mv_stack pp) s w
    (nearest_mv_count pp) (ref_mv_count pp).

Definition set_weight_index_stack (pp : PredictionParameters) (w : list Z) :=
  MkPredictionParameters (global_mv pp) (ref_mv_stack pp)
    (compound_ref_mv_stack pp) w (nearest_mv_count pp) (ref_mv_count pp).

Definition set_nearest_mv_count (pp : PredictionParameters) (n : nat) :=
  MkPredictionParameters (global_mv pp) (ref_mv_stack pp)
    (compound_ref_mv_stack pp) (weight_index_stack pp) n (ref_mv_count pp).

Definition set_ref_mv_count (pp : PredictionParameters) (n : nat) :=
  MkPredictionParameters (global_mv pp) (ref_mv_stack pp)
    (compound_ref_mv_stack pp) (weight_index_stack pp)
    (nearest_mv_count pp) n.

(** Modelled from the spec: the two accessors of the weight-index array
    (src/utils/types.h, absent).  An entry packs the weight above three bits
    holding [7 - index], so that the descending order of the packed entries is
    the order "by weight, ties retain original relative order" of §4.5. *)
Definition IncreaseWeight (w : list Z) (index : nat) (weight : Z) : list Z :=
  alter (fun e => to_int16 (e + Z.shiftl weight 3)) index w.

Definition SetWeightIndexStackEntry (w : list Z) (index : nat) (weight : Z) : list Z :=
  <[index := to_int16 (Z.shiftl weight 3 + 7 - Z.of_nat index)]> w.

(** The weight and the stack index packed in an entry. *)
Definition entry_weight (e : Z) : Z := Z.shiftr e 3.
Definition entry_index (e : Z) : Z := 7 - Z.land e 7.

(** The temporal motion field: two flat arrays addressed by
    [row8 * columns + column8]. *)
Record TemporalMotionField := MkTemporalMotionField {
  mf_columns : Z;
  mf_mv : Z -> MotionVector;
  mf_reference_offset : Z -> Z
}.

(** Modelled from the spec: [Tile] is declared in src/tile.h (absent).  §6
    lists what the core reads from it: the availability predicates against
    the tile boundary, the lookup of [BlockParameters] by position, the frame
    header, the order hints, the sign-bias table and the motion field. *)
Record Tile := MkTile {
  row4x4_start : Z;
  row4x4_end : Z;
  column4x4_start : Z;
  column4x4_end : Z;
  frame_header : ObuFrameHeader;
  Parameters : Z -> Z -> BlockParameters;
  HasParameters : Z -> Z -> bool;
  motion_field : TemporalMotionField;
  current_frame_order_hint : ReferenceFrameType -> Z;
  order_hint_shift_bits : Z;
  reference_frame_sign_bias : ReferenceFrameType -> bool
}.

Definition IsInside (t : Tile) (row column : Z) : bool :=
  (row4x4_start t <=? row) && (row <? row4x4_end t) &&
  (column4x4_start t <=? column) && (column <? column4x4_end t).

(** The argument is the position whose top (left) neighbour is asked for. *)
Definition IsTopInside (t : Tile) (row : Z) : bool := row4x4_start t <? row.
Definition IsLeftInside (t : Tile) (column : Z) : bool := column4x4_start t <? column.
Definition IsTopLeftInside (t : Tile) (row column : Z) : bool :=
  (row4x4_start t <? row) && (column4x4_start t <? column).
Definition IsBottomRightInside (t : Tile) (row column : Z) : bool :=
  (row <? row4x4_end t) && (column <? column4x4_end t).

(** Modelled from the spec: [Tile::Block] (src/tile.h, absent).  The extents
    of a block are functions of its size. *)
Record Block := MkBlock {
  tile : Tile;
  bp : BlockParameters;
  row4x4 : Z;
  column4x4 : Z;
  block_size : BlockSize;
  top_available : bool;
  left_available : bool
}.

Definition width4x4 (b : Block) : Z := kNum4x4BlocksWide (block_size b).
Definition height4x4 (b : Block) : Z := kNum4x4BlocksHigh (block_size b).
Definition width (b : Block) : Z := kBlockWidthPixels (block_size b).
Definition height (b : Block) : Z := kBlockHeightPixels (block_size b).

(** Modelled from the spec: [IsGlobalMvBlock] (absent): "the neighbor itself
    used global motion" with a model beyond translation. *)
Definition IsGlobalMvBlock (is_global : bool)
    (type : GlobalMotionTransformationType) : bool :=
  is_global &&
  match type with
  | kGlobalMotionTransformationTypeRotZoom
  | kGlobalMotionTransformationTypeAffine => true
  | _ => false
  end.

(** Modelled from the spec: [GetRelativeDistance] (src/utils/common.h,
    absent): the difference of two order hints, sign-extended from the
    order-hint bit width (32 minus the shift). *)
Definition GetRelativeDistance (a b shift_bits : Z) : Z :=
  if shift_bits =? 0 then 0
  else Z.shiftr (to_int32 (Z.shiftl (a - b) shift_bits)) shift_bits.

(** ** Loops

    A [do ... while] or [for] loop of the source is a fuelled iteration over
    its integer cursor.  [None] means that the fuel ran out while the loop
    condition still held; the totality lemmas below show that this never
    happens with the fuel the callers give. *)

Inductive LoopStep (S : Type) :=
| Continue (next : Z) (s : S)
| Break (s : S).
Arguments Continue {S} next s.
Arguments Break {S} s.

Fixpoint while_loop {S : Type} (fuel : nat) (cond : Z -> S -> bool)
    (body : Z -> S -> option (LoopStep S)) (i : Z) (s : S) : option S :=
  if cond i s then
    match fuel with
    | O => None
    | Datatypes.S fuel' =>
        match body i s with
        | Some (Continue i' s') => while_loop fuel' cond body i' s'
        | Some (Break s') => Some s'
        | None => None
        end
    end
  else Some s.

Definition do_while {S : Type} (fuel : nat) (cond : Z -> S -> bool)
    (body : Z -> S -> option (LoopStep S)) (i : Z) (s : S) : option S :=
  match body i s with
  | Some (Continue i' s') => while_loop fuel cond body i' s'
  | Some (Break s') => Some s'
  | None => None
  end.

(** ** 7.10.2.1: global motion vector of a block *)

(** [int] arithmetic is exact here: the model is that of every input on
    which the source does not overflow [int]. *)
Definition SetupGlobalMv (block : Block) (index : nat) : MotionVector :=
  let frame_header := frame_header (tile block) in
  let reference_type := reference_frame_at (bp block) index in
  let gm := global_motion frame_header reference_type in
  if bool_decide (reference_type = kReferenceFrameIntra)
     || bool_decide (gm_type gm = kGlobalMotionTransformationTypeIdentity)
  then MkMv 0 0
  else if bool_decide (gm_type gm = kGlobalMotionTransformationTypeTranslation)
  then
    LowerMvPrecision frame_header
      (MkMv (to_int16 (Z.shiftr (gm_params gm 0) (kWarpedModelPrecisionBits - 3)))
            (to_int16 (Z.shiftr (gm_params gm 1) (kWarpedModelPrecisionBits - 3))))
  else
    let x := MultiplyBy4 (column4x4 block) + DivideBy2 (width block) - 1 in
    let y := MultiplyBy4 (row4x4 block) + DivideBy2 (height block) - 1 in
    let xc := (gm_params gm 2 - Z.shiftl 1 kWarpedModelPrecisionBits) * x
              + gm_params gm 3 * y + gm_params gm 0 in
    let yc := gm_params gm 4 * x
              + (gm_params gm 5 - Z.shiftl 1 kWarpedModelPrecisionBits) * y
              + gm_params gm 1 in
    if allow_high_precision_mv frame_header then
      MkMv (to_int16 (RightShiftWithRoundingSigned yc (kWarpedModelPrecisionBits - 3)))
           (to_int16 (RightShiftWithRoundingSigned xc (kWarpedModelPrecisionBits - 3)))
    else
      LowerMvPrecision frame_header
        (MkMv (to_int16 (MultiplyBy2
                 (RightShiftWithRoundingSigned yc (kWarpedModelPrecisionBits - 2))))
              (to_int16 (MultiplyBy2
                 (RightShiftWithRoundingSigned xc (kWarpedModelPrecisionBits - 2))))).

(** ** 7.10.2.8 / 7.10.2.9 / 7.10.2.6: the dedup/insert step

    The tail of [SearchStack] (lines 144-157), of [CompoundSearchStack]
    (179-194) and of both loops of [AddTemporalReferenceMvCandidate]
    (329-342, 362-375) is the same code over the two stack types:
    [std::find_if] over the first [num_mv_found] entries, [IncreaseWeight] on a
    hit, otherwise an append guarded by the capacity. *)

Definition find_if {A : Type} `{EqDecision A} (stack : list A) (n : nat)
    (candidate : A) : option nat :=
  fst <$> list_find (fun ref_mv => ref_mv = candidate) (take n stack).

Definition InsertCandidate {A : Type} `{EqDecision A} (candidate : A)
    (weight : Z) (s : list A * list Z * nat) : list A * list Z * nat :=
  let '(stack, weights, num_mv_found) := s in
  match find_if stack num_mv_found candidate with
  | Some index => (stack, IncreaseWeight weights index weight, num_mv_found)
  | None =>
      if (kMaxRefMvStackSize <=? num_mv_found)%nat then s
      else (<[num_mv_found := candidate]> stack,
            SetWeightIndexStackEntry weights num_mv_found weight,
            Datatypes.S num_mv_found)
  end.

(** The in/out pointer parameters of the scans and the prediction parameters
    they update. *)
Record ScanState := MkScanState {
  found_new_mv : bool;
  found_match : bool;
  num_mv_found : nat;
  prediction_parameters : PredictionParameters
}.

Definition SearchStack (block : Block) (mv_bp : BlockParameters) (index : nat)
    (weight : Z) (st : ScanState) : ScanState :=
  let pp := prediction_parameters st in
  let global_motion_type :=
    gm_type (global_motion (frame_header (tile block))
                           (reference_frame_at (bp block) 0)) in
  let candidate_mv :=
    if IsGlobalMvBlock (is_global_mv_block mv_bp) global_motion_type
    then global_mv_at pp 0
    else cmv_get (mv mv_bp) index in
  let '(stack, weights, n) :=
    InsertCandidate candidate_mv weight
      (ref_mv_stack pp, weight_index_stack pp, num_mv_found st) in
  MkScanState (found_new_mv st || kPredictionModeNewMvMask (y_mode mv_bp))
    true n (set_ref_mv_stack pp stack weights).

Definition CompoundSearchStack (block : Block) (mv_bp : BlockParameters)
    (weight : Z) (st : ScanState) : ScanState :=
  let pp := prediction_parameters st in
  let global_motion := global_motion (frame_header (tile block)) in
  let replace (i : nat) (c : CompoundMotionVector) :=
    if IsGlobalMvBlock (is_global_mv_block mv_bp)
         (gm_type (global_motion (reference_frame_at (bp block) i)))
    then cmv_set c i (global_mv_at pp i) else c in
  let candidate_mv := replace 1%nat (replace 0%nat (mv mv_bp)) in
  let '(stack, weights, n) :=
    InsertCandidate candidate_mv weight
      (compound_ref_mv_stack pp, weight_index_stack pp, num_mv_found st) in
  MkScanState (found_new_mv st || kPredictionModeNewMvMask (y_mode mv_bp))
    true n (set_compound_ref_mv_stack pp stack weights).

(** 7.10.2.7. *)
Definition AddReferenceMvCandidate (block : Block) (mv_bp : BlockParameters)
    (is_compound : bool) (weight : Z) (st : ScanState) : ScanState :=
  if negb (is_inter mv_bp) then st
  else if is_compound then
    if bool_decide (reference_frame_at mv_bp 0 = reference_frame_at (bp block) 0)
       && bool_decide (reference_frame_at mv_bp 1 = reference_frame_at (bp block) 1)
    then CompoundSearchStack block mv_bp weight st
    else st
  else
    let st1 :=
      if bool_decide (reference_frame_at mv_bp 0 = reference_frame_at (bp block) 0)
      then SearchStack block mv_bp 0 weight st else st in
    if bool_decide (reference_frame_at mv_bp 1 = reference_frame_at (bp block) 0)
    then SearchStack block mv_bp 1 weight st1 else st1.

Definition GetMinimumStep (block_width_or_height4x4 delta_row_or_column : Z) : Z :=
  if 16 <=? block_width_or_height4x4 then 4
  else if delta_row_or_column <? -1 then 2
  else 0.

(** 7.10.2.2.  The cursor is the offset of [bps] from
    [BlockParametersAddress(mv_row, mv_column)]. *)
Definition ScanRow (block : Block) (mv_column delta_row : Z)
    (is_compound : bool) (st : ScanState) : option ScanState :=
  let mv_row := row4x4 block + delta_row in
  let tile := tile block in
  if negb (IsTopInside tile (mv_row + 1)) then Some st
  else
    let width4x4 := width4x4 block in
    let min_step := GetMinimumStep width4x4 delta_row in
    let end_bps :=
      Z.min (Z.min width4x4 (columns4x4 (frame_header tile) - column4x4 block)) 16 in
    do_while 16 (fun bps _ => bps <? end_bps)
      (fun bps st =>
         let mv_bp := Parameters tile mv_row (mv_column + bps) in
         let step := Z.max (Z.min width4x4 (kNum4x4BlocksWide (bp_size mv_bp))) min_step in
         Some (Continue (bps + step)
           (AddReferenceMvCandidate block mv_bp is_compound (MultiplyBy2 step) st)))
      0 st.

(** 7.10.2.3.  The cursor counts rows: [bps] advances by [step * stride]. *)
Definition ScanColumn (block : Block) (mv_row delta_column : Z)
    (is_compound : bool) (st : ScanState) : option ScanState :=
  let mv_column := column4x4 block + delta_column in
  let tile := tile block in
  if negb (IsLeftInside tile (mv_column + 1)) then Some st
  else
    let height4x4 := height4x4 block in
    let min_step := GetMinimumStep height4x4 delta_column in
    let end_bps :=
      Z.min (Z.min height4x4 (rows4x4 (frame_header tile) - row4x4 block)) 16 in
    do_while 16 (fun bps _ => bps <? end_bps)
      (fun bps st =>
         let mv_bp := Parameters tile (mv_row + bps) mv_column in
         let step := Z.max (Z.min height4x4 (kNum4x4BlocksHigh (bp_size mv_bp))) min_step in
         Some (Continue (bps + step)
           (AddReferenceMvCandidate block mv_bp is_compound (MultiplyBy2 step) st)))
      0 st.

(** 7.10.2.4. *)
Definition ScanPoint (block : Block) (delta_row delta_column : Z)
    (is_compound : bool) (st : ScanState) : ScanState :=
  let mv_row := row4x4 block + delta_row in
  let mv_column := column4x4 block + delta_column in
  let tile := tile block in
  if negb (IsInside tile mv_row mv_column)
     || negb (HasParameters tile mv_row mv_column)
  then st
  else
    let mv_bp := Parameters tile mv_row mv_column in
    if bool_decide (reference_frame_at mv_bp 0 = kReferenceFrameNone) then st
    else AddReferenceMvCandidate block mv_bp is_compound 4 st.

(** ** 7.10.2.6: temporal candidates *)

(** The candidate of one stored vector for one reference direction:
    [candidate_mv = {}] unless the reference offset is non-zero. *)
Definition TemporalCandidateMv (frame_header : ObuFrameHeader)
    (reference_offset : Z) (temporal : MotionVector * Z) : MotionVector :=
  if negb (reference_offset =? 0) then
    LowerMvPrecision frame_header
      (GetMvProjection (fst temporal) reference_offset (snd temporal))
  else MkMv 0 0.

(** [max_difference] of the single-prediction loop (lines 357-359). *)
Definition MaxDifference (candidate_mv global : MotionVector) : Z :=
  Z.max (Z.abs (mv0 candidate_mv - mv0 global))
        (Z.abs (mv1 candidate_mv - mv1 global)).

(** [max_difference] of the compound loop (lines 318-326). *)
Definition CompoundMaxDifference (candidate_mv : CompoundMotionVector)
    (global : MotionVector * MotionVector) : Z :=
  Z.max (Z.max (Z.max (Z.abs (mv0 (cmv0 candidate_mv) - mv0 (fst global)))
                      (Z.abs (mv1 (cmv0 candidate_mv) - mv1 (fst global))))
               (Z.abs (mv0 (cmv1 candidate_mv) - mv0 (snd global))))
        (Z.abs (mv1 (cmv1 candidate_mv) - mv1 (snd global))).

(** Lines 356-361: the context is written only while it still holds -1. *)
Definition UpdateZeroMvContext (zero_mv_context max_difference : Z) : Z :=
  if zero_mv_context =? -1 then Z.b2z (16 <=? max_difference)
  else zero_mv_context.

(** The state the temporal scan updates: [*zero_mv_context],
    [*num_mv_found] and the prediction parameters. *)
Record TemporalState := MkTemporalState {
  zero_mv_context : Z;
  t_num_mv_found : nat;
  t_prediction_parameters : PredictionParameters
}.

(** One iteration of the single-prediction loop. *)
Definition AddTemporalSingle (frame_header : ObuFrameHeader)
    (reference_offsets : Z * Z) (s : TemporalState) (temporal : MotionVector * Z)
    : TemporalState :=
  let pp := t_prediction_parameters s in
  let candidate_mv :=
    TemporalCandidateMv frame_header (fst reference_offsets) temporal in
  let zero := UpdateZeroMvContext (zero_mv_context s)
                (MaxDifference candidate_mv (fst (global_mv pp))) in
  let '(stack, weights, n) :=
    InsertCandidate candidate_mv 2
      (ref_mv_stack pp, weight_index_stack pp, t_num_mv_found s) in
  MkTemporalState zero n (set_ref_mv_stack pp stack weights).

(** One iteration of the compound loop. *)
Definition AddTemporalCompound (frame_header : ObuFrameHeader)
    (reference_offsets : Z * Z) (s : TemporalState) (temporal : MotionVector * Z)
    : TemporalState :=
  let pp := t_prediction_parameters s in
  let candidate_mv :=
    MkCompound (TemporalCandidateMv frame_header (fst reference_offsets) temporal)
               (TemporalCandidateMv frame_header (snd reference_offsets) temporal) in
  let zero := UpdateZeroMvContext (zero_mv_context s)
                (CompoundMaxDifference candidate_mv (global_mv pp)) in
  let '(stack, weights, n) :=
    InsertCandidate candidate_mv 2
      (compound_ref_mv_stack pp, weight_index_stack pp, t_num_mv_found s) in
  MkTemporalState zero n (set_compound_ref_mv_stack pp stack weights).

(** [temporal] holds the first [count] entries of [temporal_mvs] paired with
    those of [temporal_reference_offsets]; the caller passes [count >= 1]. *)
Definition AddTemporalReferenceMvCandidate (frame_header : ObuFrameHeader)
    (reference_offsets : Z * Z) (temporal : list (MotionVector * Z))
    (is_compound : bool) (s : TemporalState) : TemporalState :=
  if is_compound then
    foldl (AddTemporalCompound frame_header reference_offsets) s temporal
  else
    foldl (AddTemporalSingle frame_header reference_offsets) s temporal.

(** Part of 7.10.2.5. *)
Definition IsWithinTheSame64x64Block (block : Block) (delta_row delta_column : Z) : bool :=
  let row := Z.land (row4x4 block) 15 + delta_row in
  let column := Z.land (column4x4 block) 15 + delta_column in
  (row <? 16) && (0 <=? column) && (column <? 16).

(** ** 7.10.2.5: temporal scan *)

(** The cell of the motion field at a flat offset: the stored vector and
    its reference offset. *)
Definition MotionFieldCell (f : TemporalMotionField) (offset : Z) : MotionVector * Z :=
  (mf_mv f offset, mf_reference_offset f offset).

(** [*zero_mv_context] and the arrays [temporal_mvs],
    [temporal_reference_offsets] with their [count] (the list length). *)
Definition GridState : Type := Z * list (MotionVector * Z).

(** The body of the inner loop (lines 425-439) at one grid position. *)
Definition TemporalScanCell (block : Block) (row_start column_start : Z)
    (offset mv_row mv_column : Z) (g : GridState) : GridState :=
  let tile := tile block in
  if IsBottomRightInside tile mv_row mv_column then
    let x8 := Z.shiftr mv_column 1 in
    let cell := MotionFieldCell (motion_field tile) (offset + x8) in
    if mv0 (fst cell) =? kInvalidMvValue then
      if (mv_row =? row_start) && (mv_column =? column_start)
      then (1, snd g) else g
    else (fst g, snd g ++ [cell])
  else g.

(** The inner loop (lines 421-440): one row of the grid. *)
Definition TemporalScanGridRow (block : Block) (offset mv_row : Z)
    (g : GridState) : option GridState :=
  let step_w := if 16 <=? width4x4 block then 4 else 2 in
  let row_start := Z.lor (row4x4 block) 1 in
  let column_start := Z.lor (column4x4 block) 1 in
  let column_end := column_start + Z.min (width4x4 block) 16 in
  do_while 8 (fun mv_column _ => mv_column <? column_end)
    (fun mv_column g =>
       Some (Continue (mv_column + step_w)
               (TemporalScanCell block row_start column_start
                  offset mv_row mv_column g)))
    column_start g.

(** The outer loop (lines 418-443); its state is [offset] and the grid
    state. *)
Definition TemporalScanGrid (block : Block) (g : GridState) : option GridState :=
  let step_h := if 16 <=? height4x4 block then 4 else 2 in
  let row_start := Z.lor (row4x4 block) 1 in
  let row_end := row_start + Z.min (height4x4 block) 16 in
  let stride := mf_columns (motion_field (tile block)) in
  snd <$>
  do_while 8 (fun mv_row _ => mv_row <? row_end)
    (fun mv_row (s : Z * GridState) =>
       g' ← TemporalScanGridRow block (fst s) mv_row (snd s);
       Some (Continue (mv_row + step_h)
               (fst s + Z.shiftr (stride * step_h) 1, g')))
    row_start (stride * Z.shiftr row_start 1, g).

(** The three extra positions (lines 444-475), in the order of
    [temporal_sample_positions]. *)
Definition TemporalScanExtra (block : Block) (g : GridState) : GridState :=
  if kTemporalScanMask (block_size block) then
    let tile := tile block in
    let row_start := Z.lor (row4x4 block) 1 in
    let column_start := Z.lor (column4x4 block) 1 in
    let stride := mf_columns (motion_field tile) in
    let offset0 := stride * Z.shiftr (row_start + height4x4 block) 1
                   + Z.shiftr (column_start - 2) 1 in
    let offset1 := offset0 + Z.shiftr (width4x4 block + 2) 1 in
    let offset2 := offset1 - stride in
    foldl (fun g (p : Z * Z * Z) =>
             let '(row, column, offset) := p in
             if negb (IsWithinTheSame64x64Block block row column) then g
             else if negb (IsBottomRightInside tile (row_start + row)
                                                    (column_start + column))
             then g
             else
               let cell := MotionFieldCell (motion_field tile) offset in
               if negb (mv0 (fst cell) =? kInvalidMvValue)
               then (fst g, snd g ++ [cell]) else g)
          g
          [(height4x4 block, -2, offset0);
           (height4x4 block, width4x4 block, offset1);
           (height4x4 block - 2, width4x4 block, offset2)]
  else g.

(** [reference_offsets] of lines 478-488; the second entry is set only for
    compound prediction and not read otherwise. *)
Definition TemporalReferenceOffsets (block : Block) (is_compound : bool) : Z * Z :=
  let tile := tile block in
  let offset i :=
    GetRelativeDistance (order_hint (frame_header tile))
      (current_frame_order_hint tile (reference_frame_at (bp block) i))
      (order_hint_shift_bits tile) in
  (offset 0%nat, if is_compound then offset 1%nat else 0).

Definition TemporalScan (block : Block) (is_compound : bool)
    (s : TemporalState) : option TemporalState :=
  g ← TemporalScanGrid block (zero_mv_context s, []);
  let g := TemporalScanExtra block g in
  let s := MkTemporalState (fst g) (t_num_mv_found s) (t_prediction_parameters s) in
  if negb (length (snd g) =? 0)%nat then
    Some (AddTemporalReferenceMvCandidate (frame_header (tile block))
            (TemporalReferenceOffsets block is_compound) (snd g) is_compound s)
  else Some s.

(** ** 7.10.2.13 / 7.10.2.12: extra search *)

(** [candidate_mv.mv[0] *= -1; candidate_mv.mv[1] *= -1]. *)
Definition NegateMv (m : MotionVector) : MotionVector :=
  MkMv (to_int16 (- mv0 m)) (to_int16 (- mv1 m)).

Definition pair_get {A : Type} (p : A * A) (i : nat) : A :=
  match i with O => fst p | _ => snd p end.

Definition pair_set {A : Type} (p : A * A) (i : nat) (x : A) : A * A :=
  match i with O => (x, snd p) | _ => (fst p, x) end.

(** The locals of [ExtraSearch].  [ref_id[j]] with [ref_id_count[j]] is the
    list of the vectors stored so far (at most two), likewise [ref_diff]. *)
Record ExtraState := MkExtraState {
  ref_id : list MotionVector * list MotionVector;
  ref_diff : list MotionVector * list MotionVector;
  e_num_mv_found : nat;
  e_prediction_parameters : PredictionParameters
}.

Definition AddExtraCompoundMvCandidate (block : Block) (mv_row mv_column : Z)
    (s : ExtraState) : ExtraState :=
  let tile := tile block in
  let bp' := Parameters tile mv_row mv_column in
  let sign_bias := reference_frame_sign_bias tile in
  foldl (fun s (i : nat) =>
    let candidate_reference_frame := reference_frame_at bp' i in
    if reference_frame_value candidate_reference_frame
         <=? reference_frame_value kReferenceFrameIntra then s
    else
      foldl (fun s (j : nat) =>
        let candidate_mv := cmv_get (mv bp') i in
        let block_reference_frame := reference_frame_at (bp block) j in
        if bool_decide (candidate_reference_frame = block_reference_frame)
           && (length (pair_get (ref_id s) j) <? 2)%nat
        then
          MkExtraState (pair_set (ref_id s) j (pair_get (ref_id s) j ++ [candidate_mv]))
            (ref_diff s) (e_num_mv_found s) (e_prediction_parameters s)
        else if (length (pair_get (ref_diff s) j) <? 2)%nat then
          let candidate_mv :=
            if negb (eqb (sign_bias candidate_reference_frame)
                         (sign_bias block_reference_frame))
            then NegateMv candidate_mv else candidate_mv in
          MkExtraState (ref_id s)
            (pair_set (ref_diff s) j (pair_get (ref_diff s) j ++ [candidate_mv]))
            (e_num_mv_found s) (e_prediction_parameters s)
        else s) s [0%nat; 1%nat]) s [0%nat; 1%nat].

(** Equality with a stack slot; a slot outside the list never matches. *)
Definition stack_slot_is (stack : list MotionVector) (i : nat)
    (m : MotionVector) : bool :=
  bool_decide (stack !! i = Some m).

Definition AddExtraSingleMvCandidate (block : Block) (mv_row mv_column : Z)
    (num_and_pp : nat * PredictionParameters) : nat * PredictionParameters :=
  let tile := tile block in
  let bp' := Parameters tile mv_row mv_column in
  let sign_bias := reference_frame_sign_bias tile in
  let block_reference_frame := reference_frame_at (bp block) 0 in
  foldl (fun (s : nat * PredictionParameters) (i : nat) =>
    let '(num_mv_found, pp) := s in
    let candidate_reference_frame := reference_frame_at bp' i in
    if reference_frame_value candidate_reference_frame
         <=? reference_frame_value kReferenceFrameIntra then s
    else
      let candidate_mv := cmv_get (mv bp') i in
      let candidate_mv :=
        if negb (eqb (sign_bias candidate_reference_frame)
                     (sign_bias block_reference_frame))
        then NegateMv candidate_mv else candidate_mv in
      if (negb (num_mv_found =? 0)%nat
          && stack_slot_is (ref_mv_stack pp) 0 candidate_mv)
         || ((num_mv_found =? 2)%nat
             && stack_slot_is (ref_mv_stack pp) 1 candidate_mv)
      then s
      else
        (Datatypes.S num_mv_found,
         set_ref_mv_stack pp (<[num_mv_found := candidate_mv]> (ref_mv_stack pp))
           (SetWeightIndexStackEntry (weight_index_stack pp) num_mv_found 0)))
    num_and_pp [0%nat; 1%nat].

(** One pass of the scan loop of [ExtraSearch] (lines 574-588): the above
    row when [pass] is 0, the left column when it is 1. *)
Definition ExtraSearchPass (block : Block) (is_compound : bool) (pass : Z)
    (num4x4 : Z) (s : ExtraState) : option ExtraState :=
  let tile := tile block in
  while_loop 16 (fun i _ => i <? num4x4)
    (fun i s =>
       let mv_row := row4x4 block + (if pass =? 0 then -1 else i) in
       let mv_column := column4x4 block + (if pass =? 0 then i else -1) in
       if negb (IsTopLeftInside tile (mv_row + 1) (mv_column + 1))
       then Some (Break s)
       else
         let next :=
           let bp' := Parameters tile mv_row mv_column in
           i + (if pass =? 0 then kNum4x4BlocksWide (bp_size bp')
                else kNum4x4BlocksHigh (bp_size bp')) in
         if is_compound then
           Some (Continue next (AddExtraCompoundMvCandidate block mv_row mv_column s))
         else
           let '(n, pp) :=
             AddExtraSingleMvCandidate block mv_row mv_column
               (e_num_mv_found s, e_prediction_parameters s) in
           let s' := MkExtraState (ref_id s) (ref_diff s) n pp in
           if (2 <=? n)%nat then Some (Break s') else Some (Continue next s'))
    0 s.

(** Column [i] of [combined_mvs] (lines 595-607): the same-reference
    matches, then the sign-adjusted differences, then the global MV. *)
Definition CombinedColumn (s : ExtraState) (i : nat) : list MotionVector :=
  let g := global_mv_at (e_prediction_parameters s) i in
  take 2 (pair_get (ref_id s) i ++ pair_get (ref_diff s) i ++ [g; g]).

Definition CombinedMvs (s : ExtraState) (k : nat) : CompoundMotionVector :=
  MkCompound (nth k (CombinedColumn s 0) zero_mv_value)
             (nth k (CombinedColumn s 1) zero_mv_value).

(** Returns [*num_mv_found] and the prediction parameters. *)
Definition ExtraSearch (block : Block) (is_compound : bool)
    (num_mv_found : nat) (pp : PredictionParameters)
    : option (nat * PredictionParameters) :=
  let tile := tile block in
  let num4x4 :=
    Z.min (Z.min (Z.min (Z.min (width4x4 block)
                               (columns4x4 (frame_header tile) - column4x4 block))
                        (height4x4 block))
                 (rows4x4 (frame_header tile) - row4x4 block)) 16 in
  let s0 := MkExtraState ([], []) ([], []) num_mv_found pp in
  s1 ← (if (e_num_mv_found s0 <? 2)%nat
        then ExtraSearchPass block is_compound 0 num4x4 s0 else Some s0);
  s2 ← (if (e_num_mv_found s1 <? 2)%nat
        then ExtraSearchPass block is_compound 1 num4x4 s1 else Some s1);
  let pp := e_prediction_parameters s2 in
  let n := e_num_mv_found s2 in
  if is_compound then
    let stack := compound_ref_mv_stack pp in
    if (n =? 1)%nat then
      let second :=
        if bool_decide (stack !! 0%nat = Some (CombinedMvs s2 0))
        then CombinedMvs s2 1 else CombinedMvs s2 0 in
      Some (2%nat,
            set_compound_ref_mv_stack pp (<[1%nat := second]> stack)
              (SetWeightIndexStackEntry (weight_index_stack pp) 1 0))
    else
      Some (2%nat,
            set_compound_ref_mv_stack pp
              (<[1%nat := CombinedMvs s2 1]> (<[0%nat := CombinedMvs s2 0]> stack))
              (SetWeightIndexStackEntry
                 (SetWeightIndexStackEntry (weight_index_stack pp) 0 0) 1 0))
  else
    Some (n,
          foldl (fun pp (i : nat) =>
                   set_ref_mv_stack pp
                     (<[i := global_mv_at pp 0]> (ref_mv_stack pp))
                     (SetWeightIndexStackEntry (weight_index_stack pp) i 0))
                pp (seq n (2 - n))).

(** ** 7.10.2.11: ranking *)

Definition DescendingOrderTwo (a b : Z) : Z * Z :=
  if a <? b then (b, a) else (a, b).

(** [std::sort] with the comparator [lhs > rhs].  The standard fixes only
    its result, the arrangement of the same integers in non-increasing
    order, which is unique; this insertion sort computes it. *)
Fixpoint insert_descending (x : Z) (l : list Z) : list Z :=
  match l with
  | [] => [x]
  | y :: l' => if y <? x then x :: l else y :: insert_descending x l'
  end.

Definition std_sort (l : list Z) : list Z := foldr insert_descending [] l.

(** Sorts the first [size] entries of the array that starts at the head of
    [w]. *)
Definition SortWeightIndexStack (size : nat) (w : list Z) : list Z :=
  if (size <=? 1)%nat then w
  else if (size <=? 3)%nat then
    let weight_index_0 := nth 0 w 0 in
    let weight_index_1 := nth 1 w 0 in
    let '(weight_index_0, weight_index_1) :=
      DescendingOrderTwo weight_index_0 weight_index_1 in
    if (size =? 3)%nat then
      let weight_index_2 := nth 2 w 0 in
      let '(weight_index_1, weight_index_2) :=
        DescendingOrderTwo weight_index_1 weight_index_2 in
      let '(weight_index_0, weight_index_1) :=
        DescendingOrderTwo weight_index_0 weight_index_1 in
      <[1%nat := weight_index_1]>
        (<[0%nat := weight_index_0]> (<[2%nat := weight_index_2]> w))
    else
      <[1%nat := weight_index_1]> (<[0%nat := weight_index_0]> w)
  else std_sort (take size w) ++ drop size w.

(** The two calls of [FindMvStack] (lines 816-826): the second one sorts the
    array that starts at [weight_index_stack + nearest_mv_count]. *)
Definition SortGroups (nearest_mv_count num_mv_found : nat) (w : list Z) : list Z :=
  let w := SortWeightIndexStack nearest_mv_count w in
  if (nearest_mv_count <? 4)%nat then
    take nearest_mv_count w
    ++ SortWeightIndexStack (num_mv_found - nearest_mv_count)
         (drop nearest_mv_count w)
  else w.

(** ** FindMvStack *)

Record MvContexts := MkMvContexts {
  zero_mv : Z;
  reference_mv : Z;
  new_mv : Z
}.

(** The locals of [FindMvStack] that the scans update through pointers. *)
Record Locals := MkLocals {
  l_found_new_mv : bool;
  l_found_row_match : bool;
  l_found_column_match : bool;
  l_dummy_bool : bool;
  l_num_mv_found : nat;
  l_prediction_parameters : PredictionParameters
}.

(** Which local is passed as [found_new_mv] and which as [found_match]. *)
Inductive NewMvArg := PassFoundNewMv | PassDummyBool.
Inductive MatchArg := PassRowMatch | PassColumnMatch.

Definition enter (a : NewMvArg) (m : MatchArg) (l : Locals) : ScanState :=
  MkScanState
    (match a with PassFoundNewMv => l_found_new_mv l | PassDummyBool => l_dummy_bool l end)
    (match m with PassRowMatch => l_found_row_match l | PassColumnMatch => l_found_column_match l end)
    (l_num_mv_found l) (l_prediction_parameters l).

Definition leave (a : NewMvArg) (m : MatchArg) (l : Locals) (st : ScanState) : Locals :=
  MkLocals
    (match a with PassFoundNewMv => found_new_mv st | PassDummyBool => l_found_new_mv l end)
    (match m with PassRowMatch => found_match st | PassColumnMatch => l_found_row_match l end)
    (match m with PassRowMatch => l_found_column_match l | PassColumnMatch => found_match st end)
    (match a with PassFoundNewMv => l_dummy_bool l | PassDummyBool => found_new_mv st end)
    (num_mv_found st) (prediction_parameters st).

(** The nearest scans (lines 777-785). *)
Definition NearestScans (block : Block) (is_compound : bool) (l : Locals)
    : option Locals :=
  l ← leave PassFoundNewMv PassRowMatch l <$>
        ScanRow block (column4x4 block) (-1) is_compound
          (enter PassFoundNewMv PassRowMatch l);
  l ← leave PassFoundNewMv PassColumnMatch l <$>
        ScanColumn block (row4x4 block) (-1) is_compound
          (enter PassFoundNewMv PassColumnMatch l);
  Some (if Z.max (width4x4 block) (height4x4 block) <=? 16 then
          leave PassFoundNewMv PassRowMatch l
            (ScanPoint block (-1) (width4x4 block) is_compound
               (enter PassFoundNewMv PassRowMatch l))
        else l).

(** The temporal step (lines 789-795); returns the locals and
    [contexts->zero_mv]. *)
Definition TemporalStep (block : Block) (is_compound : bool) (l : Locals)
    : option (Locals * Z) :=
  if use_ref_frame_mvs (frame_header (tile block)) then
    t ← TemporalScan block is_compound
          (MkTemporalState (-1) (l_num_mv_found l) (l_prediction_parameters l));
    Some (MkLocals (l_found_new_mv l) (l_found_row_match l)
            (l_found_column_match l) (l_dummy_bool l)
            (t_num_mv_found t) (t_prediction_parameters t),
          zero_mv_context t)
  else Some (l, 0).

(** The remaining scans (lines 796-809). *)
Definition FarScans (block : Block) (is_compound : bool) (l : Locals)
    : option Locals :=
  let l := leave PassDummyBool PassRowMatch l
             (ScanPoint block (-1) (-1) is_compound
                (enter PassDummyBool PassRowMatch l)) in
  let row (delta : Z) (l : Locals) :=
    leave PassDummyBool PassRowMatch l <$>
      ScanRow block (Z.lor (column4x4 block) 1)
        (delta + Z.land (row4x4 block) 1) is_compound
        (enter PassDummyBool PassRowMatch l) in
  let column (delta : Z) (l : Locals) :=
    leave PassDummyBool PassColumnMatch l <$>
      ScanColumn block (Z.lor (row4x4 block) 1)
        (delta + Z.land (column4x4 block) 1) is_compound
        (enter PassDummyBool PassColumnMatch l) in
  l ← row (-3) l;
  l ← column (-3) l;
  l ← (if 1 <? height4x4 block then row (-5) l else Some l);
  (if 1 <? width4x4 block then column (-5) l else Some l).

(** All scans of [FindMvStack] up to line 809, with the nearest count
    recorded (line 788); returns the locals, [nearest_matches] and
    [contexts->zero_mv]. *)
Definition AllScans (block : Block) (is_compound : bool)
    (pp : PredictionParameters) : option (Locals * Z * Z) :=
  let pp := set_global_mv pp 0 (SetupGlobalMv block 0) in
  let pp := if is_compound then set_global_mv pp 1 (SetupGlobalMv block 1) else pp in
  l ← NearestScans block is_compound (MkLocals false false false false 0 pp);
  let nearest_matches :=
    Z.b2z (l_found_row_match l) + Z.b2z (l_found_column_match l) in
  let l := MkLocals (l_found_new_mv l) (l_found_row_match l)
             (l_found_column_match l) (l_dummy_bool l) (l_num_mv_found l)
             (set_nearest_mv_count (l_prediction_parameters l) (l_num_mv_found l)) in
  '(l, zero) ← TemporalStep block is_compound l;
  l ← FarScans block is_compound (MkLocals (l_found_new_mv l) (l_found_row_match l)
                                    (l_found_column_match l) false
                                    (l_num_mv_found l) (l_prediction_parameters l));
  Some (l, nearest_matches, zero).

Definition FindMvStack (block : Block) (is_compound : bool)
    (pp : PredictionParameters) : option (PredictionParameters * MvContexts) :=
  '(l, nearest_matches, zero) ← AllScans block is_compound pp;
  let pp := l_prediction_parameters l in
  '(num_mv_found, pp) ←
    (if (l_num_mv_found l <? 2)%nat then
       ExtraSearch block is_compound (l_num_mv_found l) pp
     else
       Some (l_num_mv_found l,
             set_weight_index_stack pp
               (SortGroups (nearest_mv_count pp) (l_num_mv_found l)
                  (weight_index_stack pp))));
  let pp := set_ref_mv_count pp num_mv_found in
  let total_matches :=
    Z.b2z (l_found_row_match l) + Z.b2z (l_found_column_match l) in
  let '(new_mv_context, reference_mv_context) :=
    ComputeContexts (l_found_new_mv l) nearest_matches total_matches in
  Some (pp, MkMvContexts zero reference_mv_context new_mv_context).

(** ** 7.10.4.2: warp samples *)

(** The locals of [FindWarpSamples] and its in/out parameters.  A row of
    [candidates] is a quadruple. *)
Record WarpState := MkWarpState {
  top_left : bool;
  top_right : bool;
  step : Z;
  num_warp_samples : nat;
  num_samples_scanned : nat;
  candidates : list (Z * Z * Z * Z)
}.

Definition AddSample (block : Block) (delta_row delta_column : Z)
    (s : WarpState) : WarpState :=
  if (kMaxLeastSquaresSamples <=? num_samples_scanned s)%nat then s
  else
    let mv_row := row4x4 block + delta_row in
    let mv_column := column4x4 block + delta_column in
    let tile := tile block in
    if negb (IsInside tile mv_row mv_column)
       || negb (HasParameters tile mv_row mv_column)
    then s
    else
      let bp := bp block in
      let mv_bp := Parameters tile mv_row mv_column in
      if negb (bool_decide (reference_frame_at mv_bp 0 = reference_frame_at bp 0))
         || negb (bool_decide (reference_frame_at mv_bp 1 = kReferenceFrameNone))
      then s
      else
        let scanned := Datatypes.S (num_samples_scanned s) in
        let candidate_height4x4 := kNum4x4BlocksHigh (bp_size mv_bp) in
        let candidate_row := Z.land mv_row (Z.lnot (candidate_height4x4 - 1)) in
        let candidate_width4x4 := kNum4x4BlocksWide (bp_size mv_bp) in
        let candidate_column := Z.land mv_column (Z.lnot (candidate_width4x4 - 1)) in
        let candidate_bp := Parameters tile candidate_row candidate_column in
        let mv_diff_row :=
          Z.abs (mv0 (cmv0 (mv candidate_bp)) - mv0 (cmv0 (mv bp))) in
        let mv_diff_column :=
          Z.abs (mv1 (cmv0 (mv candidate_bp)) - mv1 (cmv0 (mv bp))) in
        let is_valid :=
          mv_diff_row + mv_diff_column <=? kWarpValidThreshold (block_size block) in
        if negb is_valid && (1 <? scanned)%nat then
          MkWarpState (top_left s) (top_right s) (step s)
            (num_warp_samples s) scanned (candidates s)
        else
          let mid_y := MultiplyBy4 candidate_row + MultiplyBy2 candidate_height4x4 - 1 in
          let mid_x := MultiplyBy4 candidate_column + MultiplyBy2 candidate_width4x4 - 1 in
          let sample :=
            (MultiplyBy8 mid_y, MultiplyBy8 mid_x,
             MultiplyBy8 mid_y + mv0 (cmv0 (mv candidate_bp)),
             MultiplyBy8 mid_x + mv1 (cmv0 (mv candidate_bp))) in
          MkWarpState (top_left s) (top_right s) (step s)
            (if is_valid then Datatypes.S (num_warp_samples s) else num_warp_samples s)
            scanned
            (<[num_warp_samples s := sample]> (candidates s)).

Definition set_step (s : WarpState) (v : Z) : WarpState :=
  MkWarpState (top_left s) (top_right s) v (num_warp_samples s)
    (num_samples_scanned s) (candidates s).

Definition clear_top_left (s : WarpState) : WarpState :=
  MkWarpState false (top_right s) (step s) (num_warp_samples s)
    (num_samples_scanned s) (candidates s).

Definition clear_top_right (s : WarpState) : WarpState :=
  MkWarpState (top_left s) false (step s) (num_warp_samples s)
    (num_samples_scanned s) (candidates s).

(** Lines 844-868. *)
Definition WarpScanTop (block : Block) (s : WarpState) : option WarpState :=
  let tile := tile block in
  if top_available block then
    let source_width4x4 :=
      kNum4x4BlocksWide (bp_size (Parameters tile (row4x4 block - 1) (column4x4 block))) in
    if width4x4 block <=? source_width4x4 then
      let column_offset := - Z.land (column4x4 block) (source_width4x4 - 1) in
      let s := if column_offset <? 0 then clear_top_left s else s in
      let s := if width4x4 block <? column_offset + source_width4x4
               then clear_top_right s else s in
      Some (AddSample block (-1) 0 s)
    else
      while_loop 32
        (fun i _ => i <? Z.min (width4x4 block)
                           (columns4x4 (frame_header tile) - column4x4 block))
        (fun i s =>
           let source_size :=
             bp_size (Parameters tile (row4x4 block - 1) (column4x4 block + i)) in
           let step := Z.min (width4x4 block) (kNum4x4BlocksWide source_size) in
           Some (Continue (i + step) (AddSample block (-1) i (set_step s step))))
        0 s
  else Some s.

(** Lines 869-890. *)
Definition WarpScanLeft (block : Block) (s : WarpState) : option WarpState :=
  let tile := tile block in
  if left_available block then
    let source_height4x4 :=
      kNum4x4BlocksHigh (bp_size (Parameters tile (row4x4 block) (column4x4 block - 1))) in
    if height4x4 block <=? source_height4x4 then
      let row_offset := - Z.land (row4x4 block) (source_height4x4 - 1) in
      let s := if row_offset <? 0 then clear_top_left s else s in
      Some (AddSample block 0 (-1) s)
    else
      while_loop 32
        (fun i _ => i <? Z.min (height4x4 block)
                           (rows4x4 (frame_header tile) - row4x4 block))
        (fun i s =>
           let source_size :=
             bp_size (Parameters tile (row4x4 block + i) (column4x4 block - 1)) in
           let step := Z.min (height4x4 block) (kNum4x4BlocksHigh source_size) in
           Some (Continue (i + step) (AddSample block i (-1) (set_step s step))))
        0 s
  else Some s.

(** All scans of [FindWarpSamples], up to line 897.  [warp_samples] and
    [samples_scanned] are the values of [*num_warp_samples] and
    [*num_samples_scanned] on entry. *)
Definition WarpScans (block : Block) (warp_samples samples_scanned : nat)
    (samples : list (Z * Z * Z * Z)) : option WarpState :=
  s ← WarpScanTop block
        (MkWarpState true true 1 warp_samples samples_scanned samples);
  s ← WarpScanLeft block s;
  let s := if top_left s then AddSample block (-1) (-1) s else s in
  Some (if top_right s
           && (block_size_value (block_size block) <=? block_size_value kBlock64x64)
        then AddSample block (-1) (width4x4 block) s else s).

(** Returns [*num_warp_samples], [*num_samples_scanned] and [candidates]. *)
Definition FindWarpSamples (block : Block) (warp_samples samples_scanned : nat)
    (samples : list (Z * Z * Z * Z)) : option (nat * nat * list (Z * Z * Z * Z)) :=
  s ← WarpScans block warp_samples samples_scanned samples;
  Some (if (num_warp_samples s =? 0)%nat && (0 <? num_samples_scanned s)%nat
        then 1%nat else num_warp_samples s,
        num_samples_scanned s, candidates s).

(** ** 7.9.2: motion field projection *)

(** What the projector reads of a reference frame buffer. *)
Record RefCountedBuffer := MkRefCountedBuffer {
  buffer_rows4x4 : Z;
  buffer_columns4x4 : Z;
  frame_type : FrameType;
  buffer_order_hint : ReferenceFrameType -> Z;
  motion_field_reference_frame : Z -> Z -> ReferenceFrameType;
  motion_field_mv : Z -> Z -> MotionVector
}.

(** The arguments of one call of the projection kernel. *)
Record KernelCall := MkKernelCall {
  k_source_frame : RefCountedBuffer;
  k_order_hint : Z;
  k_order_hint_shift_bits : Z;
  k_reference_to_current_with_sign : Z;
  k_dst_sign : Z;
  k_y8_start : Z;
  k_y8_end : Z;
  k_x8_start : Z;
  k_x8_end : Z
}.

Section Projection.

(** [dsp->motion_field_projection_kernel] is reached through the DSP
    function table; it is a parameter of the development. *)
Variable motion_field_projection_kernel :
  KernelCall -> TemporalMotionField -> TemporalMotionField.

(** Returns the result and the motion field after the call. *)
Definition MotionFieldProjection (frame_header : ObuFrameHeader)
    (current_frame : RefCountedBuffer)
    (reference_frames : Z -> RefCountedBuffer)
    (source : ReferenceFrameType) (order_hint_shift_bits : Z)
    (reference_to_current_with_sign dst_sign : Z)
    (y8_start y8_end x8_start x8_end : Z)
    (motion_field : TemporalMotionField) : bool * TemporalMotionField :=
  let source_index :=
    reference_frame_index frame_header
      (reference_frame_value source - reference_frame_value kReferenceFrameLast) in
  let source_frame := reference_frames source_index in
  if negb (buffer_rows4x4 source_frame =? rows4x4 frame_header)
     || negb (buffer_columns4x4 source_frame =? columns4x4 frame_header)
     || IsIntraFrame (frame_type source_frame)
  then (false, motion_field)
  else if kMaxFrameDistance <? reference_to_current_with_sign
  then (true, motion_field)
  else
    (true,
     motion_field_projection_kernel
       (MkKernelCall source_frame (buffer_order_hint current_frame source)
          order_hint_shift_bits reference_to_current_with_sign dst_sign
          y8_start y8_end x8_start x8_end)
       motion_field).

(** Returns [ref_stamp] at the end of the function and the motion field. *)
Definition SetupMotionField (frame_header : ObuFrameHeader)
    (current_frame : RefCountedBuffer)
    (reference_frames : Z -> RefCountedBuffer)
    (order_hint_shift_bits : Z)
    (row4x4_start row4x4_end column4x4_start column4x4_end : Z)
    (motion_field : TemporalMotionField) : Z * TemporalMotionField :=
  let y8_start := DivideBy2 row4x4_start in
  let y8_end := DivideBy2 (Z.min row4x4_end (rows4x4 frame_header)) in
  let x8_start := DivideBy2 column4x4_start in
  let x8_end := DivideBy2 (Z.min column4x4_end (columns4x4 frame_header)) in
  let project source offset dst_sign field :=
    MotionFieldProjection frame_header current_frame reference_frames source
      order_hint_shift_bits offset dst_sign y8_start y8_end x8_start x8_end
      field in
  let distance source :=
    GetRelativeDistance (buffer_order_hint current_frame source)
      (order_hint frame_header) order_hint_shift_bits in
  let last_index := reference_frame_index frame_header 0 in
  let last_alternate_order_hint :=
    buffer_order_hint (reference_frames last_index) kReferenceFrameAlternate in
  let current_gold_order_hint :=
    buffer_order_hint current_frame kReferenceFrameGolden in
  let field :=
    if negb (last_alternate_order_hint =? current_gold_order_hint) then
      let reference_offset_last := - distance kReferenceFrameLast in
      if Z.abs reference_offset_last <=? kMaxFrameDistance
      then snd (project kReferenceFrameLast reference_offset_last (-1) motion_field)
      else motion_field
    else motion_field in
  (* [if (offset > 0 && MotionFieldProjection(...)) --ref_stamp] *)
  let forward source (s : Z * TemporalMotionField) :=
    let offset := distance source in
    if 0 <? offset then
      let r := project source offset 0 (snd s) in
      (if fst r then fst s - 1 else fst s, snd r)
    else s in
  let s := forward kReferenceFrameBackward (1, field) in
  let s := forward kReferenceFrameAlternate2 s in
  let s := if 0 <=? fst s then forward kReferenceFrameAlternate s else s in
  if 0 <=? fst s then
    let reference_offset_last2 := - distance kReferenceFrameLast2 in
    if Z.abs reference_offset_last2 <=? kMaxFrameDistance
    then (fst s, snd (project kReferenceFrameLast2 reference_offset_last2 (-1) (snd s)))
    else s
  else s.

End Projection.

(** * Vocabulary of the properties

    Predicates, invariants and example data used by the statements below. *)

(** "(|v| + 3) & ~7 with the original sign reapplied". *)
Definition sign_reapplied (v : Z) : Z :=
  let value := Z.land (Z.abs v + 3) (Z.lnot 7) in
  if v <? 0 then - value else value.

(** What the integer rounding stores for the component [v]: a multiple of
    8, the sign-reapplied value whenever that value fits [int16_t], and
    -32768 for the three components whose rounded magnitude is 32768. *)
Definition integer_rounding (v r : Z) : Prop :=
  (8 | r) /\ (v <= 32764 -> r = sign_reapplied v) /\ (32765 <= v -> r = -32768).

(** Rounding of an odd component toward zero; even components are kept. *)
Definition rounding_toward_zero (v r : Z) : Prop :=
  if Z.odd v then (0 < v -> r = v - 1) /\ (v < 0 -> r = v + 1) else r = v.

(** A frame header that forces integer MVs, for the examples. *)
Definition identity_motion : GlobalMotion :=
  MkGlobalMotion kGlobalMotionTransformationTypeIdentity (fun _ => 0).

Definition integer_mv_header : ObuFrameHeader :=
  MkFrameHeader false 1 false 16 16 0 (fun _ => identity_motion) (fun _ => 0).

(** The reference frame buffer the projector reads for [source]. *)
Definition source_frame_of (frame_header : ObuFrameHeader)
    (reference_frames : Z -> RefCountedBuffer) (source : ReferenceFrameType)
    : RefCountedBuffer :=
  reference_frames
    (reference_frame_index frame_header
       (reference_frame_value source - reference_frame_value kReferenceFrameLast)).

(** Examples for the projector: a kernel that wipes the field, so that a
    field returned unchanged shows that the kernel did not run. *)
Definition empty_field : TemporalMotionField :=
  MkTemporalMotionField 0 (fun _ => MkMv kInvalidMvValue kInvalidMvValue) (fun _ => 0).

Definition sample_field : TemporalMotionField :=
  MkTemporalMotionField 8 (fun _ => MkMv 4 (-4)) (fun _ => 1).

Definition wiping_kernel (_ : KernelCall) (_ : TemporalMotionField) : TemporalMotionField :=
  empty_field.

Definition sample_buffer (rows columns : Z) (t : FrameType) : RefCountedBuffer :=
  MkRefCountedBuffer rows columns t (fun _ => 0)
    (fun _ _ => kReferenceFrameLast) (fun _ _ => MkMv 0 0).

Definition sample_header : ObuFrameHeader :=
  MkFrameHeader false 0 true 16 16 0 (fun _ => identity_motion) (fun _ => 0).

(** The degenerate case is reached: every neighbour of this block moves by
    1000 while the block itself is still, so the first scanned sample is
    recorded but not valid, the later ones are skipped, and the count of
    valid samples is forced to 1. *)
Definition moving_neighbor : BlockParameters :=
  MkBlockParameters kBlock8x8 (kReferenceFrameLast, kReferenceFrameNone)
    (MkCompound (MkMv 1000 0) (MkMv 0 0)) true false kPredictionModeNewMv.

Definition still_block : BlockParameters :=
  MkBlockParameters kBlock8x8 (kReferenceFrameLast, kReferenceFrameNone)
    (MkCompound (MkMv 0 0) (MkMv 0 0)) true false kPredictionModeNewMv.

Definition static_header : ObuFrameHeader :=
  MkFrameHeader false 0 false 16 16 0 (fun _ => identity_motion) (fun _ => 0).

Definition static_tile : Tile :=
  MkTile 0 16 0 16 static_header (fun _ _ => moving_neighbor) (fun _ _ => true)
    sample_field (fun _ => 0) 25 (fun _ => false).

(** The stacks are arrays of [kMaxRefMvStackSize] entries. *)
Definition stacks_allocated (pp : PredictionParameters) : Prop :=
  length (ref_mv_stack pp) = kMaxRefMvStackSize
  /\ length (compound_ref_mv_stack pp) = kMaxRefMvStackSize
  /\ length (weight_index_stack pp) = kMaxRefMvStackSize.

(** No row above the block and no column to its left lies inside the tile;
    the corner positions are then outside the tile as well. *)
Definition no_neighbor_available (block : Block) : Prop :=
  IsTopInside (tile block) (row4x4 block) = false
  /\ IsLeftInside (tile block) (column4x4 block) = false.

(** A block in the top-left corner of its tile, and freshly allocated
    prediction parameters. *)
Definition corner_block : Block :=
  MkBlock static_tile still_block 0 0 kBlock8x8 false false.

Definition fresh_parameters : PredictionParameters :=
  MkPredictionParameters (MkMv 0 0, MkMv 0 0) (replicate 8 (MkMv 0 0))
    (replicate 8 zero_compound) (replicate 8 0) 0 0.

(** The entry of slot [i] when it carries the weight [w]. *)
Definition packed (i : nat) (w : Z) : Z := 8 * w + 7 - Z.of_nat i.

(** The first [n] entries are packed, with weights between 0 and [B]. *)
Definition weights_packed (B : Z) (n : nat) (weights : list Z) : Prop :=
  forall i, (i < n)%nat ->
    exists w, weights !! i = Some (packed i w) /\ 0 <= w <= B.

(** The live part of a stack: at most [kMaxRefMvStackSize] entries, no two
    of them equal, each with a packed weight between 0 and [B]. *)
Definition stack_inv {A : Type} (B : Z) (s : list A * list Z * nat) : Prop :=
  let '(stack, weights, n) := s in
  (n <= kMaxRefMvStackSize)%nat
  /\ length stack = kMaxRefMvStackSize
  /\ length weights = kMaxRefMvStackSize
  /\ NoDup (take n stack)
  /\ 0 <= B /\ weights_packed B n weights.

(** The part of [stack_inv] that does not depend on the weights. *)
Definition distinct_inv {A : Type} (s : list A * list Z * nat) : Prop :=
  let '(stack, weights, n) := s in
  (n <= kMaxRefMvStackSize)%nat
  /\ length stack = kMaxRefMvStackSize
  /\ length weights = kMaxRefMvStackSize
  /\ NoDup (take n stack).

(** The stack in use: [compound_ref_mv_stack] for compound prediction,
    [ref_mv_stack] otherwise. *)
Definition live_stack (is_compound : bool) (B : Z) (n : nat)
    (pp : PredictionParameters) : Prop :=
  if is_compound
  then stack_inv B (compound_ref_mv_stack pp, weight_index_stack pp, n)
  else stack_inv B (ref_mv_stack pp, weight_index_stack pp, n).

(** [k] is the recorded nearest count, [lo] a lower bound of the count,
    [B] an upper bound of the weights. *)
Definition live_inv (is_compound : bool) (k lo : nat) (B : Z) (n : nat)
    (pp : PredictionParameters) : Prop :=
  nearest_mv_count pp = k /\ (lo <= n)%nat /\ live_stack is_compound B n pp.

(** The invariant on the state of a spatial scan. *)
Definition scan_inv (is_compound : bool) (k lo : nat) (B : Z) (st : ScanState) : Prop :=
  live_inv is_compound k lo B (num_mv_found st) (prediction_parameters st).

Definition temporal_inv (is_compound : bool) (k lo : nat) (B : Z)
    (t : TemporalState) : Prop :=
  live_inv is_compound k lo B (t_num_mv_found t) (t_prediction_parameters t).

Definition locals_inv (is_compound : bool) (k lo : nat) (B : Z) (l : Locals) : Prop :=
  live_inv is_compound k lo B (l_num_mv_found l) (l_prediction_parameters l).

(** The count is within the capacity and the recorded nearest count is
    [k]; no assumption is made on the arrays. *)
Definition within_capacity (k : nat) (n : nat) (pp : PredictionParameters) : Prop :=
  (n <= kMaxRefMvStackSize)%nat /\ nearest_mv_count pp = k.

Definition scan_capacity (k : nat) (st : ScanState) : Prop :=
  within_capacity k (num_mv_found st) (prediction_parameters st).

Definition temporal_capacity (k : nat) (t : TemporalState) : Prop :=
  within_capacity k (t_num_mv_found t) (t_prediction_parameters t).

(** A scan of a block, as [FindMvStack] may call it, and a sequence of
    them run on the state of the pointer parameters. *)
Inductive ScanCall :=
| CallScanRow (mv_column delta_row : Z)
| CallScanColumn (mv_row delta_column : Z)
| CallScanPoint (delta_row delta_column : Z)
| CallTemporalScan.

Definition run_scan (block : Block) (is_compound : bool) (call : ScanCall)
    (s : ScanState * Z) : option (ScanState * Z) :=
  let '(st, zero) := s in
  match call with
  | CallScanRow mv_column delta_row =>
      st' ← ScanRow block mv_column delta_row is_compound st; Some (st', zero)
  | CallScanColumn mv_row delta_column =>
      st' ← ScanColumn block mv_row delta_column is_compound st; Some (st', zero)
  | CallScanPoint delta_row delta_column =>
      Some (ScanPoint block delta_row delta_column is_compound st, zero)
  | CallTemporalScan =>
      t ← TemporalScan block is_compound
            (MkTemporalState zero (num_mv_found st) (prediction_parameters st));
      Some (MkScanState (found_new_mv st) (found_match st) (t_num_mv_found t)
              (t_prediction_parameters t),
            zero_mv_context t)
  end.

Fixpoint run_scans (block : Block) (is_compound : bool) (calls : list ScanCall)
    (s : ScanState * Z) : option (ScanState * Z) :=
  match calls with
  | [] => Some s
  | call :: calls =>
      s' ← run_scan block is_compound call s;
      run_scans block is_compound calls s'
  end.

Definition locals_capacity (k : nat) (l : Locals) : Prop :=
  within_capacity k (l_num_mv_found l) (l_prediction_parameters l).

(** An insertion into a stack: a spatial one carries the weight of its
    scan step, a temporal one the fixed weight 2. *)
Inductive Insertion (A : Type) :=
| SpatialInsertion (candidate : A) (weight : Z)
| TemporalInsertion (candidate : A).
Arguments SpatialInsertion {A} candidate weight.
Arguments TemporalInsertion {A} candidate.

Definition insertion_candidate {A : Type} (i : Insertion A) : A :=
  match i with SpatialInsertion c _ | TemporalInsertion c => c end.

Definition insertion_weight {A : Type} (i : Insertion A) : Z :=
  match i with SpatialInsertion _ w => w | TemporalInsertion _ => 2 end.

Definition apply_insertion {A : Type} `{EqDecision A} (i : Insertion A)
    (s : list A * list Z * nat) : list A * list Z * nat :=
  InsertCandidate (insertion_candidate i) (insertion_weight i) s.

Definition insert_all {A : Type} `{EqDecision A} (l : list (Insertion A))
    (s : list A * list Z * nat) : list A * list Z * nat :=
  foldl (fun s i => apply_insertion i s) s l.

Definition total_weight {A : Type} (l : list (Insertion A)) : Z :=
  foldr (fun i acc => insertion_weight i + acc) 0 l.

(** The stack part of the state of a spatial scan, of either kind. *)
Definition single_stack (n : nat) (pp : PredictionParameters) :=
  (ref_mv_stack pp, weight_index_stack pp, n).

Definition compound_stack (n : nat) (pp : PredictionParameters) :=
  (compound_ref_mv_stack pp, weight_index_stack pp, n).

Definition nonnegative_weights {A : Type} (l : list (Insertion A)) : Prop :=
  Forall (fun i => 0 <= insertion_weight i) l.

(** The scenario of the design document: two neighbours supply the same
    vector with the weights 4 and 6. *)
Definition scenario_done : list (Insertion MotionVector) :=
  [SpatialInsertion (MkMv 8 (-16)) 4].

Definition scenario_next : Insertion MotionVector :=
  SpatialInsertion (MkMv 8 (-16)) 6.

(** [a] is ranked before [b]: a larger weight, or the same weight and an
    earlier slot of the stack. *)
Definition ranks_before (a b : Z) : Prop :=
  entry_weight b < entry_weight a
  \/ (entry_weight a = entry_weight b /\ entry_index a < entry_index b).

(** Sorted by weight in descending order, ties in their original order. *)
Definition ranked (l : list Z) : Prop := StronglySorted ranks_before l.

Definition is_packed (e : Z) : Prop :=
  exists (i : nat) (w : Z), (i < 8)%nat /\ 0 <= w /\ e = packed i w.

(** A block with four distinct nearest neighbours and a fifth candidate
    from the top-left corner. *)
Definition neighbor_with (s : BlockSize) (row column : Z) : BlockParameters :=
  MkBlockParameters s (kReferenceFrameLast, kReferenceFrameNone)
    (MkCompound (MkMv row column) (MkMv 0 0)) true false kPredictionModeNearestMv.

Definition ranking_grid (row column : Z) : BlockParameters :=
  if row <? 2 then
    if column <? 2 then neighbor_with kBlock8x8 40 40
    else if column =? 2 then neighbor_with kBlock4x4 8 0
    else if column =? 3 then neighbor_with kBlock4x4 16 0
    else neighbor_with kBlock8x8 24 0
  else neighbor_with kBlock8x8 0 32.

Definition ranking_block : Block :=
  MkBlock
    (MkTile 0 16 0 16 static_header ranking_grid (fun _ _ => true) sample_field
       (fun _ => 0) 25 (fun _ => false))
    still_block 2 2 kBlock8x8 true true.

Definition valid_cell (c : MotionVector * Z) : Prop :=
  mv0 (fst c) <> kInvalidMvValue.

(** [g'] has the context of [g] and its candidates followed by further
    valid ones. *)
Definition grid_extends (g g' : GridState) : Prop :=
  fst g' = fst g
  /\ exists more, snd g' = snd g ++ more /\ Forall valid_cell more.

Definition first_row (block : Block) : Z := Z.lor (row4x4 block) 1.
Definition first_column (block : Block) : Z := Z.lor (column4x4 block) 1.

(** The offset of the first grid position in the motion field. *)
Definition first_offset (block : Block) : Z :=
  mf_columns (motion_field (tile block)) * Z.shiftr (first_row block) 1.

(** The grid state after the first position. *)
Definition after_first_cell (block : Block) (g : GridState) : GridState :=
  TemporalScanCell block (first_row block) (first_column block)
    (first_offset block) (first_row block) (first_column block) g.

(** What the loops of [AddTemporalReferenceMvCandidate] write into an unset
    context for the cell [temporal] (lines 317-328 and 356-361). *)
Definition ZeroMvFromCandidate (frame_header : ObuFrameHeader)
    (is_compound : bool) (offsets : Z * Z)
    (global : MotionVector * MotionVector) (temporal : MotionVector * Z) : Z :=
  if is_compound then
    Z.b2z (16 <=? CompoundMaxDifference
                    (MkCompound
                       (TemporalCandidateMv frame_header (fst offsets) temporal)
                       (TemporalCandidateMv frame_header (snd offsets) temporal))
                    global)
  else
    Z.b2z (16 <=? MaxDifference
                    (TemporalCandidateMv frame_header (fst offsets) temporal)
                    (fst global)).

(** The projection of §4.3 in the words of the design document,
    "projection = clip(round(mv * numerator * reciprocal(denominator) /
    2^14)), clamped to a fixed symmetric range": the reciprocal is "2^14 / d
    rounded down", the rounding is to the nearest integer with halves away
    from zero, and the range is that of [kProjectionMvClamp]. *)
Definition round_2_14 (x : Z) : Z := Z.sgn x * ((Z.abs x + 8192) / 16384).

Definition projection_formula (v numerator denominator : Z) : Z :=
  Z.max (-16383)
    (Z.min 16383 (round_2_14 (v * numerator * (16384 / denominator)))).

Definition projected_vector (m : MotionVector) (numerator denominator : Z)
    : MotionVector :=
  MkMv (projection_formula (mv0 m) numerator denominator)
       (projection_formula (mv1 m) numerator denominator).

(** The distances are in the range of §3 and, for both components, neither
    the product nor the rounding of it leaves the 32 bits of an [int]. *)
Definition projection_exact (m : MotionVector) (numerator denominator : Z) : Prop :=
  1 <= denominator <= kMaxFrameDistance
  /\ - kMaxFrameDistance <= numerator <= kMaxFrameDistance
  /\ Z.abs (mv0 m * numerator * (16384 / denominator)) + 8192 < 2 ^ 31
  /\ Z.abs (mv1 m * numerator * (16384 / denominator)) + 8192 < 2 ^ 31.

(** "The maximum per-component absolute deviation" of the vectors of a
    candidate from the global vectors they are compared with. *)
Definition components (ms : list MotionVector) : list Z :=
  m ← ms; [mv0 m; mv1 m].

Definition max_deviation (candidate global : list MotionVector) : Z :=
  foldr Z.max 0
    (zip_with (fun c g => Z.abs (c - g)) (components candidate) (components global)).

(** The vectors in use: both of a pair for compound prediction, the first
    one otherwise. *)
Definition in_use (is_compound : bool) (p : MotionVector * MotionVector)
    : list MotionVector :=
  if is_compound then [fst p; snd p] else [fst p].

(** The first grid position is sampled when it lies inside the tile. *)
Definition first_sampled (block : Block) : bool :=
  IsBottomRightInside (tile block) (first_row block) (first_column block).

Definition first_cell (block : Block) : MotionVector * Z :=
  MotionFieldCell (motion_field (tile block))
    (first_offset block + Z.shiftr (first_column block) 1).

(** The candidates the scan collects, in the order it processes them. *)
Definition TemporalCandidates (block : Block) : option (list (MotionVector * Z)) :=
  g ← TemporalScanGrid block (-1, []);
  Some (snd (TemporalScanExtra block g)).

(** A block over a motion field without any valid vector, and one over a
    field whose vectors all are (100, 0) at reference offset 1. *)
Definition temporal_header : ObuFrameHeader :=
  MkFrameHeader false 0 true 16 16 2 (fun _ => identity_motion) (fun _ => 0).

Definition temporal_block (field : TemporalMotionField) : Block :=
  MkBlock
    (MkTile 0 16 0 16 temporal_header (fun _ _ => moving_neighbor)
       (fun _ _ => true) field (fun _ => 1) 25 (fun _ => false))
    still_block 2 2 kBlock8x8 true true.

Definition far_field : TemporalMotionField :=
  MkTemporalMotionField 8 (fun _ => MkMv 100 0) (fun _ => 1).

(** A block predicted from two references, LAST one frame before the
    current frame and ALTREF two frames after it, over the field whose
    vectors all are (100, 0) at reference offset 1.  The tile holds the
    parameters of the block at the positions the block covers. *)
Definition compound_parameters : BlockParameters :=
  MkBlockParameters kBlock8x8 (kReferenceFrameLast, kReferenceFrameAlternate)
    (MkCompound (MkMv 0 0) (MkMv 0 0)) true false kPredictionModeNewNewMv.

Definition covers_2_2 (row column : Z) : bool :=
  (2 <=? row) && (row <? 4) && (2 <=? column) && (column <? 4).

Definition two_sided_hints (r : ReferenceFrameType) : Z :=
  match r with kReferenceFrameAlternate => 4 | _ => 1 end.

Definition backward_bias (r : ReferenceFrameType) : bool :=
  match r with
  | kReferenceFrameBackward | kReferenceFrameAlternate2
  | kReferenceFrameAlternate => true
  | _ => false
  end.

Definition compound_temporal_block : Block :=
  MkBlock
    (MkTile 0 16 0 16 temporal_header
       (fun row column =>
          if covers_2_2 row column then compound_parameters else moving_neighbor)
       (fun _ _ => true) far_field two_sided_hints 25 backward_bias)
    compound_parameters 2 2 kBlock8x8 true true.

(** ** Precision of stored vectors *)

Definition mv_is_int16 (m : MotionVector) : Prop :=
  is_int16 (mv0 m) /\ is_int16 (mv1 m).

Definition opposite (m : MotionVector) : MotionVector :=
  MkMv (- mv0 m) (- mv1 m).

Definition lowered (frame_header : ObuFrameHeader) (m : MotionVector) : Prop :=
  mv_is_int16 m /\ LowerMvPrecision frame_header m = m.

(** ** More example data *)

(** A block whose neighbours all hold the block's own vector: every
    scanned warp sample is valid. *)
Definition still_tile : Tile :=
  MkTile 0 16 0 16 static_header (fun _ _ => still_block) (fun _ _ => true)
    sample_field (fun _ => 0) 25 (fun _ => false).

Definition still_neighbors_block : Block :=
  MkBlock still_tile still_block 2 2 kBlock8x8 true true.

(** A sequence of scans, for the examples. *)
Definition sample_scans : list ScanCall :=
  [CallScanRow 2 (-1); CallScanColumn 2 (-1); CallTemporalScan;
   CallScanPoint (-1) (-1)].

(** ** The checks of the projection kernel *)

Definition usable_source (frame_header : ObuFrameHeader) (b : RefCountedBuffer) : bool :=
  (buffer_rows4x4 b =? rows4x4 frame_header)
  && (buffer_columns4x4 b =? columns4x4 frame_header)
  && negb (IsIntraFrame (frame_type b)).

Definition kernel_call_checked (frame_header : ObuFrameHeader)
    (row4x4_start column4x4_start : Z) (c : KernelCall) : bool :=
  usable_source frame_header (k_source_frame c)
  && (- kMaxFrameDistance <=? k_reference_to_current_with_sign c)
  && (k_reference_to_current_with_sign c <=? kMaxFrameDistance)
  && (if k_dst_sign c =? 0 then 0 <? k_reference_to_current_with_sign c
      else k_dst_sign c =? -1)
  && (k_y8_start c =? DivideBy2 row4x4_start)
  && (2 * k_y8_end c <=? rows4x4 frame_header)
  && (k_x8_start c =? DivideBy2 column4x4_start)
  && (2 * k_x8_end c <=? columns4x4 frame_header).

Definition checked_kernel (check : KernelCall -> bool)
    (kernel fallback : KernelCall -> TemporalMotionField -> TemporalMotionField)
    (c : KernelCall) (field : TemporalMotionField) : TemporalMotionField :=
  if check c then kernel c field else fallback c field.

Definition intra_references (_ : Z) : RefCountedBuffer :=
  sample_buffer 16 16 kFrameKey.

(** ** Valid warp samples *)

Definition sample_close (block : Block) (q : Z * Z * Z * Z) : Prop :=
  let '(y, x, y', x') := q in
  Z.abs (y' - y - mv0 (cmv0 (mv (bp block))))
  + Z.abs (x' - x - mv1 (cmv0 (mv (bp block))))
  <= kWarpValidThreshold (block_size block).

Definition warp_inv (block : Block) (len : nat) (s : WarpState) : Prop :=
  (num_warp_samples s <= num_samples_scanned s <= kMaxLeastSquaresSamples)%nat
  /\ length (candidates s) = len
  /\ ((kMaxLeastSquaresSamples <= len)%nat ->
      forall i, (i < num_warp_samples s)%nat ->
        exists q, candidates s !! i = Some q /\ sample_close block q).

(** ** The grid of the temporal scan *)

(** Line 414. *)
Definition kMaxTemporalMvCandidates : nat := 19.

(** The cursor values of a loop that starts at [start] and runs [n] times
    with the step [step]. *)
Fixpoint grid_line (n : nat) (start step : Z) : list Z :=
  match n with
  | O => []
  | S n => start :: grid_line n (start + step) step
  end.

(** The number of grid rows (columns) of a block of the given height
    (width), in units of four samples. *)
Definition grid_count (extent4x4 : Z) : nat :=
  S (Z.to_nat ((Z.min extent4x4 16 - 1) / (if 16 <=? extent4x4 then 4 else 2))).

Definition grid_rows (block : Block) : list Z :=
  grid_line (grid_count (height4x4 block)) (first_row block)
    (if 16 <=? height4x4 block then 4 else 2).

Definition grid_columns (block : Block) : list Z :=
  grid_line (grid_count (width4x4 block)) (first_column block)
    (if 16 <=? width4x4 block then 4 else 2).

(** The grid positions in the order of the scan, row by row. *)
Definition grid_positions (block : Block) : list (Z * Z) :=
  r ← grid_rows block; c ← grid_columns block; [(r, c)].

(** The row-major address of the motion-field cell that covers the
    position: the field has one cell for each 8x8 block. *)
Definition motion_field_address (block : Block) (mv_row mv_column : Z) : Z :=
  mf_columns (motion_field (tile block)) * Z.shiftr mv_row 1 + Z.shiftr mv_column 1.

(** What the scan does at a grid position, with the cell addressed by the
    position. *)
Definition GridCellAt (block : Block) (g : GridState) (p : Z * Z) : GridState :=
  let '(mv_row, mv_column) := p in
  if IsBottomRightInside (tile block) mv_row mv_column then
    let cell := MotionFieldCell (motion_field (tile block))
                  (motion_field_address block mv_row mv_column) in
    if mv0 (fst cell) =? kInvalidMvValue then
      if (mv_row =? first_row block) && (mv_column =? first_column block)
      then (1, snd g) else g
    else (fst g, snd g ++ [cell])
  else g.

(** [temporal_sample_positions] of line 445: the offsets of the three extra
    positions from the first grid position. *)
Definition temporal_sample_positions (block : Block) : list (Z * Z) :=
  [(height4x4 block, -2);
   (height4x4 block, width4x4 block);
   (height4x4 block - 2, width4x4 block)].

(** What the scan does at an extra position, with the cell addressed by
    the position. *)
Definition ExtraCellAt (block : Block) (g : GridState) (delta : Z * Z) : GridState :=
  let '(delta_row, delta_column) := delta in
  let mv_row := first_row block + delta_row in
  let mv_column := first_column block + delta_column in
  if IsWithinTheSame64x64Block block delta_row delta_column
     && IsBottomRightInside (tile block) mv_row mv_column then
    let cell := MotionFieldCell (motion_field (tile block))
                  (motion_field_address block mv_row mv_column) in
    if mv0 (fst cell) =? kInvalidMvValue then g else (fst g, snd g ++ [cell])
  else g.

(** The tile starts on a 64x64 boundary at its left, and the block lies
    inside it. *)
Definition block_in_tile (block : Block) : Prop :=
  row4x4_start (tile block) <= row4x4 block
  /\ column4x4_start (tile block) <= column4x4 block
  /\ (16 | column4x4_start (tile block)).

(** ** The scans as appends *)

(** The stack that the scans of the given kind leave alone. *)
Definition other_stack_kept (is_compound : bool) (pp0 pp : PredictionParameters) : Prop :=
  if is_compound then ref_mv_stack pp = ref_mv_stack pp0
  else compound_ref_mv_stack pp = compound_ref_mv_stack pp0.

(** The first [n] entries of the stack in use are the same in both. *)
Definition live_prefix_kept (is_compound : bool) (n : nat)
    (pp0 pp : PredictionParameters) : Prop :=
  if is_compound
  then take n (compound_ref_mv_stack pp) = take n (compound_ref_mv_stack pp0)
  else take n (ref_mv_stack pp) = take n (ref_mv_stack pp0).

(** The state [(n, pp)] is reached from [(n0, pp0)] by appending: the
    count does not decrease, the candidates stored so far are in their
    places, and nothing but the stack in use and the weights is written. *)
Definition scan_extends (is_compound : bool) (n0 : nat) (pp0 : PredictionParameters)
    (n : nat) (pp : PredictionParameters) : Prop :=
  (n0 <= n)%nat
  /\ global_mv pp = global_mv pp0
  /\ nearest_mv_count pp = nearest_mv_count pp0
  /\ ref_mv_count pp = ref_mv_count pp0
  /\ other_stack_kept is_compound pp0 pp
  /\ live_prefix_kept is_compound n0 pp0 pp.

(** The relation along a scan: [st] is reached from [(n0, pp0)]. *)
Definition scan_reached (is_compound : bool) (n0 : nat) (pp0 : PredictionParameters)
    (st : ScanState) : Prop :=
  scan_extends is_compound n0 pp0 (num_mv_found st) (prediction_parameters st).

Definition temporal_reached (is_compound : bool) (n0 : nat)
    (pp0 : PredictionParameters) (t : TemporalState) : Prop :=
  scan_extends is_compound n0 pp0 (t_num_mv_found t) (t_prediction_parameters t).

Definition locals_reached (is_compound : bool) (n0 : nat)
    (pp0 : PredictionParameters) (l : Locals) : Prop :=
  scan_extends is_compound n0 pp0 (l_num_mv_found l) (l_prediction_parameters l).

(** What [FindMvStack] has written when its scans end. *)
Definition scans_frame (block : Block) (is_compound : bool)
    (pp0 pp : PredictionParameters) : Prop :=
  global_mv pp
  = (SetupGlobalMv block 0,
     if is_compound then SetupGlobalMv block 1 else snd (global_mv pp0))
  /\ ref_mv_count pp = ref_mv_count pp0
  /\ other_stack_kept is_compound pp0 pp.

(** The state of the single-prediction extra search: at most [limit]
    candidates, pairwise distinct, reached from [(n0, pp0)] by appending. *)
Definition extra_single_inv (B : Z) (n0 : nat) (pp0 : PredictionParameters)
    (limit : nat) (n : nat) (pp : PredictionParameters) : Prop :=
  (n <= limit)%nat
  /\ stack_inv B (single_stack n pp)
  /\ scan_extends false n0 pp0 n pp.

(** What [ExtraSearch] leaves, entered with fewer than two candidates. *)
Definition extra_search_post (is_compound : bool) (B : Z) (n : nat)
    (pp : PredictionParameters) (n' : nat) (pp' : PredictionParameters) : Prop :=
  scan_extends is_compound n pp n' pp'
  /\ (n' <= 3)%nat
  /\ length (weight_index_stack pp') = kMaxRefMvStackSize
  /\ weights_packed B n' (weight_index_stack pp')
  /\ (if is_compound then n' = 2%nat
      else NoDup (take n' (ref_mv_stack pp'))
           /\ forall i, (n' <= i < 2)%nat ->
                ref_mv_stack pp' !! i = Some (fst (global_mv pp))
                /\ weight_index_stack pp' !! i = Some (packed i 0)).

(** ** The last step of FindMvStack *)

(** The last step of [FindMvStack] (lines 810-827): the extra search or
    the ranking. *)
Definition FinishStack (block : Block) (is_compound : bool) (l : Locals)
    : option (nat * PredictionParameters) :=
  let pp := l_prediction_parameters l in
  if (l_num_mv_found l <? 2)%nat then
    ExtraSearch block is_compound (l_num_mv_found l) pp
  else
    Some (l_num_mv_found l,
          set_weight_index_stack pp
            (SortGroups (nearest_mv_count pp) (l_num_mv_found l)
               (weight_index_stack pp))).

(** What the last step leaves. *)
Definition finish_post (is_compound : bool) (l : Locals) (n' : nat)
    (pp' : PredictionParameters) : Prop :=
  let pp := l_prediction_parameters l in
  let n := l_num_mv_found l in
  scan_extends is_compound n pp n' pp'
  /\ (n' <= kMaxRefMvStackSize)%nat
  /\ ((n < 2)%nat -> (n' <= 3)%nat)
  /\ (entry_index <$> take n' (weight_index_stack pp')
      ≡ₚ Z.of_nat <$> seq 0 n')
  /\ (if is_compound then (2 <= n')%nat
      else NoDup (take n' (ref_mv_stack pp'))
           /\ forall i, (n' <= i < 2)%nat ->
                ref_mv_stack pp' !! i = Some (fst (global_mv pp))
                /\ weight_index_stack pp' !! i = Some (packed i 0)).

(** ** Where candidates come from *)

(** Every one of the first [n] entries of a stack satisfies [Q]. *)
Definition stack_entries {A : Type} (Q : A -> Prop) (stack : list A) (n : nat) : Prop :=
  forall i x, (i < n)%nat -> stack !! i = Some x -> Q x.

Definition compound_both (P : MotionVector -> Prop) (c : CompoundMotionVector) : Prop :=
  P (cmv0 c) /\ P (cmv1 c).

(** The global MVs in use and the first [n] candidates satisfy [P]. *)
Definition candidates_satisfy (P : MotionVector -> Prop) (is_compound : bool)
    (n : nat) (pp : PredictionParameters) : Prop :=
  P (fst (global_mv pp))
  /\ (is_compound = true -> P (snd (global_mv pp)))
  /\ (if is_compound
      then stack_entries (compound_both P) (compound_ref_mv_stack pp) n
      else stack_entries P (ref_mv_stack pp) n).

(** A position above the block or to its left: the positions that the
    spatial scans and the extra search read. *)
Definition neighbor_position (block : Block) (row column : Z) : Prop :=
  row < row4x4 block \/ column < column4x4 block.

(** "candidate_mv.mv[i] *= -1" on the two [int16_t] components. *)
Definition negated (m : MotionVector) : MotionVector :=
  MkMv (to_int16 (- mv0 m)) (to_int16 (- mv1 m)).

(** The vector [m], stored under the reference [candidate], as a candidate
    for the reference [target]: negated when the sign bias of the two
    references differs. *)
Definition sign_adjusted (t : Tile) (candidate target : ReferenceFrameType)
    (m : MotionVector) : MotionVector :=
  if bool_decide (reference_frame_sign_bias t candidate
                  = reference_frame_sign_bias t target)
  then m else negated m.

(** The distance of the current frame from the [j]-th reference of the
    block (lines 478-488). *)
Definition reference_offset (block : Block) (j : nat) : Z :=
  GetRelativeDistance (order_hint (frame_header (tile block)))
    (current_frame_order_hint (tile block) (reference_frame_at (bp block) j))
    (order_hint_shift_bits (tile block)).

(** A cell of the motion field of the tile that holds a valid vector. *)
Definition field_cell (block : Block) (c : MotionVector * Z) : Prop :=
  valid_cell c
  /\ exists address, c = MotionFieldCell (motion_field (tile block)) address.

(** Where a candidate for the [j]-th reference of the block can come from:
    the vector that an inter block at a neighbouring position stores for
    that same reference; the vector that a neighbouring position stores for
    any inter reference, sign-adjusted; the global motion vector of the
    block for the reference; the lowered projection of a valid vector of
    the motion field by the distance of the reference. *)
Inductive candidate_source (block : Block) (j : nat) : MotionVector -> Prop :=
| source_scanned (row column : Z) (i : nat) :
    neighbor_position block row column ->
    is_inter (Parameters (tile block) row column) = true ->
    reference_frame_at (Parameters (tile block) row column) i
    = reference_frame_at (bp block) j ->
    candidate_source block j
      (cmv_get (mv (Parameters (tile block) row column)) i)
| source_extra (row column : Z) (i : nat) :
    neighbor_position block row column ->
    reference_frame_value kReferenceFrameIntra
    < reference_frame_value
        (reference_frame_at (Parameters (tile block) row column) i) ->
    candidate_source block j
      (sign_adjusted (tile block)
         (reference_frame_at (Parameters (tile block) row column) i)
         (reference_frame_at (bp block) j)
         (cmv_get (mv (Parameters (tile block) row column)) i))
| source_global :
    candidate_source block j (SetupGlobalMv block j)
| source_temporal (cell : MotionVector * Z) :
    field_cell block cell ->
    candidate_source block j
      (LowerMvPrecision (frame_header (tile block))
         (GetMvProjection (fst cell) (reference_offset block j) (snd cell))).

(** The global MVs in use and the first [n] candidates satisfy [P], each
    vector for the reference it belongs to: the vectors of the single stack
    and the first vectors of the compound stack belong to reference 0, the
    second vectors of the compound stack to reference 1. *)
Definition candidates_from (P : nat -> MotionVector -> Prop) (is_compound : bool)
    (n : nat) (pp : PredictionParameters) : Prop :=
  P 0%nat (fst (global_mv pp))
  /\ (is_compound = true -> P 1%nat (snd (global_mv pp)))
  /\ (if is_compound
      then stack_entries (fun c => P 0%nat (cmv0 c) /\ P 1%nat (cmv1 c))
             (compound_ref_mv_stack pp) n
      else stack_entries (P 0%nat) (ref_mv_stack pp) n).

Definition scan_from (P : nat -> MotionVector -> Prop) (is_compound : bool)
    (st : ScanState) : Prop :=
  candidates_from P is_compound (num_mv_found st) (prediction_parameters st).

Definition temporal_from (P : nat -> MotionVector -> Prop) (is_compound : bool)
    (t : TemporalState) : Prop :=
  candidates_from P is_compound (t_num_mv_found t) (t_prediction_parameters t).

Definition locals_from (P : nat -> MotionVector -> Prop) (is_compound : bool)
    (l : Locals) : Prop :=
  candidates_from P is_compound (l_num_mv_found l) (l_prediction_parameters l).

(** The lists of the compound extra search hold vectors with [P], each
    list for the reference it belongs to. *)
Definition extra_lists_from (P : nat -> MotionVector -> Prop) (s : ExtraState) : Prop :=
  Forall (P 0%nat) (fst (ref_id s)) /\ Forall (P 1%nat) (snd (ref_id s))
  /\ Forall (P 0%nat) (fst (ref_diff s)) /\ Forall (P 1%nat) (snd (ref_diff s)).

(** Every vector stored for a position of the tile is at the precision of
    the frame. *)
Definition neighbors_lowered (block : Block) : Prop :=
  forall row column i,
    lowered (frame_header (tile block))
      (cmv_get (mv (Parameters (tile block) row column)) i).

(** Each of the four lists of the compound extra search has the property
    [Q]. *)
Definition extra_lists (Q : list MotionVector -> Prop) (s : ExtraState) : Prop :=
  Q (fst (ref_id s)) /\ Q (snd (ref_id s))
  /\ Q (fst (ref_diff s)) /\ Q (snd (ref_diff s)).

(** [Q] holds of each extension of a list with [Q] by a neighbour's vector
    or its negation, as long as the list is not full. *)
Definition list_property (block : Block) (Q : list MotionVector -> Prop) : Prop :=
  forall l row column i,
    Q l -> (length l < 2)%nat ->
    Q (l ++ [cmv_get (mv (Parameters (tile block) row column)) i])
    /\ Q (l ++ [NegateMv (cmv_get (mv (Parameters (tile block) row column)) i)]).

(** ** Blocks with two references *)

(** The references in use are frames: they index the tables of the frame
    header and of the tile.  For compound prediction both references of the
    block are in use, otherwise the first one. *)
Definition references_in_use (block : Block) (is_compound : bool) : Prop :=
  0 <= reference_frame_value (reference_frame_at (bp block) 0)
  /\ (is_compound = true ->
      0 <= reference_frame_value (reference_frame_at (bp block) 1)).

(** A block predicted from LAST and ALTREF in a frame whose global motion
    for ALTREF is the translation by (8, -16); the positions around the
    block hold 4x4 blocks that move by (1000, 0) from LAST. *)
Definition translating_header : ObuFrameHeader :=
  MkFrameHeader false 0 false 16 16 2
    (fun r =>
       match r with
       | kReferenceFrameAlternate =>
           MkGlobalMotion kGlobalMotionTransformationTypeTranslation
             (fun i => if i =? 0 then 65536 else if i =? 1 then -131072 else 0)
       | _ => identity_motion
       end)
    (fun _ => 0).

Definition small_moving_neighbor : BlockParameters :=
  MkBlockParameters kBlock4x4 (kReferenceFrameLast, kReferenceFrameNone)
    (MkCompound (MkMv 1000 0) (MkMv 0 0)) true false kPredictionModeNewMv.

Definition compound_block : Block :=
  MkBlock
    (MkTile 0 16 0 16 translating_header
       (fun row column =>
          if covers_2_2 row column then compound_parameters
          else small_moving_neighbor)
       (fun _ _ => true) sample_field two_sided_hints 25 backward_bias)
    compound_parameters 2 2 kBlock8x8 true true.

(** The lists of the extra search of [compound_block] after the pass over
    the row above it. *)
Definition lists_after_row : ExtraState :=
  MkExtraState ([MkMv 1000 0; MkMv 1000 0], [])
    ([], [MkMv (-1000) 0; MkMv (-1000) 0]) 0 fresh_parameters.

(** ** Tiles without inter blocks *)

(** No position above the block or to its left holds an inter block: every
    reference stored there is intra or none. *)
Definition intra_neighbors (block : Block) : Prop :=
  forall row column,
    neighbor_position block row column ->
    is_inter (Parameters (tile block) row column) = false
    /\ reference_frame_value
         (fst (reference_frame (Parameters (tile block) row column))) <= 0
    /\ reference_frame_value
         (snd (reference_frame (Parameters (tile block) row column))) <= 0.

(** Inter blocks in a tile whose other positions all hold intra blocks:
    one predicted from LAST, one from LAST and ALTREF. *)
Definition intra_block_parameters : BlockParameters :=
  MkBlockParameters kBlock8x8 (kReferenceFrameIntra, kReferenceFrameNone)
    (MkCompound (MkMv 0 0) (MkMv 0 0)) false false kPredictionModeDc.

Definition among_intra (own : BlockParameters) : Block :=
  MkBlock
    (MkTile 0 16 0 16 translating_header
       (fun row column =>
          if covers_2_2 row column then own else intra_block_parameters)
       (fun _ _ => true) sample_field two_sided_hints 25 backward_bias)
    own 2 2 kBlock8x8 true true.

(** * Properties *)


(** ** Machine-integer facts *)

Lemma to_int16_id (x : Z) : is_int16 x -> to_int16 x = x.
Proof.
  unfold is_int16, to_int16. intros H.
  rewrite Z.mod_small by lia. lia.
Qed.

Lemma to_int16_range (x : Z) : is_int16 (to_int16 x).
Proof.
  unfold is_int16, to_int16.
  pose proof (Z.mod_pos_bound (x + 32768) 65536 ltac:(lia)). lia.
Qed.

Lemma land_lnot_7 (x : Z) : Z.land x (Z.lnot 7) = 8 * (x / 8).
Proof.
  change 7 with (Z.ones 3).
  rewrite <- Z.ldiff_land, Z.ldiff_ones_r by lia.
  rewrite Z.shiftl_mul_pow2, Z.shiftr_div_pow2 by lia.
  change (2 ^ 3) with 8. lia.
Qed.

Lemma shiftr_15_sign (v : Z) :
  is_int16 v -> Z.shiftr v 15 = if v <? 0 then -1 else 0.
Proof.
  unfold is_int16. intros H.
  rewrite Z.shiftr_div_pow2 by lia. change (2 ^ 15) with 32768.
  destruct (Z.ltb_spec v 0).
  - symmetry. apply (Z.div_unique v 32768 (-1) (v + 32768)); lia.
  - apply Z.div_small; lia.
Qed.

Lemma ApplySign_0 (value : Z) : ApplySign value 0 = value.
Proof. unfold ApplySign. rewrite Z.lxor_0_r. lia. Qed.

Lemma ApplySign_m1 (value : Z) : ApplySign value (-1) = - value.
Proof.
  unfold ApplySign. rewrite Z.lxor_m1_r.
  pose proof (Z.add_lnot_diag value). lia.
Qed.

Lemma land_1_odd (v : Z) : Z.land v 1 = if Z.odd v then 1 else 0.
Proof.
  change 1 with (Z.ones 1) at 1. rewrite Z.land_ones by lia.
  change (2 ^ 1) with 2. rewrite Zmod_odd. reflexivity.
Qed.

(** ** Precision lowering *)

Lemma LowerMvComponentInteger_spec (v : Z) :
  is_int16 v -> integer_rounding v (LowerMvComponentInteger v).
Proof.
  intros Hv. pose proof Hv as [Hlo Hhi].
  unfold integer_rounding, LowerMvComponentInteger, sign_reapplied.
  rewrite shiftr_15_sign by assumption.
  rewrite land_lnot_7.
  pose proof (Z.mul_div_le (Z.abs v + 3) 8 ltac:(lia)) as Hle.
  pose proof (Z.mod_pos_bound (Z.abs v + 3) 8 ltac:(lia)) as Hmod.
  pose proof (Z.div_mod (Z.abs v + 3) 8 ltac:(lia)) as Hdm.
  destruct (Z.ltb_spec v 0) as [Hneg | Hpos].
  - rewrite ApplySign_m1, to_int16_id by (unfold is_int16; lia).
    split; [exists (- ((Z.abs v + 3) / 8)); lia | split; [reflexivity | lia]].
  - rewrite ApplySign_0.
    destruct (Z_le_gt_dec v 32764) as [Hsmall | Hbig].
    + rewrite to_int16_id by (unfold is_int16; lia).
      split; [exists ((Z.abs v + 3) / 8); lia | split; [reflexivity | lia]].
    + assert ((Z.abs v + 3) / 8 = 4096) as ->.
      { symmetry. apply (Z.div_unique _ _ 4096 (Z.abs v + 3 - 32768)); lia. }
      change (to_int16 (8 * 4096)) with (-32768).
      split; [exists (-4096); lia | split; [lia | reflexivity]].
Qed.

Lemma LowerMvComponentFractional_spec (v : Z) :
  is_int16 v -> rounding_toward_zero v (LowerMvComponentFractional v).
Proof.
  intros Hv. pose proof Hv as [Hlo Hhi].
  unfold rounding_toward_zero, LowerMvComponentFractional.
  rewrite land_1_odd, shiftr_15_sign by assumption.
  destruct (Z.odd v) eqn:Hodd; simpl; [| reflexivity].
  destruct (Z.ltb_spec v 0).
  - change (Z.lor (-1) 1) with (-1). rewrite to_int16_id by (unfold is_int16; lia).
    split; lia.
  - change (Z.lor 0 1) with 1.
    assert (v <> 0) by (intros ->; discriminate).
    rewrite to_int16_id by (unfold is_int16; lia). split; lia.
Qed.

(** C6 (as amended).  With high precision disallowed, on every motion vector
    with [int16_t] components: when [force_integer_mv] is set each component
    becomes a multiple of 8, equal to (|v|+3) & ~7 with the sign reapplied
    for every v <= 32764 and to -32768 for v in 32765..32767 (the store wraps);
    when [force_integer_mv] is clear each odd component moves by one toward
    zero and each even component is kept. *)
Theorem LowerMvPrecision_rounding (frame_header : ObuFrameHeader) (m : MotionVector) :
  allow_high_precision_mv frame_header = false ->
  is_int16 (mv0 m) -> is_int16 (mv1 m) ->
  let r := LowerMvPrecision frame_header m in
  (force_integer_mv frame_header <> 0 ->
     integer_rounding (mv0 m) (mv0 r) /\ integer_rounding (mv1 m) (mv1 r))
  /\ (force_integer_mv frame_header = 0 ->
     rounding_toward_zero (mv0 m) (mv0 r) /\ rounding_toward_zero (mv1 m) (mv1 r)).
Proof.
  intros Hhp H0 H1. unfold LowerMvPrecision. rewrite Hhp. split; intros Hf.
  - apply Z.eqb_neq in Hf. rewrite Hf. simpl.
    split; apply LowerMvComponentInteger_spec; assumption.
  - rewrite Hf. simpl.
    split; apply LowerMvComponentFractional_spec; assumption.
Qed.

Lemma LowerMvPrecision_rounding_witness :
  integer_rounding (-13) (mv0 (LowerMvPrecision integer_mv_header (MkMv (-13) 21)))
  /\ integer_rounding 21 (mv1 (LowerMvPrecision integer_mv_header (MkMv (-13) 21))).
Proof.
  apply (LowerMvPrecision_rounding integer_mv_header (MkMv (-13) 21)).
  - reflexivity.
  - unfold is_int16; simpl; lia.
  - unfold is_int16; simpl; lia.
  - simpl; lia.
Defined.

(** C6 as stated fails at the component 32767: the rounded magnitude 32768
    does not fit [int16_t] and the stored component is -32768. *)
Lemma LowerMvPrecision_sign_reapplied_fails :
  is_int16 32767
  /\ mv0 (LowerMvPrecision integer_mv_header (MkMv 32767 0)) = -32768
  /\ sign_reapplied 32767 = 32768
  /\ mv0 (LowerMvPrecision integer_mv_header (MkMv 32767 0)) <> sign_reapplied 32767.
Proof.
  split; [unfold is_int16; lia |].
  split; [reflexivity |]. split; [reflexivity |]. discriminate.
Qed.

(** ** Context derivation *)

(** C8.  The three rows of the context table. *)
Theorem ComputeContexts_table (found_new_mv : bool)
    (nearest_matches total_matches : Z) :
  0 <= nearest_matches <= 2 -> 0 <= total_matches <= 2 ->
  let new_mv_context :=
    fst (ComputeContexts found_new_mv nearest_matches total_matches) in
  let reference_mv_context :=
    snd (ComputeContexts found_new_mv nearest_matches total_matches) in
  (nearest_matches = 0 ->
     new_mv_context = Z.min total_matches 1 /\ reference_mv_context = total_matches)
  /\ (nearest_matches = 1 ->
     new_mv_context = 3 - Z.b2z found_new_mv
     /\ reference_mv_context = 2 + total_matches)
  /\ (nearest_matches = 2 ->
     new_mv_context = 5 - Z.b2z found_new_mv /\ reference_mv_context = 5).
Proof.
  intros Hn Ht. cbv zeta. unfold ComputeContexts.
  split; [| split]; intros ->; split; reflexivity.
Qed.

Lemma ComputeContexts_table_witness :
  fst (ComputeContexts true 1 1) = 3 - Z.b2z true
  /\ snd (ComputeContexts true 1 1) = 2 + 1.
Proof.
  refine (proj1 (proj2 (ComputeContexts_table true 1 1 _ _)) _); [lia | lia | reflexivity].
Defined.

(** The scenario of the design document: one nearest match, one total
    match and a new-MV neighbour give contexts 2 and 3. *)
Example ComputeContexts_scenario : ComputeContexts true 1 1 = (2, 3).
Proof. reflexivity. Qed.

(** ** Loops: termination and invariants *)

Section LoopFacts.

Context {S : Type}.
Variable cond : Z -> S -> bool.
Variable body : Z -> S -> option (LoopStep S).

(** A loop whose cursor grows and is bounded while the condition holds
    ends within [bound - i] iterations. *)
Lemma while_loop_terminates (bound : Z) (fuel : nat) (i : Z) (s : S) :
  (forall i s, cond i s = true -> i < bound) ->
  (forall i s, cond i s = true -> is_Some (body i s)) ->
  (forall i s i' s', body i s = Some (Continue i' s') -> i < i') ->
  bound - i <= Z.of_nat fuel ->
  is_Some (while_loop fuel cond body i s).
Proof.
  intros Hbound Hsome Hgrow. revert i s.
  induction fuel as [| fuel IH]; intros i s Hfuel; simpl.
  - destruct (cond i s) eqn:Hc; [| eexists; reflexivity].
    apply Hbound in Hc. lia.
  - destruct (cond i s) eqn:Hc; [| eexists; reflexivity].
    destruct (Hsome i s Hc) as [[i' s' | s'] Hb]; rewrite Hb.
    + apply IH. apply Hgrow in Hb. lia.
    + eexists; reflexivity.
Qed.

(** Floyd-style invariant rule: [P] holds at each test of the condition,
    [Q] on exit (by a false condition or by a break). *)
Lemma while_loop_invariant (P : Z -> S -> Prop) (Q : S -> Prop)
    (fuel : nat) (i : Z) (s r : S) :
  (forall i s, P i s -> cond i s = true ->
     match body i s with
     | Some (Continue i' s') => P i' s'
     | Some (Break s') => Q s'
     | None => True
     end) ->
  (forall i s, P i s -> cond i s = false -> Q s) ->
  P i s -> while_loop fuel cond body i s = Some r -> Q r.
Proof.
  intros Hstep Hexit. revert i s.
  induction fuel as [| fuel IH]; intros i s HP; simpl.
  - destruct (cond i s) eqn:Hc; [discriminate |].
    intros [= <-]. eauto.
  - destruct (cond i s) eqn:Hc; [| intros [= <-]; eauto].
    specialize (Hstep i s HP Hc).
    destruct (body i s) as [[i' s' | s'] |]; [eauto | | discriminate].
    intros [= <-]. exact Hstep.
Qed.

(** The same with a cursor that grows by at least [d] each time. *)
Lemma while_loop_terminates_by (d bound : Z) (fuel : nat) (i : Z) (s : S) :
  0 < d ->
  (forall i s, cond i s = true -> i < bound) ->
  (forall i s, cond i s = true -> is_Some (body i s)) ->
  (forall i s i' s', body i s = Some (Continue i' s') -> i + d <= i') ->
  bound - i <= d * Z.of_nat fuel ->
  is_Some (while_loop fuel cond body i s).
Proof.
  intros Hd Hbound Hsome Hgrow. revert i s.
  induction fuel as [| fuel IH]; intros i s Hfuel; simpl.
  - destruct (cond i s) eqn:Hc; [| eexists; reflexivity].
    apply Hbound in Hc. lia.
  - destruct (cond i s) eqn:Hc; [| eexists; reflexivity].
    destruct (Hsome i s Hc) as [[i' s' | s'] Hb]; rewrite Hb.
    + apply IH. apply Hgrow in Hb. lia.
    + eexists; reflexivity.
Qed.

Lemma do_while_terminates_by (d bound : Z) (fuel : nat) (i : Z) (s : S) :
  0 < d ->
  (forall i s, cond i s = true -> i < bound) ->
  (forall i s, is_Some (body i s)) ->
  (forall i s i' s', body i s = Some (Continue i' s') -> i + d <= i') ->
  bound - i <= d * (Z.of_nat fuel + 1) ->
  is_Some (do_while fuel cond body i s).
Proof.
  intros Hd Hbound Hsome Hgrow Hfuel. unfold do_while.
  destruct (Hsome i s) as [[i' s' | s'] Hb]; rewrite Hb.
  - apply (while_loop_terminates_by d bound); auto.
    apply Hgrow in Hb. lia.
  - eexists; reflexivity.
Qed.

(** The first iteration of a [do ... while] runs before any test. *)
Lemma do_while_invariant (P : Z -> S -> Prop) (Q : S -> Prop)
    (fuel : nat) (i : Z) (s r : S) :
  match body i s with
  | Some (Continue i' s') => P i' s'
  | Some (Break s') => Q s'
  | None => True
  end ->
  (forall i s, P i s -> cond i s = true ->
     match body i s with
     | Some (Continue i' s') => P i' s'
     | Some (Break s') => Q s'
     | None => True
     end) ->
  (forall i s, P i s -> cond i s = false -> Q s) ->
  do_while fuel cond body i s = Some r -> Q r.
Proof.
  intros H0 Hstep Hexit. unfold do_while.
  destruct (body i s) as [[i' s' | s'] |]; [| intros [= <-]; exact H0 | discriminate].
  apply (while_loop_invariant P Q); assumption.
Qed.

(** A quantity that grows by at most [d] in each iteration grows by at
    most [d] times the fuel in the whole loop. *)
Lemma while_loop_measure (m : S -> Z) (d : Z) (fuel : nat) (i : Z) (s r : S) :
  0 <= d ->
  (forall i s,
     match body i s with
     | Some (Continue _ s') | Some (Break s') => m s' <= m s + d
     | None => True
     end) ->
  while_loop fuel cond body i s = Some r -> m r <= m s + d * Z.of_nat fuel.
Proof.
  intros Hd Hstep. revert i s.
  induction fuel as [| fuel IH]; intros i s; simpl.
  - destruct (cond i s); [discriminate |]. intros [= <-]. lia.
  - destruct (cond i s); [| intros [= <-]; lia].
    specialize (Hstep i s).
    destruct (body i s) as [[i' s' | s'] |]; [| | discriminate].
    + intros Hr. apply IH in Hr. lia.
    + intros [= <-]. lia.
Qed.

Lemma do_while_measure (m : S -> Z) (d : Z) (fuel : nat) (i : Z) (s r : S) :
  0 <= d ->
  (forall i s,
     match body i s with
     | Some (Continue _ s') | Some (Break s') => m s' <= m s + d
     | None => True
     end) ->
  do_while fuel cond body i s = Some r ->
  m r <= m s + d * (Z.of_nat fuel + 1).
Proof.
  intros Hd Hstep. unfold do_while.
  pose proof (Hstep i s) as H0.
  destruct (body i s) as [[i' s' | s'] |]; [| | discriminate].
  - intros Hr. apply (while_loop_measure m d) in Hr; auto. lia.
  - intros [= <-]. lia.
Qed.

End LoopFacts.

Lemma kNum4x4BlocksWide_range (s : BlockSize) : 1 <= kNum4x4BlocksWide s <= 32.
Proof. destruct s; vm_compute; split; discriminate. Qed.

Lemma kNum4x4BlocksHigh_range (s : BlockSize) : 1 <= kNum4x4BlocksHigh s <= 32.
Proof. destruct s; vm_compute; split; discriminate. Qed.

Lemma width4x4_range (b : Block) : 1 <= width4x4 b <= 32.
Proof. apply kNum4x4BlocksWide_range. Qed.

Lemma height4x4_range (b : Block) : 1 <= height4x4 b <= 32.
Proof. apply kNum4x4BlocksHigh_range. Qed.

(** ** Motion field projection *)

Section ProjectionFacts.

Variable kernel : KernelCall -> TemporalMotionField -> TemporalMotionField.

(** C7.  A source frame of other dimensions, or an intra source frame, is
    reported as not usable and the motion field is returned as it was
    given, whatever the projection kernel does. *)
Theorem MotionFieldProjection_unusable_source
    (frame_header : ObuFrameHeader) (current_frame : RefCountedBuffer)
    (reference_frames : Z -> RefCountedBuffer) (source : ReferenceFrameType)
    (shift_bits reference_to_current_with_sign dst_sign : Z)
    (y8_start y8_end x8_start x8_end : Z) (field : TemporalMotionField) :
  let source_frame := source_frame_of frame_header reference_frames source in
  buffer_rows4x4 source_frame <> rows4x4 frame_header
  \/ buffer_columns4x4 source_frame <> columns4x4 frame_header
  \/ IsIntraFrame (frame_type source_frame) = true ->
  MotionFieldProjection kernel frame_header current_frame reference_frames
    source shift_bits reference_to_current_with_sign dst_sign
    y8_start y8_end x8_start x8_end field
  = (false, field).
Proof.
  intros source_frame H. unfold MotionFieldProjection.
  fold (source_frame_of frame_header reference_frames source).
  fold source_frame.
  destruct H as [H | [H | H]].
  - apply Z.eqb_neq in H. rewrite H. reflexivity.
  - apply Z.eqb_neq in H. rewrite H.
    destruct (buffer_rows4x4 source_frame =? rows4x4 frame_header); reflexivity.
  - rewrite H.
    destruct (buffer_rows4x4 source_frame =? rows4x4 frame_header),
             (buffer_columns4x4 source_frame =? columns4x4 frame_header);
      reflexivity.
Qed.

(** Past the checks, a distance above [kMaxFrameDistance] returns before
    the kernel is reached. *)
Lemma MotionFieldProjection_early_true
    (frame_header : ObuFrameHeader) (current_frame : RefCountedBuffer)
    (reference_frames : Z -> RefCountedBuffer) (source : ReferenceFrameType)
    (shift_bits reference_to_current_with_sign dst_sign : Z)
    (y8_start y8_end x8_start x8_end : Z) (field : TemporalMotionField) :
  let source_frame := source_frame_of frame_header reference_frames source in
  buffer_rows4x4 source_frame = rows4x4 frame_header ->
  buffer_columns4x4 source_frame = columns4x4 frame_header ->
  IsIntraFrame (frame_type source_frame) = false ->
  kMaxFrameDistance < reference_to_current_with_sign ->
  MotionFieldProjection kernel frame_header current_frame reference_frames
    source shift_bits reference_to_current_with_sign dst_sign
    y8_start y8_end x8_start x8_end field
  = (true, field).
Proof.
  intros source_frame Hr Hc Hi Hd. unfold MotionFieldProjection.
  fold (source_frame_of frame_header reference_frames source).
  fold source_frame.
  rewrite Hr, Hc, Hi, !Z.eqb_refl. simpl.
  apply Z.ltb_lt in Hd. rewrite Hd. reflexivity.
Qed.

(** C10.  A source frame that passes the dimension and intra checks, with
    a distance above [kMaxFrameDistance]: the result is [true] and the
    motion field is returned as it was given, whatever the projection
    kernel does, so the kernel is not run. *)
Theorem MotionFieldProjection_distance_out_of_range
    (frame_header : ObuFrameHeader) (current_frame : RefCountedBuffer)
    (reference_frames : Z -> RefCountedBuffer) (source : ReferenceFrameType)
    (shift_bits reference_to_current_with_sign dst_sign : Z)
    (y8_start y8_end x8_start x8_end : Z) (field : TemporalMotionField) :
  let source_frame := source_frame_of frame_header reference_frames source in
  buffer_rows4x4 source_frame = rows4x4 frame_header ->
  buffer_columns4x4 source_frame = columns4x4 frame_header ->
  IsIntraFrame (frame_type source_frame) = false ->
  kMaxFrameDistance < reference_to_current_with_sign ->
  MotionFieldProjection kernel frame_header current_frame reference_frames
    source shift_bits reference_to_current_with_sign dst_sign
    y8_start y8_end x8_start x8_end field
  = (true, field).
Proof.
  intros source_frame Hr Hc Hi Hd.
  apply MotionFieldProjection_early_true; assumption.
Qed.

(** The caller counts such a call as a projection: when the backward
    reference is usable and further away than [kMaxFrameDistance], the
    priority counter [ref_stamp], which starts at 1, is decremented. *)
Lemma SetupMotionField_counts_distant_backward
    (frame_header : ObuFrameHeader) (current_frame : RefCountedBuffer)
    (reference_frames : Z -> RefCountedBuffer) (shift_bits : Z)
    (row_start row_end column_start column_end : Z)
    (field : TemporalMotionField) :
  let source_frame :=
    source_frame_of frame_header reference_frames kReferenceFrameBackward in
  buffer_rows4x4 source_frame = rows4x4 frame_header ->
  buffer_columns4x4 source_frame = columns4x4 frame_header ->
  IsIntraFrame (frame_type source_frame) = false ->
  kMaxFrameDistance <
    GetRelativeDistance (buffer_order_hint current_frame kReferenceFrameBackward)
      (order_hint frame_header) shift_bits ->
  fst (SetupMotionField kernel frame_header current_frame reference_frames
         shift_bits row_start row_end column_start column_end field) <= 0.
Proof.
  intros source_frame Hr Hc Hi Hd. unfold SetupMotionField. cbv zeta.
  set (d := GetRelativeDistance
              (buffer_order_hint current_frame kReferenceFrameBackward) _ _) in *.
  assert ((0 <? d) = true) as Hpos
    by (apply Z.ltb_lt; unfold kMaxFrameDistance in Hd; lia).
  rewrite Hpos.
  repeat match goal with
  | |- context [MotionFieldProjection kernel frame_header current_frame
                  reference_frames kReferenceFrameBackward shift_bits d ?sg
                  ?a ?b ?c ?e ?f] =>
      rewrite (MotionFieldProjection_early_true frame_header
                 current_frame reference_frames kReferenceFrameBackward
                 shift_bits d sg a b c e f Hr Hc Hi Hd)
  end.
  cbn [fst snd].
  repeat match goal with
         | |- context [if ?c then _ else _] => destruct c; cbn [fst snd]
         end; lia.
Qed.

End ProjectionFacts.

Lemma MotionFieldProjection_unusable_source_witness :
  MotionFieldProjection wiping_kernel sample_header
    (sample_buffer 16 16 kFrameInter) (fun _ => sample_buffer 16 32 kFrameInter)
    kReferenceFrameBackward 25 3 0 0 8 0 8 sample_field
  = (false, sample_field).
Proof.
  apply (MotionFieldProjection_unusable_source wiping_kernel sample_header
           (sample_buffer 16 16 kFrameInter)
           (fun _ => sample_buffer 16 32 kFrameInter)).
  right. left. simpl. lia.
Defined.

Lemma MotionFieldProjection_distance_out_of_range_witness :
  MotionFieldProjection wiping_kernel sample_header
    (sample_buffer 16 16 kFrameInter) (fun _ => sample_buffer 16 16 kFrameInter)
    kReferenceFrameBackward 25 32 0 0 8 0 8 sample_field
  = (true, sample_field).
Proof.
  apply (MotionFieldProjection_distance_out_of_range wiping_kernel sample_header
           (sample_buffer 16 16 kFrameInter)
           (fun _ => sample_buffer 16 16 kFrameInter)).
  - reflexivity.
  - reflexivity.
  - reflexivity.
  - unfold kMaxFrameDistance. lia.
Defined.

(** With a distance inside the range the same call does run the kernel. *)
Example MotionFieldProjection_in_range_runs_kernel :
  MotionFieldProjection wiping_kernel sample_header
    (sample_buffer 16 16 kFrameInter) (fun _ => sample_buffer 16 16 kFrameInter)
    kReferenceFrameBackward 25 31 0 0 8 0 8 sample_field
  = (true, empty_field).
Proof. reflexivity. Qed.

(** ** Warp samples *)

Lemma WarpScanTop_total (block : Block) (s : WarpState) :
  is_Some (WarpScanTop block s).
Proof.
  unfold WarpScanTop.
  destruct (top_available block); [| eexists; reflexivity].
  destruct (_ <=? _); [eexists; reflexivity |].
  apply (while_loop_terminates _ _ 32).
  - intros i t H. apply Z.ltb_lt in H. pose proof (width4x4_range block). lia.
  - intros i t _. eexists; reflexivity.
  - intros i t i' t' [= <- _].
    pose proof (width4x4_range block).
    pose proof (kNum4x4BlocksWide_range
                  (bp_size (Parameters (tile block) (row4x4 block - 1)
                                       (column4x4 block + i)))).
    lia.
  - simpl. lia.
Qed.

Lemma WarpScanLeft_total (block : Block) (s : WarpState) :
  is_Some (WarpScanLeft block s).
Proof.
  unfold WarpScanLeft.
  destruct (left_available block); [| eexists; reflexivity].
  destruct (_ <=? _); [eexists; reflexivity |].
  apply (while_loop_terminates _ _ 32).
  - intros i t H. apply Z.ltb_lt in H. pose proof (height4x4_range block). lia.
  - intros i t _. eexists; reflexivity.
  - intros i t i' t' [= <- _].
    pose proof (height4x4_range block).
    pose proof (kNum4x4BlocksHigh_range
                  (bp_size (Parameters (tile block) (row4x4 block + i)
                                       (column4x4 block - 1)))).
    lia.
  - simpl. lia.
Qed.

Lemma WarpScans_total (block : Block) (warp_samples samples_scanned : nat)
    (samples : list (Z * Z * Z * Z)) :
  is_Some (WarpScans block warp_samples samples_scanned samples).
Proof.
  unfold WarpScans.
  destruct (WarpScanTop_total block
              (MkWarpState true true 1 warp_samples samples_scanned samples))
    as [s1 ->].
  simpl. destruct (WarpScanLeft_total block s1) as [s2 ->].
  simpl. eexists; reflexivity.
Qed.

(** C9.  [FindWarpSamples] always returns; when its scans end with no valid
    sample but at least one scanned sample, it returns a valid count of 1,
    and in every other case the count of the scans. *)
Theorem FindWarpSamples_degenerate_count (block : Block)
    (warp_samples samples_scanned : nat) (samples : list (Z * Z * Z * Z)) :
  exists (s : WarpState) (count : nat),
    WarpScans block warp_samples samples_scanned samples = Some s
    /\ FindWarpSamples block warp_samples samples_scanned samples
       = Some (count, num_samples_scanned s, candidates s)
    /\ (num_warp_samples s = 0%nat -> (0 < num_samples_scanned s)%nat ->
        count = 1%nat)
    /\ (num_warp_samples s <> 0%nat \/ num_samples_scanned s = 0%nat ->
        count = num_warp_samples s).
Proof.
  destruct (WarpScans_total block warp_samples samples_scanned samples) as [s Hs].
  exists s. unfold FindWarpSamples. rewrite Hs. simpl.
  eexists. split; [reflexivity |]. split; [reflexivity |]. split.
  - intros H0 Hpos. rewrite H0. simpl.
    destruct (Nat.ltb_spec 0 (num_samples_scanned s)); [reflexivity | lia].
  - intros [Hne | Hz].
    + destruct (Nat.eqb_spec (num_warp_samples s) 0); [contradiction | reflexivity].
    + rewrite Hz. simpl. rewrite andb_false_r. reflexivity.
Qed.

Example FindWarpSamples_degenerate_example :
  exists s,
    WarpScans (MkBlock static_tile still_block 2 2 kBlock8x8 true true)
      0 0 (replicate 8 (0, 0, 0, 0)) = Some s
    /\ num_warp_samples s = 0%nat /\ num_samples_scanned s = 4%nat
    /\ FindWarpSamples (MkBlock static_tile still_block 2 2 kBlock8x8 true true)
         0 0 (replicate 8 (0, 0, 0, 0))
       = Some (1%nat, 4%nat, candidates s).
Proof. eexists. repeat split; vm_compute; reflexivity. Qed.

(** ** FindMvStack on a block without neighbours *)

Lemma leave_enter (a : NewMvArg) (m : MatchArg) (l : Locals) :
  leave a m l (enter a m l) = l.
Proof. destruct l, a, m; reflexivity. Qed.

Lemma land_1_range (x : Z) : 0 <= Z.land x 1 <= 1.
Proof. rewrite land_1_odd. destruct (Z.odd x); lia. Qed.

Lemma ScanRow_top_unavailable (block : Block) (mv_column delta_row : Z)
    (is_compound : bool) (st : ScanState) :
  IsTopInside (tile block) (row4x4 block) = false -> delta_row <= -1 ->
  ScanRow block mv_column delta_row is_compound st = Some st.
Proof.
  unfold ScanRow, IsTopInside. intros H Hd.
  apply Z.ltb_ge in H.
  assert ((row4x4_start (tile block) <? row4x4 block + delta_row + 1) = false)
    as -> by (apply Z.ltb_ge; lia).
  reflexivity.
Qed.

Lemma ScanColumn_left_unavailable (block : Block) (mv_row delta_column : Z)
    (is_compound : bool) (st : ScanState) :
  IsLeftInside (tile block) (column4x4 block) = false -> delta_column <= -1 ->
  ScanColumn block mv_row delta_column is_compound st = Some st.
Proof.
  unfold ScanColumn, IsLeftInside. intros H Hd.
  apply Z.ltb_ge in H.
  assert ((column4x4_start (tile block) <? column4x4 block + delta_column + 1) = false)
    as -> by (apply Z.ltb_ge; lia).
  reflexivity.
Qed.

Lemma ScanPoint_top_unavailable (block : Block) (delta_row delta_column : Z)
    (is_compound : bool) (st : ScanState) :
  IsTopInside (tile block) (row4x4 block) = false -> delta_row <= -1 ->
  ScanPoint block delta_row delta_column is_compound st = st.
Proof.
  unfold ScanPoint, IsTopInside, IsInside. intros H Hd.
  apply Z.ltb_ge in H.
  assert ((row4x4_start (tile block) <=? row4x4 block + delta_row) = false)
    as -> by (apply Z.leb_gt; lia).
  reflexivity.
Qed.

Lemma ExtraSearchPass_unavailable (block : Block) (is_compound : bool)
    (pass num4x4 : Z) (s : ExtraState) :
  no_neighbor_available block ->
  ExtraSearchPass block is_compound pass num4x4 s = Some s.
Proof.
  intros [Ht Hl]. unfold ExtraSearchPass, IsTopInside, IsLeftInside in *.
  apply Z.ltb_ge in Ht. apply Z.ltb_ge in Hl.
  cbn [while_loop].
  destruct (0 <? num4x4); [| reflexivity].
  unfold IsTopLeftInside.
  destruct (pass =? 0).
  - assert ((row4x4_start (tile block) <? row4x4 block + -1 + 1) = false)
      as -> by (apply Z.ltb_ge; lia).
    reflexivity.
  - assert ((column4x4_start (tile block) <? column4x4 block + -1 + 1) = false)
      as -> by (apply Z.ltb_ge; lia).
    rewrite andb_false_r. reflexivity.
Qed.

(** Runs the option monad one step, leaving the scans folded. *)
Ltac option_step := cbn [mbind option_bind fmap option_fmap option_map].

Lemma NearestScans_unavailable (block : Block) (is_compound : bool) (l : Locals) :
  no_neighbor_available block ->
  NearestScans block is_compound l = Some l.
Proof.
  intros [Ht Hl]. unfold NearestScans.
  rewrite ScanRow_top_unavailable by (auto; lia). option_step.
  rewrite leave_enter.
  rewrite ScanColumn_left_unavailable by (auto; lia). option_step.
  rewrite leave_enter.
  rewrite ScanPoint_top_unavailable by (auto; lia).
  rewrite leave_enter. destruct (_ <=? _); reflexivity.
Qed.

Lemma FarScans_unavailable (block : Block) (is_compound : bool) (l : Locals) :
  no_neighbor_available block ->
  FarScans block is_compound l = Some l.
Proof.
  intros [Ht Hl]. unfold FarScans.
  pose proof (land_1_range (row4x4 block)).
  pose proof (land_1_range (column4x4 block)).
  rewrite ScanPoint_top_unavailable by (auto; lia).
  rewrite leave_enter.
  rewrite ScanRow_top_unavailable by (auto; lia). option_step.
  rewrite leave_enter.
  rewrite ScanColumn_left_unavailable by (auto; lia). option_step.
  rewrite leave_enter.
  destruct (1 <? height4x4 block), (1 <? width4x4 block);
    rewrite ?ScanRow_top_unavailable by (auto; lia); option_step;
    rewrite ?leave_enter;
    rewrite ?ScanColumn_left_unavailable by (auto; lia); option_step;
    rewrite ?leave_enter; reflexivity.
Qed.

Lemma ExtraSearch_single_unavailable (block : Block) (pp : PredictionParameters) :
  no_neighbor_available block ->
  ExtraSearch block false 0 pp
  = Some (0%nat,
          set_ref_mv_stack pp
            (<[1%nat := global_mv_at pp 0]>
               (<[0%nat := global_mv_at pp 0]> (ref_mv_stack pp)))
            (SetWeightIndexStackEntry
               (SetWeightIndexStackEntry (weight_index_stack pp) 0 0) 1 0)).
Proof.
  intros H. unfold ExtraSearch.
  cbn [e_num_mv_found Nat.ltb Nat.leb].
  rewrite ExtraSearchPass_unavailable by assumption. option_step.
  cbn [e_num_mv_found Nat.ltb Nat.leb].
  rewrite ExtraSearchPass_unavailable by assumption. option_step.
  reflexivity.
Qed.

(** C1 (as amended).  For a block with no neighbour available, in a frame
    that does not use temporal MVs, [FindMvStack] for single prediction
    returns with slots 0 and 1 of [ref_mv_stack] both holding the global MV
    of reference 0 at weight 0, with [zero_mv] equal to 0, and with
    [ref_mv_count] equal to 0: the single-prediction fill of [ExtraSearch]
    writes the two slots without counting them. *)
Theorem FindMvStack_without_neighbors (block : Block) (pp : PredictionParameters) :
  no_neighbor_available block ->
  use_ref_frame_mvs (frame_header (tile block)) = false ->
  stacks_allocated pp ->
  exists (pp' : PredictionParameters) (contexts : MvContexts),
    FindMvStack block false pp = Some (pp', contexts)
    /\ ref_mv_count pp' = 0%nat
    /\ ref_mv_stack pp' !! 0%nat = Some (SetupGlobalMv block 0)
    /\ ref_mv_stack pp' !! 1%nat = Some (SetupGlobalMv block 0)
    /\ entry_weight <$> weight_index_stack pp' !! 0%nat = Some 0
    /\ entry_weight <$> weight_index_stack pp' !! 1%nat = Some 0
    /\ zero_mv contexts = 0.
Proof.
  intros Hn Ht (Hs & _ & Hw).
  unfold FindMvStack, AllScans.
  rewrite NearestScans_unavailable by assumption. option_step.
  unfold TemporalStep. rewrite Ht. option_step.
  cbn [l_found_new_mv l_found_row_match l_found_column_match l_dummy_bool
       l_num_mv_found l_prediction_parameters].
  rewrite FarScans_unavailable by assumption. option_step.
  cbn [l_found_new_mv l_found_row_match l_found_column_match l_dummy_bool
       l_num_mv_found l_prediction_parameters Nat.ltb Nat.leb].
  rewrite ExtraSearch_single_unavailable by assumption. option_step.
  set (g := SetupGlobalMv block 0).
  eexists. eexists. split; [reflexivity |].
  unfold kMaxRefMvStackSize in *.
  destruct pp as [gm stack cstack weights nearest count]; cbn in *.
  destruct stack as [| s0 [| s1 stack]]; try discriminate.
  destruct weights as [| w0 [| w1 weights]]; try discriminate.
  repeat split; reflexivity.
Qed.

Lemma FindMvStack_without_neighbors_witness :
  exists (pp' : PredictionParameters) (contexts : MvContexts),
    FindMvStack corner_block false fresh_parameters = Some (pp', contexts)
    /\ ref_mv_count pp' = 0%nat
    /\ ref_mv_stack pp' !! 0%nat = Some (SetupGlobalMv corner_block 0)
    /\ ref_mv_stack pp' !! 1%nat = Some (SetupGlobalMv corner_block 0)
    /\ entry_weight <$> weight_index_stack pp' !! 0%nat = Some 0
    /\ entry_weight <$> weight_index_stack pp' !! 1%nat = Some 0
    /\ zero_mv contexts = 0.
Proof.
  apply (FindMvStack_without_neighbors corner_block fresh_parameters).
  - split; reflexivity.
  - reflexivity.
  - repeat split; reflexivity.
Defined.

(** C1 as stated fails: on the corner block the count returned is 0, not 2. *)
Lemma FindMvStack_without_neighbors_count_is_not_2 :
  no_neighbor_available corner_block
  /\ use_ref_frame_mvs (frame_header (tile corner_block)) = false
  /\ exists (pp' : PredictionParameters) (contexts : MvContexts),
       FindMvStack corner_block false fresh_parameters = Some (pp', contexts)
       /\ ref_mv_count pp' = 0%nat
       /\ ref_mv_count pp' <> 2%nat.
Proof.
  split; [split; reflexivity |]. split; [reflexivity |].
  eexists. eexists. split; [vm_compute; reflexivity |].
  split; [reflexivity | discriminate].
Qed.

(** ** The dedup/insert step *)

Lemma entry_weight_packed (i : nat) (w : Z) :
  (i < 8)%nat -> entry_weight (packed i w) = w.
Proof.
  intros Hi. unfold entry_weight, packed.
  rewrite Z.shiftr_div_pow2 by lia. change (2 ^ 3) with 8.
  symmetry. apply (Z.div_unique _ 8 w (7 - Z.of_nat i)); lia.
Qed.

Lemma entry_index_packed (i : nat) (w : Z) :
  (i < 8)%nat -> entry_index (packed i w) = Z.of_nat i.
Proof.
  intros Hi. unfold entry_index, packed.
  change 7 with (Z.ones 3) at 3. rewrite Z.land_ones by lia.
  change (2 ^ 3) with 8.
  assert ((8 * w + 7 - Z.of_nat i) mod 8 = 7 - Z.of_nat i) as ->; [| lia].
  symmetry. apply (Z.mod_unique _ 8 w); lia.
Qed.

Lemma packed_int16 (i : nat) (w : Z) :
  (i < 8)%nat -> 0 <= w <= 4095 -> is_int16 (packed i w).
Proof. unfold is_int16, packed. lia. Qed.

Lemma weights_packed_mono (B B' : Z) (n : nat) (weights : list Z) :
  B <= B' -> weights_packed B n weights -> weights_packed B' n weights.
Proof.
  intros HB H i Hi. destruct (H i Hi) as (w & Hw & Hr).
  exists w. split; [assumption | lia].
Qed.

Lemma IncreaseWeight_packed (weights : list Z) (i : nat) (w0 w : Z) :
  (i < 8)%nat -> weights !! i = Some (packed i w0) ->
  0 <= w0 -> 0 <= w -> w0 + w <= 4095 ->
  IncreaseWeight weights i w !! i = Some (packed i (w0 + w)).
Proof.
  intros Hi Hl H0 Hw Hsum. unfold IncreaseWeight.
  rewrite list_lookup_alter_eq, Hl. cbn. f_equal.
  rewrite Z.shiftl_mul_pow2 by lia. change (2 ^ 3) with 8.
  replace (packed i w0 + w * 8) with (packed i (w0 + w)) by (unfold packed; lia).
  apply to_int16_id, packed_int16; [assumption | lia].
Qed.

Lemma IncreaseWeight_other (weights : list Z) (i j : nat) (w : Z) :
  i <> j -> IncreaseWeight weights i w !! j = weights !! j.
Proof. intros H. unfold IncreaseWeight. apply list_lookup_alter_ne. exact H. Qed.

Lemma SetWeightIndexStackEntry_packed (weights : list Z) (i : nat) (w : Z) :
  (i < 8)%nat -> (i < length weights)%nat -> 0 <= w <= 4095 ->
  SetWeightIndexStackEntry weights i w !! i = Some (packed i w).
Proof.
  intros Hi Hl Hw. unfold SetWeightIndexStackEntry.
  rewrite list_lookup_insert_eq by assumption. f_equal.
  rewrite Z.shiftl_mul_pow2 by lia. change (2 ^ 3) with 8.
  replace (w * 8 + 7 - Z.of_nat i) with (packed i w) by (unfold packed; lia).
  apply to_int16_id, packed_int16; assumption.
Qed.

Lemma SetWeightIndexStackEntry_other (weights : list Z) (i j : nat) (w : Z) :
  i <> j -> SetWeightIndexStackEntry weights i w !! j = weights !! j.
Proof. intros H. unfold SetWeightIndexStackEntry. apply list_lookup_insert_ne. exact H. Qed.

Section InsertFacts.

Context {A : Type} `{EqDecision A}.
Implicit Types (stack : list A) (weights : list Z) (n i : nat) (c : A).

Lemma find_if_Some stack n c i :
  find_if stack n c = Some i -> (i < n)%nat /\ stack !! i = Some c.
Proof.
  unfold find_if. intros Hf.
  destruct (list_find _ _) as [[j x] |] eqn:Hl; [| discriminate].
  cbn in Hf. injection Hf as ->.
  apply list_find_Some in Hl as (Hl & -> & _).
  apply lookup_take_Some in Hl as [Hl Hlt]. auto.
Qed.

Lemma find_if_None stack n c :
  find_if stack n c = None -> c ∉ take n stack.
Proof.
  unfold find_if. intros Hf.
  destruct (list_find _ _) as [[j x] |] eqn:Hl; [discriminate |].
  apply list_find_None in Hl. intros Hin.
  rewrite Forall_forall in Hl. apply (Hl c); [| reflexivity].
  apply list_elem_of_In. exact Hin.
Qed.

Lemma find_if_hit stack n c i :
  NoDup (take n stack) -> (i < n)%nat -> stack !! i = Some c ->
  find_if stack n c = Some i.
Proof.
  intros Hnd Hi Hl.
  destruct (find_if stack n c) as [j |] eqn:Hf.
  - apply find_if_Some in Hf as [Hj Hlj]. f_equal.
    apply (NoDup_lookup (take n stack) j i c); [assumption | |];
      rewrite lookup_take_lt by assumption; assumption.
  - apply find_if_None in Hf. exfalso. apply Hf.
    apply elem_of_take. eauto.
Qed.

Lemma InsertCandidate_hit stack weights n c (w : Z) i :
  NoDup (take n stack) -> (i < n)%nat -> stack !! i = Some c ->
  InsertCandidate c w (stack, weights, n)
  = (stack, IncreaseWeight weights i w, n).
Proof.
  intros Hnd Hi Hl. unfold InsertCandidate.
  rewrite (find_if_hit stack n c i) by assumption. reflexivity.
Qed.

Lemma find_if_miss stack n c : c ∉ take n stack -> find_if stack n c = None.
Proof.
  intros Hn. destruct (find_if stack n c) as [j |] eqn:Hf; [| reflexivity].
  apply find_if_Some in Hf as [Hj Hlj]. exfalso. apply Hn.
  apply elem_of_take. eauto.
Qed.

Lemma InsertCandidate_new stack weights n c (w : Z) :
  c ∉ take n stack -> (n < kMaxRefMvStackSize)%nat ->
  InsertCandidate c w (stack, weights, n)
  = (<[n := c]> stack, SetWeightIndexStackEntry weights n w, Datatypes.S n).
Proof.
  intros Hn Hlt. unfold InsertCandidate. rewrite find_if_miss by assumption.
  destruct (Nat.leb_spec kMaxRefMvStackSize n); [lia | reflexivity].
Qed.

Lemma InsertCandidate_full stack weights n c (w : Z) :
  c ∉ take n stack -> (kMaxRefMvStackSize <= n)%nat ->
  InsertCandidate c w (stack, weights, n) = (stack, weights, n).
Proof.
  intros Hn Hge. unfold InsertCandidate. rewrite find_if_miss by assumption.
  destruct (Nat.leb_spec kMaxRefMvStackSize n); [reflexivity | lia].
Qed.

(** The three outcomes of one insertion. *)
Lemma InsertCandidate_cases stack weights n c (w : Z) :
  NoDup (take n stack) ->
  (exists i, (i < n)%nat /\ stack !! i = Some c
     /\ InsertCandidate c w (stack, weights, n)
        = (stack, IncreaseWeight weights i w, n))
  \/ ((c ∉ take n stack) /\ (n < kMaxRefMvStackSize)%nat
      /\ InsertCandidate c w (stack, weights, n)
         = (<[n := c]> stack, SetWeightIndexStackEntry weights n w,
            Datatypes.S n))
  \/ ((c ∉ take n stack) /\ (kMaxRefMvStackSize <= n)%nat
      /\ InsertCandidate c w (stack, weights, n) = (stack, weights, n)).
Proof.
  intros Hnd.
  destruct (find_if stack n c) as [i |] eqn:Hf.
  - left. exists i. apply find_if_Some in Hf as [Hi Hl].
    auto using InsertCandidate_hit.
  - apply find_if_None in Hf. right.
    destruct (Nat.lt_ge_cases n kMaxRefMvStackSize).
    + left. auto using InsertCandidate_new.
    + right. auto using InsertCandidate_full.
Qed.

Lemma stack_inv_mono (B B' : Z) (s : list A * list Z * nat) :
  B <= B' -> stack_inv B s -> stack_inv B' s.
Proof.
  destruct s as [[stack weights] n]. intros HB (? & ? & ? & ? & ? & Hp).
  (split; [| split; [| split; [| split; [| split]]]]); try assumption.
  - lia.
  - eapply weights_packed_mono; eassumption.
Qed.

Lemma InsertCandidate_inv (B : Z) c (w : Z) (s : list A * list Z * nat) :
  stack_inv B s -> 0 <= w -> B + w <= 4095 ->
  stack_inv (B + w) (InsertCandidate c w s).
Proof.
  destruct s as [[stack weights] n].
  intros (Hn & Hls & Hlw & Hnd & HB0 & Hp) Hw HB.
  destruct (InsertCandidate_cases stack weights n c w Hnd)
    as [(i & Hi & Hl & ->) | [(Hnew & Hlt & ->) | (Hnew & Hge & ->)]];
    unfold kMaxRefMvStackSize in *;
    (split; [| split; [| split; [| split; [| split]]]]);
    try assumption; try lia.
  all: unfold kMaxRefMvStackSize in *.
  - unfold IncreaseWeight. rewrite length_alter. assumption.
  - intros j Hj. destruct (Hp j Hj) as (w0 & Hw0 & Hr).
    destruct (decide (i = j)) as [-> | Hne].
    + exists (w0 + w). split; [| lia].
      apply IncreaseWeight_packed; try assumption; lia.
    + exists w0. rewrite IncreaseWeight_other by assumption.
      split; [assumption | lia].
  - rewrite length_insert. assumption.
  - unfold SetWeightIndexStackEntry. rewrite length_insert. assumption.
  - rewrite (take_S_r _ _ c) by (apply list_lookup_insert_eq; lia).
    rewrite take_insert_ge by lia.
    apply list.NoDup_app.
    split; [assumption |]. split; [| apply NoDup_singleton].
    intros x Hx Hx'. apply list_elem_of_singleton in Hx'. subst x. auto.
  - intros j Hj. destruct (decide (n = j)) as [<- | Hne].
    + exists w. split; [| lia].
      apply SetWeightIndexStackEntry_packed; lia.
    + destruct (Hp j ltac:(lia)) as (w0 & Hw0 & Hr).
      exists w0. rewrite SetWeightIndexStackEntry_other by assumption.
      split; [assumption | lia].
  - eapply weights_packed_mono; [| eassumption]. lia.
Qed.

Lemma InsertCandidate_count (c : A) (w : Z) (s : list A * list Z * nat) :
  let n := snd s in
  let n' := snd (InsertCandidate c w s) in
  (n <= n')%nat /\ ((n <= kMaxRefMvStackSize)%nat -> (n' <= kMaxRefMvStackSize)%nat).
Proof.
  destruct s as [[stack weights] n]. unfold InsertCandidate.
  destruct (find_if stack n c); [cbn [snd]; lia |].
  destruct (Nat.leb_spec kMaxRefMvStackSize n); cbn [snd];
    unfold kMaxRefMvStackSize in *; lia.
Qed.

End InsertFacts.

(** ** The invariant of the scans *)

Lemma live_inv_mono (is_compound : bool) (k lo : nat) (B B' : Z) (n : nat)
    (pp : PredictionParameters) :
  B <= B' -> live_inv is_compound k lo B n pp -> live_inv is_compound k lo B' n pp.
Proof.
  intros HB (Hk & Hlo & Hs). split; [assumption |]. split; [assumption |].
  unfold live_stack in *. destruct is_compound; eapply stack_inv_mono; eassumption.
Qed.

Lemma live_inv_count (is_compound : bool) (k lo : nat) (B : Z) (n : nat)
    (pp : PredictionParameters) :
  live_inv is_compound k lo B n pp -> (lo <= n <= kMaxRefMvStackSize)%nat.
Proof.
  intros (_ & Hlo & Hs). unfold live_stack in Hs.
  destruct is_compound; destruct Hs as (Hn & _); lia.
Qed.

Lemma live_insert_single (pp : PredictionParameters) (n : nat)
    (c : MotionVector) (w : Z) (k lo : nat) (B : Z) :
  live_inv false k lo B n pp -> 0 <= w -> B + w <= 4095 ->
  let '(stack, weights, n') :=
    InsertCandidate c w (ref_mv_stack pp, weight_index_stack pp, n) in
  live_inv false k lo (B + w) n' (set_ref_mv_stack pp stack weights).
Proof.
  intros (Hk & Hlo & Hs) Hw HB. cbn [live_stack] in Hs.
  pose proof (InsertCandidate_inv B c w _ Hs Hw HB) as Hi.
  pose proof (InsertCandidate_count c w
                (ref_mv_stack pp, weight_index_stack pp, n)) as [Hc _].
  destruct (InsertCandidate c w _) as [[stack weights] n'].
  cbn [snd] in Hc.
  split; [exact Hk |]. split; [lia | exact Hi].
Qed.

Lemma live_insert_compound (pp : PredictionParameters) (n : nat)
    (c : CompoundMotionVector) (w : Z) (k lo : nat) (B : Z) :
  live_inv true k lo B n pp -> 0 <= w -> B + w <= 4095 ->
  let '(stack, weights, n') :=
    InsertCandidate c w (compound_ref_mv_stack pp, weight_index_stack pp, n) in
  live_inv true k lo (B + w) n' (set_compound_ref_mv_stack pp stack weights).
Proof.
  intros (Hk & Hlo & Hs) Hw HB. cbn [live_stack] in Hs.
  pose proof (InsertCandidate_inv B c w _ Hs Hw HB) as Hi.
  pose proof (InsertCandidate_count c w
                (compound_ref_mv_stack pp, weight_index_stack pp, n)) as [Hc _].
  destruct (InsertCandidate c w _) as [[stack weights] n'].
  cbn [snd] in Hc.
  split; [exact Hk |]. split; [lia | exact Hi].
Qed.

Lemma SearchStack_inv (block : Block) (mv_bp : BlockParameters) (index : nat)
    (w : Z) (k lo : nat) (B : Z) (st : ScanState) :
  scan_inv false k lo B st -> 0 <= w -> B + w <= 4095 ->
  scan_inv false k lo (B + w) (SearchStack block mv_bp index w st).
Proof.
  intros H Hw HB. unfold scan_inv, SearchStack in *.
  match goal with
  | |- context [InsertCandidate ?c w _] =>
      pose proof (live_insert_single _ _ c w k lo B H Hw HB) as Hi;
      destruct (InsertCandidate c w _) as [[stack weights] n']
  end.
  exact Hi.
Qed.

Lemma CompoundSearchStack_inv (block : Block) (mv_bp : BlockParameters)
    (w : Z) (k lo : nat) (B : Z) (st : ScanState) :
  scan_inv true k lo B st -> 0 <= w -> B + w <= 4095 ->
  scan_inv true k lo (B + w) (CompoundSearchStack block mv_bp w st).
Proof.
  intros H Hw HB. unfold scan_inv, CompoundSearchStack in *.
  match goal with
  | |- context [InsertCandidate ?c w _] =>
      pose proof (live_insert_compound _ _ c w k lo B H Hw HB) as Hi;
      destruct (InsertCandidate c w _) as [[stack weights] n']
  end.
  exact Hi.
Qed.

(** One neighbour inserts at most twice, each time with the weight [w]. *)
Lemma AddReferenceMvCandidate_inv (block : Block) (mv_bp : BlockParameters)
    (is_compound : bool) (w : Z) (k lo : nat) (B : Z) (st : ScanState) :
  scan_inv is_compound k lo B st -> 0 <= w -> B + 2 * w <= 4095 ->
  scan_inv is_compound k lo (B + 2 * w)
    (AddReferenceMvCandidate block mv_bp is_compound w st).
Proof.
  intros H Hw HB. unfold AddReferenceMvCandidate.
  assert (scan_inv is_compound k lo (B + 2 * w) st) as Hsame
    by (eapply live_inv_mono; [| exact H]; lia).
  destruct (negb (is_inter mv_bp)); [exact Hsame |].
  destruct is_compound.
  - destruct (_ && _); [| exact Hsame].
    eapply live_inv_mono; [| apply CompoundSearchStack_inv; [exact H | lia | lia]].
    lia.
  - assert (scan_inv false k lo (B + w)
              (if bool_decide (reference_frame_at mv_bp 0
                               = reference_frame_at (bp block) 0)
               then SearchStack block mv_bp 0 w st else st)) as H1.
    { destruct (bool_decide _).
      - apply SearchStack_inv; [exact H | lia | lia].
      - eapply live_inv_mono; [| exact H]. lia. }
    destruct (bool_decide (reference_frame_at mv_bp 1 = _)).
    + replace (B + 2 * w) with (B + w + w) by lia.
      apply SearchStack_inv; [exact H1 | lia | lia].
    + eapply live_inv_mono; [| exact H1]. lia.
Qed.

Lemma GetMinimumStep_range (a b : Z) : 0 <= GetMinimumStep a b <= 4.
Proof.
  unfold GetMinimumStep. destruct (16 <=? a); [lia |].
  destruct (b <? -1); lia.
Qed.

Lemma MultiplyBy2_spec (x : Z) : MultiplyBy2 x = 2 * x.
Proof. unfold MultiplyBy2. rewrite Z.shiftl_mul_pow2 by lia. lia. Qed.

(** A row or column scan adds at most 4 to the weights for each unit its
    cursor advances, and the cursor stops below 48. *)
Lemma ScanRow_inv (block : Block) (mv_column delta_row : Z) (is_compound : bool)
    (k lo : nat) (B : Z) (st st' : ScanState) :
  scan_inv is_compound k lo B st -> B + 188 <= 4095 ->
  ScanRow block mv_column delta_row is_compound st = Some st' ->
  scan_inv is_compound k lo (B + 188) st'.
Proof.
  intros H HB. unfold ScanRow.
  destruct (negb _); [intros [= <-]; eapply live_inv_mono; [| exact H]; lia |].
  pose proof (width4x4_range block) as Hw.
  pose proof (GetMinimumStep_range (width4x4 block) delta_row) as Hm.
  assert (0 <= B) as HB0.
  { destruct H as (_ & _ & Hs). unfold live_stack in Hs.
    destruct is_compound; destruct Hs as (_ & _ & _ & _ & ? & _); assumption. }
  apply (do_while_invariant _ _
           (fun i s => 0 <= i <= 47 /\ scan_inv is_compound k lo (B + 4 * i) s)
           (scan_inv is_compound k lo (B + 188))).
  - match goal with
    | |- context [kNum4x4BlocksWide ?s] =>
        pose proof (kNum4x4BlocksWide_range s)
    end.
    cbv beta. split; [lia |]. rewrite MultiplyBy2_spec.
    eapply live_inv_mono;
      [| apply AddReferenceMvCandidate_inv; [exact H | lia | lia]].
    lia.
  - intros i s [Hi Hs] Hc. apply Z.ltb_lt in Hc.
    match goal with
    | |- context [kNum4x4BlocksWide ?s] =>
        pose proof (kNum4x4BlocksWide_range s)
    end.
    split; [lia |]. rewrite MultiplyBy2_spec.
    eapply live_inv_mono;
      [| apply AddReferenceMvCandidate_inv; [exact Hs | lia | lia]].
    lia.
  - intros i s [Hi Hs] _. eapply live_inv_mono; [| exact Hs]. lia.
Qed.

Lemma ScanColumn_inv (block : Block) (mv_row delta_column : Z) (is_compound : bool)
    (k lo : nat) (B : Z) (st st' : ScanState) :
  scan_inv is_compound k lo B st -> B + 188 <= 4095 ->
  ScanColumn block mv_row delta_column is_compound st = Some st' ->
  scan_inv is_compound k lo (B + 188) st'.
Proof.
  intros H HB. unfold ScanColumn.
  destruct (negb _); [intros [= <-]; eapply live_inv_mono; [| exact H]; lia |].
  pose proof (height4x4_range block) as Hw.
  pose proof (GetMinimumStep_range (height4x4 block) delta_column) as Hm.
  assert (0 <= B) as HB0.
  { destruct H as (_ & _ & Hs). unfold live_stack in Hs.
    destruct is_compound; destruct Hs as (_ & _ & _ & _ & ? & _); assumption. }
  apply (do_while_invariant _ _
           (fun i s => 0 <= i <= 47 /\ scan_inv is_compound k lo (B + 4 * i) s)
           (scan_inv is_compound k lo (B + 188))).
  - match goal with
    | |- context [kNum4x4BlocksHigh ?s] =>
        pose proof (kNum4x4BlocksHigh_range s)
    end.
    cbv beta. split; [lia |]. rewrite MultiplyBy2_spec.
    eapply live_inv_mono;
      [| apply AddReferenceMvCandidate_inv; [exact H | lia | lia]].
    lia.
  - intros i s [Hi Hs] Hc. apply Z.ltb_lt in Hc.
    match goal with
    | |- context [kNum4x4BlocksHigh ?s] =>
        pose proof (kNum4x4BlocksHigh_range s)
    end.
    split; [lia |]. rewrite MultiplyBy2_spec.
    eapply live_inv_mono;
      [| apply AddReferenceMvCandidate_inv; [exact Hs | lia | lia]].
    lia.
  - intros i s [Hi Hs] _. eapply live_inv_mono; [| exact Hs]. lia.
Qed.

Lemma ScanPoint_inv (block : Block) (delta_row delta_column : Z)
    (is_compound : bool) (k lo : nat) (B : Z) (st : ScanState) :
  scan_inv is_compound k lo B st -> B + 8 <= 4095 ->
  scan_inv is_compound k lo (B + 8)
    (ScanPoint block delta_row delta_column is_compound st).
Proof.
  intros H HB. unfold ScanPoint.
  assert (scan_inv is_compound k lo (B + 8) st) as Hsame
    by (eapply live_inv_mono; [| exact H]; lia).
  destruct (_ || _); [exact Hsame |].
  destruct (bool_decide _); [exact Hsame |].
  change (B + 8) with (B + 2 * 4).
  apply AddReferenceMvCandidate_inv; [exact H | lia | lia].
Qed.

Lemma ScanRow_total (block : Block) (mv_column delta_row : Z)
    (is_compound : bool) (st : ScanState) :
  is_Some (ScanRow block mv_column delta_row is_compound st).
Proof.
  unfold ScanRow. destruct (negb _); [eexists; reflexivity |].
  pose proof (width4x4_range block) as Hw.
  pose proof (GetMinimumStep_range (width4x4 block) delta_row) as Hm.
  apply (do_while_terminates_by _ _ 1 16).
  - lia.
  - intros i s Hc. apply Z.ltb_lt in Hc. lia.
  - intros i s. eexists; reflexivity.
  - intros i s i' s' [= <- _].
    match goal with
    | |- context [kNum4x4BlocksWide ?s] =>
        pose proof (kNum4x4BlocksWide_range s)
    end. lia.
  - simpl. lia.
Qed.

Lemma ScanColumn_total (block : Block) (mv_row delta_column : Z)
    (is_compound : bool) (st : ScanState) :
  is_Some (ScanColumn block mv_row delta_column is_compound st).
Proof.
  unfold ScanColumn. destruct (negb _); [eexists; reflexivity |].
  pose proof (height4x4_range block) as Hw.
  pose proof (GetMinimumStep_range (height4x4 block) delta_column) as Hm.
  apply (do_while_terminates_by _ _ 1 16).
  - lia.
  - intros i s Hc. apply Z.ltb_lt in Hc. lia.
  - intros i s. eexists; reflexivity.
  - intros i s i' s' [= <- _].
    match goal with
    | |- context [kNum4x4BlocksHigh ?s] =>
        pose proof (kNum4x4BlocksHigh_range s)
    end. lia.
  - simpl. lia.
Qed.

(** *** Temporal scan *)

Lemma AddTemporalSingle_inv (frame_header : ObuFrameHeader) (offsets : Z * Z)
    (temporal : MotionVector * Z) (k lo : nat) (B : Z) (s : TemporalState) :
  temporal_inv false k lo B s -> B + 2 <= 4095 ->
  temporal_inv false k lo (B + 2) (AddTemporalSingle frame_header offsets s temporal).
Proof.
  intros H HB. unfold temporal_inv, AddTemporalSingle in *.
  match goal with
  | |- context [InsertCandidate ?c 2 _] =>
      pose proof (live_insert_single _ _ c 2 k lo B H ltac:(lia) HB) as Hi;
      destruct (InsertCandidate c 2 _) as [[stack weights] n']
  end.
  exact Hi.
Qed.

Lemma AddTemporalCompound_inv (frame_header : ObuFrameHeader) (offsets : Z * Z)
    (temporal : MotionVector * Z) (k lo : nat) (B : Z) (s : TemporalState) :
  temporal_inv true k lo B s -> B + 2 <= 4095 ->
  temporal_inv true k lo (B + 2) (AddTemporalCompound frame_header offsets s temporal).
Proof.
  intros H HB. unfold temporal_inv, AddTemporalCompound in *.
  match goal with
  | |- context [InsertCandidate ?c 2 _] =>
      pose proof (live_insert_compound _ _ c 2 k lo B H ltac:(lia) HB) as Hi;
      destruct (InsertCandidate c 2 _) as [[stack weights] n']
  end.
  exact Hi.
Qed.

Lemma AddTemporalReferenceMvCandidate_inv (frame_header : ObuFrameHeader)
    (offsets : Z * Z) (temporal : list (MotionVector * Z)) (is_compound : bool)
    (k lo : nat) (B : Z) (s : TemporalState) :
  temporal_inv is_compound k lo B s ->
  B + 2 * Z.of_nat (length temporal) <= 4095 ->
  temporal_inv is_compound k lo (B + 2 * Z.of_nat (length temporal))
    (AddTemporalReferenceMvCandidate frame_header offsets temporal is_compound s).
Proof.
  unfold AddTemporalReferenceMvCandidate.
  revert B s. induction temporal as [| t temporal IH]; intros B s H HB.
  - cbn [length foldl]. destruct is_compound;
      (eapply live_inv_mono; [| exact H]); simpl; lia.
  - cbn [length] in *.
    replace (B + 2 * Z.of_nat (Datatypes.S (length temporal)))
      with (B + 2 + 2 * Z.of_nat (length temporal)) in * by lia.
    destruct is_compound; cbn [foldl].
    + apply (IH (B + 2)); [| lia].
      apply AddTemporalCompound_inv; [exact H | lia].
    + apply (IH (B + 2)); [| lia].
      apply AddTemporalSingle_inv; [exact H | lia].
Qed.

Lemma TemporalScanCell_length (block : Block) (row_start column_start : Z)
    (offset mv_row mv_column : Z) (g : GridState) :
  (length (snd (TemporalScanCell block row_start column_start offset
                  mv_row mv_column g))
   <= length (snd g) + 1)%nat.
Proof.
  unfold TemporalScanCell.
  destruct (IsBottomRightInside _ _ _); [| lia].
  destruct (_ =? kInvalidMvValue).
  - destruct (_ && _); cbn [snd]; lia.
  - cbn [snd]. rewrite length_app. cbn. lia.
Qed.

Lemma TemporalScanGridRow_length (block : Block) (offset mv_row : Z)
    (g g' : GridState) :
  TemporalScanGridRow block offset mv_row g = Some g' ->
  (length (snd g') <= length (snd g) + 9)%nat.
Proof.
  unfold TemporalScanGridRow. intros E.
  apply (do_while_measure _ _
           (fun g : GridState => Z.of_nat (length (snd g))) 1) in E.
  - lia.
  - lia.
  - intros j t. cbv beta.
    pose proof (TemporalScanCell_length block
                  (Z.lor (row4x4 block) 1) (Z.lor (column4x4 block) 1)
                  offset mv_row j t).
    lia.
Qed.

(** The grid holds at most 9 x 9 positions. *)
Lemma TemporalScanGrid_length (block : Block) (g g' : GridState) :
  TemporalScanGrid block g = Some g' ->
  (length (snd g') <= length (snd g) + 81)%nat.
Proof.
  unfold TemporalScanGrid. intros H.
  destruct (do_while 8 _ _ _ _) as [r |] eqn:E; [| discriminate].
  cbn in H. injection H as <-.
  apply (do_while_measure _ _
           (fun s : Z * GridState => Z.of_nat (length (snd (snd s)))) 9) in E.
  - cbn [snd] in E. lia.
  - lia.
  - intros i s. cbv beta.
    destruct (TemporalScanGridRow block (fst s) i (snd s)) as [r' |] eqn:E';
      cbn; [| exact I].
    apply TemporalScanGridRow_length in E'. lia.
Qed.

Lemma TemporalScanExtra_length (block : Block) (g : GridState) :
  (length (snd (TemporalScanExtra block g)) <= length (snd g) + 3)%nat.
Proof.
  unfold TemporalScanExtra. destruct (kTemporalScanMask _); [| lia].
  cbn [foldl].
  repeat match goal with
         | |- context [if ?c then _ else _] => destruct c
         end; cbn [snd fst]; rewrite ?length_app; cbn [length]; lia.
Qed.

Lemma TemporalScanGridRow_total (block : Block) (offset mv_row : Z)
    (g : GridState) :
  is_Some (TemporalScanGridRow block offset mv_row g).
Proof.
  unfold TemporalScanGridRow. pose proof (width4x4_range block).
  apply (do_while_terminates_by _ _ 2
           (Z.lor (column4x4 block) 1 + Z.min (width4x4 block) 16)).
  - lia.
  - intros j t Hc. apply Z.ltb_lt in Hc. exact Hc.
  - intros j t. eexists; reflexivity.
  - intros j t j' t' [= <- _]. destruct (16 <=? width4x4 block); lia.
  - simpl. lia.
Qed.

Lemma TemporalScanGrid_total (block : Block) (g : GridState) :
  is_Some (TemporalScanGrid block g).
Proof.
  unfold TemporalScanGrid. pose proof (height4x4_range block).
  match goal with
  | |- is_Some (snd <$> ?d) => assert (is_Some d) as [r ->]; [| eexists; reflexivity]
  end.
  apply (do_while_terminates_by _ _ 2
           (Z.lor (row4x4 block) 1 + Z.min (height4x4 block) 16)).
  - lia.
  - intros i s Hc. apply Z.ltb_lt in Hc. exact Hc.
  - intros i s.
    destruct (TemporalScanGridRow_total block (fst s) i (snd s)) as [g' ->].
    eexists; reflexivity.
  - intros i s i' s'.
    destruct (TemporalScanGridRow block (fst s) i (snd s)); cbn; [| discriminate].
    intros [= <- _]. destruct (16 <=? height4x4 block); lia.
  - simpl. lia.
Qed.

Lemma TemporalScan_total (block : Block) (is_compound : bool) (s : TemporalState) :
  is_Some (TemporalScan block is_compound s).
Proof.
  unfold TemporalScan.
  destruct (TemporalScanGrid_total block (zero_mv_context s, [])) as [g ->].
  option_step. destruct (negb _); eexists; reflexivity.
Qed.

Lemma TemporalScan_inv (block : Block) (is_compound : bool) (k lo : nat)
    (B : Z) (s t : TemporalState) :
  temporal_inv is_compound k lo B s -> B + 168 <= 4095 ->
  TemporalScan block is_compound s = Some t ->
  temporal_inv is_compound k lo (B + 168) t.
Proof.
  intros H HB. unfold TemporalScan.
  destruct (TemporalScanGrid block _) as [g |] eqn:Eg; [| discriminate].
  option_step.
  apply TemporalScanGrid_length in Eg. cbn [snd length] in Eg.
  pose proof (TemporalScanExtra_length block g) as Ex.
  set (g' := TemporalScanExtra block g) in *.
  assert (temporal_inv is_compound k lo B
            (MkTemporalState (fst g') (t_num_mv_found s)
               (t_prediction_parameters s))) as H' by exact H.
  destruct (negb _); intros [= <-].
  - eapply live_inv_mono;
      [| apply AddTemporalReferenceMvCandidate_inv; [exact H' | lia]].
    lia.
  - eapply live_inv_mono; [| exact H']. lia.
Qed.

(** *** The scans of FindMvStack *)

Lemma enter_inv (a : NewMvArg) (m : MatchArg) (is_compound : bool) (k lo : nat)
    (B : Z) (l : Locals) :
  locals_inv is_compound k lo B l -> scan_inv is_compound k lo B (enter a m l).
Proof. intros H. exact H. Qed.

Lemma leave_inv (a : NewMvArg) (m : MatchArg) (is_compound : bool) (k lo : nat)
    (B : Z) (l : Locals) (st : ScanState) :
  scan_inv is_compound k lo B st -> locals_inv is_compound k lo B (leave a m l st).
Proof. intros H. exact H. Qed.

(** A call of a row or column scan through the pointer adaptors. *)
Lemma scan_call_inv (a : NewMvArg) (m : MatchArg) (is_compound : bool)
    (k lo : nat) (B : Z) (f : ScanState -> option ScanState) (l l' : Locals) :
  (forall st st', scan_inv is_compound k lo B st -> f st = Some st' ->
                  scan_inv is_compound k lo (B + 188) st') ->
  locals_inv is_compound k lo B l ->
  leave a m l <$> f (enter a m l) = Some l' ->
  locals_inv is_compound k lo (B + 188) l'.
Proof.
  intros Hf H. destruct (f (enter a m l)) as [st' |] eqn:E; [| discriminate].
  cbn. intros [= <-]. apply leave_inv. eapply Hf; [| exact E].
  apply enter_inv. exact H.
Qed.

Lemma NearestScans_inv (block : Block) (is_compound : bool) (k lo : nat)
    (B : Z) (l l' : Locals) :
  locals_inv is_compound k lo B l -> B + 384 <= 4095 ->
  NearestScans block is_compound l = Some l' ->
  locals_inv is_compound k lo (B + 384) l'.
Proof.
  intros H HB. unfold NearestScans.
  destruct (leave _ _ l <$> ScanRow _ _ _ _ _) as [l1 |] eqn:E1; [| discriminate].
  apply (scan_call_inv _ _ is_compound k lo B) in E1;
    [| intros st st' Hs; apply ScanRow_inv; [exact Hs | lia] | exact H].
  option_step.
  destruct (leave _ _ l1 <$> ScanColumn _ _ _ _ _) as [l2 |] eqn:E2; [| discriminate].
  apply (scan_call_inv _ _ is_compound k lo (B + 188)) in E2;
    [| intros st st' Hs; apply ScanColumn_inv; [exact Hs | lia] | exact E1].
  option_step. intros [= <-].
  replace (B + 384) with (B + 188 + 188 + 8) by lia.
  destruct (_ <=? 16).
  - apply leave_inv, ScanPoint_inv; [apply enter_inv; exact E2 | lia].
  - eapply live_inv_mono; [| exact E2]. lia.
Qed.

Lemma TemporalStep_inv (block : Block) (is_compound : bool) (k lo : nat)
    (B : Z) (l l' : Locals) (zero : Z) :
  locals_inv is_compound k lo B l -> B + 168 <= 4095 ->
  TemporalStep block is_compound l = Some (l', zero) ->
  locals_inv is_compound k lo (B + 168) l'.
Proof.
  intros H HB. unfold TemporalStep.
  destruct (use_ref_frame_mvs _).
  - destruct (TemporalScan _ _ _) as [t |] eqn:E; [| discriminate].
    option_step. intros [= <- _].
    apply (TemporalScan_inv block is_compound k lo B) in E; [exact E | exact H | lia].
  - intros [= <- _]. eapply live_inv_mono; [| exact H]. lia.
Qed.

Lemma FarScans_inv (block : Block) (is_compound : bool) (k lo : nat)
    (B : Z) (l l' : Locals) :
  locals_inv is_compound k lo B l -> B + 760 <= 4095 ->
  FarScans block is_compound l = Some l' ->
  locals_inv is_compound k lo (B + 760) l'.
Proof.
  intros H HB. unfold FarScans.
  match goal with
  | |- context [leave ?a ?m l (ScanPoint ?b ?r ?c ?ic ?st)] =>
      set (l0 := leave a m l (ScanPoint b r c ic st));
      assert (locals_inv is_compound k lo (B + 8) l0) as H0
        by (apply leave_inv, ScanPoint_inv; [apply enter_inv; exact H | lia]);
      clearbody l0
  end.
  destruct (leave _ _ l0 <$> ScanRow _ _ _ _ _) as [l1 |] eqn:E1; [| discriminate].
  apply (scan_call_inv _ _ is_compound k lo (B + 8)) in E1;
    [| intros st st' Hs; apply ScanRow_inv; [exact Hs | lia] | exact H0].
  option_step.
  destruct (leave _ _ l1 <$> ScanColumn _ _ _ _ _) as [l2 |] eqn:E2; [| discriminate].
  apply (scan_call_inv _ _ is_compound k lo (B + 8 + 188)) in E2;
    [| intros st st' Hs; apply ScanColumn_inv; [exact Hs | lia] | exact E1].
  option_step.
  assert (forall l3,
            (if 1 <? height4x4 block
             then leave PassDummyBool PassRowMatch l2 <$>
                    ScanRow block (Z.lor (column4x4 block) 1)
                      (-5 + Z.land (row4x4 block) 1) is_compound
                      (enter PassDummyBool PassRowMatch l2)
             else Some l2) = Some l3 ->
            locals_inv is_compound k lo (B + 8 + 188 + 188 + 188) l3) as H3.
  { intros l3. destruct (1 <? height4x4 block).
    - intros E3.
      apply (scan_call_inv _ _ is_compound k lo (B + 8 + 188 + 188)) in E3;
        [exact E3
        | intros st st' Hs; apply ScanRow_inv; [exact Hs | lia] | exact E2].
    - intros [= <-]. eapply live_inv_mono; [| exact E2]. lia. }
  match goal with
  | |- (?m ≫= _) = _ -> _ => destruct m as [l3 |] eqn:E3; [| discriminate]
  end.
  specialize (H3 l3 eq_refl). option_step.
  replace (B + 760) with (B + 8 + 188 + 188 + 188 + 188) by lia.
  destruct (1 <? width4x4 block).
  - intros E4.
    apply (scan_call_inv _ _ is_compound k lo (B + 8 + 188 + 188 + 188)) in E4;
      [exact E4
      | intros st st' Hs; apply ScanColumn_inv; [exact Hs | lia] | exact H3].
  - intros [= <-]. eapply live_inv_mono; [| exact H3]. lia.
Qed.

Lemma stacks_allocated_inv (is_compound : bool) (pp : PredictionParameters) :
  stacks_allocated pp ->
  live_inv is_compound (nearest_mv_count pp) 0 0 0 pp.
Proof.
  intros (Hs & Hc & Hw). split; [reflexivity |]. split; [lia |].
  unfold live_stack.
  destruct is_compound; (split; [| split; [| split; [| split; [| split]]]]);
    try assumption; try lia; try apply NoDup_nil_2;
    intros i Hi; lia.
Qed.

(** After all scans the stack in use holds at most eight pairwise distinct
    entries, their weights are packed and at most 1312, and the recorded
    nearest count is at most the count. *)
Lemma AllScans_inv (block : Block) (is_compound : bool)
    (pp : PredictionParameters) (l : Locals) (nearest_matches zero : Z) :
  stacks_allocated pp ->
  AllScans block is_compound pp = Some (l, nearest_matches, zero) ->
  locals_inv is_compound (nearest_mv_count (l_prediction_parameters l))
    (nearest_mv_count (l_prediction_parameters l)) 1312 l.
Proof.
  intros Ha. unfold AllScans.
  match goal with
  | |- (NearestScans _ _ (MkLocals _ _ _ _ _ ?p) ≫= _) = _ -> _ =>
      set (pp0 := p);
      assert (live_inv is_compound (nearest_mv_count pp0) 0 0 0 pp0) as H0
  end.
  { apply stacks_allocated_inv. subst pp0.
    destruct Ha as (? & ? & ?). destruct is_compound; repeat split; assumption. }
  clearbody pp0.
  destruct (NearestScans _ _ _) as [l1 |] eqn:E1; [| discriminate].
  apply (NearestScans_inv block is_compound (nearest_mv_count pp0) 0%nat 0) in E1;
    [| exact H0 | lia].
  option_step.
  match goal with
  | |- (TemporalStep _ _ ?x ≫= _) = _ -> _ =>
      set (l2 := x);
      assert (locals_inv is_compound (l_num_mv_found l1) (l_num_mv_found l1)
                384 l2) as H2
  end.
  { subst l2. destruct E1 as (_ & _ & Hs).
    split; [reflexivity |]. split; [cbn; lia |].
    unfold live_stack in *. cbn. destruct is_compound; exact Hs. }
  clearbody l2.
  destruct (TemporalStep _ _ _) as [[l3 z] |] eqn:E3; [| discriminate].
  apply (TemporalStep_inv block is_compound (l_num_mv_found l1)
           (l_num_mv_found l1) 384) in E3; [| exact H2 | lia].
  option_step.
  match goal with
  | |- (FarScans _ _ ?x ≫= _) = _ -> _ =>
      set (l4 := x);
      assert (locals_inv is_compound (l_num_mv_found l1) (l_num_mv_found l1)
                (384 + 168) l4) as H4 by exact E3;
      clearbody l4
  end.
  destruct (FarScans _ _ _) as [l5 |] eqn:E5; [| discriminate].
  apply (FarScans_inv block is_compound (l_num_mv_found l1)
           (l_num_mv_found l1) (384 + 168)) in E5; [| exact H4 | lia].
  option_step. intros [= <- _ _].
  pose proof E5 as (Hk & _). rewrite Hk. exact E5.
Qed.

Lemma AllScans_total (block : Block) (is_compound : bool)
    (pp : PredictionParameters) :
  is_Some (AllScans block is_compound pp).
Proof.
  unfold AllScans, NearestScans, TemporalStep, FarScans.
  repeat first
    [ progress option_step
    | match goal with
      | |- context [ScanRow ?b ?c ?d ?ic ?st] =>
          destruct (ScanRow_total b c d ic st) as [? ->]
      | |- context [ScanColumn ?b ?c ?d ?ic ?st] =>
          destruct (ScanColumn_total b c d ic st) as [? ->]
      | |- context [TemporalScan ?b ?ic ?s] =>
          destruct (TemporalScan_total b ic s) as [? ->]
      | |- context [use_ref_frame_mvs ?h] => destruct (use_ref_frame_mvs h)
      | |- context [1 <? ?h] => destruct (1 <? h)
      end ].
  all: eexists; reflexivity.
Qed.

(** ** The capacity of the stack *)

Lemma InsertCandidate_capacity {A : Type} `{EqDecision A} (c : A) (w : Z)
    (stack : list A) (weights : list Z) (n : nat) :
  (n <= kMaxRefMvStackSize)%nat ->
  (snd (InsertCandidate c w (stack, weights, n)) <= kMaxRefMvStackSize)%nat.
Proof.
  intros Hn.
  apply (InsertCandidate_count c w (stack, weights, n)). exact Hn.
Qed.

(** Closes a goal about the state built from one [InsertCandidate]. *)
Ltac insert_capacity Hn :=
  destruct Hn as [Hn ?];
  match goal with
  | |- context [InsertCandidate ?c ?w (?s, ?ws, ?n)] =>
      let Hi := fresh "Hi" in
      pose proof (InsertCandidate_capacity c w s ws n Hn) as Hi;
      destruct (InsertCandidate c w (s, ws, n)) as [[? ?] ?];
      split; [exact Hi | assumption]
  end.

Lemma SearchStack_capacity (block : Block) (mv_bp : BlockParameters)
    (index : nat) (w : Z) (k : nat) (st : ScanState) :
  scan_capacity k st ->
  scan_capacity k (SearchStack block mv_bp index w st).
Proof.
  intros Hn. unfold scan_capacity, SearchStack in *. insert_capacity Hn.
Qed.

Lemma CompoundSearchStack_capacity (block : Block) (mv_bp : BlockParameters)
    (w : Z) (k : nat) (st : ScanState) :
  scan_capacity k st ->
  scan_capacity k (CompoundSearchStack block mv_bp w st).
Proof.
  intros Hn. unfold scan_capacity, CompoundSearchStack in *. insert_capacity Hn.
Qed.

Lemma AddReferenceMvCandidate_capacity (block : Block) (mv_bp : BlockParameters)
    (is_compound : bool) (w : Z) (k : nat) (st : ScanState) :
  scan_capacity k st ->
  scan_capacity k (AddReferenceMvCandidate block mv_bp is_compound w st).
Proof.
  intros Hn. unfold AddReferenceMvCandidate.
  destruct (negb _); [exact Hn |].
  destruct is_compound.
  - destruct (_ && _); [apply CompoundSearchStack_capacity |]; exact Hn.
  - destruct (bool_decide _), (bool_decide _);
      repeat apply SearchStack_capacity; exact Hn.
Qed.

Lemma ScanRow_capacity (block : Block) (mv_column delta_row : Z)
    (is_compound : bool) (k : nat) (st st' : ScanState) :
  scan_capacity k st ->
  ScanRow block mv_column delta_row is_compound st = Some st' ->
  scan_capacity k st'.
Proof.
  intros Hn. unfold ScanRow.
  destruct (negb _); [intros [= <-]; exact Hn |].
  apply (do_while_invariant _ _
           (fun _ s => scan_capacity k s) (scan_capacity k)).
  - apply AddReferenceMvCandidate_capacity. exact Hn.
  - intros i s Hs _. apply AddReferenceMvCandidate_capacity. exact Hs.
  - intros i s Hs _. exact Hs.
Qed.

Lemma ScanColumn_capacity (block : Block) (mv_row delta_column : Z)
    (is_compound : bool) (k : nat) (st st' : ScanState) :
  scan_capacity k st ->
  ScanColumn block mv_row delta_column is_compound st = Some st' ->
  scan_capacity k st'.
Proof.
  intros Hn. unfold ScanColumn.
  destruct (negb _); [intros [= <-]; exact Hn |].
  apply (do_while_invariant _ _
           (fun _ s => scan_capacity k s) (scan_capacity k)).
  - apply AddReferenceMvCandidate_capacity. exact Hn.
  - intros i s Hs _. apply AddReferenceMvCandidate_capacity. exact Hs.
  - intros i s Hs _. exact Hs.
Qed.

Lemma ScanPoint_capacity (block : Block) (delta_row delta_column : Z)
    (is_compound : bool) (k : nat) (st : ScanState) :
  scan_capacity k st ->
  scan_capacity k (ScanPoint block delta_row delta_column is_compound st).
Proof.
  intros Hn. unfold ScanPoint.
  destruct (_ || _); [exact Hn |].
  destruct (bool_decide _); [exact Hn |].
  apply AddReferenceMvCandidate_capacity. exact Hn.
Qed.

Lemma AddTemporalReferenceMvCandidate_capacity (frame_header : ObuFrameHeader)
    (offsets : Z * Z) (temporal : list (MotionVector * Z)) (is_compound : bool)
    (k : nat) (s : TemporalState) :
  temporal_capacity k s ->
  temporal_capacity k
    (AddTemporalReferenceMvCandidate frame_header offsets temporal
       is_compound s).
Proof.
  unfold AddTemporalReferenceMvCandidate.
  revert s. induction temporal as [| t temporal IH]; intros s Hn.
  - destruct is_compound; exact Hn.
  - destruct is_compound; cbn [foldl]; apply IH.
    + unfold temporal_capacity, AddTemporalCompound in *. insert_capacity Hn.
    + unfold temporal_capacity, AddTemporalSingle in *. insert_capacity Hn.
Qed.

Lemma TemporalScan_capacity (block : Block) (is_compound : bool) (k : nat)
    (s t : TemporalState) :
  temporal_capacity k s ->
  TemporalScan block is_compound s = Some t ->
  temporal_capacity k t.
Proof.
  intros Hn. unfold TemporalScan.
  destruct (TemporalScanGrid block _) as [g |]; [| discriminate].
  option_step. destruct (negb _); intros [= <-].
  - apply AddTemporalReferenceMvCandidate_capacity. exact Hn.
  - exact Hn.
Qed.

Lemma run_scan_capacity (block : Block) (is_compound : bool) (call : ScanCall)
    (k : nat) (s : ScanState * Z) :
  scan_capacity k (fst s) ->
  exists s', run_scan block is_compound call s = Some s'
             /\ scan_capacity k (fst s').
Proof.
  destruct s as [st zero]. cbn [fst]. intros Hn.
  destruct call as [c d | r d | dr dc |]; cbn [run_scan].
  - destruct (ScanRow_total block c d is_compound st) as [st' E]. rewrite E.
    eexists. split; [reflexivity |]. eapply ScanRow_capacity; eassumption.
  - destruct (ScanColumn_total block r d is_compound st) as [st' E]. rewrite E.
    eexists. split; [reflexivity |]. eapply ScanColumn_capacity; eassumption.
  - eexists. split; [reflexivity |]. apply ScanPoint_capacity. exact Hn.
  - destruct (TemporalScan_total block is_compound
                (MkTemporalState zero (num_mv_found st) (prediction_parameters st)))
      as [t E].
    rewrite E. eexists. split; [reflexivity |].
    apply (TemporalScan_capacity block is_compound k) in E; [exact E | exact Hn].
Qed.

Lemma run_scans_capacity (block : Block) (is_compound : bool)
    (calls : list ScanCall) (k : nat) (s : ScanState * Z) :
  scan_capacity k (fst s) ->
  exists s', run_scans block is_compound calls s = Some s'
             /\ scan_capacity k (fst s').
Proof.
  revert s. induction calls as [| call calls IH]; intros s Hn.
  - exists s. split; [reflexivity | exact Hn].
  - destruct (run_scan_capacity block is_compound call k s Hn) as (s1 & E & H1).
    cbn [run_scans]. rewrite E. option_step. apply IH. exact H1.
Qed.

Lemma scan_call_capacity (a : NewMvArg) (m : MatchArg) (k : nat)
    (f : ScanState -> option ScanState) (l l' : Locals) :
  (forall st st', scan_capacity k st -> f st = Some st' -> scan_capacity k st') ->
  locals_capacity k l ->
  leave a m l <$> f (enter a m l) = Some l' ->
  locals_capacity k l'.
Proof.
  intros Hf H. destruct (f (enter a m l)) as [st' |] eqn:E; [| discriminate].
  cbn. intros [= <-]. apply (Hf (enter a m l) st'); [exact H | exact E].
Qed.

Lemma NearestScans_capacity (block : Block) (is_compound : bool) (k : nat)
    (l l' : Locals) :
  locals_capacity k l ->
  NearestScans block is_compound l = Some l' ->
  locals_capacity k l'.
Proof.
  intros H. unfold NearestScans.
  destruct (leave _ _ l <$> ScanRow _ _ _ _ _) as [l1 |] eqn:E1; [| discriminate].
  apply (scan_call_capacity _ _ k) in E1;
    [| intros st st'; apply ScanRow_capacity | exact H].
  option_step.
  destruct (leave _ _ l1 <$> ScanColumn _ _ _ _ _) as [l2 |] eqn:E2; [| discriminate].
  apply (scan_call_capacity _ _ k) in E2;
    [| intros st st'; apply ScanColumn_capacity | exact E1].
  option_step. intros [= <-].
  destruct (_ <=? 16); [| exact E2].
  apply (ScanPoint_capacity block _ _ is_compound k (enter _ _ l2)). exact E2.
Qed.

Lemma TemporalStep_capacity (block : Block) (is_compound : bool) (k : nat)
    (l l' : Locals) (zero : Z) :
  locals_capacity k l ->
  TemporalStep block is_compound l = Some (l', zero) ->
  locals_capacity k l'.
Proof.
  intros H. unfold TemporalStep.
  destruct (use_ref_frame_mvs _).
  - destruct (TemporalScan _ _ _) as [t |] eqn:E; [| discriminate].
    option_step. intros [= <- _].
    apply (TemporalScan_capacity block is_compound k) in E; [exact E | exact H].
  - intros [= <- _]. exact H.
Qed.

Lemma FarScans_capacity (block : Block) (is_compound : bool) (k : nat)
    (l l' : Locals) :
  locals_capacity k l ->
  FarScans block is_compound l = Some l' ->
  locals_capacity k l'.
Proof.
  intros H. unfold FarScans.
  match goal with
  | |- context [leave ?a ?m l (ScanPoint ?b ?r ?c ?ic ?st)] =>
      set (l0 := leave a m l (ScanPoint b r c ic st));
      assert (locals_capacity k l0) as H0
        by (apply (ScanPoint_capacity b r c ic k st); exact H);
      clearbody l0
  end.
  destruct (leave _ _ l0 <$> ScanRow _ _ _ _ _) as [l1 |] eqn:E1; [| discriminate].
  apply (scan_call_capacity _ _ k) in E1;
    [| intros st st'; apply ScanRow_capacity | exact H0].
  option_step.
  destruct (leave _ _ l1 <$> ScanColumn _ _ _ _ _) as [l2 |] eqn:E2; [| discriminate].
  apply (scan_call_capacity _ _ k) in E2;
    [| intros st st'; apply ScanColumn_capacity | exact E1].
  option_step.
  match goal with
  | |- (?m ≫= _) = _ -> _ => destruct m as [l3 |] eqn:E3; [| discriminate]
  end.
  assert (locals_capacity k l3) as H3.
  { destruct (1 <? height4x4 block).
    - apply (scan_call_capacity _ _ k) in E3;
        [exact E3 | intros st st'; apply ScanRow_capacity | exact E2].
    - injection E3 as <-. exact E2. }
  option_step.
  destruct (1 <? width4x4 block).
  - intros E4. apply (scan_call_capacity _ _ k) in E4;
      [exact E4 | intros st st'; apply ScanColumn_capacity | exact H3].
  - intros [= <-]. exact H3.
Qed.

Lemma AllScans_capacity (block : Block) (is_compound : bool)
    (pp : PredictionParameters) (l : Locals) (nearest_matches zero : Z) :
  AllScans block is_compound pp = Some (l, nearest_matches, zero) ->
  (nearest_mv_count (l_prediction_parameters l) <= kMaxRefMvStackSize)%nat
  /\ (l_num_mv_found l <= kMaxRefMvStackSize)%nat.
Proof.
  unfold AllScans.
  match goal with
  | |- (NearestScans _ _ (MkLocals _ _ _ _ _ ?p) ≫= _) = _ -> _ =>
      set (pp0 := p)
  end.
  destruct (NearestScans _ _ _) as [l1 |] eqn:E1; [| discriminate].
  apply (NearestScans_capacity block is_compound (nearest_mv_count pp0)) in E1;
    [| split; [unfold kMaxRefMvStackSize; cbn; lia | reflexivity]].
  option_step.
  destruct (TemporalStep _ _ _) as [[l3 z] |] eqn:E3; [| discriminate].
  apply (TemporalStep_capacity block is_compound (l_num_mv_found l1)) in E3;
    [| split; [exact (proj1 E1) | reflexivity]].
  option_step.
  destruct (FarScans _ _ _) as [l5 |] eqn:E5; [| discriminate].
  apply (FarScans_capacity block is_compound (l_num_mv_found l1)) in E5;
    [| exact E3].
  option_step. intros [= <- _ _].
  destruct E5 as [Hn Hk]. rewrite Hk. split; [exact (proj1 E1) | exact Hn].
Qed.

(** *** Extra search *)

Lemma AddExtraSingleMvCandidate_count (block : Block) (mv_row mv_column : Z)
    (n : nat) (pp : PredictionParameters) :
  let r := AddExtraSingleMvCandidate block mv_row mv_column (n, pp) in
  (fst r <= n + 2)%nat /\ nearest_mv_count (snd r) = nearest_mv_count pp.
Proof.
  unfold AddExtraSingleMvCandidate. cbn [foldl].
  repeat match goal with
         | |- context [if ?c then _ else _] => destruct c; cbn [fst snd]
         end; split; (lia || reflexivity).
Qed.

Lemma AddExtraCompoundMvCandidate_frame (block : Block) (mv_row mv_column : Z)
    (s : ExtraState) :
  let s' := AddExtraCompoundMvCandidate block mv_row mv_column s in
  e_num_mv_found s' = e_num_mv_found s
  /\ e_prediction_parameters s' = e_prediction_parameters s.
Proof.
  unfold AddExtraCompoundMvCandidate. cbn [foldl].
  repeat match goal with
         | |- context [if ?c then _ else _] =>
             destruct c; cbn [e_num_mv_found e_prediction_parameters]
         end; split; reflexivity.
Qed.

Lemma ExtraSearchPass_total (block : Block) (is_compound : bool)
    (pass num4x4 : Z) (s : ExtraState) :
  num4x4 <= 16 -> is_Some (ExtraSearchPass block is_compound pass num4x4 s).
Proof.
  intros Hn. unfold ExtraSearchPass.
  apply (while_loop_terminates_by _ _ 1 16).
  - lia.
  - intros i t Hc. apply Z.ltb_lt in Hc. lia.
  - intros i t _. destruct (negb _); [eexists; reflexivity |].
    destruct is_compound; [eexists; reflexivity |].
    destruct (AddExtraSingleMvCandidate _ _ _ _) as [n pp].
    destruct (2 <=? n)%nat; eexists; reflexivity.
  - intros i t i' t'. destruct (negb _); [discriminate |].
    match goal with
    | |- context [kNum4x4BlocksWide ?z] =>
        pose proof (kNum4x4BlocksWide_range z);
        pose proof (kNum4x4BlocksHigh_range z)
    end.
    destruct is_compound.
    + intros [= <- _]. destruct (pass =? 0); lia.
    + destruct (AddExtraSingleMvCandidate _ _ _ _) as [n pp].
      destruct (2 <=? n)%nat; [discriminate |].
      intros [= <- _]. destruct (pass =? 0); lia.
  - simpl. lia.
Qed.

(** A pass entered with at most one candidate leaves at most three, and
    keeps the recorded nearest count. *)
Lemma ExtraSearchPass_count (block : Block) (is_compound : bool)
    (pass num4x4 : Z) (k : nat) (s s' : ExtraState) :
  (e_num_mv_found s <= 1)%nat ->
  nearest_mv_count (e_prediction_parameters s) = k ->
  ExtraSearchPass block is_compound pass num4x4 s = Some s' ->
  (e_num_mv_found s' <= 3)%nat
  /\ (is_compound = true -> e_num_mv_found s' = e_num_mv_found s)
  /\ nearest_mv_count (e_prediction_parameters s') = k.
Proof.
  intros Hs Hk. unfold ExtraSearchPass.
  apply (while_loop_invariant _ _
           (fun _ t => (e_num_mv_found t <= 1)%nat
                       /\ (is_compound = true -> e_num_mv_found t = e_num_mv_found s)
                       /\ nearest_mv_count (e_prediction_parameters t) = k)
           (fun t => (e_num_mv_found t <= 3)%nat
                     /\ (is_compound = true -> e_num_mv_found t = e_num_mv_found s)
                     /\ nearest_mv_count (e_prediction_parameters t) = k)).
  - intros i t (Ht & Hc & Hkt) _.
    destruct (negb _); [split; [lia | split; assumption] |].
    destruct is_compound.
    + destruct (AddExtraCompoundMvCandidate_frame block
                  (row4x4 block + (if pass =? 0 then -1 else i))
                  (column4x4 block + (if pass =? 0 then i else -1)) t)
        as [Hn Hp].
      rewrite Hn, Hp. split; [exact Ht | split; assumption].
    + destruct (AddExtraSingleMvCandidate_count block
                  (row4x4 block + (if pass =? 0 then -1 else i))
                  (column4x4 block + (if pass =? 0 then i else -1))
                  (e_num_mv_found t) (e_prediction_parameters t)) as [Hc' Hk'].
      destruct (AddExtraSingleMvCandidate _ _ _ _) as [n pp].
      cbn [fst snd] in Hc', Hk'.
      destruct (Nat.leb_spec 2 n); cbn [e_num_mv_found e_prediction_parameters];
        (split; [lia | split; [discriminate | congruence]]).
  - intros i t (Ht & Hc & Hkt) _. split; [lia | split; assumption].
  - split; [exact Hs | split; [reflexivity | exact Hk]].
Qed.

Lemma ExtraSearch_total_count (block : Block) (is_compound : bool) (n : nat)
    (pp : PredictionParameters) :
  (n < 2)%nat ->
  exists n' pp', ExtraSearch block is_compound n pp = Some (n', pp')
                 /\ (n' <= 3)%nat
                 /\ nearest_mv_count pp' = nearest_mv_count pp.
Proof.
  intros Hn. unfold ExtraSearch.
  set (num4x4 := Z.min _ 16). assert (num4x4 <= 16) as H16 by (subst num4x4; lia).
  cbn [e_num_mv_found].
  destruct (Nat.ltb_spec n 2) as [_ | ?]; [| lia].
  destruct (ExtraSearchPass_total block is_compound 0 num4x4
              (MkExtraState ([], []) ([], []) n pp) H16) as [s1 E1].
  rewrite E1. option_step.
  apply (ExtraSearchPass_count block is_compound 0 num4x4 (nearest_mv_count pp)) in E1;
    [| cbn; lia | reflexivity].
  destruct E1 as (H1 & H1c & H1k).
  assert (exists s2,
            (if (e_num_mv_found s1 <? 2)%nat
             then ExtraSearchPass block is_compound 1 num4x4 s1 else Some s1)
            = Some s2
            /\ (e_num_mv_found s2 <= 3)%nat
            /\ nearest_mv_count (e_prediction_parameters s2) = nearest_mv_count pp)
    as (s2 & E2 & H2 & H2k).
  { destruct (Nat.ltb_spec (e_num_mv_found s1) 2).
    - destruct (ExtraSearchPass_total block is_compound 1 num4x4 s1 H16) as [s2 E2].
      exists s2. split; [exact E2 |].
      apply (ExtraSearchPass_count block is_compound 1 num4x4 (nearest_mv_count pp))
        in E2; [| lia | exact H1k].
      destruct E2 as (? & _ & ?). split; assumption.
    - exists s1. split; [reflexivity | split; assumption]. }
  rewrite E2. option_step.
  destruct is_compound.
  - destruct (e_num_mv_found s2 =? 1)%nat;
      eexists; eexists; (split; [reflexivity |]); (split; [lia | exact H2k]).
  - eexists; eexists. split; [reflexivity |]. split; [exact H2 |].
    rewrite <- H2k.
    generalize (e_prediction_parameters s2). intros p.
    destruct (e_num_mv_found s2) as [| [| m]]; reflexivity.
Qed.

Lemma FindMvStack_total (block : Block) (is_compound : bool)
    (pp : PredictionParameters) :
  exists l nearest_matches zero pp' contexts,
    AllScans block is_compound pp = Some (l, nearest_matches, zero)
    /\ FindMvStack block is_compound pp = Some (pp', contexts)
    /\ (nearest_mv_count pp' <= kMaxRefMvStackSize)%nat
    /\ (ref_mv_count pp' <= kMaxRefMvStackSize)%nat.
Proof.
  destruct (AllScans_total block is_compound pp) as [[[l nm] zero] E].
  exists l, nm, zero. unfold FindMvStack. rewrite E. option_step.
  pose proof E as E0.
  apply AllScans_capacity in E. destruct E as [Hk Hn].
  destruct (Nat.ltb_spec (l_num_mv_found l) 2) as [Hlt | Hge].
  - destruct (ExtraSearch_total_count block is_compound (l_num_mv_found l)
                (l_prediction_parameters l) Hlt) as (n' & pp' & E' & Hn' & Hk').
    rewrite E'. option_step.
    destruct (ComputeContexts _ _ _) as [c1 c2].
    eexists; eexists. split; [reflexivity |]. split; [reflexivity |]. cbn.
    unfold kMaxRefMvStackSize in *. split; [congruence | lia].
  - option_step. destruct (ComputeContexts _ _ _) as [c1 c2].
    eexists; eexists. split; [reflexivity |]. split; [reflexivity |].
    cbn. split; assumption.
Qed.

(** C5.  Whatever scans are run on a block, in whatever order and from
    whatever flags and arrays, the run ends and the count of stored
    candidates is at most [kMaxRefMvStackSize], which is 8; and
    [FindMvStack] always returns, with [nearest_mv_count] and
    [ref_mv_count] at most 8. *)
Theorem stack_count_within_capacity (block : Block) (is_compound : bool)
    (calls : list ScanCall) (found_new found_any : bool) (zero : Z)
    (pp : PredictionParameters) :
  kMaxRefMvStackSize = 8%nat
  /\ (exists s',
        run_scans block is_compound calls
          (MkScanState found_new found_any 0 pp, zero) = Some s'
        /\ (num_mv_found (fst s') <= kMaxRefMvStackSize)%nat)
  /\ (exists pp' contexts,
        FindMvStack block is_compound pp = Some (pp', contexts)
        /\ (nearest_mv_count pp' <= kMaxRefMvStackSize)%nat
        /\ (ref_mv_count pp' <= kMaxRefMvStackSize)%nat).
Proof.
  split; [reflexivity |]. split.
  - destruct (run_scans_capacity block is_compound calls (nearest_mv_count pp)
                (MkScanState found_new found_any 0 pp, zero)) as (s' & E & Hn & _).
    + split; [unfold kMaxRefMvStackSize; cbn; lia | reflexivity].
    + exists s'. split; assumption.
  - destruct (FindMvStack_total block is_compound pp)
      as (l & nm & z & pp' & contexts & _ & E & Hk & Hn).
    exists pp', contexts. auto.
Qed.

(** ** Sequences of insertions *)

(** The four places of the source that insert are insertions in this
    sense. *)
Lemma SearchStack_inserts (block : Block) (mv_bp : BlockParameters)
    (index : nat) (w : Z) (st : ScanState) :
  exists c,
    let st' := SearchStack block mv_bp index w st in
    single_stack (num_mv_found st') (prediction_parameters st')
    = apply_insertion (SpatialInsertion c w)
        (single_stack (num_mv_found st) (prediction_parameters st)).
Proof.
  unfold SearchStack, apply_insertion, single_stack.
  cbn [insertion_candidate insertion_weight].
  match goal with
  | |- context [InsertCandidate ?c w ?s] =>
      exists c; destruct (InsertCandidate c w s) as [[stack weights] n']
  end.
  reflexivity.
Qed.

Lemma CompoundSearchStack_inserts (block : Block) (mv_bp : BlockParameters)
    (w : Z) (st : ScanState) :
  exists c,
    let st' := CompoundSearchStack block mv_bp w st in
    compound_stack (num_mv_found st') (prediction_parameters st')
    = apply_insertion (SpatialInsertion c w)
        (compound_stack (num_mv_found st) (prediction_parameters st)).
Proof.
  unfold CompoundSearchStack, apply_insertion, compound_stack.
  cbn [insertion_candidate insertion_weight].
  match goal with
  | |- context [InsertCandidate ?c w ?s] =>
      exists c; destruct (InsertCandidate c w s) as [[stack weights] n']
  end.
  reflexivity.
Qed.

Lemma AddTemporalSingle_inserts (frame_header : ObuFrameHeader)
    (offsets : Z * Z) (s : TemporalState) (temporal : MotionVector * Z) :
  exists c,
    let s' := AddTemporalSingle frame_header offsets s temporal in
    single_stack (t_num_mv_found s') (t_prediction_parameters s')
    = apply_insertion (TemporalInsertion c)
        (single_stack (t_num_mv_found s) (t_prediction_parameters s)).
Proof.
  unfold AddTemporalSingle, apply_insertion, single_stack.
  cbn [insertion_candidate insertion_weight].
  match goal with
  | |- context [InsertCandidate ?c 2 ?s] =>
      exists c; destruct (InsertCandidate c 2 s) as [[stack weights] n']
  end.
  reflexivity.
Qed.

Lemma AddTemporalCompound_inserts (frame_header : ObuFrameHeader)
    (offsets : Z * Z) (s : TemporalState) (temporal : MotionVector * Z) :
  exists c,
    let s' := AddTemporalCompound frame_header offsets s temporal in
    compound_stack (t_num_mv_found s') (t_prediction_parameters s')
    = apply_insertion (TemporalInsertion c)
        (compound_stack (t_num_mv_found s) (t_prediction_parameters s)).
Proof.
  unfold AddTemporalCompound, apply_insertion, compound_stack.
  cbn [insertion_candidate insertion_weight].
  match goal with
  | |- context [InsertCandidate ?c 2 ?s] =>
      exists c; destruct (InsertCandidate c 2 s) as [[stack weights] n']
  end.
  reflexivity.
Qed.

Section InsertionSequences.

Context {A : Type} `{EqDecision A}.

Lemma total_weight_nonneg (l : list (Insertion A)) :
  nonnegative_weights l -> 0 <= total_weight l.
Proof.
  induction 1 as [| i l Hi Hl IH]; cbn; [lia |].
  unfold total_weight in IH. lia.
Qed.

Lemma total_weight_app (l l' : list (Insertion A)) :
  total_weight (l ++ l') = total_weight l + total_weight l'.
Proof.
  unfold total_weight. induction l as [| i l IH]; cbn [app foldr]; lia.
Qed.

Lemma insert_all_inv (l : list (Insertion A)) (B : Z)
    (s : list A * list Z * nat) :
  stack_inv B s -> nonnegative_weights l -> B + total_weight l <= 4095 ->
  stack_inv (B + total_weight l) (insert_all l s).
Proof.
  revert B s. induction l as [| i l IH]; intros B s Hs Hl HB.
  - cbn. replace (B + 0) with B by lia. exact Hs.
  - inversion Hl as [| ? ? Hi Hl']; subst.
    pose proof (total_weight_nonneg l Hl') as Hnn.
    cbn [total_weight foldr] in *. fold (total_weight l) in *.
    cbn [insert_all foldl]. fold (insert_all l (apply_insertion i s)).
    replace (B + (insertion_weight i + total_weight l))
      with (B + insertion_weight i + total_weight l) by lia.
    apply IH; [| exact Hl' | lia].
    apply InsertCandidate_inv; [exact Hs | exact Hi | lia].
Qed.

Lemma empty_stack_inv (stack : list A) (weights : list Z) :
  length stack = kMaxRefMvStackSize -> length weights = kMaxRefMvStackSize ->
  stack_inv 0 (stack, weights, 0%nat).
Proof.
  intros Hs Hw. unfold stack_inv.
  (split; [| split; [| split; [| split; [| split]]]]);
    try assumption; try lia; try apply NoDup_nil_2.
  intros i Hi; lia.
Qed.

Lemma InsertCandidate_distinct (c : A) (w : Z) (s : list A * list Z * nat) :
  distinct_inv s -> distinct_inv (InsertCandidate c w s).
Proof.
  destruct s as [[stack weights] n]. intros (Hn & Hls & Hlw & Hnd).
  destruct (InsertCandidate_cases stack weights n c w Hnd)
    as [(i & Hi & Hl & ->) | [(Hnew & Hlt & ->) | (Hnew & Hge & ->)]];
    unfold kMaxRefMvStackSize in *;
    (split; [| split; [| split]]); try assumption.
  - unfold IncreaseWeight. rewrite length_alter. assumption.
  - rewrite length_insert. assumption.
  - unfold SetWeightIndexStackEntry. rewrite length_insert. assumption.
  - rewrite (take_S_r _ _ c) by (apply list_lookup_insert_eq; lia).
    rewrite take_insert_ge by lia.
    apply list.NoDup_app.
    split; [assumption |]. split; [| apply NoDup_singleton].
    intros x Hx Hx'. apply list_elem_of_singleton in Hx'. subst x. auto.
Qed.

Lemma insert_all_distinct (l : list (Insertion A)) (s : list A * list Z * nat) :
  distinct_inv s -> distinct_inv (insert_all l s).
Proof.
  revert s. induction l as [| i l IH]; intros s Hs; [exact Hs |].
  cbn [insert_all foldl]. fold (insert_all l (apply_insertion i s)).
  apply IH, InsertCandidate_distinct, Hs.
Qed.

End InsertionSequences.

(** C2.  Start from an empty stack and perform any sequence of spatial and
    temporal insertions.  No two live entries are equal, before and after
    the next insertion.  An insertion of a value already in slot i changes
    neither the entries, the length nor the other weights, and adds its
    weight to the weight of slot i; the packed [int16_t] entries hold the sum
    as long as the weights are not negative and add up to at most 4095 (the
    scans of one block stay below 1312).  A new value is appended at its
    weight when the length is below 8; at length 8 it is dropped and the
    stack, the weights and the length stay as they were. *)
Theorem insertions_deduplicate {A : Type} `{EqDecision A}
    (stack0 : list A) (weights0 : list Z) (done : list (Insertion A))
    (next : Insertion A) :
  length stack0 = kMaxRefMvStackSize ->
  length weights0 = kMaxRefMvStackSize ->
  let c := insertion_candidate next in
  let w := insertion_weight next in
  let '(stack, weights, n) := insert_all done (stack0, weights0, 0%nat) in
  let '(stack', weights', n') := apply_insertion next (stack, weights, n) in
  NoDup (take n stack) /\ NoDup (take n' stack')
  /\ (forall i, (i < n)%nat -> stack !! i = Some c ->
        stack' = stack /\ n' = n
        /\ (forall j, j <> i -> weights' !! j = weights !! j)
        /\ (nonnegative_weights (done ++ [next]) ->
            total_weight (done ++ [next]) <= 4095 ->
            entry_weight <$> weights' !! i
            = (fun e => entry_weight e + w) <$> weights !! i
            /\ entry_index <$> weights' !! i = entry_index <$> weights !! i))
  /\ (c ∉ take n stack -> (n < kMaxRefMvStackSize)%nat ->
        stack' = <[n := c]> stack /\ n' = Datatypes.S n
        /\ stack' !! n = Some c
        /\ (forall j, j <> n -> weights' !! j = weights !! j)
        /\ (0 <= w <= 4095 ->
            entry_weight <$> weights' !! n = Some w
            /\ entry_index <$> weights' !! n = Some (Z.of_nat n)))
  /\ (c ∉ take n stack -> (kMaxRefMvStackSize <= n)%nat ->
        stack' = stack /\ weights' = weights /\ n' = n).
Proof.
  intros Hs Hw c w.
  assert (distinct_inv (stack0, weights0, 0%nat)) as Hd0.
  { unfold distinct_inv. repeat split; try assumption.
    - unfold kMaxRefMvStackSize. lia.
    - apply NoDup_nil_2. }
  pose proof (insert_all_distinct done _ Hd0) as Hd.
  pose proof (fun Hnn Htot =>
                insert_all_inv done 0 (stack0, weights0, 0%nat)
                  (empty_stack_inv stack0 weights0 Hs Hw) Hnn Htot) as Hinv.
  destruct (insert_all done _) as [[stack weights] n].
  pose proof (InsertCandidate_distinct c w _ Hd) as Hd'.
  destruct Hd as (Hn & Hls & Hlw & Hnd).
  unfold apply_insertion. fold c w.
  assert (forall i, (i < n)%nat -> stack !! i = Some c -> c ∈ take n stack) as Hin.
  { intros i Hi Hl. apply elem_of_take. eauto. }
  destruct (InsertCandidate_cases stack weights n c w Hnd)
    as [(i & Hi & Hl & E) | [(Hnew & Hlt & E) | (Hnew & Hge & E)]];
    rewrite E in *; destruct Hd' as (Hn' & _ & _ & Hnd');
    (split; [exact Hnd |]); (split; [exact Hnd' |]);
    unfold kMaxRefMvStackSize in *.
  - split; [| split; intros Hnot; exfalso; apply Hnot; eauto].
    intros i' Hi' Hl'.
    assert (i' = i) as ->.
    { apply (NoDup_lookup (take n stack) i' i c Hnd);
        rewrite lookup_take_lt by assumption; assumption. }
    split; [reflexivity |]. split; [reflexivity |].
    split; [intros j Hj; apply IncreaseWeight_other; auto |].
    intros Hnn Htot.
    apply Forall_app in Hnn as [Hdone Hnext].
    apply Forall_inv in Hnext. fold w in Hnext.
    rewrite total_weight_app in Htot.
    cbn [total_weight foldr] in Htot. fold (total_weight done) w in Htot.
    pose proof (total_weight_nonneg done Hdone) as Hpos.
    destruct (Hinv Hdone ltac:(lia)) as (_ & _ & _ & _ & _ & Hp).
    destruct (Hp i Hi) as (w0 & Hw0 & Hr0).
    rewrite (IncreaseWeight_packed weights i w0 w) by (assumption || lia).
    rewrite Hw0. cbn [fmap option_fmap option_map].
    rewrite !entry_weight_packed, !entry_index_packed by lia.
    split; reflexivity.
  - split; [intros i Hi Hl; exfalso; eauto |].
    split; [| intros _ Hge; lia].
    intros _ _.
    split; [reflexivity |]. split; [reflexivity |].
    split; [apply list_lookup_insert_eq; lia |].
    split; [intros j Hj; apply SetWeightIndexStackEntry_other; auto |].
    intros Hw4.
    rewrite (SetWeightIndexStackEntry_packed weights n w) by lia.
    cbn [fmap option_fmap option_map].
    rewrite entry_weight_packed, entry_index_packed by lia.
    split; reflexivity.
  - split; [intros i Hi Hl; exfalso; eauto |].
    split; [intros _ Hlt; lia |].
    intros _ _. repeat split; reflexivity.
Qed.

(** The second of the two insertions of the scenario. *)
Lemma insertions_deduplicate_witness :
  let c := insertion_candidate scenario_next in
  let w := insertion_weight scenario_next in
  let '(stack, weights, n) :=
    insert_all scenario_done (replicate 8 zero_mv_value, replicate 8 0, 0%nat) in
  let '(stack', weights', n') := apply_insertion scenario_next (stack, weights, n) in
  NoDup (take n stack) /\ NoDup (take n' stack')
  /\ (forall i, (i < n)%nat -> stack !! i = Some c ->
        stack' = stack /\ n' = n
        /\ (forall j, j <> i -> weights' !! j = weights !! j)
        /\ (nonnegative_weights (scenario_done ++ [scenario_next]) ->
            total_weight (scenario_done ++ [scenario_next]) <= 4095 ->
            entry_weight <$> weights' !! i
            = (fun e => entry_weight e + w) <$> weights !! i
            /\ entry_index <$> weights' !! i = entry_index <$> weights !! i))
  /\ (c ∉ take n stack -> (n < kMaxRefMvStackSize)%nat ->
        stack' = <[n := c]> stack /\ n' = Datatypes.S n
        /\ stack' !! n = Some c
        /\ (forall j, j <> n -> weights' !! j = weights !! j)
        /\ (0 <= w <= 4095 ->
            entry_weight <$> weights' !! n = Some w
            /\ entry_index <$> weights' !! n = Some (Z.of_nat n)))
  /\ (c ∉ take n stack -> (kMaxRefMvStackSize <= n)%nat ->
        stack' = stack /\ weights' = weights /\ n' = n).
Proof.
  apply (insertions_deduplicate (replicate 8 zero_mv_value) (replicate 8 0)
           scenario_done scenario_next).
  - reflexivity.
  - reflexivity.
Defined.

Example insertions_scenario :
  let '(stack, weights, n) :=
    insert_all (scenario_done ++ [scenario_next])
      (replicate 8 zero_mv_value, replicate 8 0, 0%nat) in
  n = 1%nat /\ stack !! 0%nat = Some (MkMv 8 (-16))
  /\ entry_weight <$> weights !! 0%nat = Some 10.
Proof. vm_compute. repeat split; reflexivity. Qed.

(** ** Ranking *)

Lemma packed_gt_ranks (a b : Z) :
  is_packed a -> is_packed b -> b < a -> ranks_before a b.
Proof.
  intros (i & wa & Hi & Hwa & ->) (j & wb & Hj & Hwb & ->) Hlt.
  unfold ranks_before.
  rewrite !entry_weight_packed, !entry_index_packed by assumption.
  unfold packed in Hlt. lia.
Qed.

Lemma insert_descending_perm (x : Z) (l : list Z) :
  insert_descending x l ≡ₚ x :: l.
Proof.
  induction l as [| y l IH]; cbn; [reflexivity |].
  destruct (y <? x); [reflexivity |].
  rewrite IH. apply Permutation_swap.
Qed.

Lemma std_sort_perm (l : list Z) : std_sort l ≡ₚ l.
Proof.
  induction l as [| x l IH]; cbn; [reflexivity |].
  rewrite insert_descending_perm, IH. reflexivity.
Qed.

Lemma insert_descending_sorted (x : Z) (l : list Z) :
  StronglySorted Z.ge l -> StronglySorted Z.ge (insert_descending x l).
Proof.
  induction 1 as [| y l Hl IH Hy]; cbn.
  - constructor; constructor.
  - destruct (Z.ltb_spec y x).
    + constructor; [constructor; assumption |].
      constructor; [lia |].
      eapply Forall_impl; [| exact Hy]. cbv beta. intros z Hz. lia.
    + constructor; [exact IH |].
      rewrite insert_descending_perm. constructor; [lia | exact Hy].
Qed.

Lemma std_sort_sorted (l : list Z) : StronglySorted Z.ge (std_sort l).
Proof.
  induction l as [| x l IH]; cbn; [constructor |].
  apply insert_descending_sorted. exact IH.
Qed.

(** [SortWeightIndexStack] arranges the first [size] entries in
    non-increasing order and leaves the rest. *)
Lemma SortWeightIndexStack_spec (size : nat) (w : list Z) :
  (size <= length w)%nat ->
  exists sorted,
    SortWeightIndexStack size w = sorted ++ drop size w
    /\ sorted ≡ₚ take size w
    /\ StronglySorted Z.ge sorted.
Proof.
  intros Hlen. unfold SortWeightIndexStack.
  destruct (Nat.leb_spec size 1) as [H1 | H1].
  { exists (take size w). rewrite take_drop. split; [reflexivity |].
    split; [reflexivity |].
    destruct size as [| [| size]]; [| | lia].
    - constructor.
    - destruct w as [| a w]; cbn; repeat constructor. }
  destruct (Nat.leb_spec size 3) as [H3 | H3].
  - destruct w as [| a [| b w]]; cbn [length] in Hlen; try lia.
    cbn [nth]. unfold DescendingOrderTwo.
    destruct (Nat.eqb_spec size 3) as [-> | Hne].
    + destruct w as [| c w]; cbn [length] in Hlen; try lia.
      cbn [nth take drop].
      repeat match goal with
             | |- context [?x <? ?y] => destruct (Z.ltb_spec x y)
             end;
        cbn [insert list_insert]; rewrite drop_0, take_0;
        match goal with
        | |- exists s, ?x :: ?y :: ?z :: w = s ++ w /\ _ => exists [x; y; z]
        end;
        (split; [reflexivity |]);
        (split; [| repeat constructor; lia]);
        first [ reflexivity
              | apply Permutation_swap
              | apply perm_skip, Permutation_swap
              | eapply perm_trans; [apply Permutation_swap |];
                apply perm_skip, Permutation_swap
              | eapply perm_trans; [apply perm_skip, Permutation_swap |];
                apply Permutation_swap
              | eapply perm_trans; [apply Permutation_swap |];
                eapply perm_trans; [apply perm_skip, Permutation_swap |];
                apply Permutation_swap ].
    + assert (size = 2%nat) as -> by lia. cbn [take drop].
      destruct (Z.ltb_spec a b); cbn [insert list_insert];
        rewrite drop_0, take_0;
        match goal with
        | |- exists s, ?x :: ?y :: w = s ++ w /\ _ => exists [x; y]
        end;
        (split; [reflexivity |]);
        (split; [first [reflexivity | apply Permutation_swap]
                | repeat constructor; lia]).
  - exists (std_sort (take size w)). split; [reflexivity |].
    split; [apply std_sort_perm | apply std_sort_sorted].
Qed.

Lemma SortGroups_spec (nearest n : nat) (w : list Z) :
  (nearest <= n <= length w)%nat ->
  exists g1 g2,
    SortGroups nearest n w = g1 ++ g2 ++ drop n w
    /\ g1 ≡ₚ take nearest w /\ StronglySorted Z.ge g1
    /\ g2 ≡ₚ take (n - nearest) (drop nearest w)
    /\ ((nearest < 4)%nat -> StronglySorted Z.ge g2)
    /\ ((4 <= nearest)%nat -> g2 = take (n - nearest) (drop nearest w)).
Proof.
  intros [Hk Hn]. unfold SortGroups.
  destruct (SortWeightIndexStack_spec nearest w ltac:(lia)) as (g1 & E1 & P1 & S1).
  rewrite E1.
  assert (length g1 = nearest) as Hl1.
  { rewrite (Permutation_length P1), length_take. lia. }
  assert (drop (n - nearest) (drop nearest w) = drop n w) as Hdd.
  { rewrite drop_drop. f_equal. lia. }
  exists g1.
  destruct (Nat.ltb_spec nearest 4) as [H4 | H4].
  - rewrite take_app_length' by (symmetry; exact Hl1).
    rewrite drop_app_length' by (symmetry; exact Hl1).
    destruct (SortWeightIndexStack_spec (n - nearest) (drop nearest w))
      as (g2 & E2 & P2 & S2); [rewrite length_drop; lia |].
    exists g2. rewrite E2, Hdd.
    split; [reflexivity |]. split; [exact P1 |]. split; [exact S1 |].
    split; [exact P2 |]. split; [intros _; exact S2 | intros ?; lia].
  - exists (take (n - nearest) (drop nearest w)).
    rewrite <- Hdd, take_drop.
    split; [reflexivity |]. split; [exact P1 |]. split; [exact S1 |].
    split; [reflexivity |]. split; [intros ?; lia | intros _; reflexivity].
Qed.

Lemma sorted_ranked (l : list Z) :
  Forall is_packed l -> NoDup l -> StronglySorted Z.ge l -> ranked l.
Proof.
  intros Hp Hnd Hs. unfold ranked.
  induction Hs as [| a l Hs IH Ha]; [constructor |].
  inversion Hp as [| ? ? Hpa Hpl]; subst.
  apply list.NoDup_cons in Hnd as [Hna Hnd].
  constructor; [apply IH; assumption |].
  rewrite Forall_forall in *. intros b Hb.
  apply packed_gt_ranks; [exact Hpa | apply Hpl; exact Hb |].
  specialize (Ha b Hb).
  assert (a <> b) by (intros ->; apply Hna, list_elem_of_In; exact Hb).
  lia.
Qed.

(** A segment of the live part of a packed array holds packed entries, no
    two of them equal. *)
Lemma weights_packed_segment (B : Z) (n lo len : nat) (w : list Z) :
  weights_packed B n w -> (n <= 8)%nat -> (lo + len <= n)%nat ->
  Forall is_packed (take len (drop lo w)) /\ NoDup (take len (drop lo w)).
Proof.
  intros Hp Hn Hseg.
  assert (forall i x, take len (drop lo w) !! i = Some x ->
            exists wi, x = packed (lo + i) wi /\ 0 <= wi /\ (lo + i < 8)%nat)
    as Hlook.
  { intros i x Hx. apply lookup_take_Some in Hx as [Hx Hi].
    rewrite lookup_drop in Hx.
    destruct (Hp (lo + i)%nat ltac:(lia)) as (wi & Hwi & Hr).
    rewrite Hwi in Hx. injection Hx as <-.
    exists wi. split; [reflexivity | split; lia]. }
  split.
  - apply Forall_lookup. intros i x Hx.
    destruct (Hlook i x Hx) as (wi & -> & Hwi & Hlt).
    exists (lo + i)%nat, wi. auto.
  - apply NoDup_alt. intros i j x Hi Hj.
    destruct (Hlook i x Hi) as (wi & -> & Hwi & Hlti).
    destruct (Hlook j _ Hj) as (wj & Hj' & Hwj & Hltj).
    apply (f_equal entry_index) in Hj'.
    rewrite !entry_index_packed in Hj' by assumption. lia.
Qed.

Lemma ranked_group (B : Z) (n lo len : nat) (w g : list Z) :
  weights_packed B n w -> (n <= 8)%nat -> (lo + len <= n)%nat ->
  g ≡ₚ take len (drop lo w) -> StronglySorted Z.ge g -> ranked g.
Proof.
  intros Hp Hn Hseg Hperm Hs.
  destruct (weights_packed_segment B n lo len w Hp Hn Hseg) as [Hf Hnd].
  apply sorted_ranked; [| | exact Hs].
  - rewrite Hperm. exact Hf.
  - rewrite Hperm. exact Hnd.
Qed.

(** C3.  When the scans of [FindMvStack] end with at least two candidates,
    the entries of the weight-index array, through which the stack is
    read, are ranked in two groups: the first [nearest_mv_count] entries are
    a permutation of themselves ranked by descending weight, ties in the
    order of their slots; the entries from [nearest_mv_count] up to the
    count are a permutation of themselves, ranked likewise when
    [nearest_mv_count] < 4 and left as they were otherwise; the stacks
    themselves and the counts are not changed.  Before the sort the entry
    of slot i carries the index i. *)
Theorem FindMvStack_ranks_two_groups (block : Block) (is_compound : bool)
    (pp : PredictionParameters) (l : Locals) (nearest_matches zero : Z) :
  stacks_allocated pp ->
  AllScans block is_compound pp = Some (l, nearest_matches, zero) ->
  (2 <= l_num_mv_found l)%nat ->
  let before := l_prediction_parameters l in
  let n := l_num_mv_found l in
  let nearest := nearest_mv_count before in
  exists pp' contexts g1 g2,
    FindMvStack block is_compound pp = Some (pp', contexts)
    /\ ref_mv_count pp' = n /\ nearest_mv_count pp' = nearest
    /\ (nearest <= n <= kMaxRefMvStackSize)%nat
    /\ ref_mv_stack pp' = ref_mv_stack before
    /\ compound_ref_mv_stack pp' = compound_ref_mv_stack before
    /\ (forall i, (i < n)%nat ->
          exists e, weight_index_stack before !! i = Some e
                    /\ entry_index e = Z.of_nat i /\ 0 <= entry_weight e)
    /\ weight_index_stack pp' = g1 ++ g2 ++ drop n (weight_index_stack before)
    /\ g1 ≡ₚ take nearest (weight_index_stack before)
    /\ ranked g1
    /\ g2 ≡ₚ take (n - nearest) (drop nearest (weight_index_stack before))
    /\ ((nearest < 4)%nat -> ranked g2)
    /\ ((4 <= nearest)%nat ->
        g2 = take (n - nearest) (drop nearest (weight_index_stack before))).
Proof.
  intros Ha E Hn2 before n nearest.
  pose proof (AllScans_inv block is_compound pp l nearest_matches zero Ha E)
    as (_ & Hlo & Hs).
  fold before n nearest in Hlo, Hs.
  assert ((n <= 8)%nat /\ length (weight_index_stack before) = 8%nat
          /\ weights_packed 1312 n (weight_index_stack before))
    as (Hn8 & Hlw & Hp).
  { unfold live_stack in Hs.
    destruct is_compound; destruct Hs as (? & _ & ? & _ & _ & ?); auto. }
  destruct (SortGroups_spec nearest n (weight_index_stack before) ltac:(lia))
    as (g1 & g2 & Eg & P1 & S1 & P2 & S2 & U2).
  unfold FindMvStack. rewrite E. option_step.
  fold before n nearest.
  destruct (Nat.ltb_spec n 2) as [? | _]; [lia |].
  option_step. destruct (ComputeContexts _ _ _) as [c1 c2].
  eexists; eexists; exists g1, g2.
  split; [reflexivity |]. cbn.
  split; [reflexivity |]. split; [reflexivity |].
  split; [unfold kMaxRefMvStackSize; lia |].
  split; [reflexivity |]. split; [reflexivity |].
  split.
  { intros i Hi. destruct (Hp i Hi) as (w & Hw & Hr).
    exists (packed i w). split; [exact Hw |].
    rewrite entry_index_packed, entry_weight_packed by lia.
    split; [reflexivity | lia]. }
  split; [exact Eg |]. split; [exact P1 |].
  split.
  { apply (ranked_group 1312 n 0 nearest (weight_index_stack before));
      try assumption; try lia. }
  split; [exact P2 |].
  split; [| exact U2].
  intros H4.
  apply (ranked_group 1312 n nearest (n - nearest) (weight_index_stack before));
    try assumption; try lia. apply S2. exact H4.
Qed.

Lemma FindMvStack_ranks_two_groups_witness :
  exists pp' contexts g1 g2,
    FindMvStack ranking_block false fresh_parameters = Some (pp', contexts)
    /\ ref_mv_count pp' = 5%nat /\ nearest_mv_count pp' = 4%nat
    /\ weight_index_stack pp' = g1 ++ g2 ++ [0; 0; 0]
    /\ g1 ≡ₚ [23; 22; 37; 36] /\ ranked g1 /\ g2 = [35].
Proof.
  assert (exists l nm z,
            AllScans ranking_block false fresh_parameters = Some (l, nm, z)
            /\ l_num_mv_found l = 5%nat
            /\ nearest_mv_count (l_prediction_parameters l) = 4%nat
            /\ weight_index_stack (l_prediction_parameters l)
               = [23; 22; 37; 36; 35; 0; 0; 0])
    as (l & nm & z & E & Hn & Hk & Hw).
  { eexists; eexists; eexists. split; [vm_compute; reflexivity |].
    repeat split; reflexivity. }
  destruct (FindMvStack_ranks_two_groups ranking_block false fresh_parameters
              l nm z) as (pp' & contexts & g1 & g2 & H).
  - repeat split; reflexivity.
  - exact E.
  - rewrite Hn. lia.
  - rewrite Hn, Hk, Hw in H.
    destruct H as (EF & Hc & Hnc & _ & _ & _ & _ & Hws & P1 & R1 & _ & _ & U2).
    exists pp', contexts, g1, g2.
    split; [exact EF |]. split; [exact Hc |]. split; [exact Hnc |].
    split; [exact Hws |]. split; [exact P1 |]. split; [exact R1 |].
    apply U2. lia.
Defined.

(** The same block evaluated: the four nearest entries are reordered by
    weight, the fifth stays in its place. *)
Example FindMvStack_ranking_example :
  (fun r => match r with
            | Some (pp', _) => Some (weight_index_stack pp')
            | None => None
            end) (FindMvStack ranking_block false fresh_parameters)
  = Some [37; 36; 23; 22; 35; 0; 0; 0].
Proof. vm_compute. reflexivity. Qed.

(** ** The projection formula *)

Lemma to_int32_id (x : Z) : - 2 ^ 31 <= x < 2 ^ 31 -> to_int32 x = x.
Proof.
  intros H. unfold to_int32.
  rewrite Z.mod_small by lia. lia.
Qed.

Lemma RightShiftWithRoundingSigned_14 (x : Z) :
  RightShiftWithRoundingSigned x 14 = round_2_14 x.
Proof.
  unfold RightShiftWithRoundingSigned, RightShiftWithRounding, round_2_14.
  change (Z.shiftr (Z.shiftl 1 14) 1) with 8192.
  rewrite !Z.shiftr_div_pow2 by lia. change (2 ^ 14) with 16384.
  destruct (Z.leb_spec 0 x) as [H | H].
  - destruct (Z.eq_dec x 0) as [-> | Hne]; [reflexivity |].
    rewrite Z.sgn_pos, Z.abs_eq by lia. lia.
  - rewrite Z.sgn_neg, Z.abs_neq by lia. lia.
Qed.

Lemma Clip3_max_min (value bound : Z) :
  0 <= bound -> Clip3 value (- bound) bound = Z.max (- bound) (Z.min bound value).
Proof.
  intros H. unfold Clip3.
  destruct (Z.ltb_spec value (- bound)); [lia |].
  destruct (Z.gtb_spec value bound); lia.
Qed.

Lemma Clip3_id (value low high : Z) :
  low <= value <= high -> Clip3 value low high = value.
Proof.
  intros H. unfold Clip3.
  destruct (Z.ltb_spec value low); [lia |].
  destruct (Z.gtb_spec value high); lia.
Qed.

Lemma kProjectionMvDivisionLookup_range (denominator : Z) :
  1 <= denominator <= kMaxFrameDistance ->
  kProjectionMvDivisionLookup denominator = 16384 / denominator
  /\ 1 <= 16384 / denominator <= 16384.
Proof.
  unfold kProjectionMvDivisionLookup, kMaxFrameDistance. intros H.
  destruct (Z.leb_spec 1 denominator); [| lia].
  destruct (Z.leb_spec denominator 31); [| lia].
  split; [reflexivity |]. split.
  - apply Z.div_le_lower_bound; lia.
  - apply Z.div_le_upper_bound; lia.
Qed.

(** Where the product does not leave 32 bits the code computes the formula
    of the design document. *)
Lemma GetMvProjectionComponent_formula (v numerator denominator : Z) :
  1 <= denominator <= kMaxFrameDistance ->
  Z.abs (v * numerator * (16384 / denominator)) + 8192 < 2 ^ 31 ->
  GetMvProjectionComponent v numerator denominator
  = projection_formula v numerator denominator.
Proof.
  intros Hd Hp. unfold GetMvProjectionComponent, projection_formula.
  destruct (kProjectionMvDivisionLookup_range denominator Hd) as [-> Hl].
  assert (Z.abs (v * numerator) <= Z.abs (v * numerator * (16384 / denominator))).
  { rewrite (Z.abs_mul (v * numerator)). rewrite (Z.abs_eq (16384 / _)) by lia.
    pose proof (Z.abs_nonneg (v * numerator)). nia. }
  rewrite (to_int32_id (v * numerator)) by lia.
  rewrite to_int32_id by lia.
  rewrite RightShiftWithRoundingSigned_14.
  apply (Clip3_max_min _ 16383). lia.
Qed.

Lemma GetMvProjection_formula (m : MotionVector) (numerator denominator : Z) :
  projection_exact m numerator denominator ->
  GetMvProjection m numerator denominator = projected_vector m numerator denominator.
Proof.
  intros (Hd & Hn & H0 & H1). unfold GetMvProjection, projected_vector.
  rewrite Clip3_id by exact Hn.
  rewrite !GetMvProjectionComponent_formula by assumption. reflexivity.
Qed.

Lemma GetMvProjection_zero_numerator (m : MotionVector) (denominator : Z) :
  GetMvProjection m 0 denominator = MkMv 0 0.
Proof.
  unfold GetMvProjection, GetMvProjectionComponent.
  rewrite !Z.mul_0_r. reflexivity.
Qed.

Lemma LowerMvPrecision_zero (frame_header : ObuFrameHeader) :
  LowerMvPrecision frame_header (MkMv 0 0) = MkMv 0 0.
Proof.
  unfold LowerMvPrecision.
  destruct (allow_high_precision_mv _); [reflexivity |].
  destruct (negb _); reflexivity.
Qed.

(** The candidate of the code is the lowered projection, also when the
    reference offset is zero. *)
Lemma TemporalCandidateMv_projection (frame_header : ObuFrameHeader)
    (reference_offset : Z) (temporal : MotionVector * Z) :
  TemporalCandidateMv frame_header reference_offset temporal
  = LowerMvPrecision frame_header
      (GetMvProjection (fst temporal) reference_offset (snd temporal)).
Proof.
  unfold TemporalCandidateMv.
  destruct (Z.eqb_spec reference_offset 0) as [-> | Hne]; [| reflexivity].
  cbn [negb]. rewrite GetMvProjection_zero_numerator, LowerMvPrecision_zero.
  reflexivity.
Qed.

(** The maximum of the code is the maximum over the components. *)
Lemma ZeroMvFromCandidate_max_deviation (frame_header : ObuFrameHeader)
    (is_compound : bool) (offsets : Z * Z)
    (global : MotionVector * MotionVector) (temporal : MotionVector * Z) :
  ZeroMvFromCandidate frame_header is_compound offsets global temporal
  = if 16 <=? max_deviation
                (in_use is_compound
                   (LowerMvPrecision frame_header
                      (GetMvProjection (fst temporal) (fst offsets) (snd temporal)),
                    LowerMvPrecision frame_header
                      (GetMvProjection (fst temporal) (snd offsets) (snd temporal))))
                (in_use is_compound global)
    then 1 else 0.
Proof.
  unfold ZeroMvFromCandidate. rewrite !TemporalCandidateMv_projection.
  set (c0 := LowerMvPrecision _ _). set (c1 := LowerMvPrecision _ _).
  destruct is_compound; cbn [in_use];
    unfold max_deviation, components, CompoundMaxDifference, MaxDifference;
    cbn [mbind list_bind concat_map fmap list_fmap app zip_with foldr fst snd
         cmv0 cmv1 mjoin list_join];
    match goal with
    | |- Z.b2z (16 <=? ?a) = (if 16 <=? ?b then 1 else 0) =>
        replace b with a by (pose proof (Z.abs_nonneg (mv0 c0 - mv0 (fst global)));
                             pose proof (Z.abs_nonneg (mv1 c0 - mv1 (fst global)));
                             lia)
    end;
    destruct (16 <=? _); reflexivity.
Qed.

(** ** The zero-MV context *)

Lemma grid_extends_refl (g : GridState) : grid_extends g g.
Proof. split; [reflexivity |]. exists []. rewrite app_nil_r. auto. Qed.

Lemma grid_extends_trans (g1 g2 g3 : GridState) :
  grid_extends g1 g2 -> grid_extends g2 g3 -> grid_extends g1 g3.
Proof.
  intros [H1 (m1 & E1 & F1)] [H2 (m2 & E2 & F2)].
  split; [congruence |]. exists (m1 ++ m2).
  rewrite E2, E1, app_assoc. split; [reflexivity |].
  apply Forall_app. auto.
Qed.

Lemma grid_extends_snoc (g : GridState) (c : MotionVector * Z) :
  valid_cell c -> grid_extends g (fst g, snd g ++ [c]).
Proof. intros Hc. split; [reflexivity |]. exists [c]. auto. Qed.

Lemma eqb_invalid_false (c : MotionVector * Z) :
  (mv0 (fst c) =? kInvalidMvValue) = false -> valid_cell c.
Proof. intros H. apply Z.eqb_neq. exact H. Qed.

(** Only the first position of the grid can write the context. *)
Lemma TemporalScanCell_extends (block : Block) (row_start column_start : Z)
    (offset mv_row mv_column : Z) (g : GridState) :
  mv_row <> row_start \/ mv_column <> column_start ->
  grid_extends g
    (TemporalScanCell block row_start column_start offset mv_row mv_column g).
Proof.
  intros Hne. unfold TemporalScanCell.
  destruct (IsBottomRightInside _ _ _); [| apply grid_extends_refl].
  destruct (_ =? kInvalidMvValue) eqn:Hv.
  - assert ((mv_row =? row_start) && (mv_column =? column_start) = false) as ->.
    { apply andb_false_iff. destruct Hne as [H | H]; [left | right];
        apply Z.eqb_neq; exact H. }
    apply grid_extends_refl.
  - apply grid_extends_snoc, eqb_invalid_false. exact Hv.
Qed.

Lemma TemporalScanGridRow_first (block : Block) (offset : Z) (g g' : GridState) :
  TemporalScanGridRow block offset (first_row block) g = Some g' ->
  grid_extends
    (TemporalScanCell block (first_row block) (first_column block) offset
       (first_row block) (first_column block) g) g'.
Proof.
  unfold TemporalScanGridRow, do_while. fold (first_row block) (first_column block).
  set (g1 := TemporalScanCell _ _ _ _ _ _ g).
  apply (while_loop_invariant _ _
           (fun i t => first_column block < i /\ grid_extends g1 t)
           (grid_extends g1)).
  - intros i t [Hi Ht] _. split; [destruct (16 <=? width4x4 block); lia |].
    eapply grid_extends_trans; [exact Ht |].
    apply TemporalScanCell_extends. right. lia.
  - intros i t [_ Ht] _. exact Ht.
  - split; [destruct (16 <=? width4x4 block); lia | apply grid_extends_refl].
Qed.

Lemma TemporalScanGridRow_other (block : Block) (offset mv_row : Z)
    (g g' : GridState) :
  mv_row <> first_row block ->
  TemporalScanGridRow block offset mv_row g = Some g' ->
  grid_extends g g'.
Proof.
  intros Hne. unfold TemporalScanGridRow.
  apply (do_while_invariant _ _ (fun _ t => grid_extends g t) (grid_extends g)).
  - apply TemporalScanCell_extends. left. exact Hne.
  - intros i t Ht _. eapply grid_extends_trans; [exact Ht |].
    apply TemporalScanCell_extends. left. exact Hne.
  - intros i t Ht _. exact Ht.
Qed.

Lemma TemporalScanGrid_first (block : Block) (g g' : GridState) :
  TemporalScanGrid block g = Some g' ->
  grid_extends (after_first_cell block g) g'.
Proof.
  unfold TemporalScanGrid. fold (first_row block).
  intros H.
  destruct (do_while 8 _ _ _ _) as [r |] eqn:E; [| discriminate].
  cbn in H. injection H as <-.
  unfold do_while in E. cbn [fst snd] in E.
  destruct (TemporalScanGridRow block _ (first_row block) g) as [g1 |] eqn:E1;
    [| discriminate].
  apply TemporalScanGridRow_first in E1. fold (first_offset block) in E1.
  fold (after_first_cell block g) in E1.
  cbn [mbind option_bind] in E.
  revert E.
  apply (while_loop_invariant _ _
           (fun i (s : Z * GridState) =>
              first_row block < i /\ grid_extends (after_first_cell block g) (snd s))
           (fun s => grid_extends (after_first_cell block g) (snd s))).
  - intros i s [Hi Hs] _.
    destruct (TemporalScanGridRow block (fst s) i (snd s)) as [g2 |] eqn:E2;
      cbn; [| exact I].
    split; [destruct (16 <=? height4x4 block); lia |].
    eapply grid_extends_trans; [exact Hs |].
    apply (TemporalScanGridRow_other block (fst s) i); [lia | exact E2].
  - intros i s [_ Hs] _. exact Hs.
  - split; [destruct (16 <=? height4x4 block); lia | exact E1].
Qed.

Lemma foldl_extends {P : Type} (f : GridState -> P -> GridState)
    (l : list P) (g : GridState) :
  (forall g p, grid_extends g (f g p)) -> grid_extends g (foldl f g l).
Proof.
  intros Hf. revert g. induction l as [| p l IH]; intros g; cbn.
  - apply grid_extends_refl.
  - eapply grid_extends_trans; [apply Hf | apply IH].
Qed.

Lemma TemporalScanExtra_extends (block : Block) (g : GridState) :
  grid_extends g (TemporalScanExtra block g).
Proof.
  unfold TemporalScanExtra.
  destruct (kTemporalScanMask _); [| apply grid_extends_refl].
  apply foldl_extends. intros g0 [[row column] offset].
  destruct (negb (IsWithinTheSame64x64Block _ _ _)); [apply grid_extends_refl |].
  destruct (negb (IsBottomRightInside _ _ _)); [apply grid_extends_refl |].
  destruct (_ =? kInvalidMvValue) eqn:Hv; cbn [negb];
    [apply grid_extends_refl |].
  apply grid_extends_snoc, eqb_invalid_false. exact Hv.
Qed.

Lemma b2z_not_unset (b : bool) : Z.b2z b <> -1.
Proof. destruct b; discriminate. Qed.

(** First write wins: a context that is already set is never written. *)
Lemma AddTemporalReferenceMvCandidate_keeps_zero (frame_header : ObuFrameHeader)
    (offsets : Z * Z) (temporal : list (MotionVector * Z)) (is_compound : bool)
    (s : TemporalState) :
  zero_mv_context s <> -1 ->
  zero_mv_context
    (AddTemporalReferenceMvCandidate frame_header offsets temporal is_compound s)
  = zero_mv_context s.
Proof.
  unfold AddTemporalReferenceMvCandidate.
  revert s. induction temporal as [| t temporal IH]; intros s Hz.
  - destruct is_compound; reflexivity.
  - assert (forall z d, z <> -1 -> UpdateZeroMvContext z d = z) as Hu.
    { intros z d Hne. unfold UpdateZeroMvContext.
      destruct (Z.eqb_spec z (-1)); [contradiction | reflexivity]. }
    destruct is_compound; cbn [foldl].
    + rewrite IH.
      * unfold AddTemporalCompound.
        destruct (InsertCandidate _ _ _) as [[? ?] ?]. cbn. apply Hu, Hz.
      * unfold AddTemporalCompound.
        destruct (InsertCandidate _ _ _) as [[? ?] ?]. cbn. rewrite Hu; exact Hz.
    + rewrite IH.
      * unfold AddTemporalSingle.
        destruct (InsertCandidate _ _ _) as [[? ?] ?]. cbn. apply Hu, Hz.
      * unfold AddTemporalSingle.
        destruct (InsertCandidate _ _ _) as [[? ?] ?]. cbn. rewrite Hu; exact Hz.
Qed.

(** An unset context is written by the first candidate. *)
Lemma AddTemporalReferenceMvCandidate_sets_zero (frame_header : ObuFrameHeader)
    (offsets : Z * Z) (first : MotionVector * Z)
    (temporal : list (MotionVector * Z)) (is_compound : bool)
    (n : nat) (pp : PredictionParameters) :
  zero_mv_context
    (AddTemporalReferenceMvCandidate frame_header offsets (first :: temporal)
       is_compound (MkTemporalState (-1) n pp))
  = ZeroMvFromCandidate frame_header is_compound offsets (global_mv pp) first.
Proof.
  unfold AddTemporalReferenceMvCandidate, ZeroMvFromCandidate.
  destruct is_compound; cbn [foldl].
  - pose proof (AddTemporalReferenceMvCandidate_keeps_zero frame_header offsets
                  temporal true) as Hk.
    unfold AddTemporalReferenceMvCandidate in Hk. rewrite Hk.
    + unfold AddTemporalCompound.
      destruct (InsertCandidate _ _ _) as [[? ?] ?]. reflexivity.
    + unfold AddTemporalCompound.
      destruct (InsertCandidate _ _ _) as [[? ?] ?]. cbn. apply b2z_not_unset.
  - pose proof (AddTemporalReferenceMvCandidate_keeps_zero frame_header offsets
                  temporal false) as Hk.
    unfold AddTemporalReferenceMvCandidate in Hk. rewrite Hk.
    + unfold AddTemporalSingle.
      destruct (InsertCandidate _ _ _) as [[? ?] ?]. reflexivity.
    + unfold AddTemporalSingle.
      destruct (InsertCandidate _ _ _) as [[? ?] ?]. cbn. apply b2z_not_unset.
Qed.

Lemma after_first_cell_cases (block : Block) (z : Z) :
  after_first_cell block (z, [])
  = if first_sampled block then
      if mv0 (fst (first_cell block)) =? kInvalidMvValue
      then (1, []) else (z, [first_cell block])
    else (z, []).
Proof.
  unfold after_first_cell, TemporalScanCell, first_sampled, first_cell.
  rewrite !Z.eqb_refl. reflexivity.
Qed.

(** [FindMvStack] enters the temporal scan with the context unset, and
    without temporal MVs it fixes the context to 0. *)
Lemma TemporalStep_enters_unset (block : Block) (is_compound : bool) (l : Locals) :
  TemporalStep block is_compound l
  = if use_ref_frame_mvs (frame_header (tile block)) then
      t ← TemporalScan block is_compound
            (MkTemporalState (-1) (l_num_mv_found l) (l_prediction_parameters l));
      Some (MkLocals (l_found_new_mv l) (l_found_row_match l)
              (l_found_column_match l) (l_dummy_bool l)
              (t_num_mv_found t) (t_prediction_parameters t),
            zero_mv_context t)
    else Some (l, 0).
Proof. reflexivity. Qed.

(** C4.  [TemporalScan], entered with the context unset as [FindMvStack]
    enters it, returns; its candidates are the valid cells in the order of
    processing.  If the first grid position is sampled and holds no valid
    vector the context is 1, whatever comes later.  If it holds a valid
    vector it is the first candidate.  In every other case the context
    stays unset when there is no candidate, and otherwise it is written by
    the first candidate: 1 if the maximum over the components of the
    absolute deviation of the lowered projection of its vector from the
    global MV is at least 16 and 0 otherwise, where the projection is that
    of the formula of §4.3 whenever the distances are in range and the
    product fits 32 bits.  A context that is already set is not written by
    the candidates. *)
Theorem TemporalScan_zero_mv_context (block : Block) (is_compound : bool)
    (n : nat) (pp : PredictionParameters) :
  let frame_header := frame_header (tile block) in
  let offsets := TemporalReferenceOffsets block is_compound in
  exists t candidates,
    TemporalScan block is_compound (MkTemporalState (-1) n pp) = Some t
    /\ TemporalCandidates block = Some candidates
    /\ Forall valid_cell candidates
    /\ (first_sampled block = true ->
        mv0 (fst (first_cell block)) = kInvalidMvValue ->
        zero_mv_context t = 1)
    /\ (first_sampled block = true -> valid_cell (first_cell block) ->
        head candidates = Some (first_cell block))
    /\ (first_sampled block = false \/ valid_cell (first_cell block) ->
        match candidates with
        | [] => zero_mv_context t = -1
        | first :: _ =>
            let projected offset :=
              LowerMvPrecision frame_header
                (GetMvProjection (fst first) offset (snd first)) in
            zero_mv_context t
            = (if 16 <=? max_deviation
                           (in_use is_compound
                              (projected (fst offsets), projected (snd offsets)))
                           (in_use is_compound (global_mv pp))
               then 1 else 0)
            /\ forall offset,
                 projection_exact (fst first) offset (snd first) ->
                 GetMvProjection (fst first) offset (snd first)
                 = projected_vector (fst first) offset (snd first)
        end)
    /\ (forall z temporal, z <> -1 ->
          zero_mv_context
            (AddTemporalReferenceMvCandidate frame_header offsets temporal
               is_compound (MkTemporalState z n pp)) = z).
Proof.
  intros fh offsets.
  destruct (TemporalScanGrid_total block (-1, [])) as [g Eg].
  pose proof (grid_extends_trans _ _ _ (TemporalScanGrid_first block _ _ Eg)
                (TemporalScanExtra_extends block g)) as [Hz (more & Hc & Hv)].
  rewrite after_first_cell_cases in Hz, Hc.
  unfold TemporalScan, TemporalCandidates. cbn [zero_mv_context].
  rewrite Eg. option_step.
  cbn [t_num_mv_found t_prediction_parameters].
  fold fh offsets.
  set (g' := TemporalScanExtra block g) in *.
  exists (if negb (length (snd g') =? 0)%nat
          then AddTemporalReferenceMvCandidate fh offsets (snd g') is_compound
                 (MkTemporalState (fst g') n pp)
          else MkTemporalState (fst g') n pp), (snd g').
  split; [destruct (negb _); reflexivity |]. split; [reflexivity |].
  assert (Forall valid_cell (snd g')) as Hvalid.
  { rewrite Hc. destruct (first_sampled block); [| exact Hv].
    destruct (_ =? kInvalidMvValue) eqn:E; [exact Hv |].
    constructor; [apply eqb_invalid_false; exact E | exact Hv]. }
  split; [exact Hvalid |].
  split; [| split; [| split]].
  - intros Hs Hi. rewrite Hs in Hz, Hc.
    apply Z.eqb_eq in Hi. rewrite Hi in Hz, Hc. cbn [fst] in Hz.
    destruct (negb _); [| exact Hz].
    rewrite AddTemporalReferenceMvCandidate_keeps_zero; cbn [zero_mv_context];
      rewrite Hz; [reflexivity | discriminate].
  - intros Hs Hval. rewrite Hs in Hc.
    apply Z.eqb_neq in Hval. rewrite Hval in Hc. rewrite Hc. reflexivity.
  - intros Hcase.
    assert (fst g' = -1) as Hunset.
    { rewrite Hz. destruct (first_sampled block); [| reflexivity].
      destruct Hcase as [? | Hval]; [discriminate |].
      apply Z.eqb_neq in Hval. rewrite Hval. reflexivity. }
    rewrite Hunset.
    destruct (snd g') as [| first rest]; [reflexivity |].
    cbn [length Nat.eqb negb]. split.
    + rewrite AddTemporalReferenceMvCandidate_sets_zero.
      apply ZeroMvFromCandidate_max_deviation.
    + intros offset. apply GetMvProjection_formula.
  - intros z temporal Hne.
    apply AddTemporalReferenceMvCandidate_keeps_zero. exact Hne.
Qed.

Lemma TemporalScan_zero_mv_context_witness :
  (exists t,
     TemporalScan (temporal_block empty_field) false
       (MkTemporalState (-1) 0 fresh_parameters) = Some t
     /\ zero_mv_context t = 1)
  /\ (exists t,
        TemporalScan compound_temporal_block true
          (MkTemporalState (-1) 0 fresh_parameters) = Some t
        /\ TemporalReferenceOffsets compound_temporal_block true = (1, -2)
        /\ projected_vector (MkMv 100 0) 1 1 = MkMv 100 0
        /\ projected_vector (MkMv 100 0) (-2) 1 = MkMv (-200) 0
        /\ max_deviation [MkMv 100 0; MkMv (-200) 0] [MkMv 0 0; MkMv 0 0] = 200
        /\ zero_mv_context t = 1).
Proof.
  split.
  - destruct (TemporalScan_zero_mv_context (temporal_block empty_field) false 0
                fresh_parameters) as (t & candidates & E & _ & _ & H1 & _).
    exists t. split; [exact E |]. apply H1; reflexivity.
  - destruct (TemporalScan_zero_mv_context compound_temporal_block true 0
                fresh_parameters)
      as (t & candidates & E & Ec & _ & _ & Hh & Hf & _).
    exists t. split; [exact E |]. split; [reflexivity |].
    split; [reflexivity |]. split; [reflexivity |]. split; [reflexivity |].
    assert (valid_cell (first_cell compound_temporal_block)) as Hv
      by (cbn; discriminate).
    specialize (Hh eq_refl Hv). specialize (Hf (or_intror Hv)).
    destruct candidates as [| first rest]; [discriminate |].
    injection Hh as Hfirst. subst first. destruct Hf as [Hz Hp].
    change (first_cell compound_temporal_block) with (MkMv 100 0, 1) in Hz, Hp.
    change (TemporalReferenceOffsets compound_temporal_block true)
      with (1, -2) in Hz.
    cbn [fst snd] in Hz, Hp.
    assert (forall offset, -2 <= offset <= 1 ->
              projection_exact (MkMv 100 0) offset 1) as Hfit.
    { intros offset Ho. unfold projection_exact, kMaxFrameDistance.
      cbn [mv0 mv1]. change (16384 / 1) with 16384. lia. }
    rewrite (Hp 1), (Hp (-2)) in Hz by (apply Hfit; lia).
    exact Hz.
Defined.

Example TemporalScan_far_candidate :
  zero_mv_context <$>
    TemporalScan (temporal_block far_field) false
      (MkTemporalState (-1) 0 fresh_parameters) = Some 1
  /\ zero_mv_context <$>
       TemporalScan (temporal_block sample_field) false
         (MkTemporalState (-1) 0 fresh_parameters) = Some 0.
Proof. split; vm_compute; reflexivity. Qed.

(** ** Fixed points of the precision lowering *)

Lemma LowerMvComponentInteger_fixed (r : Z) :
  is_int16 r -> (8 | r) -> LowerMvComponentInteger r = r.
Proof.
  intros Hr [q Hq].
  destruct (LowerMvComponentInteger_spec r Hr) as (_ & Hsmall & _).
  unfold is_int16 in Hr.
  rewrite Hsmall by lia. unfold sign_reapplied. rewrite land_lnot_7.
  destruct (Z.ltb_spec r 0).
  - replace ((Z.abs r + 3) / 8) with (- q); [lia |].
    apply (Z.div_unique _ _ (- q) 3); lia.
  - replace ((Z.abs r + 3) / 8) with q; [lia |].
    apply (Z.div_unique _ _ q 3); lia.
Qed.

Lemma LowerMvComponentInteger_idempotent (v : Z) :
  is_int16 v ->
  LowerMvComponentInteger (LowerMvComponentInteger v) = LowerMvComponentInteger v.
Proof.
  intros Hv. apply LowerMvComponentInteger_fixed.
  - apply to_int16_range.
  - apply (LowerMvComponentInteger_spec v Hv).
Qed.

Lemma LowerMvComponentFractional_even (v : Z) :
  is_int16 v ->
  Z.odd (LowerMvComponentFractional v) = false
  /\ is_int16 (LowerMvComponentFractional v)
  /\ Z.abs (LowerMvComponentFractional v) <= Z.abs v.
Proof.
  intros Hv. pose proof (LowerMvComponentFractional_spec v Hv) as H.
  unfold rounding_toward_zero in H. unfold is_int16 in *.
  destruct (Z.odd v) eqn:Ho.
  - destruct H as [Hp Hn].
    assert (v <> 0) by (intros ->; discriminate).
    destruct (Z_lt_le_dec 0 v).
    + rewrite Hp by lia. replace (v - 1) with (Z.pred v) by lia.
      rewrite Z.odd_pred, <- Z.negb_odd, Ho. split; [reflexivity | lia].
    + rewrite Hn by lia. replace (v + 1) with (Z.succ v) by lia.
      rewrite Z.odd_succ, <- Z.negb_odd, Ho. split; [reflexivity | lia].
  - rewrite H. split; [exact Ho | lia].
Qed.

Lemma LowerMvComponentFractional_fixed (r : Z) :
  Z.odd r = false -> LowerMvComponentFractional r = r.
Proof.
  intros Ho. unfold LowerMvComponentFractional.
  rewrite land_1_odd, Ho. reflexivity.
Qed.

Lemma LowerMvPrecision_int16 (frame_header : ObuFrameHeader) (m : MotionVector) :
  mv_is_int16 m -> mv_is_int16 (LowerMvPrecision frame_header m).
Proof.
  intros [H0 H1]. unfold LowerMvPrecision.
  destruct (allow_high_precision_mv frame_header); [split; assumption |].
  destruct (negb _); split; cbn [mv0 mv1];
    try apply to_int16_range; apply LowerMvComponentFractional_even; assumption.
Qed.

(** A vector whose components are multiples of 8, or even, is kept by the
    integer, respectively the fractional, rounding. *)
Lemma lowered_by_components (frame_header : ObuFrameHeader) (m : MotionVector) :
  mv_is_int16 m ->
  (allow_high_precision_mv frame_header = false ->
   if negb (force_integer_mv frame_header =? 0)
   then (8 | mv0 m) /\ (8 | mv1 m)
   else Z.odd (mv0 m) = false /\ Z.odd (mv1 m) = false) ->
  lowered frame_header m.
Proof.
  intros Hi Hc. split; [exact Hi |]. destruct Hi as [H0 H1].
  unfold LowerMvPrecision. destruct m as [a b]. cbn [mv0 mv1] in *.
  destruct (allow_high_precision_mv frame_header); [reflexivity |].
  specialize (Hc eq_refl).
  destruct (negb _); destruct Hc as [Ha Hb].
  - rewrite !LowerMvComponentInteger_fixed by assumption. reflexivity.
  - rewrite !LowerMvComponentFractional_fixed by assumption. reflexivity.
Qed.

Lemma lowered_components (frame_header : ObuFrameHeader) (m : MotionVector) :
  lowered frame_header m ->
  allow_high_precision_mv frame_header = false ->
  if negb (force_integer_mv frame_header =? 0)
  then (8 | mv0 m) /\ (8 | mv1 m)
  else Z.odd (mv0 m) = false /\ Z.odd (mv1 m) = false.
Proof.
  intros [[H0 H1] Hfix] Hhp. unfold LowerMvPrecision in Hfix.
  rewrite Hhp in Hfix. destruct m as [a b]. cbn [mv0 mv1] in *.
  destruct (negb _); injection Hfix as Ha Hb.
  - split; [rewrite <- Ha; apply (LowerMvComponentInteger_spec a H0)
           | rewrite <- Hb; apply (LowerMvComponentInteger_spec b H1)].
  - split; [rewrite <- Ha | rewrite <- Hb];
      apply LowerMvComponentFractional_even; assumption.
Qed.

Lemma LowerMvPrecision_is_lowered (frame_header : ObuFrameHeader)
    (m : MotionVector) :
  mv_is_int16 m -> lowered frame_header (LowerMvPrecision frame_header m).
Proof.
  intros Hm. pose proof Hm as [H0 H1].
  apply lowered_by_components; [apply LowerMvPrecision_int16; exact Hm |].
  intros Hhp. unfold LowerMvPrecision. rewrite Hhp.
  destruct (negb _); cbn [mv0 mv1].
  - split; [apply (LowerMvComponentInteger_spec _ H0)
           | apply (LowerMvComponentInteger_spec _ H1)].
  - split; apply LowerMvComponentFractional_even; assumption.
Qed.

Lemma zero_is_lowered (frame_header : ObuFrameHeader) :
  lowered frame_header (MkMv 0 0).
Proof.
  apply lowered_by_components; [split; unfold is_int16; cbn; lia |].
  intros _. destruct (negb _); cbn [mv0 mv1];
    [split; exists 0; reflexivity | split; reflexivity].
Qed.

Lemma SetupGlobalMv_is_lowered (block : Block) (index : nat) :
  lowered (frame_header (tile block)) (SetupGlobalMv block index).
Proof.
  unfold SetupGlobalMv.
  set (fh := frame_header (tile block)).
  destruct (_ || _); [apply zero_is_lowered |].
  destruct (bool_decide _).
  { apply LowerMvPrecision_is_lowered. split; apply to_int16_range. }
  destruct (allow_high_precision_mv fh) eqn:Hhp.
  - apply lowered_by_components; [split; apply to_int16_range |].
    rewrite Hhp. discriminate.
  - apply LowerMvPrecision_is_lowered. split; apply to_int16_range.
Qed.

Lemma NegateMv_is_lowered (frame_header : ObuFrameHeader) (m : MotionVector) :
  lowered frame_header m -> lowered frame_header (NegateMv m).
Proof.
  intros Hm. pose proof Hm as [[H0 H1] _].
  apply lowered_by_components; [split; apply to_int16_range |].
  intros Hhp. pose proof (lowered_components frame_header m Hm Hhp) as Hc.
  unfold NegateMv. cbn [mv0 mv1].
  assert (forall v, is_int16 v -> v <> -32768 -> to_int16 (- v) = - v) as Hneg.
  { intros v [Hlo Hhi] Hne. apply to_int16_id. unfold is_int16. lia. }
  destruct (negb _); destruct Hc as [Ha Hb]; split.
  - destruct (Z.eq_dec (mv0 m) (-32768)) as [-> | Hne];
      [exists (-4096); reflexivity |].
    rewrite Hneg by assumption. destruct Ha as [q Hq]. exists (- q). lia.
  - destruct (Z.eq_dec (mv1 m) (-32768)) as [-> | Hne];
      [exists (-4096); reflexivity |].
    rewrite Hneg by assumption. destruct Hb as [q Hq]. exists (- q). lia.
  - destruct (Z.eq_dec (mv0 m) (-32768)) as [-> | Hne]; [reflexivity |].
    rewrite Hneg by assumption. rewrite Z.odd_opp. exact Ha.
  - destruct (Z.eq_dec (mv1 m) (-32768)) as [-> | Hne]; [reflexivity |].
    rewrite Hneg by assumption. rewrite Z.odd_opp. exact Hb.
Qed.

(** X1. LowerMvPrecision is idempotent on vectors with 16-bit components:
    lowering a vector that has been lowered changes nothing, whatever
    allow_high_precision_mv and force_integer_mv are. *)
Theorem LowerMvPrecision_idempotent (frame_header : ObuFrameHeader)
    (m : MotionVector) :
  mv_is_int16 m ->
  LowerMvPrecision frame_header (LowerMvPrecision frame_header m)
  = LowerMvPrecision frame_header m.
Proof.
  intros [H0 H1]. unfold LowerMvPrecision.
  destruct (allow_high_precision_mv frame_header); [reflexivity |].
  destruct (negb (force_integer_mv frame_header =? 0)); cbn [mv0 mv1].
  - rewrite !LowerMvComponentInteger_idempotent by assumption. reflexivity.
  - rewrite (LowerMvComponentFractional_fixed (LowerMvComponentFractional (mv0 m)))
      by (apply LowerMvComponentFractional_even; assumption).
    rewrite (LowerMvComponentFractional_fixed (LowerMvComponentFractional (mv1 m)))
      by (apply LowerMvComponentFractional_even; assumption).
    reflexivity.
Qed.

Lemma LowerMvPrecision_idempotent_witness :
  LowerMvPrecision integer_mv_header
    (LowerMvPrecision integer_mv_header (MkMv (-13) 32767))
  = LowerMvPrecision integer_mv_header (MkMv (-13) 32767).
Proof.
  apply (LowerMvPrecision_idempotent integer_mv_header (MkMv (-13) 32767)).
  split; unfold is_int16; simpl; lia.
Defined.

(** X2. The global motion vector that SetupGlobalMv returns has 16-bit
    components and is at the precision of the frame: LowerMvPrecision leaves
    it unchanged, and unless high precision is allowed its components are
    even (force_integer_mv = 0) or multiples of 8 (force_integer_mv <> 0). *)
Theorem SetupGlobalMv_lowered (block : Block) (index : nat) :
  mv_is_int16 (SetupGlobalMv block index)
  /\ LowerMvPrecision (frame_header (tile block)) (SetupGlobalMv block index)
     = SetupGlobalMv block index
  /\ (allow_high_precision_mv (frame_header (tile block)) = true
      \/ (force_integer_mv (frame_header (tile block)) = 0
          /\ Z.even (mv0 (SetupGlobalMv block index)) = true
          /\ Z.even (mv1 (SetupGlobalMv block index)) = true)
      \/ (force_integer_mv (frame_header (tile block)) <> 0
          /\ (8 | mv0 (SetupGlobalMv block index))
          /\ (8 | mv1 (SetupGlobalMv block index)))).
Proof.
  pose proof (SetupGlobalMv_is_lowered block index) as Hl.
  pose proof Hl as [Hi Hfix].
  split; [exact Hi |]. split; [exact Hfix |].
  destruct (allow_high_precision_mv (frame_header (tile block))) eqn:Hhp;
    [left; reflexivity | right].
  pose proof (lowered_components _ _ Hl Hhp) as Hc.
  destruct (Z.eqb_spec (force_integer_mv (frame_header (tile block))) 0)
    as [Hf | Hf]; cbn [negb] in Hc; destruct Hc as [Ha Hb].
  - left. rewrite <- !Z.negb_odd, Ha, Hb. auto.
  - right. auto.
Qed.

(** ** Projection of a stored vector *)

Lemma Clip3_range (value low high : Z) :
  low <= high -> low <= Clip3 value low high <= high.
Proof.
  intros H. unfold Clip3.
  destruct (Z.ltb_spec value low); [lia |].
  destruct (Z.gtb_spec value high); lia.
Qed.

Lemma Clip3_opp (value bound : Z) :
  0 <= bound -> Clip3 (- value) (- bound) bound = - Clip3 value (- bound) bound.
Proof.
  intros H. unfold Clip3.
  destruct (Z.ltb_spec (- value) (- bound)), (Z.gtb_spec (- value) bound),
    (Z.ltb_spec value (- bound)), (Z.gtb_spec value bound); lia.
Qed.

Lemma RightShiftWithRounding_0 (bits : Z) :
  0 < bits -> RightShiftWithRounding 0 bits = 0.
Proof.
  intros Hb. unfold RightShiftWithRounding.
  rewrite Z.add_0_l, Z.shiftr_shiftr by lia.
  rewrite Z.shiftl_1_l. apply Z.shiftr_eq_0; [apply Z.pow_nonneg; lia |].
  destruct (Z.eq_dec bits 1) as [-> | Hne]; [reflexivity |].
  rewrite Z.log2_pow2 by lia. lia.
Qed.

Lemma RightShiftWithRoundingSigned_opp (value bits : Z) :
  0 < bits ->
  RightShiftWithRoundingSigned (- value) bits
  = - RightShiftWithRoundingSigned value bits.
Proof.
  intros Hb. unfold RightShiftWithRoundingSigned.
  destruct (Z.leb_spec 0 (- value)), (Z.leb_spec 0 value); try lia.
  - assert (value = 0) as -> by lia. change (- 0) with 0.
    rewrite !RightShiftWithRounding_0 by assumption. reflexivity.
  - rewrite Z.opp_involutive. reflexivity.
Qed.

Lemma GetMvProjectionComponent_range (v numerator denominator : Z) :
  - kProjectionMvClamp
  <= GetMvProjectionComponent v numerator denominator <= kProjectionMvClamp.
Proof. apply Clip3_range. unfold kProjectionMvClamp. lia. Qed.

Lemma round_2_14_opp (x : Z) : round_2_14 (- x) = - round_2_14 x.
Proof. unfold round_2_14. rewrite Z.sgn_opp, Z.abs_opp. lia. Qed.

Lemma projection_formula_opp_l (v numerator denominator : Z) :
  projection_formula (- v) numerator denominator
  = - projection_formula v numerator denominator.
Proof.
  unfold projection_formula.
  replace (- v * numerator * (16384 / denominator))
    with (- (v * numerator * (16384 / denominator))) by lia.
  rewrite round_2_14_opp. lia.
Qed.

Lemma projection_formula_opp_r (v numerator denominator : Z) :
  projection_formula v (- numerator) denominator
  = - projection_formula v numerator denominator.
Proof.
  rewrite <- projection_formula_opp_l. unfold projection_formula.
  do 3 f_equal. lia.
Qed.

Lemma projection_exact_opp_l (m : MotionVector) (numerator denominator : Z) :
  projection_exact m numerator denominator ->
  projection_exact (opposite m) numerator denominator.
Proof.
  intros (Hd & Hn & H0 & H1). unfold projection_exact, opposite. cbn [mv0 mv1].
  rewrite !Z.mul_opp_l, !Z.abs_opp. auto.
Qed.

Lemma projection_exact_opp_r (m : MotionVector) (numerator denominator : Z) :
  projection_exact m numerator denominator ->
  projection_exact m (- numerator) denominator.
Proof.
  intros (Hd & Hn & H0 & H1). unfold projection_exact.
  rewrite !Z.mul_opp_r, !Z.mul_opp_l, !Z.abs_opp.
  split; [exact Hd |]. split; [lia |]. auto.
Qed.

(** The numerator is clipped before it is used. *)
Lemma GetMvProjection_clipped (m : MotionVector) (numerator denominator : Z) :
  GetMvProjection m numerator denominator
  = GetMvProjection m
      (Clip3 numerator (- kMaxFrameDistance) kMaxFrameDistance) denominator.
Proof.
  unfold GetMvProjection.
  rewrite (Clip3_id (Clip3 _ _ _))
    by (apply Clip3_range; unfold kMaxFrameDistance; lia).
  reflexivity.
Qed.

(** A vector whose components are at most 4228 in absolute value is
    projected without overflow whatever the distances are: 4228 * 31 * 2^14
    is the largest such product below 2^31. *)
Lemma small_vector_projection_exact (m : MotionVector)
    (numerator denominator : Z) :
  Z.abs (mv0 m) <= 4228 -> Z.abs (mv1 m) <= 4228 ->
  1 <= denominator <= kMaxFrameDistance ->
  projection_exact m
    (Clip3 numerator (- kMaxFrameDistance) kMaxFrameDistance) denominator.
Proof.
  intros H0 H1 Hd.
  destruct (kProjectionMvDivisionLookup_range denominator Hd) as [_ Hl].
  pose proof (Clip3_range numerator (- kMaxFrameDistance) kMaxFrameDistance
                ltac:(unfold kMaxFrameDistance; lia)) as Hn.
  unfold projection_exact. split; [exact Hd |]. split; [exact Hn |].
  unfold kMaxFrameDistance in Hn.
  set (c := Clip3 _ _ _) in *. set (r := 16384 / denominator) in *.
  rewrite !Z.abs_mul, (Z.abs_eq r) by lia.
  assert (Z.abs c <= 31) by lia.
  pose proof (Z.abs_nonneg (mv0 m)). pose proof (Z.abs_nonneg (mv1 m)).
  pose proof (Z.abs_nonneg c).
  assert (Z.abs (mv0 m) * Z.abs c <= 4228 * 31) by nia.
  assert (Z.abs (mv1 m) * Z.abs c <= 4228 * 31) by nia.
  split; nia.
Qed.

(** X3. Where the denominator is a distance in [1, kMaxFrameDistance] and
    the product of a component, the clipped numerator and the reciprocal
    fits, with its rounding, the 32 bits of an int, GetMvProjection is odd
    in the vector and in the numerator: negating either one negates the
    projected vector.  A zero numerator and a zero vector are projected to
    the zero vector. *)
Theorem GetMvProjection_odd (mv : MotionVector) (numerator denominator : Z) :
  projection_exact mv
    (Clip3 numerator (- kMaxFrameDistance) kMaxFrameDistance) denominator ->
  GetMvProjection (opposite mv) numerator denominator
  = opposite (GetMvProjection mv numerator denominator)
  /\ GetMvProjection mv (- numerator) denominator
     = opposite (GetMvProjection mv numerator denominator)
  /\ GetMvProjection mv 0 denominator = MkMv 0 0
  /\ GetMvProjection (MkMv 0 0) numerator denominator = MkMv 0 0.
Proof.
  intros He.
  rewrite (GetMvProjection_clipped (opposite mv)), (GetMvProjection_clipped mv),
    (GetMvProjection_clipped mv (- numerator)).
  rewrite (Clip3_opp numerator kMaxFrameDistance) by (unfold kMaxFrameDistance; lia).
  rewrite !GetMvProjection_formula
    by (first [ exact He
              | apply projection_exact_opp_l; exact He
              | apply projection_exact_opp_r; exact He ]).
  unfold projected_vector, opposite. cbn [mv0 mv1].
  rewrite !projection_formula_opp_l, !projection_formula_opp_r.
  split; [reflexivity |]. split; [reflexivity |].
  split; [apply GetMvProjection_zero_numerator |].
  unfold GetMvProjection, GetMvProjectionComponent. cbn [mv0 mv1].
  rewrite !Z.mul_0_l. reflexivity.
Qed.

Lemma GetMvProjection_odd_witness :
  GetMvProjection (opposite (MkMv 4228 (-100))) 40 1
  = opposite (GetMvProjection (MkMv 4228 (-100)) 40 1)
  /\ GetMvProjection (MkMv 4228 (-100)) (- 40) 1
     = opposite (GetMvProjection (MkMv 4228 (-100)) 40 1)
  /\ GetMvProjection (MkMv 4228 (-100)) 0 1 = MkMv 0 0
  /\ GetMvProjection (MkMv 0 0) 40 1 = MkMv 0 0.
Proof.
  apply (GetMvProjection_odd (MkMv 4228 (-100)) 40 1).
  unfold projection_exact, kMaxFrameDistance. cbn [mv0 mv1].
  change (Clip3 40 (- (31)) 31) with 31. change (16384 / 1) with 16384. lia.
Defined.

(** Beyond that range the product wraps: the vector (5000, -5000) at
    distance 31 is projected to the clamp with the signs exchanged, and
    (8192, 8192) and its opposite, whose products at distance 16 are 2^31
    and -2^31, are projected to the same vector. *)
Example GetMvProjection_wraps :
  GetMvProjection (MkMv 5000 (-5000)) 31 1 = MkMv (-16383) 16383
  /\ projected_vector (MkMv 5000 (-5000)) 31 1 = MkMv 16383 (-16383)
  /\ GetMvProjection (opposite (MkMv 8192 8192)) 16 1
     = GetMvProjection (MkMv 8192 8192) 16 1
  /\ GetMvProjection (MkMv 8192 8192) 16 1 <> MkMv 0 0.
Proof. repeat split; try reflexivity. discriminate. Qed.

Lemma TemporalCandidateMv_is_lowered (frame_header : ObuFrameHeader)
    (reference_offset : Z) (temporal : MotionVector * Z) :
  lowered frame_header (TemporalCandidateMv frame_header reference_offset temporal).
Proof.
  unfold TemporalCandidateMv.
  destruct (negb _); [| apply zero_is_lowered].
  apply LowerMvPrecision_is_lowered. unfold GetMvProjection.
  split; cbn [mv0 mv1];
    match goal with
    | |- is_int16 (GetMvProjectionComponent ?v ?n ?d) =>
        pose proof (GetMvProjectionComponent_range v n d)
    end; unfold kProjectionMvClamp, is_int16 in *; lia.
Qed.

Lemma lowered_component_bound (frame_header : ObuFrameHeader) (v : Z) :
  - kProjectionMvClamp <= v <= kProjectionMvClamp ->
  -16384 <= LowerMvComponentInteger v <= 16384
  /\ -16384 <= LowerMvComponentFractional v <= 16384.
Proof.
  unfold kProjectionMvClamp. intros Hv.
  assert (is_int16 v) as Hi by (unfold is_int16; lia).
  split.
  - destruct (LowerMvComponentInteger_spec v Hi) as (_ & -> & _); [| lia].
    unfold sign_reapplied. rewrite land_lnot_7.
    pose proof (Z.mul_div_le (Z.abs v + 3) 8 ltac:(lia)).
    assert (0 <= (Z.abs v + 3) / 8) by (apply Z.div_pos; lia).
    assert ((Z.abs v + 3) / 8 < 2049) by (apply Z.div_lt_upper_bound; lia).
    destruct (_ <? 0); lia.
  - pose proof (LowerMvComponentFractional_even v Hi). lia.
Qed.

(** X4. The candidate that AddTemporalReferenceMvCandidate derives from a
    temporal vector (projected and lowered when the reference offset is not
    zero, the zero vector otherwise) has both components within
    [-16384, 16384] and is unchanged by LowerMvPrecision. *)
Theorem TemporalCandidateMv_range (frame_header : ObuFrameHeader)
    (reference_offset : Z) (temporal : MotionVector * Z) :
  -16384 <= mv0 (TemporalCandidateMv frame_header reference_offset temporal)
         <= 16384
  /\ -16384 <= mv1 (TemporalCandidateMv frame_header reference_offset temporal)
            <= 16384
  /\ LowerMvPrecision frame_header
       (TemporalCandidateMv frame_header reference_offset temporal)
     = TemporalCandidateMv frame_header reference_offset temporal.
Proof.
  split; [| split;
            [| apply (TemporalCandidateMv_is_lowered frame_header
                        reference_offset temporal)]].
  all: unfold TemporalCandidateMv;
    destruct (negb (reference_offset =? 0)); [| cbn [mv0 mv1]; lia];
    unfold LowerMvPrecision, GetMvProjection;
    match goal with
    | |- context [GetMvProjectionComponent ?v ?n ?d] =>
        pose proof (GetMvProjectionComponent_range (mv0 (fst temporal)) n d) as H0;
        pose proof (GetMvProjectionComponent_range (mv1 (fst temporal)) n d) as H1
    end;
    pose proof (lowered_component_bound frame_header _ H0) as [? ?];
    pose proof (lowered_component_bound frame_header _ H1) as [? ?];
    unfold kProjectionMvClamp in *;
    destruct (allow_high_precision_mv frame_header); cbn [mv0 mv1]; [lia |];
    destruct (negb _); cbn [mv0 mv1]; assumption.
Qed.

(** ** The warp threshold table *)

(** X5. The table kWarpValidThreshold agrees with the formula of its
    comment: the entry of a block size is the larger of the block's width
    and height in pixels, clipped to [16, 112]. *)
Theorem kWarpValidThreshold_formula (s : BlockSize) :
  kWarpValidThreshold s
  = Clip3 (Z.max (kBlockWidthPixels s) (kBlockHeightPixels s)) 16 112.
Proof. destruct s; reflexivity. Qed.

(** ** The small sorts *)

Lemma insert_descending_head (x : Z) (l : list Z) :
  Forall (fun y => x >= y) l -> insert_descending x l = x :: l.
Proof.
  induction l as [| y l IH]; intros H; [reflexivity |].
  inversion H as [| ? ? Hy Hl]; subst. cbn [insert_descending].
  destruct (Z.ltb_spec y x); [reflexivity |].
  rewrite IH by exact Hl. f_equal; [lia | f_equal; lia].
Qed.

Lemma std_sort_sorted_id (l : list Z) :
  StronglySorted Z.ge l -> std_sort l = l.
Proof.
  induction 1 as [| x l Hs IH Hx]; [reflexivity |].
  unfold std_sort in *. cbn [foldr]. rewrite IH.
  apply insert_descending_head. exact Hx.
Qed.

Lemma SortWeightIndexStack_std_sort (size : nat) (w : list Z) :
  (size <= length w)%nat ->
  SortWeightIndexStack size w = std_sort (take size w) ++ drop size w.
Proof.
  intros Hlen. unfold SortWeightIndexStack.
  destruct (Nat.leb_spec size 1) as [H1 | H1].
  { destruct size as [| [| size]]; [reflexivity | | lia].
    destruct w as [| a w]; [cbn in Hlen; lia | reflexivity]. }
  destruct (Nat.leb_spec size 3) as [H3 | H3]; [| reflexivity].
  destruct w as [| a [| b w]]; cbn [length] in Hlen; try lia.
  cbn [nth]. unfold DescendingOrderTwo.
  destruct (Nat.eqb_spec size 3) as [-> | Hne].
  - destruct w as [| c w]; cbn [length] in Hlen; try lia.
    cbn [nth take drop]. rewrite take_0, drop_0.
    unfold std_sort. cbn [foldr insert_descending].
    repeat match goal with
           | |- context [?x <? ?y] => destruct (Z.ltb_spec x y)
           end;
      cbn [insert list_insert insert_descending app]; try reflexivity; try lia;
      repeat match goal with
             | |- context [?x <? ?y] => destruct (Z.ltb_spec x y)
             end; cbn [app]; try reflexivity; try lia;
      repeat f_equal; lia.
  - assert (size = 2%nat) as -> by lia.
    cbn [take drop]. rewrite take_0, drop_0.
    unfold std_sort. cbn [foldr insert_descending].
    destruct (Z.ltb_spec a b), (Z.ltb_spec b a);
      cbn [insert list_insert app]; try reflexivity; try lia.
    repeat f_equal; lia.
Qed.

(** X6. For every size within the array, SortWeightIndexStack returns the
    first size entries in descending order followed by the untouched rest:
    the specialised code for sizes up to 3 agrees with the general sort.  The
    length is unchanged and sorting a second time changes nothing. *)
Theorem SortWeightIndexStack_general (size : nat) (w : list Z) :
  (size <= length w)%nat ->
  SortWeightIndexStack size w = std_sort (take size w) ++ drop size w
  /\ length (SortWeightIndexStack size w) = length w
  /\ SortWeightIndexStack size (SortWeightIndexStack size w)
     = SortWeightIndexStack size w.
Proof.
  intros Hlen.
  pose proof (SortWeightIndexStack_std_sort size w Hlen) as E.
  assert (length (std_sort (take size w)) = size) as Hl.
  { rewrite (Permutation_length (std_sort_perm _)), length_take. lia. }
  split; [exact E |]. split.
  - rewrite E, length_app, Hl, length_drop. lia.
  - rewrite E at 1.
    rewrite SortWeightIndexStack_std_sort
      by (rewrite length_app, Hl, length_drop; lia).
    rewrite take_app_length' by (symmetry; exact Hl).
    rewrite drop_app_length' by (symmetry; exact Hl).
    rewrite std_sort_sorted_id by apply std_sort_sorted.
    symmetry. exact E.
Qed.

Lemma SortWeightIndexStack_general_witness :
  SortWeightIndexStack 3 [23; 37; 36; 5]
  = std_sort (take 3 [23; 37; 36; 5]) ++ drop 3 [23; 37; 36; 5]
  /\ length (SortWeightIndexStack 3 [23; 37; 36; 5]) = 4%nat
  /\ SortWeightIndexStack 3 (SortWeightIndexStack 3 [23; 37; 36; 5])
     = SortWeightIndexStack 3 [23; 37; 36; 5].
Proof.
  apply (SortWeightIndexStack_general 3 [23; 37; 36; 5]). simpl. lia.
Defined.

(** ** SetupMotionField *)

Ltac split_guard :=
  match goal with
  | |- context [if ?c then _ else _] =>
      lazymatch c with
      | context [if _ then _ else _] => fail
      | _ => destruct c eqn:?
      end
  end.

Section SetupMotionFieldFacts.

Variable kernel : KernelCall -> TemporalMotionField -> TemporalMotionField.

Lemma MotionFieldProjection_unusable
    (frame_header : ObuFrameHeader) (current_frame : RefCountedBuffer)
    (reference_frames : Z -> RefCountedBuffer) (source : ReferenceFrameType)
    (shift_bits reference_to_current_with_sign dst_sign : Z)
    (y8_start y8_end x8_start x8_end : Z) (field : TemporalMotionField) :
  (forall i, usable_source frame_header (reference_frames i) = false) ->
  MotionFieldProjection kernel frame_header current_frame reference_frames
    source shift_bits reference_to_current_with_sign dst_sign
    y8_start y8_end x8_start x8_end field
  = (false, field).
Proof.
  intros H. unfold MotionFieldProjection.
  specialize (H (reference_frame_index frame_header
                   (reference_frame_value source
                    - reference_frame_value kReferenceFrameLast))).
  unfold usable_source in H.
  destruct (_ =? rows4x4 _), (_ =? columns4x4 _), (IsIntraFrame _);
    try reflexivity; discriminate.
Qed.

(** X7. When no reference frame is usable as a source (each one differs
    from the current frame in rows4x4 or columns4x4, or is an intra frame),
    SetupMotionField never calls the projection kernel: the motion field is
    returned as it was and the stamp counter stays at 1. *)
Theorem SetupMotionField_without_usable_reference
    (frame_header : ObuFrameHeader) (current_frame : RefCountedBuffer)
    (reference_frames : Z -> RefCountedBuffer) (shift_bits : Z)
    (row_start row_end column_start column_end : Z)
    (field : TemporalMotionField) :
  (forall i, usable_source frame_header (reference_frames i) = false) ->
  SetupMotionField kernel frame_header current_frame reference_frames
    shift_bits row_start row_end column_start column_end field
  = (1, field).
Proof.
  intros H. unfold SetupMotionField. cbv zeta.
  repeat rewrite (MotionFieldProjection_unusable _ _ _ _ _ _ _ _ _ _ _ _ H).
  cbn [fst snd].
  repeat (split_guard; cbn [fst snd]); reflexivity.
Qed.

(** X8. The stamp counter of SetupMotionField, which starts at 1 and is
    decremented by each successful projection of the backward, alternate2
    and alternate references, ends within [-1, 1], whatever the frames and
    the kernel are: at most two of those three projections succeed. *)
Theorem SetupMotionField_ref_stamp_range
    (frame_header : ObuFrameHeader) (current_frame : RefCountedBuffer)
    (reference_frames : Z -> RefCountedBuffer) (shift_bits : Z)
    (row_start row_end column_start column_end : Z)
    (field : TemporalMotionField) :
  let ref_stamp :=
    fst (SetupMotionField kernel frame_header current_frame reference_frames
           shift_bits row_start row_end column_start column_end field) in
  -1 <= ref_stamp <= 1.
Proof.
  unfold SetupMotionField. cbv zeta.
  repeat match goal with
         | |- context [MotionFieldProjection ?k ?h ?c ?r ?s ?sh ?o ?d ?a ?b ?e ?f ?g] =>
             generalize (MotionFieldProjection k h c r s sh o d a b e f g);
             intros [? ?]
         end.
  cbn [fst snd].
  repeat (split_guard; cbn [fst snd] in * );
    repeat match goal with
           | H : (0 <=? _) = true |- _ => apply Z.leb_le in H
           | H : (0 <=? _) = false |- _ => apply Z.leb_gt in H
           end; lia.
Qed.

End SetupMotionFieldFacts.

Section KernelCalls.

Variable kernel fallback : KernelCall -> TemporalMotionField -> TemporalMotionField.

Lemma DivideBy2_double (x bound : Z) : x <= bound -> 2 * DivideBy2 x <= bound.
Proof.
  intros H. unfold DivideBy2. rewrite Z.shiftr_div_pow2 by lia.
  change (2 ^ 1) with 2. pose proof (Z.mul_div_le x 2 ltac:(lia)). lia.
Qed.

(** A call of the projector as [SetupMotionField] makes it reaches the
    kernel only with checked arguments. *)
Lemma MotionFieldProjection_checked
    (frame_header : ObuFrameHeader) (current_frame : RefCountedBuffer)
    (reference_frames : Z -> RefCountedBuffer) (source : ReferenceFrameType)
    (shift_bits offset dst_sign : Z)
    (row_start row_end column_start column_end : Z)
    (field : TemporalMotionField) :
  (dst_sign = -1 /\ - kMaxFrameDistance <= offset <= kMaxFrameDistance)
  \/ (dst_sign = 0 /\ 0 < offset) ->
  MotionFieldProjection
    (checked_kernel (kernel_call_checked frame_header row_start column_start)
       kernel fallback)
    frame_header current_frame reference_frames source shift_bits offset dst_sign
    (DivideBy2 row_start) (DivideBy2 (Z.min row_end (rows4x4 frame_header)))
    (DivideBy2 column_start)
    (DivideBy2 (Z.min column_end (columns4x4 frame_header))) field
  = MotionFieldProjection kernel
      frame_header current_frame reference_frames source shift_bits offset dst_sign
      (DivideBy2 row_start) (DivideBy2 (Z.min row_end (rows4x4 frame_header)))
      (DivideBy2 column_start)
      (DivideBy2 (Z.min column_end (columns4x4 frame_header))) field.
Proof.
  intros H. unfold MotionFieldProjection.
  set (source_frame := reference_frames _).
  destruct (negb (buffer_rows4x4 source_frame =? rows4x4 frame_header)
            || negb (buffer_columns4x4 source_frame =? columns4x4 frame_header)
            || IsIntraFrame (frame_type source_frame)) eqn:Hu; [reflexivity |].
  destruct (Z.ltb_spec kMaxFrameDistance offset) as [| Hd]; [reflexivity |].
  f_equal. unfold checked_kernel.
  assert (kernel_call_checked frame_header row_start column_start
            (MkKernelCall source_frame (buffer_order_hint current_frame source)
               shift_bits offset dst_sign (DivideBy2 row_start)
               (DivideBy2 (Z.min row_end (rows4x4 frame_header)))
               (DivideBy2 column_start)
               (DivideBy2 (Z.min column_end (columns4x4 frame_header))))
          = true) as ->; [| reflexivity].
  unfold kernel_call_checked, usable_source.
  cbn [k_source_frame k_reference_to_current_with_sign k_dst_sign k_y8_start
       k_y8_end k_x8_start k_x8_end].
  apply orb_false_elim in Hu as [Hu Hi]. apply orb_false_elim in Hu as [Hr Hc].
  apply negb_false_iff in Hr, Hc. rewrite Hr, Hc, Hi, !Z.eqb_refl.
  cbn [negb andb].
  pose proof (DivideBy2_double (Z.min row_end (rows4x4 frame_header))
                (rows4x4 frame_header) ltac:(lia)) as Hy.
  pose proof (DivideBy2_double (Z.min column_end (columns4x4 frame_header))
                (columns4x4 frame_header) ltac:(lia)) as Hx.
  apply Z.leb_le in Hy, Hx. rewrite Hy, Hx.
  destruct H as [[-> Ho] | [-> Ho]]; cbn [Z.eqb andb].
  - destruct (Z.leb_spec (- kMaxFrameDistance) offset),
      (Z.leb_spec offset kMaxFrameDistance); first [reflexivity | lia].
  - destruct (Z.leb_spec (- kMaxFrameDistance) offset),
      (Z.leb_spec offset kMaxFrameDistance), (Z.ltb_spec 0 offset);
      unfold kMaxFrameDistance in *; first [reflexivity | lia].
Qed.

(** X9. Every call of the projection kernel that SetupMotionField makes
    passes the check [kernel_call_checked]: the source frame is usable, the
    signed distance is within [-kMaxFrameDistance, kMaxFrameDistance] and is
    positive when dst_sign is 0 (dst_sign is -1 otherwise), and the 8x8
    window starts at half the 4x4 start and ends within the frame.  So
    guarding the kernel with the check, with any fallback, changes nothing. *)
Theorem SetupMotionField_kernel_calls_checked
    (frame_header : ObuFrameHeader) (current_frame : RefCountedBuffer)
    (reference_frames : Z -> RefCountedBuffer) (shift_bits : Z)
    (row_start row_end column_start column_end : Z)
    (field : TemporalMotionField) :
  SetupMotionField
    (checked_kernel (kernel_call_checked frame_header row_start column_start)
       kernel fallback)
    frame_header current_frame reference_frames
    shift_bits row_start row_end column_start column_end field
  = SetupMotionField kernel frame_header current_frame reference_frames
      shift_bits row_start row_end column_start column_end field.
Proof.
  unfold SetupMotionField. cbv zeta.
  assert (forall x, (Z.abs x <=? kMaxFrameDistance) = true ->
                    - kMaxFrameDistance <= x <= kMaxFrameDistance) as Habs.
  { intros x Hx. apply Z.leb_le in Hx. lia. }
  repeat first
    [ rewrite MotionFieldProjection_checked
        by (first [ left; split; [reflexivity | apply Habs; assumption]
                  | right; split; [reflexivity | apply Z.ltb_lt; assumption] ])
    | split_guard; cbn [fst snd]
    | reflexivity ].
Qed.

End KernelCalls.

(** The check is not vacuous: a call at distance 3 passes it, a call at
    distance 32 does not. *)
Example kernel_call_checked_decides :
  kernel_call_checked sample_header 0 0
    (MkKernelCall (sample_buffer 16 16 kFrameInter) 0 25 3 0 0 8 0 8) = true
  /\ kernel_call_checked sample_header 0 0
       (MkKernelCall (sample_buffer 16 16 kFrameInter) 0 25 32 0 0 8 0 8) = false.
Proof. split; reflexivity. Qed.

(** ** The counts of the warp samples *)

Lemma AddSample_inv (block : Block) (len : nat) (delta_row delta_column : Z)
    (s : WarpState) :
  warp_inv block len s -> warp_inv block len (AddSample block delta_row delta_column s).
Proof.
  intros H. pose proof H as (Hc & Hl & Hv). unfold AddSample.
  destruct (Nat.leb_spec kMaxLeastSquaresSamples (num_samples_scanned s));
    [exact H |].
  destruct (_ || _); [exact H |].
  destruct (_ || _); [exact H |].
  match goal with
  | |- context [if negb ?v && _ then _ else _] => destruct v eqn:Hvalid
  end; cbn [negb andb].
  - split; [cbn; lia |]. split; [cbn; rewrite length_insert; exact Hl |].
    intros Hlen i Hi. cbn [num_warp_samples candidates] in *.
    destruct (decide (i = num_warp_samples s)) as [-> | Hne].
    + eexists. split; [apply list_lookup_insert_eq; lia |].
      unfold sample_close. apply Z.leb_le in Hvalid.
      match goal with
      | |- Z.abs ?a + Z.abs ?b <= _ =>
          match type of Hvalid with
          | Z.abs ?a' + Z.abs ?b' <= _ =>
              replace a with a' by lia; replace b with b' by lia
          end
      end.
      exact Hvalid.
    + rewrite list_lookup_insert_ne by congruence. apply Hv; [exact Hlen | lia].
  - destruct (Nat.ltb_spec 1 (S (num_samples_scanned s))).
    + split; [cbn; lia |]. split; [exact Hl |]. exact Hv.
    + split; [cbn; lia |]. split; [cbn; rewrite length_insert; exact Hl |].
      intros Hlen i Hi. cbn [num_warp_samples candidates] in *.
      rewrite list_lookup_insert_ne by lia. apply Hv; assumption.
Qed.

Lemma warp_inv_flags (block : Block) (len : nat) (s s' : WarpState) :
  num_warp_samples s' = num_warp_samples s ->
  num_samples_scanned s' = num_samples_scanned s ->
  candidates s' = candidates s ->
  warp_inv block len s -> warp_inv block len s'.
Proof. unfold warp_inv. intros -> -> ->. auto. Qed.

Lemma WarpScanTop_inv (block : Block) (len : nat) (s s' : WarpState) :
  warp_inv block len s -> WarpScanTop block s = Some s' -> warp_inv block len s'.
Proof.
  intros H. unfold WarpScanTop.
  destruct (top_available block); [| intros [= <-]; exact H].
  destruct (_ <=? _).
  - intros [= <-]. apply AddSample_inv.
    destruct (_ <? 0), (_ <? _); try exact H;
      eapply warp_inv_flags; try exact H; reflexivity.
  - apply (while_loop_invariant _ _ (fun _ t => warp_inv block len t)
             (warp_inv block len)).
    + intros i t Ht _. apply AddSample_inv.
      eapply warp_inv_flags; try exact Ht; reflexivity.
    + intros i t Ht _. exact Ht.
    + exact H.
Qed.

Lemma WarpScanLeft_inv (block : Block) (len : nat) (s s' : WarpState) :
  warp_inv block len s -> WarpScanLeft block s = Some s' -> warp_inv block len s'.
Proof.
  intros H. unfold WarpScanLeft.
  destruct (left_available block); [| intros [= <-]; exact H].
  destruct (_ <=? _).
  - intros [= <-]. apply AddSample_inv.
    destruct (_ <? 0); try exact H;
      eapply warp_inv_flags; try exact H; reflexivity.
  - apply (while_loop_invariant _ _ (fun _ t => warp_inv block len t)
             (warp_inv block len)).
    + intros i t Ht _. apply AddSample_inv.
      eapply warp_inv_flags; try exact Ht; reflexivity.
    + intros i t Ht _. exact Ht.
    + exact H.
Qed.

Lemma WarpScans_inv (block : Block) (samples : list (Z * Z * Z * Z))
    (s : WarpState) :
  WarpScans block 0 0 samples = Some s -> warp_inv block (length samples) s.
Proof.
  unfold WarpScans.
  destruct (WarpScanTop block _) as [s1 |] eqn:E1; [| discriminate].
  apply (WarpScanTop_inv block (length samples)) in E1.
  2:{ split; [cbn; lia |]. split; [reflexivity |]. intros _ i Hi. cbn in Hi. lia. }
  option_step.
  destruct (WarpScanLeft block s1) as [s2 |] eqn:E2; [| discriminate].
  apply (WarpScanLeft_inv block (length samples)) in E2; [| exact E1].
  option_step. intros [= <-].
  destruct (top_left s2), (_ && _); repeat apply AddSample_inv; exact E2.
Qed.

(** X10. From zero counts FindWarpSamples always returns, with
    num_warp_samples <= num_samples_scanned <= kMaxLeastSquaresSamples = 8;
    num_warp_samples is 0 exactly when no sample was scanned, and the
    candidate array keeps its length. *)
Theorem FindWarpSamples_counts (block : Block) (samples : list (Z * Z * Z * Z)) :
  exists warp_samples samples_scanned candidates,
    FindWarpSamples block 0 0 samples
    = Some (warp_samples, samples_scanned, candidates)
    /\ (warp_samples <= samples_scanned <= kMaxLeastSquaresSamples)%nat
    /\ (warp_samples = 0%nat <-> samples_scanned = 0%nat)
    /\ length candidates = length samples.
Proof.
  destruct (WarpScans_total block 0 0 samples) as [s E].
  pose proof (WarpScans_inv block samples s E) as (Hc & Hl & _).
  unfold FindWarpSamples. rewrite E. option_step.
  eexists; eexists; eexists. split; [reflexivity |].
  destruct (Nat.eqb_spec (num_warp_samples s) 0),
    (Nat.ltb_spec 0 (num_samples_scanned s)); cbn [andb];
    (split; [lia | split; [lia | exact Hl]]).
Qed.

(** X11. With a candidate array of kMaxLeastSquaresSamples entries, every
    one of the first num_warp_samples entries left by the scans of
    FindWarpSamples is a valid sample: the sum of the absolute differences
    between its displacement and the block's motion vector is at most
    kWarpValidThreshold of the block size. *)
Theorem WarpScans_valid_samples (block : Block)
    (samples : list (Z * Z * Z * Z)) (s : WarpState) :
  length samples = kMaxLeastSquaresSamples ->
  WarpScans block 0 0 samples = Some s ->
  forall i, (i < num_warp_samples s)%nat ->
    exists q, candidates s !! i = Some q /\ sample_close block q.
Proof.
  intros Hlen E.
  pose proof (WarpScans_inv block samples s E) as (_ & _ & Hv).
  apply Hv. rewrite Hlen. lia.
Qed.

(** X12. For a block in the first row of its tile with neither a top nor
    a left neighbour available, FindWarpSamples scans nothing: both counts
    are 0 and the candidate array is untouched. *)
Theorem FindWarpSamples_without_neighbors (block : Block)
    (samples : list (Z * Z * Z * Z)) :
  top_available block = false ->
  left_available block = false ->
  IsTopInside (tile block) (row4x4 block) = false ->
  FindWarpSamples block 0 0 samples = Some (0%nat, 0%nat, samples).
Proof.
  intros Ht Hl Htop. unfold FindWarpSamples, WarpScans, WarpScanTop, WarpScanLeft.
  rewrite Ht, Hl. option_step. cbn [top_left top_right].
  assert (forall column s, AddSample block (-1) column s = s) as Hout.
  { intros column s. unfold AddSample.
    destruct (_ <=? _)%nat; [reflexivity |].
    unfold IsInside. unfold IsTopInside in Htop. apply Z.ltb_ge in Htop.
    destruct (Z.leb_spec (row4x4_start (tile block)) (row4x4 block + -1)); [lia |].
    reflexivity. }
  rewrite !Hout. cbn [top_right andb].
  destruct (block_size_value _ <=? _); reflexivity.
Qed.

Lemma FindWarpSamples_without_neighbors_witness :
  FindWarpSamples corner_block 0 0 (replicate 8 (0, 0, 0, 0))
  = Some (0%nat, 0%nat, replicate 8 (0, 0, 0, 0)).
Proof.
  apply (FindWarpSamples_without_neighbors corner_block); reflexivity.
Defined.

(** ** The loops of the temporal scan *)

Section CountedLoops.

Context {S : Type}.

Variable body : Z -> S -> option (LoopStep S).

Variable f : Z -> S -> S.

Variables bound d : Z.

Hypothesis d_pos : 0 < d.

Hypothesis body_step : forall i s, body i s = Some (Continue (i + d) (f i s)).

Lemma while_loop_counted (fuel : nat) (i : Z) (s : S) :
  (Z.to_nat ((bound - i + d - 1) / d) <= fuel)%nat ->
  while_loop fuel (fun i _ => i <? bound) body i s
  = Some (foldl (fun s j => f j s) s
            (grid_line (Z.to_nat ((bound - i + d - 1) / d)) i d)).
Proof.
  revert i s. induction fuel as [| fuel IH]; intros i s Hn.
  - cbn [while_loop].
    destruct (Z.ltb_spec i bound) as [Hlt | Hge].
    + exfalso.
      assert (1 <= (bound - i + d - 1) / d) by (apply Z.div_le_lower_bound; lia).
      lia.
    + replace (Z.to_nat ((bound - i + d - 1) / d)) with 0%nat; [reflexivity |].
      assert ((bound - i + d - 1) / d <= 0); [| lia].
      assert ((bound - i + d - 1) / d < 1); [| lia].
      apply Z.div_lt_upper_bound; lia.
  - cbn [while_loop].
    destruct (Z.ltb_spec i bound) as [Hlt | Hge].
    + rewrite body_step.
      assert ((bound - i + d - 1) / d = (bound - (i + d) + d - 1) / d + 1) as E.
      { rewrite <- Z.div_add by lia. f_equal. lia. }
      assert (0 <= (bound - (i + d) + d - 1) / d) by (apply Z.div_pos; lia).
      rewrite E in *.
      replace (Z.to_nat ((bound - (i + d) + d - 1) / d + 1))
        with (Datatypes.S (Z.to_nat ((bound - (i + d) + d - 1) / d))) in * by lia.
      cbn [grid_line foldl]. apply IH. lia.
    + replace (Z.to_nat ((bound - i + d - 1) / d)) with 0%nat; [reflexivity |].
      assert ((bound - i + d - 1) / d < 1); [| lia].
      apply Z.div_lt_upper_bound; lia.
Qed.

Lemma do_while_counted (fuel : nat) (i : Z) (s : S) :
  i < bound ->
  (Z.to_nat ((bound - i - 1) / d) <= fuel)%nat ->
  do_while fuel (fun i _ => i <? bound) body i s
  = Some (foldl (fun s j => f j s) s
            (grid_line (Datatypes.S (Z.to_nat ((bound - i - 1) / d))) i d)).
Proof.
  intros Hlt Hn. unfold do_while. rewrite body_step.
  replace ((bound - i - 1) / d) with ((bound - (i + d) + d - 1) / d) in *
    by (f_equal; lia).
  cbn [grid_line foldl]. apply while_loop_counted. exact Hn.
Qed.

End CountedLoops.

Lemma grid_count_range (s : BlockSize) :
  (grid_count (kNum4x4BlocksWide s) <= 4)%nat
  /\ (grid_count (kNum4x4BlocksHigh s) <= 4)%nat.
Proof. destruct s; vm_compute; split; lia. Qed.

Lemma grid_line_length (n : nat) (start step : Z) :
  length (grid_line n start step) = n.
Proof.
  revert start. induction n as [| n IH]; intros start; [reflexivity |].
  cbn. rewrite IH. reflexivity.
Qed.

Lemma lor_1_odd (x : Z) : Z.lor x 1 = 2 * (x / 2) + 1.
Proof.
  pose proof (Z.add_lor_land x 1) as H.
  rewrite land_1_odd in H. pose proof (Zmod_odd x) as Hm.
  pose proof (Z.div_mod x 2 ltac:(lia)).
  revert H Hm. generalize (Z.lor x 1). intros l.
  destruct (Z.odd x); intros; lia.
Qed.

Lemma shiftr_1_half (x : Z) : Z.shiftr x 1 = x / 2.
Proof. rewrite Z.shiftr_div_pow2 by lia. reflexivity. Qed.

Lemma TemporalScanGridRow_fold (block : Block) (offset mv_row : Z)
    (g : GridState) :
  TemporalScanGridRow block offset mv_row g
  = Some (foldl (fun g mv_column =>
                   TemporalScanCell block (first_row block) (first_column block)
                     offset mv_row mv_column g)
            g (grid_columns block)).
Proof.
  unfold TemporalScanGridRow, grid_columns, grid_count, first_row, first_column.
  pose proof (width4x4_range block) as Hw.
  set (step := if 16 <=? width4x4 block then 4 else 2).
  assert (2 <= step <= 4) as Hs by (subst step; destruct (16 <=? _); lia).
  generalize (Z.lor (row4x4 block) 1) (Z.lor (column4x4 block) 1).
  intros rs cs.
  rewrite (do_while_counted _
             (fun mv_column g =>
                TemporalScanCell block rs cs offset mv_row mv_column g)
             (cs + Z.min (width4x4 block) 16) step).
  - replace (cs + Z.min (width4x4 block) 16 - cs - 1)
      with (Z.min (width4x4 block) 16 - 1) by lia.
    reflexivity.
  - lia.
  - intros; reflexivity.
  - lia.
  - replace (cs + Z.min (width4x4 block) 16 - cs - 1)
      with (Z.min (width4x4 block) 16 - 1) by lia.
    assert ((Z.min (width4x4 block) 16 - 1) / step < 8); [| lia].
    apply Z.div_lt_upper_bound; lia.
Qed.

Lemma TemporalScanCell_at (block : Block) (mv_row mv_column : Z) (g : GridState) :
  TemporalScanCell block (first_row block) (first_column block)
    (mf_columns (motion_field (tile block)) * Z.shiftr mv_row 1)
    mv_row mv_column g
  = GridCellAt block g (mv_row, mv_column).
Proof. reflexivity. Qed.

Lemma grid_row_positions (block : Block) (mv_row : Z) (columns : list Z)
    (g : GridState) :
  foldl (fun g mv_column =>
           TemporalScanCell block (first_row block) (first_column block)
             (mf_columns (motion_field (tile block)) * Z.shiftr mv_row 1)
             mv_row mv_column g)
    g columns
  = foldl (GridCellAt block) g (c ← columns; [(mv_row, c)]).
Proof.
  revert g. induction columns as [| c columns IH]; intros g; [reflexivity |].
  cbn [foldl]. rewrite IH. reflexivity.
Qed.

Lemma grid_rows_positions (block : Block) (step_h : Z) (columns : list Z)
    (n : nat) (start offset : Z) (g : GridState) :
  step_h = 2 \/ step_h = 4 ->
  offset = mf_columns (motion_field (tile block)) * Z.shiftr start 1 ->
  snd (foldl (fun (s : Z * GridState) mv_row =>
                (fst s + Z.shiftr (mf_columns (motion_field (tile block)) * step_h) 1,
                 foldl (fun g mv_column =>
                          TemporalScanCell block (first_row block)
                            (first_column block) (fst s) mv_row mv_column g)
                   (snd s) columns))
         (offset, g) (grid_line n start step_h))
  = foldl (GridCellAt block) g
      (r ← grid_line n start step_h; c ← columns; [(r, c)]).
Proof.
  intros Hstep. revert start offset g.
  induction n as [| n IH]; intros start offset g Ho; [reflexivity |].
  cbn [grid_line foldl fst snd]. rewrite bind_cons, foldl_app.
  rewrite <- grid_row_positions, <- Ho.
  apply IH. subst offset. rewrite !shiftr_1_half.
  set (stride := mf_columns _).
  destruct Hstep as [-> | ->].
  - replace (stride * 2) with (stride * 2) by lia.
    rewrite Z.div_mul by lia.
    replace (start + 2) with (start + 1 * 2) by lia.
    rewrite Z.div_add by lia. lia.
  - replace (stride * 4) with (stride * 2 * 2) by lia.
    rewrite Z.div_mul by lia.
    replace (start + 4) with (start + 2 * 2) by lia.
    rewrite Z.div_add by lia. lia.
Qed.

Lemma TemporalScanGrid_fold (block : Block) (g : GridState) :
  TemporalScanGrid block g
  = Some (foldl (GridCellAt block) g (grid_positions block)).
Proof.
  unfold TemporalScanGrid, grid_positions, grid_rows, grid_count.
  pose proof (height4x4_range block) as Hh.
  set (step := if 16 <=? height4x4 block then 4 else 2).
  assert (step = 2 \/ step = 4) as Hs by (subst step; destruct (16 <=? _); lia).
  set (stride := mf_columns (motion_field (tile block))).
  rewrite <- (grid_rows_positions block step (grid_columns block) _
                (first_row block) (stride * Z.shiftr (first_row block) 1) g Hs eq_refl).
  change (Z.lor (row4x4 block) 1) with (first_row block).
  fold stride.
  rewrite (do_while_counted _
             (fun mv_row (s : Z * GridState) =>
                (fst s + Z.shiftr (stride * step) 1,
                 foldl (fun g mv_column =>
                          TemporalScanCell block (first_row block)
                            (first_column block) (fst s) mv_row mv_column g)
                   (snd s) (grid_columns block)))
             (first_row block + Z.min (height4x4 block) 16) step).
  - cbn [fmap option_fmap option_map].
    replace (first_row block + Z.min (height4x4 block) 16 - first_row block - 1)
      with (Z.min (height4x4 block) 16 - 1) by lia.
    reflexivity.
  - lia.
  - intros i s. rewrite TemporalScanGridRow_fold. reflexivity.
  - lia.
  - replace (first_row block + Z.min (height4x4 block) 16 - first_row block - 1)
      with (Z.min (height4x4 block) 16 - 1) by lia.
    assert ((Z.min (height4x4 block) 16 - 1) / step < 8); [| lia].
    apply Z.div_lt_upper_bound; lia.
Qed.

Lemma positions_length (rows columns : list Z) :
  length (r ← rows; c ← columns; [(r, c)]) = (length rows * length columns)%nat.
Proof.
  induction rows as [| r rows IH]; [reflexivity |].
  rewrite bind_cons, length_app, IH. cbn [length Nat.mul]. f_equal.
  clear. induction columns as [| c columns IH]; [reflexivity |].
  rewrite bind_cons. cbn [length app]. rewrite IH. reflexivity.
Qed.

Lemma grid_positions_length (block : Block) :
  (length (grid_positions block) <= 16)%nat.
Proof.
  unfold grid_positions, grid_rows, grid_columns.
  pose proof (grid_count_range (block_size block)) as [Hw Hh].
  fold (width4x4 block) in Hw. fold (height4x4 block) in Hh.
  rewrite positions_length, !grid_line_length. nia.
Qed.

Lemma GridCellAt_length (block : Block) (g : GridState) (p : Z * Z) :
  (length (snd (GridCellAt block g p)) <= length (snd g) + 1)%nat.
Proof.
  unfold GridCellAt. destruct p as [r c].
  destruct (IsBottomRightInside _ _ _); [| lia].
  destruct (_ =? kInvalidMvValue).
  - destruct (_ && _); cbn [snd]; lia.
  - cbn [snd]. rewrite length_app. cbn. lia.
Qed.

(** X13. The nested loops of TemporalScan visit the grid positions of the
    block row by row, at most four rows of at most four columns, and the
    incrementally computed offset into the motion field is the row-major
    address of the 8x8 cell of each position: the loops equal a fold of
    [GridCellAt] over [grid_positions]. *)
Theorem TemporalScanGrid_positions (block : Block) (g : GridState) :
  TemporalScanGrid block g
  = Some (foldl (GridCellAt block) g (grid_positions block))
  /\ (length (grid_rows block) <= 4)%nat
  /\ (length (grid_columns block) <= 4)%nat.
Proof.
  split; [apply TemporalScanGrid_fold |].
  unfold grid_rows, grid_columns. rewrite !grid_line_length.
  pose proof (grid_count_range (block_size block)) as [Hw Hh].
  split; assumption.
Qed.

(** X14. TemporalScan always finishes collecting, and it collects at most
    kMaxTemporalMvCandidates = 19 temporal vectors: the local arrays of that
    size are never overrun. *)
Theorem TemporalScan_candidates_fit (block : Block) :
  exists candidates,
    TemporalCandidates block = Some candidates
    /\ (length candidates <= kMaxTemporalMvCandidates)%nat.
Proof.
  unfold TemporalCandidates. rewrite TemporalScanGrid_fold. option_step.
  eexists. split; [reflexivity |].
  pose proof (TemporalScanExtra_length block
                (foldl (GridCellAt block) (-1, []) (grid_positions block))) as He.
  assert (forall l g, (length (snd (foldl (GridCellAt block) g l))
                       <= length (snd g) + length l)%nat) as Hf.
  { induction l as [| p l IH]; intros g; cbn [foldl length]; [lia |].
    specialize (IH (GridCellAt block g p)).
    pose proof (GridCellAt_length block g p). lia. }
  specialize (Hf (grid_positions block) (-1, [])). cbn [snd length] in Hf.
  pose proof (grid_positions_length block).
  unfold kMaxTemporalMvCandidates. lia.
Qed.

Lemma temporal_mask_even (s : BlockSize) :
  kTemporalScanMask s = true ->
  exists w h, kNum4x4BlocksWide s = 2 * w /\ kNum4x4BlocksHigh s = 2 * h
              /\ 1 <= w /\ 1 <= h.
Proof.
  destruct s; try discriminate; intros _; vm_compute;
    first [ exists 1, 1; repeat split; discriminate
          | exists 1, 2; repeat split; discriminate
          | exists 1, 4; repeat split; discriminate
          | exists 2, 1; repeat split; discriminate
          | exists 2, 2; repeat split; discriminate
          | exists 2, 4; repeat split; discriminate
          | exists 4, 1; repeat split; discriminate
          | exists 4, 2; repeat split; discriminate
          | exists 4, 4; repeat split; discriminate ].
Qed.

Lemma half_odd (a : Z) : (2 * a + 1) / 2 = a.
Proof. symmetry. apply (Z.div_unique _ 2 a 1); lia. Qed.

Lemma half_even (a : Z) : (2 * a) / 2 = a.
Proof. symmetry. apply (Z.div_unique _ 2 a 0); lia. Qed.

(** X15. For a block size of kTemporalScanMask the three precalculated
    temporal_sample_offsets address the motion-field cells of the three
    temporal_sample_positions, taken from the first grid position; for any
    other block size nothing is added. *)
Theorem TemporalScanExtra_positions (block : Block) (g : GridState) :
  TemporalScanExtra block g
  = if kTemporalScanMask (block_size block)
    then foldl (ExtraCellAt block) g (temporal_sample_positions block)
    else g.
Proof.
  unfold TemporalScanExtra.
  destruct (kTemporalScanMask (block_size block)) eqn:Hm; [| reflexivity].
  destruct (temporal_mask_even _ Hm) as (w & h & Hw & Hh & Hw1 & Hh1).
  fold (width4x4 block) in Hw. fold (height4x4 block) in Hh.
  unfold temporal_sample_positions. cbn [foldl]. unfold ExtraCellAt.
  change (Z.lor (row4x4 block) 1) with (first_row block).
  change (Z.lor (column4x4 block) 1) with (first_column block).
  set (stride := mf_columns (motion_field (tile block))).
  assert (stride * Z.shiftr (first_row block + height4x4 block) 1
          + Z.shiftr (first_column block - 2) 1
          = motion_field_address block (first_row block + height4x4 block)
              (first_column block + -2)) as E0.
  { unfold motion_field_address. fold stride. do 2 f_equal. }
  assert (stride * Z.shiftr (first_row block + height4x4 block) 1
          + Z.shiftr (first_column block - 2) 1
          + Z.shiftr (width4x4 block + 2) 1
          = motion_field_address block (first_row block + height4x4 block)
              (first_column block + width4x4 block)) as E1.
  { unfold motion_field_address, first_column. fold stride.
    rewrite !shiftr_1_half, lor_1_odd, Hw.
    set (c := column4x4 block / 2).
    replace (2 * c + 1 - 2) with (2 * (c - 1) + 1) by lia.
    replace (2 * w + 2) with (2 * (w + 1)) by lia.
    replace (2 * c + 1 + 2 * w) with (2 * (c + w) + 1) by lia.
    rewrite !half_odd, half_even. lia. }
  assert (stride * Z.shiftr (first_row block + height4x4 block) 1
          + Z.shiftr (first_column block - 2) 1
          + Z.shiftr (width4x4 block + 2) 1 - stride
          = motion_field_address block (first_row block + (height4x4 block - 2))
              (first_column block + width4x4 block)) as E2.
  { rewrite E1. clear E0 E1. unfold motion_field_address. fold stride.
    rewrite !shiftr_1_half.
    replace (first_row block + (height4x4 block - 2))
      with (first_row block + height4x4 block + (-1) * 2) by lia.
    rewrite Z.div_add by lia. lia. }
  rewrite E2, E1, E0.
  repeat match goal with
         | |- context [IsWithinTheSame64x64Block ?b ?r ?c] =>
             destruct (IsWithinTheSame64x64Block b r c); cbn [negb andb]
         | |- context [IsBottomRightInside ?t ?r ?c] =>
             destruct (IsBottomRightInside t r c); cbn [negb andb]
         | |- context [mv0 ?c =? kInvalidMvValue] =>
             destruct (mv0 c =? kInvalidMvValue); cbn [negb andb]
         end; reflexivity.
Qed.

Lemma land_15_range (x : Z) : 0 <= Z.land x 15 <= 15 /\ (16 | x - Z.land x 15).
Proof.
  assert (Z.land x 15 = x mod 16) as ->.
  { change 15 with (Z.ones 4). rewrite Z.land_ones by lia. reflexivity. }
  pose proof (Z.mod_pos_bound x 16 ltac:(lia)).
  split; [lia |]. exists (x / 16).
  pose proof (Z.div_mod x 16 ltac:(lia)). lia.
Qed.

(** X16. For a block size of kTemporalScanMask and each of the three
    temporal_sample_positions, the row asserted non-negative by
    IsWithinTheSame64x64Block is non-negative; and for a block inside a tile
    whose left edge is a multiple of 16, a position that passes
    IsWithinTheSame64x64Block and IsBottomRightInside is inside the tile on
    all four sides. *)
Theorem temporal_sample_inside (block : Block) (delta : Z * Z) :
  kTemporalScanMask (block_size block) = true ->
  In delta (temporal_sample_positions block) ->
  let mv_row := first_row block + fst delta in
  let mv_column := first_column block + snd delta in
  0 <= Z.land (row4x4 block) 15 + fst delta
  /\ (block_in_tile block ->
      IsWithinTheSame64x64Block block (fst delta) (snd delta) = true ->
      IsBottomRightInside (tile block) mv_row mv_column = true ->
      IsInside (tile block) mv_row mv_column = true).
Proof.
  intros Hm Hin mv_row mv_column.
  destruct (temporal_mask_even _ Hm) as (w & h & Hw & Hh & Hw1 & Hh1).
  fold (width4x4 block) in Hw. fold (height4x4 block) in Hh.
  pose proof (land_15_range (row4x4 block)) as [Hr _].
  pose proof (land_15_range (column4x4 block)) as [Hc [q Hq]].
  assert (0 <= fst delta) as Hd.
  { unfold temporal_sample_positions in Hin. cbn in Hin.
    destruct Hin as [<- | [<- | [<- | []]]]; cbn; lia. }
  split; [lia |].
  intros (Hrow & Hcol & [k Hk]) Hw64 Hbr.
  unfold IsWithinTheSame64x64Block in Hw64.
  apply andb_true_iff in Hw64 as [Hw64 _].
  apply andb_true_iff in Hw64 as [_ Hc0]. apply Z.leb_le in Hc0.
  unfold IsBottomRightInside in Hbr. apply andb_true_iff in Hbr as [Hb1 Hb2].
  unfold IsInside. rewrite Hb1, Hb2, !andb_true_r.
  subst mv_row mv_column. unfold first_row, first_column.
  rewrite !lor_1_odd.
  pose proof (Z.div_mod (row4x4 block) 2 ltac:(lia)).
  pose proof (Z.mod_pos_bound (row4x4 block) 2 ltac:(lia)).
  pose proof (Z.div_mod (column4x4 block) 2 ltac:(lia)).
  pose proof (Z.mod_pos_bound (column4x4 block) 2 ltac:(lia)).
  apply andb_true_iff. split; apply Z.leb_le; [lia |].
  assert (column4x4_start (tile block) <= column4x4 block - Z.land (column4x4 block) 15);
    [| lia].
  rewrite Hq, Hk.
  assert (k <= q); [| lia].
  assert (16 * k < 16 * (q + 1)); [| lia].
  lia.
Qed.

(** ** The scans only append *)

Lemma take_prefix_eq {A : Type} (n0 n1 : nat) (a b : list A) :
  (n0 <= n1)%nat -> take n1 a = take n1 b -> take n0 a = take n0 b.
Proof.
  intros Hn H. replace n0 with (n0 `min` n1)%nat by lia.
  rewrite <- !take_take. rewrite H. reflexivity.
Qed.

Lemma scan_extends_refl (is_compound : bool) (n : nat) (pp : PredictionParameters) :
  scan_extends is_compound n pp n pp.
Proof.
  unfold scan_extends, other_stack_kept, live_prefix_kept.
  destruct is_compound; auto 10.
Qed.

Lemma scan_extends_trans (is_compound : bool) (n0 n1 n2 : nat)
    (pp0 pp1 pp2 : PredictionParameters) :
  scan_extends is_compound n0 pp0 n1 pp1 ->
  scan_extends is_compound n1 pp1 n2 pp2 ->
  scan_extends is_compound n0 pp0 n2 pp2.
Proof.
  unfold scan_extends, other_stack_kept, live_prefix_kept.
  intros (Hn & Hg & Hk & Hr & Ho & Hp) (Hn' & Hg' & Hk' & Hr' & Ho' & Hp').
  split; [lia |]. split; [congruence |]. split; [congruence |].
  split; [congruence |].
  destruct is_compound; (split; [congruence |]);
    rewrite <- Hp; apply (take_prefix_eq n0 n1); assumption.
Qed.

Lemma InsertCandidate_extends {A : Type} `{EqDecision A} (c : A) (w : Z)
    (stack : list A) (weights : list Z) (n : nat) :
  let '(stack', _, n') := InsertCandidate c w (stack, weights, n) in
  (n <= n')%nat /\ take n stack' = take n stack.
Proof.
  unfold InsertCandidate.
  destruct (find_if stack n c); [split; [lia | reflexivity] |].
  destruct (_ <=? _)%nat; [split; [lia | reflexivity] |].
  split; [lia |]. apply take_insert_ge. lia.
Qed.

Lemma SearchStack_extends (block : Block) (mv_bp : BlockParameters)
    (index : nat) (w : Z) (st : ScanState) :
  let st' := SearchStack block mv_bp index w st in
  scan_extends false (num_mv_found st) (prediction_parameters st)
    (num_mv_found st') (prediction_parameters st').
Proof.
  cbv zeta. unfold SearchStack.
  match goal with
  | |- context [InsertCandidate ?c ?w' (?s, ?ws, ?n)] =>
      pose proof (InsertCandidate_extends c w' s ws n) as H;
      destruct (InsertCandidate c w' (s, ws, n)) as [[stack' weights'] n']
  end.
  destruct H as [Hn Hp]. cbn.
  unfold scan_extends, other_stack_kept, live_prefix_kept. cbn. auto 10.
Qed.

Lemma CompoundSearchStack_extends (block : Block) (mv_bp : BlockParameters)
    (w : Z) (st : ScanState) :
  let st' := CompoundSearchStack block mv_bp w st in
  scan_extends true (num_mv_found st) (prediction_parameters st)
    (num_mv_found st') (prediction_parameters st').
Proof.
  cbv zeta. unfold CompoundSearchStack.
  match goal with
  | |- context [InsertCandidate ?c ?w' (?s, ?ws, ?n)] =>
      pose proof (InsertCandidate_extends c w' s ws n) as H;
      destruct (InsertCandidate c w' (s, ws, n)) as [[stack' weights'] n']
  end.
  destruct H as [Hn Hp]. cbn.
  unfold scan_extends, other_stack_kept, live_prefix_kept. cbn. auto 10.
Qed.

Lemma AddReferenceMvCandidate_extends (block : Block) (mv_bp : BlockParameters)
    (is_compound : bool) (w : Z) (n0 : nat) (pp0 : PredictionParameters)
    (st : ScanState) :
  scan_reached is_compound n0 pp0 st ->
  scan_reached is_compound n0 pp0
    (AddReferenceMvCandidate block mv_bp is_compound w st).
Proof.
  unfold scan_reached. intros H. unfold AddReferenceMvCandidate.
  destruct (negb _); [exact H |].
  destruct is_compound.
  - destruct (_ && _); [| exact H].
    eapply scan_extends_trans; [exact H | apply CompoundSearchStack_extends].
  - assert (scan_extends false n0 pp0
              (num_mv_found (if bool_decide (reference_frame_at mv_bp 0
                                              = reference_frame_at (bp block) 0)
                             then SearchStack block mv_bp 0 w st else st))
              (prediction_parameters
                 (if bool_decide (reference_frame_at mv_bp 0
                                  = reference_frame_at (bp block) 0)
                  then SearchStack block mv_bp 0 w st else st))) as H1.
    { destruct (bool_decide _); [| exact H].
      eapply scan_extends_trans; [exact H | apply SearchStack_extends]. }
    destruct (bool_decide (reference_frame_at mv_bp 1 = _)); [| exact H1].
    eapply scan_extends_trans; [exact H1 | apply SearchStack_extends].
Qed.

Lemma ScanRow_extends (block : Block) (mv_column delta_row : Z)
    (is_compound : bool) (n0 : nat) (pp0 : PredictionParameters)
    (st st' : ScanState) :
  scan_reached is_compound n0 pp0 st ->
  ScanRow block mv_column delta_row is_compound st = Some st' ->
  scan_reached is_compound n0 pp0 st'.
Proof.
  intros H. unfold ScanRow.
  destruct (negb _); [intros [= <-]; exact H |].
  apply (do_while_invariant _ _ (fun _ t => scan_reached is_compound n0 pp0 t)
           (scan_reached is_compound n0 pp0)).
  - apply AddReferenceMvCandidate_extends. exact H.
  - intros i t Ht _. apply AddReferenceMvCandidate_extends. exact Ht.
  - intros i t Ht _. exact Ht.
Qed.

Lemma ScanColumn_extends (block : Block) (mv_row delta_column : Z)
    (is_compound : bool) (n0 : nat) (pp0 : PredictionParameters)
    (st st' : ScanState) :
  scan_reached is_compound n0 pp0 st ->
  ScanColumn block mv_row delta_column is_compound st = Some st' ->
  scan_reached is_compound n0 pp0 st'.
Proof.
  intros H. unfold ScanColumn.
  destruct (negb _); [intros [= <-]; exact H |].
  apply (do_while_invariant _ _ (fun _ t => scan_reached is_compound n0 pp0 t)
           (scan_reached is_compound n0 pp0)).
  - apply AddReferenceMvCandidate_extends. exact H.
  - intros i t Ht _. apply AddReferenceMvCandidate_extends. exact Ht.
  - intros i t Ht _. exact Ht.
Qed.

Lemma ScanPoint_extends (block : Block) (delta_row delta_column : Z)
    (is_compound : bool) (n0 : nat) (pp0 : PredictionParameters) (st : ScanState) :
  scan_reached is_compound n0 pp0 st ->
  scan_reached is_compound n0 pp0
    (ScanPoint block delta_row delta_column is_compound st).
Proof.
  intros H. unfold ScanPoint.
  destruct (_ || _); [exact H |].
  destruct (bool_decide _); [exact H |].
  apply AddReferenceMvCandidate_extends. exact H.
Qed.

Lemma AddTemporalReferenceMvCandidate_extends (frame_header : ObuFrameHeader)
    (offsets : Z * Z) (temporal : list (MotionVector * Z)) (is_compound : bool)
    (n0 : nat) (pp0 : PredictionParameters) (s : TemporalState) :
  temporal_reached is_compound n0 pp0 s ->
  temporal_reached is_compound n0 pp0
    (AddTemporalReferenceMvCandidate frame_header offsets temporal is_compound s).
Proof.
  unfold AddTemporalReferenceMvCandidate, temporal_reached.
  revert s. induction temporal as [| t temporal IH]; intros s H.
  - destruct is_compound; exact H.
  - destruct is_compound; cbn [foldl]; apply IH;
      (eapply scan_extends_trans; [exact H |]).
    + unfold AddTemporalCompound.
      match goal with
      | |- context [InsertCandidate ?c ?w' (?st, ?ws, ?n)] =>
          pose proof (InsertCandidate_extends c w' st ws n) as Hi;
          destruct (InsertCandidate c w' (st, ws, n)) as [[stack' weights'] n']
      end.
      destruct Hi as [Hn Hp]. cbn.
      unfold scan_extends, other_stack_kept, live_prefix_kept. cbn. auto 10.
    + unfold AddTemporalSingle.
      match goal with
      | |- context [InsertCandidate ?c ?w' (?st, ?ws, ?n)] =>
          pose proof (InsertCandidate_extends c w' st ws n) as Hi;
          destruct (InsertCandidate c w' (st, ws, n)) as [[stack' weights'] n']
      end.
      destruct Hi as [Hn Hp]. cbn.
      unfold scan_extends, other_stack_kept, live_prefix_kept. cbn. auto 10.
Qed.

Lemma TemporalScan_extends (block : Block) (is_compound : bool)
    (n0 : nat) (pp0 : PredictionParameters) (s t : TemporalState) :
  temporal_reached is_compound n0 pp0 s ->
  TemporalScan block is_compound s = Some t ->
  temporal_reached is_compound n0 pp0 t.
Proof.
  intros H. unfold TemporalScan.
  destruct (TemporalScanGrid block _) as [g |]; [| discriminate].
  option_step. destruct (negb _); intros [= <-].
  - apply AddTemporalReferenceMvCandidate_extends. exact H.
  - exact H.
Qed.

Lemma run_scans_extends (block : Block) (is_compound : bool)
    (calls : list ScanCall) (n0 : nat) (pp0 : PredictionParameters)
    (s s' : ScanState * Z) :
  scan_reached is_compound n0 pp0 (fst s) ->
  run_scans block is_compound calls s = Some s' ->
  scan_reached is_compound n0 pp0 (fst s').
Proof.
  revert s. induction calls as [| call calls IH]; intros [st zero] H.
  - intros [= <-]. exact H.
  - cbn [run_scans].
    destruct (run_scan block is_compound call (st, zero)) as [s1 |] eqn:E1;
      [| discriminate].
    option_step. apply IH.
    cbn [fst] in H. unfold run_scan in E1. destruct call.
    + destruct (ScanRow _ _ _ _ _) as [st1 |] eqn:E; [| discriminate].
      injection E1 as <-. eapply ScanRow_extends; eassumption.
    + destruct (ScanColumn _ _ _ _ _) as [st1 |] eqn:E; [| discriminate].
      injection E1 as <-. eapply ScanColumn_extends; eassumption.
    + injection E1 as <-. apply ScanPoint_extends. exact H.
    + destruct (TemporalScan _ _ _) as [t |] eqn:E; [| discriminate].
      injection E1 as <-.
      apply (TemporalScan_extends block is_compound n0 pp0) in E; exact E || exact H.
Qed.

(** X17. Any sequence of ScanRow, ScanColumn, ScanPoint and TemporalScan
    calls only appends: num_mv_found does not decrease, the candidates found
    before keep their places and values, and the global vectors, the counts
    nearest_mv_count and ref_mv_count and the stack of the other prediction
    kind are not written. *)
Theorem scans_only_append (block : Block) (is_compound : bool)
    (calls : list ScanCall) (st st' : ScanState) (zero zero' : Z) :
  run_scans block is_compound calls (st, zero) = Some (st', zero') ->
  scan_extends is_compound (num_mv_found st) (prediction_parameters st)
    (num_mv_found st') (prediction_parameters st').
Proof.
  intros E.
  apply (run_scans_extends block is_compound calls
           (num_mv_found st) (prediction_parameters st) (st, zero) (st', zero'));
    [apply scan_extends_refl | exact E].
Qed.

Lemma row_call_extends (a : NewMvArg) (m : MatchArg) (block : Block)
    (mv_column delta_row : Z) (is_compound : bool) (n0 : nat)
    (pp0 : PredictionParameters) (l l' : Locals) :
  locals_reached is_compound n0 pp0 l ->
  leave a m l <$> ScanRow block mv_column delta_row is_compound (enter a m l)
  = Some l' ->
  locals_reached is_compound n0 pp0 l'.
Proof.
  intros H.
  destruct (ScanRow _ _ _ _ _) as [st |] eqn:E; [| discriminate].
  intros [= <-].
  apply (ScanRow_extends block _ _ is_compound n0 pp0) in E; [exact E | exact H].
Qed.

Lemma column_call_extends (a : NewMvArg) (m : MatchArg) (block : Block)
    (mv_row delta_column : Z) (is_compound : bool) (n0 : nat)
    (pp0 : PredictionParameters) (l l' : Locals) :
  locals_reached is_compound n0 pp0 l ->
  leave a m l <$> ScanColumn block mv_row delta_column is_compound (enter a m l)
  = Some l' ->
  locals_reached is_compound n0 pp0 l'.
Proof.
  intros H.
  destruct (ScanColumn _ _ _ _ _) as [st |] eqn:E; [| discriminate].
  intros [= <-].
  apply (ScanColumn_extends block _ _ is_compound n0 pp0) in E; [exact E | exact H].
Qed.

Lemma point_call_extends (a : NewMvArg) (m : MatchArg) (block : Block)
    (delta_row delta_column : Z) (is_compound : bool) (n0 : nat)
    (pp0 : PredictionParameters) (l : Locals) :
  locals_reached is_compound n0 pp0 l ->
  locals_reached is_compound n0 pp0
    (leave a m l (ScanPoint block delta_row delta_column is_compound (enter a m l))).
Proof.
  intros H.
  exact (ScanPoint_extends block delta_row delta_column is_compound n0 pp0
           (enter a m l) H).
Qed.

Lemma NearestScans_extends (block : Block) (is_compound : bool) (n0 : nat)
    (pp0 : PredictionParameters) (l l' : Locals) :
  locals_reached is_compound n0 pp0 l ->
  NearestScans block is_compound l = Some l' ->
  locals_reached is_compound n0 pp0 l'.
Proof.
  intros H. unfold NearestScans.
  destruct (leave _ _ l <$> ScanRow _ _ _ _ _) as [l1 |] eqn:E1; [| discriminate].
  apply (row_call_extends _ _ _ _ _ _ n0 pp0) in E1; [| exact H].
  option_step.
  destruct (leave _ _ l1 <$> ScanColumn _ _ _ _ _) as [l2 |] eqn:E2; [| discriminate].
  apply (column_call_extends _ _ _ _ _ _ n0 pp0) in E2; [| exact E1].
  option_step. intros [= <-].
  destruct (_ <=? 16); [| exact E2].
  apply point_call_extends. exact E2.
Qed.

Lemma FarScans_extends (block : Block) (is_compound : bool) (n0 : nat)
    (pp0 : PredictionParameters) (l l' : Locals) :
  locals_reached is_compound n0 pp0 l ->
  FarScans block is_compound l = Some l' ->
  locals_reached is_compound n0 pp0 l'.
Proof.
  intros H. unfold FarScans.
  pose proof (point_call_extends PassDummyBool PassRowMatch block (-1) (-1)
                is_compound n0 pp0 l H) as H0.
  set (l0 := leave _ _ l (ScanPoint _ _ _ _ _)) in *. clearbody l0.
  destruct (leave _ _ l0 <$> ScanRow _ _ _ _ _) as [l1 |] eqn:E1; [| discriminate].
  apply (row_call_extends _ _ _ _ _ _ n0 pp0) in E1; [| exact H0].
  option_step.
  destruct (leave _ _ l1 <$> ScanColumn _ _ _ _ _) as [l2 |] eqn:E2; [| discriminate].
  apply (column_call_extends _ _ _ _ _ _ n0 pp0) in E2; [| exact E1].
  option_step.
  assert (forall l3,
            (if 1 <? height4x4 block
             then leave PassDummyBool PassRowMatch l2 <$>
                    ScanRow block (Z.lor (column4x4 block) 1)
                      (-5 + Z.land (row4x4 block) 1) is_compound
                      (enter PassDummyBool PassRowMatch l2)
             else Some l2) = Some l3 ->
            locals_reached is_compound n0 pp0 l3) as H3.
  { intros l3. destruct (1 <? height4x4 block).
    - intros E3. apply (row_call_extends _ _ _ _ _ _ n0 pp0) in E3; assumption.
    - intros [= <-]. exact E2. }
  match goal with
  | |- (?x ≫= _) = _ -> _ => destruct x as [l3 |] eqn:E3; [| discriminate]
  end.
  specialize (H3 l3 eq_refl). option_step.
  destruct (1 <? width4x4 block).
  - intros E4. apply (column_call_extends _ _ _ _ _ _ n0 pp0) in E4; assumption.
  - intros [= <-]. exact H3.
Qed.

Lemma TemporalStep_extends (block : Block) (is_compound : bool) (n0 : nat)
    (pp0 : PredictionParameters) (l l' : Locals) (zero : Z) :
  locals_reached is_compound n0 pp0 l ->
  TemporalStep block is_compound l = Some (l', zero) ->
  locals_reached is_compound n0 pp0 l'.
Proof.
  intros H. unfold TemporalStep.
  destruct (use_ref_frame_mvs _); [| intros [= <- _]; exact H].
  destruct (TemporalScan _ _ _) as [t |] eqn:E; [| discriminate].
  option_step. intros [= <- _].
  apply (TemporalScan_extends block is_compound n0 pp0) in E; [exact E | exact H].
Qed.

Lemma AllScans_frame (block : Block) (is_compound : bool)
    (pp : PredictionParameters) (l : Locals) (nearest_matches zero : Z) :
  AllScans block is_compound pp = Some (l, nearest_matches, zero) ->
  scans_frame block is_compound pp (l_prediction_parameters l)
  /\ (nearest_mv_count (l_prediction_parameters l) <= l_num_mv_found l)%nat
  /\ 0 <= nearest_matches <= 2.
Proof.
  unfold AllScans.
  match goal with
  | |- (NearestScans _ _ (MkLocals _ _ _ _ _ ?p) ≫= _) = _ -> _ =>
      set (pp0 := p);
      assert (scans_frame block is_compound pp pp0) as H0
  end.
  { subst pp0. unfold scans_frame, other_stack_kept.
    destruct is_compound; cbn; auto. }
  clearbody pp0.
  destruct (NearestScans _ _ _) as [l1 |] eqn:E1; [| discriminate].
  apply (NearestScans_extends block is_compound 0 pp0) in E1;
    [| apply scan_extends_refl].
  option_step.
  match goal with
  | |- (TemporalStep _ _ ?x ≫= _) = _ -> _ => set (l2 := x)
  end.
  destruct (TemporalStep _ _ _) as [[l3 z] |] eqn:E3; [| discriminate].
  apply (TemporalStep_extends block is_compound (l_num_mv_found l1)
           (l_prediction_parameters l2)) in E3;
    [| apply scan_extends_refl].
  option_step.
  match goal with
  | |- (FarScans _ _ ?x ≫= _) = _ -> _ => set (l4 := x)
  end.
  destruct (FarScans _ _ _) as [l5 |] eqn:E5; [| discriminate].
  apply (FarScans_extends block is_compound (l_num_mv_found l1)
           (l_prediction_parameters l2)) in E5; [| exact E3].
  option_step. intros [= <- <- _].
  destruct E1 as (_ & Hg1 & _ & Hr1 & Ho1 & _).
  destruct E5 as (Hn5 & Hg5 & Hk5 & Hr5 & Ho5 & _).
  subst l2. cbn in Hg5, Hk5, Hr5, Ho5.
  destruct H0 as (Hg0 & Hr0 & Ho0).
  split; [| split].
  - split; [congruence |]. split; [congruence |].
    unfold other_stack_kept in *. destruct is_compound; cbn in *; congruence.
  - rewrite Hk5. exact Hn5.
  - destruct (l_found_row_match l1), (l_found_column_match l1); cbn; lia.
Qed.

(** ** The extra search only appends *)

(** The duplicate test of [AddExtraSingleMvCandidate] (lines 549-550) is a
    membership test as long as at most two candidates are stored. *)
Lemma extra_duplicate_test (stack : list MotionVector) (n : nat)
    (c : MotionVector) :
  (n <= 2)%nat ->
  (negb (n =? 0)%nat && stack_slot_is stack 0 c)
  || ((n =? 2)%nat && stack_slot_is stack 1 c) = false ->
  c ∉ take n stack.
Proof.
  intros Hn Ht Hin. unfold stack_slot_is in Ht.
  destruct n as [| [| [| n]]]; [| | | lia]; cbn [Nat.eqb negb andb orb] in Ht.
  - rewrite take_0 in Hin. inversion Hin.
  - rewrite orb_false_r in Ht. apply bool_decide_eq_false in Ht.
    destruct stack as [| a0 stack]; cbn in Hin; [inversion Hin |].
    rewrite take_0 in Hin. apply list_elem_of_singleton in Hin. subst.
    apply Ht. reflexivity.
  - apply orb_false_elim in Ht as [H0 H1].
    apply bool_decide_eq_false in H0, H1.
    destruct stack as [| a0 [| a1 stack]]; cbn in Hin.
    + inversion Hin.
    + apply list_elem_of_singleton in Hin. subst. apply H0. reflexivity.
    + rewrite take_0 in Hin.
      apply elem_of_cons in Hin as [-> | Hin]; [apply H0; reflexivity |].
      apply list_elem_of_singleton in Hin. subst. apply H1. reflexivity.
Qed.

Lemma AddExtraSingleMvCandidate_inv (block : Block) (mv_row mv_column : Z)
    (B : Z) (n0 : nat) (pp0 : PredictionParameters) (n : nat)
    (pp : PredictionParameters) :
  B <= 4095 ->
  extra_single_inv B n0 pp0 1 n pp ->
  let r := AddExtraSingleMvCandidate block mv_row mv_column (n, pp) in
  extra_single_inv B n0 pp0 3 (fst r) (snd r).
Proof.
  intros HB4 H. cbv zeta. unfold AddExtraSingleMvCandidate.
  match goal with |- context [foldl ?f _ _] => set (step := f) end.
  assert (forall limit s i,
            (limit <= 2)%nat ->
            extra_single_inv B n0 pp0 limit (fst s) (snd s) ->
            extra_single_inv B n0 pp0 (S limit) (fst (step s i))
              (snd (step s i))) as Hstep.
  { intros limit [m p] i Hl (Hm & Hs & He). cbn [fst snd] in Hm, Hs, He.
    subst step. cbv beta iota.
    assert (extra_single_inv B n0 pp0 (S limit) m p) as Hkeep
      by (split; [lia | split; assumption]).
    destruct (_ <=? reference_frame_value kReferenceFrameIntra); [exact Hkeep |].
    match goal with
    | |- context [stack_slot_is _ 0 ?c] => set (candidate := c)
    end.
    destruct (_ || _) eqn:Hdup; [exact Hkeep |].
    apply extra_duplicate_test in Hdup; [| lia].
    cbn [fst snd].
    pose proof (InsertCandidate_inv B candidate 0 _ Hs ltac:(lia) ltac:(lia)) as Hi.
    unfold single_stack in Hi.
    rewrite InsertCandidate_new in Hi
      by (assumption || (unfold kMaxRefMvStackSize; lia)).
    replace (B + 0) with B in Hi by lia.
    split; [lia |]. split; [exact Hi |].
    eapply scan_extends_trans; [exact He |].
    unfold scan_extends, other_stack_kept, live_prefix_kept. cbn.
    split; [lia |]. repeat (split; [reflexivity |]).
    apply take_insert_ge. lia. }
  cbn [foldl].
  apply (Hstep 2%nat); [lia |]. apply (Hstep 1%nat); [lia |]. exact H.
Qed.

Lemma ExtraSearchPass_single_inv (block : Block) (pass num4x4 : Z) (B : Z)
    (n0 : nat) (pp0 : PredictionParameters) (s s' : ExtraState) :
  B <= 4095 ->
  extra_single_inv B n0 pp0 1 (e_num_mv_found s) (e_prediction_parameters s) ->
  ExtraSearchPass block false pass num4x4 s = Some s' ->
  extra_single_inv B n0 pp0 3 (e_num_mv_found s') (e_prediction_parameters s').
Proof.
  intros HB H. unfold ExtraSearchPass.
  assert (forall t,
            extra_single_inv B n0 pp0 1 (e_num_mv_found t)
              (e_prediction_parameters t) ->
            extra_single_inv B n0 pp0 3 (e_num_mv_found t)
              (e_prediction_parameters t)) as Hweak.
  { intros t (Hn & Hs & He). split; [lia | split; assumption]. }
  apply (while_loop_invariant _ _
           (fun _ t => extra_single_inv B n0 pp0 1 (e_num_mv_found t)
                         (e_prediction_parameters t))
           (fun t => extra_single_inv B n0 pp0 3 (e_num_mv_found t)
                       (e_prediction_parameters t))).
  - intros i t Ht _.
    destruct (negb _); [apply Hweak; exact Ht |].
    pose proof (AddExtraSingleMvCandidate_inv block
                  (row4x4 block + (if pass =? 0 then -1 else i))
                  (column4x4 block + (if pass =? 0 then i else -1))
                  B n0 pp0 _ _ HB Ht) as Hr.
    cbv zeta in Hr.
    destruct (AddExtraSingleMvCandidate _ _ _ _) as [n pp].
    cbn [fst snd] in Hr.
    destruct (Nat.leb_spec 2 n); cbn [e_num_mv_found e_prediction_parameters];
      [exact Hr |].
    destruct Hr as (_ & Hs & He). split; [lia | split; assumption].
  - intros i t Ht _. apply Hweak. exact Ht.
  - exact H.
Qed.

Lemma ExtraSearchPass_compound_frame (block : Block) (pass num4x4 : Z)
    (s s' : ExtraState) :
  ExtraSearchPass block true pass num4x4 s = Some s' ->
  e_num_mv_found s' = e_num_mv_found s
  /\ e_prediction_parameters s' = e_prediction_parameters s.
Proof.
  unfold ExtraSearchPass.
  apply (while_loop_invariant _ _
           (fun _ t => e_num_mv_found t = e_num_mv_found s
                       /\ e_prediction_parameters t = e_prediction_parameters s)
           (fun t => e_num_mv_found t = e_num_mv_found s
                     /\ e_prediction_parameters t = e_prediction_parameters s)).
  - intros i t [Hn Hp] _. destruct (negb _); [split; assumption |].
    destruct (AddExtraCompoundMvCandidate_frame block
                (row4x4 block + (if pass =? 0 then -1 else i))
                (column4x4 block + (if pass =? 0 then i else -1)) t) as [Hn' Hp'].
    split; congruence.
  - intros i t Ht _. exact Ht.
  - split; reflexivity.
Qed.

Lemma ExtraSearch_post (block : Block) (is_compound : bool) (B : Z) (n : nat)
    (pp : PredictionParameters) :
  (n < 2)%nat -> B <= 4095 -> live_stack is_compound B n pp ->
  exists n' pp',
    ExtraSearch block is_compound n pp = Some (n', pp')
    /\ extra_search_post is_compound B n pp n' pp'.
Proof.
  intros Hn HB Hlive. unfold ExtraSearch.
  set (num4x4 := Z.min _ 16). assert (num4x4 <= 16) as H16 by (subst num4x4; lia).
  cbn [e_num_mv_found].
  destruct (Nat.ltb_spec n 2) as [_ | ?]; [| lia].
  destruct (ExtraSearchPass_total block is_compound 0 num4x4
              (MkExtraState ([], []) ([], []) n pp) H16) as [s1 E1].
  rewrite E1. option_step.
  destruct is_compound.
  - (* compound *)
    apply ExtraSearchPass_compound_frame in E1 as [Hn1 Hp1].
    cbn [e_num_mv_found e_prediction_parameters] in Hn1, Hp1.
    rewrite Hn1. destruct (Nat.ltb_spec n 2) as [_ | ?]; [| lia].
    destruct (ExtraSearchPass_total block true 1 num4x4 s1 H16) as [s2 E2].
    rewrite E2. option_step.
    apply ExtraSearchPass_compound_frame in E2 as [Hn2 Hp2].
    rewrite Hn2, Hn1, Hp2, Hp1.
    unfold live_stack in Hlive.
    destruct Hlive as (_ & Hls & Hlw & _ & HB0 & Hp).
    unfold kMaxRefMvStackSize in *.
    destruct n as [| [| n]]; [| | lia]; cbn [Nat.eqb];
      eexists; eexists; (split; [reflexivity |]);
      unfold extra_search_post, scan_extends, other_stack_kept, live_prefix_kept;
      cbn [global_mv nearest_mv_count ref_mv_count ref_mv_stack
           compound_ref_mv_stack weight_index_stack set_compound_ref_mv_stack].
    + split.
      { split; [lia |]. repeat (split; [reflexivity |]). reflexivity. }
      split; [lia |].
      split; [unfold SetWeightIndexStackEntry; rewrite !length_insert; exact Hlw |].
      split; [| reflexivity].
      intros i Hi. exists 0. split; [| lia].
      destruct i as [| [| i]]; [| | lia].
      * rewrite SetWeightIndexStackEntry_other by lia.
        apply SetWeightIndexStackEntry_packed; lia.
      * apply SetWeightIndexStackEntry_packed;
          [lia | unfold SetWeightIndexStackEntry; rewrite length_insert; lia | lia].
    + split.
      { split; [lia |]. repeat (split; [reflexivity |]).
        apply take_insert_ge. lia. }
      split; [lia |].
      split; [unfold SetWeightIndexStackEntry; rewrite !length_insert; exact Hlw |].
      split; [| reflexivity].
      intros i Hi.
      destruct i as [| [| i]]; [| | lia].
      * destruct (Hp 0%nat ltac:(lia)) as (w0 & Hw0 & Hr).
        exists w0. rewrite SetWeightIndexStackEntry_other by lia.
        split; assumption.
      * exists 0. split; [| lia].
        apply SetWeightIndexStackEntry_packed; lia.
  - (* single *)
    assert (extra_single_inv B n pp 1 n pp) as H0
      by (split; [lia | split; [exact Hlive | apply scan_extends_refl]]).
    apply (ExtraSearchPass_single_inv block 0 num4x4 B n pp) in E1;
      [| exact HB | exact H0].
    assert (exists s2,
              (if (e_num_mv_found s1 <? 2)%nat
               then ExtraSearchPass block false 1 num4x4 s1 else Some s1)
              = Some s2
              /\ extra_single_inv B n pp 3 (e_num_mv_found s2)
                   (e_prediction_parameters s2)) as (s2 & E2 & H2).
    { destruct (Nat.ltb_spec (e_num_mv_found s1) 2).
      - destruct (ExtraSearchPass_total block false 1 num4x4 s1 H16) as [s2 E2].
        exists s2. split; [exact E2 |].
        apply (ExtraSearchPass_single_inv block 1 num4x4 B n pp) in E2;
          [exact E2 | exact HB |].
        destruct E1 as (_ & Hs & He). split; [lia | split; assumption].
      - exists s1. split; [reflexivity | exact E1]. }
    rewrite E2. option_step.
    destruct H2 as (Hn2 & Hs2 & He2).
    set (n2 := e_num_mv_found s2) in *. set (p2 := e_prediction_parameters s2) in *.
    clearbody n2 p2.
    eexists; eexists. split; [reflexivity |].
    pose proof Hs2 as (_ & Hls & Hlw & Hnd & HB0 & Hp).
    pose proof He2 as (_ & Hg & _).
    unfold kMaxRefMvStackSize in *.
    destruct n2 as [| [| n2]]; cbn [Nat.sub seq foldl].
    + (* both slots are filled *)
      unfold extra_search_post.
      cbn [global_mv nearest_mv_count ref_mv_count ref_mv_stack
           compound_ref_mv_stack weight_index_stack set_ref_mv_stack
           global_mv_at].
      split.
      { eapply scan_extends_trans; [exact He2 |].
        unfold scan_extends, other_stack_kept, live_prefix_kept. cbn.
        split; [lia |]. repeat (split; [reflexivity |]). reflexivity. }
      split; [lia |].
      split; [unfold SetWeightIndexStackEntry; rewrite !length_insert; exact Hlw |].
      split; [intros i Hi; lia |].
      split; [rewrite take_0; apply NoDup_nil_2 |].
      intros i Hi. rewrite <- Hg.
      destruct i as [| [| i]]; [| | lia].
      * split.
        -- rewrite list_lookup_insert_ne by lia.
           apply list_lookup_insert_eq. lia.
        -- rewrite SetWeightIndexStackEntry_other by lia.
           apply SetWeightIndexStackEntry_packed; lia.
      * split.
        -- apply list_lookup_insert_eq. rewrite length_insert. lia.
        -- apply SetWeightIndexStackEntry_packed;
             [lia | unfold SetWeightIndexStackEntry; rewrite length_insert; lia | lia].
    + (* the second slot is filled *)
      unfold extra_search_post.
      cbn [global_mv nearest_mv_count ref_mv_count ref_mv_stack
           compound_ref_mv_stack weight_index_stack set_ref_mv_stack
           global_mv_at].
      split.
      { eapply scan_extends_trans; [exact He2 |].
        unfold scan_extends, other_stack_kept, live_prefix_kept. cbn.
        split; [lia |]. repeat (split; [reflexivity |]).
        apply take_insert_ge. lia. }
      split; [lia |].
      split; [unfold SetWeightIndexStackEntry; rewrite !length_insert; exact Hlw |].
      split.
      { intros i Hi. destruct (Hp i Hi) as (w0 & Hw0 & Hr).
        exists w0. rewrite SetWeightIndexStackEntry_other by lia.
        split; assumption. }
      split; [rewrite take_insert_ge by lia; exact Hnd |].
      intros i Hi. rewrite <- Hg.
      assert (i = 1%nat) as -> by lia.
      split.
      * apply list_lookup_insert_eq. lia.
      * apply SetWeightIndexStackEntry_packed; lia.
    + (* at least two candidates: nothing is filled *)
      replace (2 - S (S n2))%nat with 0%nat by lia. cbn [seq foldl].
      unfold extra_search_post.
      split; [exact He2 |]. split; [lia |]. split; [exact Hlw |].
      split; [exact Hp |]. split; [exact Hnd |].
      intros i Hi. lia.
Qed.

(** ** What FindMvStack leaves *)

Lemma FindMvStack_unfold (block : Block) (is_compound : bool)
    (pp : PredictionParameters) (l : Locals) (nearest_matches zero : Z)
    (n : nat) (pp1 : PredictionParameters) :
  AllScans block is_compound pp = Some (l, nearest_matches, zero) ->
  FinishStack block is_compound l = Some (n, pp1) ->
  let c := ComputeContexts (l_found_new_mv l) nearest_matches
             (Z.b2z (l_found_row_match l) + Z.b2z (l_found_column_match l)) in
  FindMvStack block is_compound pp
  = Some (set_ref_mv_count pp1 n, MkMvContexts zero (snd c) (fst c)).
Proof.
  intros E F. cbv zeta. unfold FindMvStack. rewrite E. option_step.
  unfold FinishStack in F. rewrite F. option_step.
  destruct (ComputeContexts _ _ _). reflexivity.
Qed.

Lemma packed_indices (B : Z) (n : nat) (w : list Z) :
  weights_packed B n w -> (n <= 8)%nat ->
  entry_index <$> take n w = Z.of_nat <$> seq 0 n.
Proof.
  intros Hp Hn. apply list_eq. intros i.
  rewrite !list_lookup_fmap.
  destruct (Nat.lt_ge_cases i n) as [Hi | Hi].
  - rewrite lookup_take_lt by exact Hi.
    destruct (Hp i Hi) as (wi & -> & _). cbn.
    rewrite entry_index_packed by lia.
    rewrite lookup_seq_lt by exact Hi. reflexivity.
  - rewrite lookup_take_ge by exact Hi.
    rewrite lookup_seq_ge by exact Hi. reflexivity.
Qed.

Lemma FinishStack_post (block : Block) (is_compound : bool) (l : Locals) :
  locals_inv is_compound (nearest_mv_count (l_prediction_parameters l))
    (nearest_mv_count (l_prediction_parameters l)) 1312 l ->
  exists n' pp',
    FinishStack block is_compound l = Some (n', pp')
    /\ finish_post is_compound l n' pp'.
Proof.
  intros (_ & Hlo & Hlive). unfold FinishStack.
  set (pp := l_prediction_parameters l) in *. set (n := l_num_mv_found l) in *.
  destruct (Nat.ltb_spec n 2) as [Hlt | Hge].
  - destruct (ExtraSearch_post block is_compound 1312 n pp Hlt ltac:(lia) Hlive)
      as (n' & pp' & E & He & Hn' & Hlw & Hp & Hk).
    exists n', pp'. split; [exact E |].
    unfold finish_post. fold pp n.
    split; [exact He |]. split; [unfold kMaxRefMvStackSize; lia |].
    split; [intros _; exact Hn' |].
    split; [rewrite (packed_indices 1312) by (assumption || lia); reflexivity |].
    destruct is_compound; [lia | exact Hk].
  - eexists; eexists. split; [reflexivity |].
    unfold finish_post. fold pp n.
    assert ((n <= 8)%nat /\ length (weight_index_stack pp) = 8%nat
            /\ weights_packed 1312 n (weight_index_stack pp)) as (Hn8 & Hlw & Hp).
    { unfold live_stack in Hlive.
      destruct is_compound; destruct Hlive as (? & _ & ? & _ & _ & ?); auto. }
    split.
    { unfold scan_extends, other_stack_kept, live_prefix_kept.
      destruct is_compound; cbn; auto 10. }
    split; [unfold kMaxRefMvStackSize; lia |].
    split; [intros ?; lia |].
    split.
    { cbn [weight_index_stack set_weight_index_stack].
      destruct (SortGroups_spec (nearest_mv_count pp) n (weight_index_stack pp)
                  ltac:(lia)) as (g1 & g2 & Eg & P1 & _ & P2 & _).
      rewrite Eg.
      assert (length g1 + length g2 = n)%nat as Hlen.
      { rewrite (Permutation_length P1), (Permutation_length P2).
        rewrite !length_take, length_drop. lia. }
      rewrite app_assoc, take_app_length' by (rewrite length_app; symmetry; exact Hlen).
      rewrite P1, P2, take_take_drop.
      replace (nearest_mv_count pp + (n - nearest_mv_count pp))%nat with n by lia.
      rewrite (packed_indices 1312) by (assumption || lia). reflexivity. }
    destruct is_compound; [lia |].
    cbn [ref_mv_stack set_weight_index_stack].
    split; [| intros i Hi; lia].
    unfold live_stack in Hlive. apply Hlive.
Qed.

(** The whole of [FindMvStack], for allocated stacks. *)
Lemma FindMvStack_post (block : Block) (is_compound : bool)
    (pp : PredictionParameters) :
  stacks_allocated pp ->
  exists l nearest_matches zero n' pp1,
    AllScans block is_compound pp = Some (l, nearest_matches, zero)
    /\ FindMvStack block is_compound pp
       = Some (set_ref_mv_count pp1 n',
               MkMvContexts zero
                 (snd (ComputeContexts (l_found_new_mv l) nearest_matches
                         (Z.b2z (l_found_row_match l)
                          + Z.b2z (l_found_column_match l))))
                 (fst (ComputeContexts (l_found_new_mv l) nearest_matches
                         (Z.b2z (l_found_row_match l)
                          + Z.b2z (l_found_column_match l)))))
    /\ scans_frame block is_compound pp (l_prediction_parameters l)
    /\ (nearest_mv_count (l_prediction_parameters l) <= l_num_mv_found l)%nat
    /\ finish_post is_compound l n' pp1.
Proof.
  intros Ha.
  destruct (AllScans_total block is_compound pp) as [[[l nm] zero] E].
  pose proof (AllScans_inv block is_compound pp l nm zero Ha E) as Hinv.
  pose proof (AllScans_frame block is_compound pp l nm zero E) as (Hf & Hk & _).
  destruct (FinishStack_post block is_compound l Hinv) as (n' & pp1 & F & Hp).
  exists l, nm, zero, n', pp1.
  split; [exact E |].
  split; [apply (FindMvStack_unfold block is_compound pp l nm zero n' pp1 E F) |].
  split; [exact Hf |]. split; [exact Hk | exact Hp].
Qed.

(** X18. For single prediction, the ref_mv_count candidates that FindMvStack
    leaves in ref_mv_stack are pairwise distinct. *)
Theorem FindMvStack_single_candidates_distinct (block : Block)
    (pp : PredictionParameters) :
  stacks_allocated pp ->
  exists pp' contexts,
    FindMvStack block false pp = Some (pp', contexts)
    /\ NoDup (take (ref_mv_count pp') (ref_mv_stack pp')).
Proof.
  intros Ha.
  destruct (FindMvStack_post block false pp Ha)
    as (l & nm & zero & n' & pp1 & _ & E & _ & _ & Hp).
  eexists; eexists. split; [exact E |].
  destruct Hp as (_ & _ & _ & _ & Hnd & _). exact Hnd.
Qed.

(** X19. FindMvStack leaves nearest_mv_count <= ref_mv_count <=
    kMaxRefMvStackSize = 8.  For compound prediction ref_mv_count is at
    least 2; for single prediction the slots from ref_mv_count up to 1 hold
    the global motion vector with weight 0. *)
Theorem FindMvStack_counts (block : Block) (is_compound : bool)
    (pp : PredictionParameters) :
  stacks_allocated pp ->
  exists pp' contexts,
    FindMvStack block is_compound pp = Some (pp', contexts)
    /\ (nearest_mv_count pp' <= ref_mv_count pp' <= kMaxRefMvStackSize)%nat
    /\ (is_compound = true -> (2 <= ref_mv_count pp')%nat)
    /\ (is_compound = false ->
        forall i, (ref_mv_count pp' <= i < 2)%nat ->
          ref_mv_stack pp' !! i = Some (SetupGlobalMv block 0)
          /\ weight_index_stack pp' !! i = Some (packed i 0)).
Proof.
  intros Ha.
  destruct (FindMvStack_post block is_compound pp Ha)
    as (l & nm & zero & n' & pp1 & _ & E & Hf & Hk & Hp).
  eexists; eexists. split; [exact E |].
  destruct Hp as (He & Hn8 & _ & _ & Hc).
  destruct He as (Hn & _ & Hk1 & _).
  destruct Hf as (Hg & _).
  cbn [nearest_mv_count ref_mv_count ref_mv_stack weight_index_stack
       set_ref_mv_count].
  split; [rewrite Hk1; lia |].
  destruct is_compound.
  - split; [intros _; exact Hc | discriminate].
  - split; [discriminate |]. intros _ i Hi.
    destruct Hc as [_ Hfill]. rewrite Hg in Hfill. apply Hfill. exact Hi.
Qed.

(** X20. For a block whose references in use are frames, FindMvStack stores
    the global motion vector of the first reference in global_mv[0], that of
    the second reference in global_mv[1] for compound prediction only, and
    never writes the stack of the other prediction kind. *)
Theorem FindMvStack_frame (block : Block) (is_compound : bool)
    (pp : PredictionParameters) :
  references_in_use block is_compound ->
  stacks_allocated pp ->
  exists pp' contexts,
    FindMvStack block is_compound pp = Some (pp', contexts)
    /\ global_mv pp'
       = (SetupGlobalMv block 0,
          if is_compound then SetupGlobalMv block 1 else snd (global_mv pp))
    /\ other_stack_kept is_compound pp pp'.
Proof.
  intros _ Ha.
  destruct (FindMvStack_post block is_compound pp Ha)
    as (l & nm & zero & n' & pp1 & _ & E & Hf & _ & Hp).
  eexists; eexists. split; [exact E |].
  destruct Hp as ((_ & Hg1 & _ & _ & Ho1 & _) & _).
  destruct Hf as (Hg & _ & Ho).
  split; [cbn; congruence |].
  unfold other_stack_kept in *. destruct is_compound; cbn; congruence.
Qed.

(** X21. After FindMvStack the indices packed in the first ref_mv_count
    entries of weight_index_stack are a permutation of 0 .. ref_mv_count - 1:
    every candidate is ranked exactly once. *)
Theorem FindMvStack_ranks_every_slot (block : Block) (is_compound : bool)
    (pp : PredictionParameters) :
  stacks_allocated pp ->
  exists pp' contexts,
    FindMvStack block is_compound pp = Some (pp', contexts)
    /\ entry_index <$> take (ref_mv_count pp') (weight_index_stack pp')
       ≡ₚ Z.of_nat <$> seq 0 (ref_mv_count pp').
Proof.
  intros Ha.
  destruct (FindMvStack_post block is_compound pp Ha)
    as (l & nm & zero & n' & pp1 & _ & E & _ & _ & Hp).
  eexists; eexists. split; [exact E |].
  destruct Hp as (_ & _ & _ & Hperm & _). exact Hperm.
Qed.

Lemma AllScans_zero (block : Block) (is_compound : bool)
    (pp : PredictionParameters) (l : Locals) (nearest_matches zero : Z) :
  AllScans block is_compound pp = Some (l, nearest_matches, zero) ->
  if use_ref_frame_mvs (frame_header (tile block)) then
    exists n pp2 t,
      TemporalScan block is_compound (MkTemporalState (-1) n pp2) = Some t
      /\ zero = zero_mv_context t
  else zero = 0.
Proof.
  unfold AllScans.
  destruct (NearestScans _ _ _) as [l1 |]; [| discriminate].
  option_step. unfold TemporalStep.
  destruct (use_ref_frame_mvs _).
  - destruct (TemporalScan _ _ _) as [t |] eqn:E; [| discriminate].
    option_step.
    destruct (FarScans _ _ _) as [l5 |]; [| discriminate].
    option_step. intros [= _ _ <-].
    eexists; eexists; exists t. split; [exact E | reflexivity].
  - option_step.
    destruct (FarScans _ _ _) as [l5 |]; [| discriminate].
    option_step. intros [= _ _ <-]. reflexivity.
Qed.

Lemma ZeroMvFromCandidate_range (frame_header : ObuFrameHeader)
    (is_compound : bool) (offsets : Z * Z)
    (global : MotionVector * MotionVector) (temporal : MotionVector * Z) :
  0 <= ZeroMvFromCandidate frame_header is_compound offsets global temporal <= 1.
Proof.
  unfold ZeroMvFromCandidate.
  destruct is_compound; destruct (16 <=? _); cbn; lia.
Qed.

Lemma TemporalScan_zero_range (block : Block) (is_compound : bool) (n : nat)
    (pp : PredictionParameters) (t : TemporalState) :
  TemporalScan block is_compound (MkTemporalState (-1) n pp) = Some t ->
  -1 <= zero_mv_context t <= 1
  /\ (first_sampled block = true -> 0 <= zero_mv_context t).
Proof.
  destruct (TemporalScanGrid_total block (-1, [])) as [g Eg].
  pose proof (grid_extends_trans _ _ _ (TemporalScanGrid_first block _ _ Eg)
                (TemporalScanExtra_extends block g)) as [Hz (more & Hc & Hv)].
  rewrite after_first_cell_cases in Hz, Hc.
  unfold TemporalScan. cbn [zero_mv_context t_num_mv_found t_prediction_parameters].
  rewrite Eg. option_step.
  set (g' := TemporalScanExtra block g) in *.
  destruct (first_sampled block).
  - destruct (mv0 (fst (first_cell block)) =? kInvalidMvValue).
    + cbn [fst snd] in Hz, Hc.
      destruct (negb _); intros [= <-].
      * rewrite AddTemporalReferenceMvCandidate_keeps_zero;
          cbn [zero_mv_context]; rewrite Hz; [lia | discriminate].
      * cbn [zero_mv_context]. rewrite Hz. lia.
    + cbn [fst snd app] in Hz, Hc. rewrite Hz, Hc.
      cbn [length Nat.eqb negb]. intros [= <-].
      rewrite AddTemporalReferenceMvCandidate_sets_zero.
      pose proof (ZeroMvFromCandidate_range (frame_header (tile block))
                    is_compound (TemporalReferenceOffsets block is_compound)
                    (global_mv pp) (first_cell block)).
      lia.
  - cbn [fst snd app] in Hz, Hc. rewrite Hz, Hc.
    destruct more as [| first more]; cbn [length Nat.eqb negb]; intros [= <-].
    + cbn [zero_mv_context]. split; [lia | discriminate].
    + rewrite AddTemporalReferenceMvCandidate_sets_zero.
      pose proof (ZeroMvFromCandidate_range (frame_header (tile block))
                    is_compound (TemporalReferenceOffsets block is_compound)
                    (global_mv pp) first).
      split; [lia | discriminate].
Qed.

(** X22. FindMvStack always returns, with the contexts new_mv and
    reference_mv within [0, 5] and zero_mv within [-1, 1]; zero_mv is 0
    when use_ref_frame_mvs is off and is not -1 when the first grid position
    of the temporal scan lies within the bottom and right edges of the tile. *)
Theorem FindMvStack_contexts_range (block : Block) (is_compound : bool)
    (pp : PredictionParameters) :
  exists pp' contexts,
    FindMvStack block is_compound pp = Some (pp', contexts)
    /\ 0 <= new_mv contexts <= 5
    /\ 0 <= reference_mv contexts <= 5
    /\ -1 <= zero_mv contexts <= 1
    /\ (use_ref_frame_mvs (frame_header (tile block)) = false ->
        zero_mv contexts = 0)
    /\ (first_sampled block = true -> 0 <= zero_mv contexts).
Proof.
  destruct (FindMvStack_total block is_compound pp)
    as (l & nm & zero & pp' & contexts & E & F & _).
  exists pp', contexts. split; [exact F |].
  pose proof (AllScans_frame block is_compound pp l nm zero E) as (_ & _ & Hnm).
  pose proof (AllScans_zero block is_compound pp l nm zero E) as Hzero.
  unfold FindMvStack in F. rewrite E in F. revert F. option_step.
  match goal with
  | |- (?x ≫= _) = _ -> _ => destruct x as [[n1 pp1] |]; [| discriminate]
  end.
  option_step.
  destruct (ComputeContexts _ _ _) as [c1 c2] eqn:Ec.
  intros [= _ <-]. cbn [new_mv reference_mv zero_mv].
  assert (0 <= c1 <= 5 /\ 0 <= c2 <= 5) as [H1 H2].
  { unfold ComputeContexts in Ec.
    destruct (l_found_new_mv l), (l_found_row_match l), (l_found_column_match l);
      cbn in Ec;
      destruct (Z.eqb_spec nm 0); try (injection Ec as <- <-; lia);
      destruct (Z.eqb_spec nm 1); injection Ec as <- <-; lia. }
  split; [exact H1 |]. split; [exact H2 |].
  destruct (use_ref_frame_mvs _).
  - destruct Hzero as (n & pp2 & t & Et & ->).
    apply TemporalScan_zero_range in Et as [Hr Hs].
    split; [exact Hr |]. split; [discriminate | exact Hs].
  - subst zero. split; [lia |]. split; [reflexivity | lia].
Qed.

(** ** Sources of the candidates *)

Lemma InsertCandidate_entries {A : Type} `{EqDecision A} (Q : A -> Prop)
    (c : A) (w : Z) (stack : list A) (weights : list Z) (n : nat) :
  stack_entries Q stack n -> Q c ->
  let '(stack', _, n') := InsertCandidate c w (stack, weights, n) in
  stack_entries Q stack' n'.
Proof.
  intros Hs Hc. unfold InsertCandidate.
  destruct (find_if stack n c); [exact Hs |].
  destruct (_ <=? _)%nat; [exact Hs |].
  intros i x Hi Hx.
  apply list_lookup_insert_Some in Hx as [(-> & <- & _) | [Hne Hx]];
    [exact Hc |].
  apply (Hs i x); [lia | exact Hx].
Qed.

Lemma foldl_invariant {S X : Type} (I : S -> Prop) (f : S -> X -> S)
    (l : list X) (s : S) :
  I s -> (forall s x, I s -> I (f s x)) -> I (foldl f s l).
Proof.
  intros Hs Hf. revert s Hs.
  induction l as [| x l IH]; intros s Hs; cbn [foldl]; auto.
Qed.

Lemma NegateMv_negated (m : MotionVector) : NegateMv m = negated m.
Proof. reflexivity. Qed.

Lemma TemporalReferenceOffsets_at (block : Block) (is_compound : bool) :
  TemporalReferenceOffsets block is_compound
  = (reference_offset block 0,
     if is_compound then reference_offset block 1 else 0).
Proof. reflexivity. Qed.

(** The cells that the temporal scan collects are valid cells of the
    motion field. *)
Lemma GridCellAt_cells (block : Block) (g : GridState) (p : Z * Z) :
  Forall (field_cell block) (snd g) ->
  Forall (field_cell block) (snd (GridCellAt block g p)).
Proof.
  intros Hg. destruct p as [mv_row mv_column]. unfold GridCellAt.
  destruct (IsBottomRightInside _ _ _); [| exact Hg].
  destruct (_ =? kInvalidMvValue) eqn:Hv.
  - destruct (_ && _); exact Hg.
  - cbn [snd]. apply Forall_app. split; [exact Hg |].
    constructor; [| constructor].
    split; [apply eqb_invalid_false; exact Hv | eexists; reflexivity].
Qed.

Lemma TemporalScanExtra_cells (block : Block) (g : GridState) :
  Forall (field_cell block) (snd g) ->
  Forall (field_cell block) (snd (TemporalScanExtra block g)).
Proof.
  intros Hg. unfold TemporalScanExtra.
  destruct (kTemporalScanMask _); [| exact Hg].
  apply (foldl_invariant (fun g => Forall (field_cell block) (snd g)));
    [exact Hg |].
  intros g0 [[row column] offset] H0.
  destruct (negb (IsWithinTheSame64x64Block _ _ _)); [exact H0 |].
  destruct (negb (IsBottomRightInside _ _ _)); [exact H0 |].
  destruct (_ =? kInvalidMvValue) eqn:Hv; cbn [negb]; [exact H0 |].
  cbn [snd]. apply Forall_app. split; [exact H0 |].
  constructor; [| constructor].
  split; [apply eqb_invalid_false; exact Hv | eexists; reflexivity].
Qed.

Lemma TemporalCandidates_cells (block : Block) (z : Z) (g : GridState) :
  TemporalScanGrid block (z, []) = Some g ->
  Forall (field_cell block) (snd (TemporalScanExtra block g)).
Proof.
  rewrite TemporalScanGrid_fold. intros [= <-].
  apply TemporalScanExtra_cells.
  apply (foldl_invariant (fun g => Forall (field_cell block) (snd g))
           (GridCellAt block) (grid_positions block) (z, [])).
  - constructor.
  - intros g0 p. apply GridCellAt_cells.
Qed.

Section CandidateInvariant.

Variable block : Block.

Variable P : nat -> MotionVector -> Prop.

Hypothesis P_scanned :
  forall row column i j,
    neighbor_position block row column ->
    is_inter (Parameters (tile block) row column) = true ->
    reference_frame_at (Parameters (tile block) row column) i
    = reference_frame_at (bp block) j ->
    P j (cmv_get (mv (Parameters (tile block) row column)) i).

Hypothesis P_temporal :
  forall j cell,
    field_cell block cell ->
    P j (LowerMvPrecision (frame_header (tile block))
           (GetMvProjection (fst cell) (reference_offset block j) (snd cell))).

Lemma SearchStack_from (mv_bp : BlockParameters) (index : nat) (w : Z)
    (st : ScanState) :
  P 0%nat (cmv_get (mv mv_bp) index) ->
  scan_from P false st ->
  scan_from P false (SearchStack block mv_bp index w st).
Proof.
  intros Hbp (Hg & Hg1 & Hs). unfold scan_from, SearchStack.
  match goal with
  | |- context [InsertCandidate ?c ?w' (?s, ?ws, ?n)] =>
      pose proof (InsertCandidate_entries (P 0%nat) c w' s ws n Hs) as Hi;
      destruct (InsertCandidate c w' (s, ws, n)) as [[stack' weights'] n']
  end.
  unfold candidates_from. cbn.
  split; [exact Hg |]. split; [discriminate |].
  apply Hi. destruct (IsGlobalMvBlock _ _); [exact Hg | exact Hbp].
Qed.

Lemma CompoundSearchStack_from (mv_bp : BlockParameters) (w : Z)
    (st : ScanState) :
  P 0%nat (cmv0 (mv mv_bp)) -> P 1%nat (cmv1 (mv mv_bp)) ->
  scan_from P true st ->
  scan_from P true (CompoundSearchStack block mv_bp w st).
Proof.
  intros H0 H1 (Hg & Hg1 & Hs). unfold scan_from, CompoundSearchStack.
  match goal with
  | |- context [InsertCandidate ?c ?w' (?s, ?ws, ?n)] =>
      pose proof (InsertCandidate_entries
                    (fun e => P 0%nat (cmv0 e) /\ P 1%nat (cmv1 e))
                    c w' s ws n Hs) as Hi;
      destruct (InsertCandidate c w' (s, ws, n)) as [[stack' weights'] n']
  end.
  unfold candidates_from. cbn.
  split; [exact Hg |]. split; [exact Hg1 |].
  apply Hi. specialize (Hg1 eq_refl).
  destruct (IsGlobalMvBlock _ (gm_type (global_motion _ (reference_frame_at _ 0)))),
    (IsGlobalMvBlock _ (gm_type (global_motion _ (reference_frame_at _ 1))));
    cbn; auto.
Qed.

Lemma AddReferenceMvCandidate_from (mv_bp : BlockParameters)
    (is_compound : bool) (w : Z) (st : ScanState) :
  (forall i j, is_inter mv_bp = true ->
     reference_frame_at mv_bp i = reference_frame_at (bp block) j ->
     P j (cmv_get (mv mv_bp) i)) ->
  scan_from P is_compound st ->
  scan_from P is_compound (AddReferenceMvCandidate block mv_bp is_compound w st).
Proof.
  intros Hbp H. unfold AddReferenceMvCandidate.
  destruct (is_inter mv_bp) eqn:Hinter; cbn [negb]; [| exact H].
  destruct is_compound.
  - destruct (bool_decide _ && bool_decide _) eqn:Href; [| exact H].
    apply andb_true_iff in Href as [R0 R1].
    apply bool_decide_eq_true in R0, R1.
    apply CompoundSearchStack_from; [| | exact H].
    + exact (Hbp 0%nat 0%nat eq_refl R0).
    + exact (Hbp 1%nat 1%nat eq_refl R1).
  - assert (scan_from P false
              (if bool_decide (reference_frame_at mv_bp 0
                               = reference_frame_at (bp block) 0)
               then SearchStack block mv_bp 0 w st else st)) as H1.
    { destruct (bool_decide _) eqn:R0; [| exact H].
      apply bool_decide_eq_true in R0.
      apply SearchStack_from; [| exact H].
      exact (Hbp 0%nat 0%nat eq_refl R0). }
    destruct (bool_decide (reference_frame_at mv_bp 1 = _)) eqn:R1; [| exact H1].
    apply bool_decide_eq_true in R1.
    apply SearchStack_from; [| exact H1].
    exact (Hbp 1%nat 0%nat eq_refl R1).
Qed.

Lemma AddReferenceMvCandidate_at (row column : Z) (is_compound : bool)
    (w : Z) (st : ScanState) :
  neighbor_position block row column ->
  scan_from P is_compound st ->
  scan_from P is_compound
    (AddReferenceMvCandidate block (Parameters (tile block) row column)
       is_compound w st).
Proof.
  intros Hpos H. apply AddReferenceMvCandidate_from; [| exact H].
  intros i j. apply P_scanned. exact Hpos.
Qed.

Lemma ScanRow_from (mv_column delta_row : Z) (is_compound : bool)
    (st st' : ScanState) :
  delta_row < 0 ->
  scan_from P is_compound st ->
  ScanRow block mv_column delta_row is_compound st = Some st' ->
  scan_from P is_compound st'.
Proof.
  intros Hd H. unfold ScanRow.
  destruct (negb _); [intros [= <-]; exact H |].
  apply (do_while_invariant _ _ (fun _ t => scan_from P is_compound t)
           (scan_from P is_compound)).
  - apply AddReferenceMvCandidate_at; [left; lia | exact H].
  - intros i t Ht _.
    apply AddReferenceMvCandidate_at; [left; lia | exact Ht].
  - intros i t Ht _. exact Ht.
Qed.

Lemma ScanColumn_from (mv_row delta_column : Z) (is_compound : bool)
    (st st' : ScanState) :
  delta_column < 0 ->
  scan_from P is_compound st ->
  ScanColumn block mv_row delta_column is_compound st = Some st' ->
  scan_from P is_compound st'.
Proof.
  intros Hd H. unfold ScanColumn.
  destruct (negb _); [intros [= <-]; exact H |].
  apply (do_while_invariant _ _ (fun _ t => scan_from P is_compound t)
           (scan_from P is_compound)).
  - apply AddReferenceMvCandidate_at; [right; lia | exact H].
  - intros i t Ht _.
    apply AddReferenceMvCandidate_at; [right; lia | exact Ht].
  - intros i t Ht _. exact Ht.
Qed.

Lemma ScanPoint_from (delta_row delta_column : Z) (is_compound : bool)
    (st : ScanState) :
  delta_row < 0 ->
  scan_from P is_compound st ->
  scan_from P is_compound
    (ScanPoint block delta_row delta_column is_compound st).
Proof.
  intros Hd H. unfold ScanPoint.
  destruct (_ || _); [exact H |].
  destruct (bool_decide _); [exact H |].
  apply AddReferenceMvCandidate_at; [left; lia | exact H].
Qed.

Lemma AddTemporalReferenceMvCandidate_from
    (temporal : list (MotionVector * Z)) (is_compound : bool) (s : TemporalState) :
  Forall (field_cell block) temporal ->
  temporal_from P is_compound s ->
  temporal_from P is_compound
    (AddTemporalReferenceMvCandidate (frame_header (tile block))
       (TemporalReferenceOffsets block is_compound) temporal is_compound s).
Proof.
  rewrite TemporalReferenceOffsets_at.
  unfold AddTemporalReferenceMvCandidate, temporal_from.
  intros Hcells. revert s.
  induction Hcells as [| t temporal Ht _ IH]; intros s H.
  - destruct is_compound; exact H.
  - destruct H as (Hg & Hg1 & Hs).
    destruct is_compound; cbn [foldl]; apply IH.
    + unfold AddTemporalCompound. cbn [fst snd].
      rewrite !TemporalCandidateMv_projection.
      match goal with
      | |- context [InsertCandidate ?c ?w' (?st, ?ws, ?n)] =>
          pose proof (InsertCandidate_entries
                        (fun e => P 0%nat (cmv0 e) /\ P 1%nat (cmv1 e))
                        c w' st ws n Hs) as Hi;
          destruct (InsertCandidate c w' (st, ws, n)) as [[stack' weights'] n']
      end.
      unfold candidates_from. cbn.
      split; [exact Hg |]. split; [exact Hg1 |].
      apply Hi. split; apply P_temporal; exact Ht.
    + unfold AddTemporalSingle. cbn [fst snd].
      rewrite !TemporalCandidateMv_projection.
      match goal with
      | |- context [InsertCandidate ?c ?w' (?st, ?ws, ?n)] =>
          pose proof (InsertCandidate_entries (P 0%nat) c w' st ws n Hs) as Hi;
          destruct (InsertCandidate c w' (st, ws, n)) as [[stack' weights'] n']
      end.
      unfold candidates_from. cbn.
      split; [exact Hg |]. split; [discriminate |].
      apply Hi. apply P_temporal. exact Ht.
Qed.

Lemma TemporalScan_from (is_compound : bool) (s t : TemporalState) :
  temporal_from P is_compound s ->
  TemporalScan block is_compound s = Some t ->
  temporal_from P is_compound t.
Proof.
  intros H. unfold TemporalScan.
  destruct (TemporalScanGrid block _) as [g |] eqn:Eg; [| discriminate].
  apply TemporalCandidates_cells in Eg.
  option_step. destruct (negb _); intros [= <-].
  - apply AddTemporalReferenceMvCandidate_from; [exact Eg | exact H].
  - exact H.
Qed.

Lemma row_call_from (a : NewMvArg) (m : MatchArg)
    (mv_column delta_row : Z) (is_compound : bool) (l l' : Locals) :
  delta_row < 0 ->
  locals_from P is_compound l ->
  leave a m l <$> ScanRow block mv_column delta_row is_compound (enter a m l)
  = Some l' ->
  locals_from P is_compound l'.
Proof.
  intros Hd H.
  destruct (ScanRow _ _ _ _ _) as [st |] eqn:E; [| discriminate].
  intros [= <-].
  apply (ScanRow_from _ _ is_compound) in E; [exact E | exact Hd | exact H].
Qed.

Lemma column_call_from (a : NewMvArg) (m : MatchArg)
    (mv_row delta_column : Z) (is_compound : bool) (l l' : Locals) :
  delta_column < 0 ->
  locals_from P is_compound l ->
  leave a m l <$> ScanColumn block mv_row delta_column is_compound (enter a m l)
  = Some l' ->
  locals_from P is_compound l'.
Proof.
  intros Hd H.
  destruct (ScanColumn _ _ _ _ _) as [st |] eqn:E; [| discriminate].
  intros [= <-].
  apply (ScanColumn_from _ _ is_compound) in E; [exact E | exact Hd | exact H].
Qed.

Lemma point_call_from (a : NewMvArg) (m : MatchArg)
    (delta_row delta_column : Z) (is_compound : bool) (l : Locals) :
  delta_row < 0 ->
  locals_from P is_compound l ->
  locals_from P is_compound
    (leave a m l (ScanPoint block delta_row delta_column is_compound (enter a m l))).
Proof.
  intros Hd H.
  exact (ScanPoint_from delta_row delta_column is_compound (enter a m l) Hd H).
Qed.

Lemma NearestScans_from (is_compound : bool) (l l' : Locals) :
  locals_from P is_compound l ->
  NearestScans block is_compound l = Some l' ->
  locals_from P is_compound l'.
Proof.
  intros H. unfold NearestScans.
  destruct (leave _ _ l <$> ScanRow _ _ _ _ _) as [l1 |] eqn:E1; [| discriminate].
  apply row_call_from in E1; [| lia | exact H].
  option_step.
  destruct (leave _ _ l1 <$> ScanColumn _ _ _ _ _) as [l2 |] eqn:E2; [| discriminate].
  apply column_call_from in E2; [| lia | exact E1].
  option_step. intros [= <-].
  destruct (_ <=? 16); [| exact E2].
  apply point_call_from; [lia | exact E2].
Qed.

Lemma FarScans_from (is_compound : bool) (l l' : Locals) :
  locals_from P is_compound l ->
  FarScans block is_compound l = Some l' ->
  locals_from P is_compound l'.
Proof.
  intros H. unfold FarScans.
  pose proof (land_1_range (row4x4 block)) as Hr.
  pose proof (land_1_range (column4x4 block)) as Hc.
  pose proof (point_call_from PassDummyBool PassRowMatch (-1) (-1)
                is_compound l ltac:(lia) H) as H0.
  set (l0 := leave _ _ l (ScanPoint _ _ _ _ _)) in *. clearbody l0.
  destruct (leave _ _ l0 <$> ScanRow _ _ _ _ _) as [l1 |] eqn:E1; [| discriminate].
  apply row_call_from in E1; [| lia | exact H0].
  option_step.
  destruct (leave _ _ l1 <$> ScanColumn _ _ _ _ _) as [l2 |] eqn:E2; [| discriminate].
  apply column_call_from in E2; [| lia | exact E1].
  option_step.
  assert (forall l3,
            (if 1 <? height4x4 block
             then leave PassDummyBool PassRowMatch l2 <$>
                    ScanRow block (Z.lor (column4x4 block) 1)
                      (-5 + Z.land (row4x4 block) 1) is_compound
                      (enter PassDummyBool PassRowMatch l2)
             else Some l2) = Some l3 ->
            locals_from P is_compound l3) as H3.
  { intros l3. destruct (1 <? height4x4 block).
    - intros E3. apply row_call_from in E3; [exact E3 | lia | exact E2].
    - intros [= <-]. exact E2. }
  match goal with
  | |- (?x ≫= _) = _ -> _ => destruct x as [l3 |] eqn:E3; [| discriminate]
  end.
  specialize (H3 l3 eq_refl). option_step.
  destruct (1 <? width4x4 block).
  - intros E4. apply column_call_from in E4; [exact E4 | lia | exact H3].
  - intros [= <-]. exact H3.
Qed.

Lemma TemporalStep_from (is_compound : bool) (l l' : Locals) (zero : Z) :
  locals_from P is_compound l ->
  TemporalStep block is_compound l = Some (l', zero) ->
  locals_from P is_compound l'.
Proof.
  intros H. unfold TemporalStep.
  destruct (use_ref_frame_mvs _); [| intros [= <- _]; exact H].
  destruct (TemporalScan _ _ _) as [t |] eqn:E; [| discriminate].
  option_step. intros [= <- _].
  apply (TemporalScan_from is_compound) in E; [exact E | exact H].
Qed.

Hypothesis P_global : forall j, P j (SetupGlobalMv block j).

Lemma AllScans_from (is_compound : bool) (pp : PredictionParameters)
    (l : Locals) (nearest_matches zero : Z) :
  AllScans block is_compound pp = Some (l, nearest_matches, zero) ->
  locals_from P is_compound l.
Proof.
  unfold AllScans.
  match goal with
  | |- (NearestScans _ _ ?x ≫= _) = _ -> _ =>
      set (l0 := x); assert (locals_from P is_compound l0) as H0
  end.
  { subst l0. unfold locals_from, candidates_from. cbn.
    destruct is_compound; cbn.
    - split; [apply P_global |]. split; [intros _; apply P_global |].
      intros i x Hi. lia.
    - split; [apply P_global |]. split; [discriminate |].
      intros i x Hi. lia. }
  clearbody l0.
  destruct (NearestScans _ _ _) as [l1 |] eqn:E1; [| discriminate].
  apply NearestScans_from in E1; [| exact H0].
  option_step.
  match goal with
  | |- (TemporalStep _ _ ?x ≫= _) = _ -> _ =>
      set (l2 := x); assert (locals_from P is_compound l2) as H2 by exact E1
  end.
  clearbody l2.
  destruct (TemporalStep _ _ _) as [[l3 z] |] eqn:E3; [| discriminate].
  apply TemporalStep_from in E3; [| exact H2].
  option_step.
  match goal with
  | |- (FarScans _ _ ?x ≫= _) = _ -> _ =>
      set (l4 := x); assert (locals_from P is_compound l4) as H4 by exact E3
  end.
  clearbody l4.
  destruct (FarScans _ _ _) as [l5 |] eqn:E5; [| discriminate].
  apply FarScans_from in E5; [| exact H4].
  option_step. intros [= <- _ _]. exact E5.
Qed.

End CandidateInvariant.

Lemma AddExtraCompoundMvCandidate_lists (block : Block)
    (Q : list MotionVector -> Prop) (mv_row mv_column : Z) (s : ExtraState) :
  list_property block Q ->
  extra_lists Q s ->
  extra_lists Q (AddExtraCompoundMvCandidate block mv_row mv_column s).
Proof.
  intros HQ Hs. unfold AddExtraCompoundMvCandidate.
  apply foldl_invariant; [exact Hs |].
  intros s1 i H1. destruct (_ <=? _); [exact H1 |].
  apply foldl_invariant; [exact H1 |].
  intros s2 j (Ha & Hb & Hc & Hd).
  destruct (bool_decide _ && _) eqn:Hid.
  - apply andb_true_iff in Hid as [_ Hlen]. apply Nat.ltb_lt in Hlen.
    unfold extra_lists. cbn [ref_id ref_diff].
    destruct j as [| j]; cbn [pair_get pair_set fst snd] in *.
    + split; [apply HQ; assumption |]. auto.
    + split; [assumption |]. split; [apply HQ; assumption |]. auto.
  - destruct (Nat.ltb_spec (length (pair_get (ref_diff s2) j)) 2) as [Hlen | _];
      [| split; [| split; [| split]]; assumption].
    unfold extra_lists. cbn [ref_id ref_diff].
    destruct j as [| j]; cbn [pair_get pair_set fst snd] in *.
    + split; [assumption |]. split; [assumption |].
      split; [| assumption].
      destruct (negb _); apply HQ; assumption.
    + split; [assumption |]. split; [assumption |].
      split; [assumption |].
      destruct (negb _); apply HQ; assumption.
Qed.

Lemma ExtraSearchPass_lists (block : Block) (is_compound : bool)
    (Q : list MotionVector -> Prop) (pass num4x4 : Z) (s s' : ExtraState) :
  list_property block Q ->
  extra_lists Q s ->
  ExtraSearchPass block is_compound pass num4x4 s = Some s' ->
  extra_lists Q s'.
Proof.
  intros HQ Hs. unfold ExtraSearchPass.
  apply (while_loop_invariant _ _ (fun _ t => extra_lists Q t) (extra_lists Q)).
  - intros i t Ht _. destruct (negb _); [exact Ht |].
    destruct is_compound.
    + apply AddExtraCompoundMvCandidate_lists; assumption.
    + destruct (AddExtraSingleMvCandidate _ _ _ _) as [n pp].
      destruct (2 <=? n)%nat; exact Ht.
  - intros i t Ht _. exact Ht.
  - exact Hs.
Qed.

Lemma ExtraSearchPass_single_lists (block : Block) (pass num4x4 : Z)
    (s s' : ExtraState) :
  ExtraSearchPass block false pass num4x4 s = Some s' ->
  ref_id s' = ref_id s /\ ref_diff s' = ref_diff s.
Proof.
  unfold ExtraSearchPass.
  apply (while_loop_invariant _ _
           (fun _ t => ref_id t = ref_id s /\ ref_diff t = ref_diff s)
           (fun t => ref_id t = ref_id s /\ ref_diff t = ref_diff s)).
  - intros i t Ht _. destruct (negb _); [exact Ht |].
    destruct (AddExtraSingleMvCandidate _ _ _ _) as [n pp].
    destruct (2 <=? n)%nat; exact Ht.
  - intros i t Ht _. exact Ht.
  - split; reflexivity.
Qed.

(** X23. For a block whose references in use are frames, a pass of the
    extra search keeps each of the four lists ref_id[0..1], ref_diff[0..1]
    within its capacity of 2, as the assertion before the merge expects.  A
    compound pass writes nothing but the lists: the count and the
    prediction parameters are as before.  A single pass does not write the
    lists. *)
Theorem ExtraSearchPass_lists_bounded (block : Block) (is_compound : bool)
    (pass num4x4 : Z) (s s' : ExtraState) :
  references_in_use block is_compound ->
  extra_lists (fun l => (length l <= 2)%nat) s ->
  ExtraSearchPass block is_compound pass num4x4 s = Some s' ->
  extra_lists (fun l => (length l <= 2)%nat) s'
  /\ (is_compound = true ->
      e_num_mv_found s' = e_num_mv_found s
      /\ e_prediction_parameters s' = e_prediction_parameters s)
  /\ (is_compound = false ->
      ref_id s' = ref_id s /\ ref_diff s' = ref_diff s).
Proof.
  intros _ Hs E. split; [| split].
  - apply (ExtraSearchPass_lists block is_compound _ pass num4x4 s s');
      [| exact Hs | exact E].
    intros l row column i Hl Hlt. rewrite !length_app. cbn [length]. lia.
  - intros ->. apply (ExtraSearchPass_compound_frame block pass num4x4). exact E.
  - intros ->. apply (ExtraSearchPass_single_lists block pass num4x4). exact E.
Qed.

(** The pass over the row above [compound_block] fills ref_id[0] and
    ref_diff[1]: both 4x4 neighbours move by (1000, 0) from LAST, the first
    reference of the block, and LAST and ALTREF differ in sign bias. *)
Example lists_after_row_reached :
  ExtraSearchPass compound_block true 0 2
    (MkExtraState ([], []) ([], []) 0 fresh_parameters)
  = Some lists_after_row.
Proof. vm_compute. reflexivity. Qed.

Lemma ExtraSearchPass_lists_bounded_witness :
  exists s',
    ExtraSearchPass compound_block true 1 2 lists_after_row = Some s'
    /\ ref_id s' = ([MkMv 1000 0; MkMv 1000 0], [])
    /\ ref_diff s'
       = ([MkMv 1000 0; MkMv 1000 0], [MkMv (-1000) 0; MkMv (-1000) 0])
    /\ extra_lists (fun l => (length l <= 2)%nat) s'
    /\ e_prediction_parameters s' = fresh_parameters.
Proof.
  assert (exists s',
            ExtraSearchPass compound_block true 1 2 lists_after_row = Some s'
            /\ ref_id s' = ([MkMv 1000 0; MkMv 1000 0], [])
            /\ ref_diff s'
               = ([MkMv 1000 0; MkMv 1000 0], [MkMv (-1000) 0; MkMv (-1000) 0]))
    as (s' & E & Hid & Hdiff).
  { eexists. split; [vm_compute; reflexivity |]. split; reflexivity. }
  exists s'. split; [exact E |]. split; [exact Hid |]. split; [exact Hdiff |].
  destruct (ExtraSearchPass_lists_bounded compound_block true 1 2
              lists_after_row s') as (Hl & Hc & _).
  - split; [| intros _]; cbn; lia.
  - unfold extra_lists, lists_after_row. cbn. lia.
  - exact E.
  - split; [exact Hl |]. apply Hc. reflexivity.
Defined.

Lemma foldl_invariant_in {S X : Type} (I : S -> Prop) (f : S -> X -> S)
    (l : list X) (s : S) :
  I s -> (forall s x, In x l -> I s -> I (f s x)) -> I (foldl f s l).
Proof.
  revert s. induction l as [| x l IH]; intros s Hs Hf; cbn [foldl];
    [exact Hs |].
  apply IH.
  - apply Hf; [left; reflexivity | exact Hs].
  - intros s' x' Hin. apply Hf. right. exact Hin.
Qed.

Lemma sign_adjusted_code (t : Tile) (candidate target : ReferenceFrameType)
    (m : MotionVector) :
  (if negb (eqb (reference_frame_sign_bias t candidate)
                (reference_frame_sign_bias t target))
   then NegateMv m else m)
  = sign_adjusted t candidate target m.
Proof.
  unfold sign_adjusted.
  destruct (reference_frame_sign_bias t candidate),
    (reference_frame_sign_bias t target); reflexivity.
Qed.

Lemma sign_adjusted_same (t : Tile) (r : ReferenceFrameType) (m : MotionVector) :
  sign_adjusted t r r m = m.
Proof.
  unfold sign_adjusted. rewrite bool_decide_eq_true_2; reflexivity.
Qed.

Section ExtraSearchInvariant.

Variable block : Block.

Variable P : nat -> MotionVector -> Prop.

Hypothesis P_extra :
  forall row column i j,
    neighbor_position block row column ->
    reference_frame_value kReferenceFrameIntra
    < reference_frame_value
        (reference_frame_at (Parameters (tile block) row column) i) ->
    P j (sign_adjusted (tile block)
           (reference_frame_at (Parameters (tile block) row column) i)
           (reference_frame_at (bp block) j)
           (cmv_get (mv (Parameters (tile block) row column)) i)).

Lemma AddExtraSingleMvCandidate_from (mv_row mv_column : Z) (n : nat)
    (pp : PredictionParameters) :
  neighbor_position block mv_row mv_column ->
  candidates_from P false n pp ->
  let r := AddExtraSingleMvCandidate block mv_row mv_column (n, pp) in
  candidates_from P false (fst r) (snd r).
Proof.
  intros Hpos H. cbv zeta. unfold AddExtraSingleMvCandidate.
  apply (foldl_invariant
           (fun s : nat * PredictionParameters =>
              candidates_from P false (fst s) (snd s))); [exact H |].
  intros [m p] i (Hg & Hg1 & Hs). cbn [fst snd] in *.
  destruct (Z.leb_spec
              (reference_frame_value
                 (reference_frame_at (Parameters (tile block) mv_row mv_column) i))
              (reference_frame_value kReferenceFrameIntra)) as [_ | Href];
    [split; [| split]; assumption |].
  rewrite sign_adjusted_code.
  destruct (_ || _); [split; [| split]; assumption |].
  unfold candidates_from. cbn.
  split; [exact Hg |]. split; [discriminate |].
  intros k x Hk Hx.
  apply list_lookup_insert_Some in Hx as [(<- & <- & _) | [Hne Hx]].
  - apply P_extra; assumption.
  - apply (Hs k x); [lia | exact Hx].
Qed.

Lemma AddExtraCompoundMvCandidate_from (mv_row mv_column : Z) (s : ExtraState) :
  neighbor_position block mv_row mv_column ->
  extra_lists_from P s ->
  extra_lists_from P (AddExtraCompoundMvCandidate block mv_row mv_column s).
Proof.
  intros Hpos Hs. unfold AddExtraCompoundMvCandidate.
  apply foldl_invariant; [exact Hs |].
  intros s1 i H1.
  destruct (Z.leb_spec
              (reference_frame_value
                 (reference_frame_at (Parameters (tile block) mv_row mv_column) i))
              (reference_frame_value kReferenceFrameIntra)) as [_ | Href];
    [exact H1 |].
  apply foldl_invariant_in; [exact H1 |].
  intros s2 j Hj (Ha & Hb & Hc & Hd).
  pose proof (P_extra mv_row mv_column i j Hpos Href) as Hp.
  rewrite sign_adjusted_code.
  destruct (bool_decide _ && _) eqn:Hid.
  - apply andb_true_iff in Hid as [Hsame _].
    apply bool_decide_eq_true in Hsame.
    rewrite Hsame, sign_adjusted_same in Hp.
    unfold extra_lists_from. cbn [ref_id ref_diff].
    destruct Hj as [<- | [<- | []]]; cbn [pair_get pair_set fst snd] in *.
    + split; [apply Forall_app; split; [exact Ha | repeat constructor; exact Hp] |].
      auto.
    + split; [exact Ha |].
      split; [apply Forall_app; split; [exact Hb | repeat constructor; exact Hp] |].
      auto.
  - destruct (length (pair_get (ref_diff s2) j) <? 2)%nat;
      [| split; [| split; [| split]]; assumption].
    unfold extra_lists_from. cbn [ref_id ref_diff].
    destruct Hj as [<- | [<- | []]]; cbn [pair_get pair_set fst snd] in *.
    + split; [exact Ha |]. split; [exact Hb |].
      split; [| exact Hd].
      apply Forall_app; split; [exact Hc | repeat constructor; exact Hp].
    + split; [exact Ha |]. split; [exact Hb |]. split; [exact Hc |].
      apply Forall_app; split; [exact Hd | repeat constructor; exact Hp].
Qed.

(** The positions of a pass: the row above the block, then the column to
    its left. *)
Lemma pass_position (pass i : Z) :
  neighbor_position block
    (row4x4 block + (if pass =? 0 then -1 else i))
    (column4x4 block + (if pass =? 0 then i else -1)).
Proof. unfold neighbor_position. destruct (pass =? 0); lia. Qed.

Lemma ExtraSearchPass_from (is_compound : bool) (pass num4x4 : Z)
    (s s' : ExtraState) :
  extra_lists_from P s ->
  candidates_from P is_compound (e_num_mv_found s) (e_prediction_parameters s) ->
  ExtraSearchPass block is_compound pass num4x4 s = Some s' ->
  extra_lists_from P s'
  /\ candidates_from P is_compound (e_num_mv_found s') (e_prediction_parameters s').
Proof.
  intros Hl H. unfold ExtraSearchPass.
  set (I := fun t : ExtraState =>
              extra_lists_from P t
              /\ candidates_from P is_compound (e_num_mv_found t)
                   (e_prediction_parameters t)).
  apply (while_loop_invariant _ _ (fun _ t => I t) I).
  - intros i t [Hlt Ht] _. destruct (negb _); [split; assumption |].
    pose proof (pass_position pass i) as Hpos.
    destruct is_compound.
    + destruct (AddExtraCompoundMvCandidate_frame block
                  (row4x4 block + (if pass =? 0 then -1 else i))
                  (column4x4 block + (if pass =? 0 then i else -1)) t) as [Hn Hp].
      split; [apply AddExtraCompoundMvCandidate_from; assumption |].
      rewrite Hn, Hp. exact Ht.
    + pose proof (AddExtraSingleMvCandidate_from _ _ _ _ Hpos Ht) as Hr.
      cbv zeta in Hr.
      destruct (AddExtraSingleMvCandidate _ _ _ _) as [n pp].
      destruct (2 <=? n)%nat; (split; [exact Hlt | exact Hr]).
  - intros i t Ht _. exact Ht.
  - split; assumption.
Qed.

Lemma CombinedMvs_from (s : ExtraState) (k : nat) :
  extra_lists_from P s ->
  P 0%nat (fst (global_mv (e_prediction_parameters s))) ->
  P 1%nat (snd (global_mv (e_prediction_parameters s))) ->
  (k < 2)%nat ->
  P 0%nat (cmv0 (CombinedMvs s k)) /\ P 1%nat (cmv1 (CombinedMvs s k)).
Proof.
  intros (Ha & Hb & Hc & Hd) Hg0 Hg1 Hk.
  assert (Forall (P 0%nat) (CombinedColumn s 0)
          /\ Forall (P 1%nat) (CombinedColumn s 1)) as [Hc0 Hc1].
  { unfold CombinedColumn. split; apply Forall_take; rewrite !Forall_app;
      cbn [pair_get global_mv_at];
      (split; [assumption |]); (split; [assumption |]);
      repeat constructor; assumption. }
  assert (forall i, length (CombinedColumn s i) = 2%nat) as Hlen.
  { intros i. unfold CombinedColumn.
    rewrite length_take, !length_app. cbn [length]. lia. }
  unfold CombinedMvs. cbn [cmv0 cmv1].
  split; (apply Forall_nth; [assumption | rewrite Hlen; exact Hk]).
Qed.

(** After the extra search the first two slots and every counted candidate
    satisfy [P]. *)
Lemma ExtraSearch_from (is_compound : bool) (n : nat)
    (pp : PredictionParameters) (n' : nat) (pp' : PredictionParameters) :
  candidates_from P is_compound n pp ->
  (n < 2)%nat ->
  ExtraSearch block is_compound n pp = Some (n', pp') ->
  candidates_from P is_compound (Nat.max n' 2) pp'.
Proof.
  intros H Hn. unfold ExtraSearch.
  set (num4x4 := Z.min _ 16).
  cbn [e_num_mv_found].
  destruct (Nat.ltb_spec n 2) as [_ | ?]; [| lia].
  set (s0 := MkExtraState ([], []) ([], []) n pp).
  assert (extra_lists_from P s0) as Hl0 by (repeat split; constructor).
  destruct (ExtraSearchPass block is_compound 0 num4x4 s0) as [s1 |] eqn:E1;
    [| discriminate].
  apply ExtraSearchPass_from in E1; [| exact Hl0 | exact H].
  destruct E1 as [Hl1 E1].
  option_step.
  assert (forall s2,
            (if (e_num_mv_found s1 <? 2)%nat
             then ExtraSearchPass block is_compound 1 num4x4 s1 else Some s1)
            = Some s2 ->
            extra_lists_from P s2
            /\ candidates_from P is_compound (e_num_mv_found s2)
                 (e_prediction_parameters s2)) as H2.
  { intros s2. destruct (_ <? 2)%nat.
    - intros E2. apply ExtraSearchPass_from in E2; assumption.
    - intros [= <-]. split; assumption. }
  match goal with
  | |- (?x ≫= _) = _ -> _ => destruct x as [s2 |]; [| discriminate]
  end.
  destruct (H2 s2 eq_refl) as [Hl2 (Hg & Hg1 & Hs)]. clear H2.
  option_step.
  destruct is_compound.
  - specialize (Hg1 eq_refl).
    pose proof (CombinedMvs_from s2 0 Hl2 Hg Hg1 ltac:(lia)) as Hc0.
    pose proof (CombinedMvs_from s2 1 Hl2 Hg Hg1 ltac:(lia)) as Hc1.
    destruct (Nat.eqb_spec (e_num_mv_found s2) 1) as [E | _];
      intros [= <- <-]; unfold candidates_from;
      cbn [global_mv compound_ref_mv_stack set_compound_ref_mv_stack Nat.max];
      (split; [exact Hg |]); (split; [intros _; exact Hg1 |]);
      intros i x Hi Hx.
    + apply list_lookup_insert_Some in Hx as [(<- & <- & _) | [Hne Hx]].
      * destruct (bool_decide _); assumption.
      * apply (Hs i x); [lia | exact Hx].
    + apply list_lookup_insert_Some in Hx as [(<- & <- & _) | [Hne Hx]];
        [exact Hc1 |].
      apply list_lookup_insert_Some in Hx as [(<- & <- & _) | [Hne0 Hx]];
        [exact Hc0 |].
      lia.
  - intros [= <- <-].
    set (n2 := e_num_mv_found s2) in *.
    set (p2 := e_prediction_parameters s2) in *. clearbody n2 p2.
    destruct n2 as [| [| n2]]; cbn [Nat.sub seq foldl Nat.max].
    + unfold candidates_from.
      cbn [global_mv ref_mv_stack set_ref_mv_stack global_mv_at].
      split; [exact Hg |]. split; [discriminate |].
      intros i x Hi Hx.
      apply list_lookup_insert_Some in Hx as [(<- & <- & _) | [Hne Hx]];
        [exact Hg |].
      apply list_lookup_insert_Some in Hx as [(<- & <- & _) | [Hne0 Hx]];
        [exact Hg |].
      lia.
    + unfold candidates_from.
      cbn [global_mv ref_mv_stack set_ref_mv_stack global_mv_at].
      split; [exact Hg |]. split; [discriminate |].
      intros i x Hi Hx.
      apply list_lookup_insert_Some in Hx as [(<- & <- & _) | [Hne Hx]];
        [exact Hg |].
      apply (Hs i x); [lia | exact Hx].
    + rewrite Nat.sub_0_l, Nat.max_0_r. cbn [seq foldl].
      split; [exact Hg |]. split; [discriminate | exact Hs].
Qed.

Hypothesis P_scanned :
  forall row column i j,
    neighbor_position block row column ->
    is_inter (Parameters (tile block) row column) = true ->
    reference_frame_at (Parameters (tile block) row column) i
    = reference_frame_at (bp block) j ->
    P j (cmv_get (mv (Parameters (tile block) row column)) i).

Hypothesis P_temporal :
  forall j cell,
    field_cell block cell ->
    P j (LowerMvPrecision (frame_header (tile block))
           (GetMvProjection (fst cell) (reference_offset block j) (snd cell))).

Hypothesis P_global : forall j, P j (SetupGlobalMv block j).

Lemma FindMvStack_from (is_compound : bool) (pp : PredictionParameters) :
  exists pp' contexts,
    FindMvStack block is_compound pp = Some (pp', contexts)
    /\ candidates_from P is_compound (Nat.max (ref_mv_count pp') 2) pp'.
Proof.
  destruct (FindMvStack_total block is_compound pp)
    as (l & nm & zero & pp' & contexts & E & F & _).
  exists pp', contexts. split; [exact F |].
  pose proof (AllScans_from block P P_scanned P_temporal P_global
                is_compound pp l nm zero E) as Hl.
  unfold FindMvStack in F. rewrite E in F. revert F. option_step.
  destruct (Nat.ltb_spec (l_num_mv_found l) 2) as [Hlt | Hge].
  - destruct (ExtraSearch _ _ _ _) as [[n1 pp1] |] eqn:Ex; [| discriminate].
    option_step. destruct (ComputeContexts _ _ _).
    intros [= <- _].
    apply ExtraSearch_from in Ex; [| exact Hl | exact Hlt].
    exact Ex.
  - option_step. destruct (ComputeContexts _ _ _).
    intros [= <- _].
    cbn [ref_mv_count set_ref_mv_count].
    replace (Nat.max (l_num_mv_found l) 2) with (l_num_mv_found l) by lia.
    destruct Hl as (Hg & Hg1 & Hs).
    split; [exact Hg |]. split; [exact Hg1 |].
    destruct is_compound; exact Hs.
Qed.

End ExtraSearchInvariant.

(** X24. Every candidate that FindMvStack leaves in the stack in use (the
    first max(ref_mv_count, 2) slots), and each global vector in use, has a
    source for the reference it belongs to (reference 0 for single
    prediction and for the first vector of a compound candidate, reference
    1 for the second): it is the vector that an inter block above or to the
    left of the block stores for that same reference; or the vector that
    such a position stores for any inter reference, negated when the sign
    bias of the two references differs; or the global motion vector of the
    block for the reference; or the lowered projection of a valid vector of
    the motion field by the distance of the reference. *)
Theorem FindMvStack_candidate_sources (block : Block) (is_compound : bool)
    (pp : PredictionParameters) :
  exists pp' contexts,
    FindMvStack block is_compound pp = Some (pp', contexts)
    /\ candidates_from (candidate_source block) is_compound
         (Nat.max (ref_mv_count pp') 2) pp'.
Proof.
  apply FindMvStack_from.
  - intros row column i j. apply source_extra.
  - intros row column i j. apply source_scanned.
  - intros j cell. apply source_temporal.
  - intros j. apply source_global.
Qed.

Lemma sign_adjusted_is_lowered (frame_header : ObuFrameHeader) (t : Tile)
    (candidate target : ReferenceFrameType) (m : MotionVector) :
  lowered frame_header m ->
  lowered frame_header (sign_adjusted t candidate target m).
Proof.
  intros H. unfold sign_adjusted. destruct (bool_decide _); [exact H |].
  rewrite <- NegateMv_negated. apply NegateMv_is_lowered. exact H.
Qed.

Lemma projection_is_lowered (frame_header : ObuFrameHeader)
    (reference_offset : Z) (temporal : MotionVector * Z) :
  lowered frame_header
    (LowerMvPrecision frame_header
       (GetMvProjection (fst temporal) reference_offset (snd temporal))).
Proof.
  rewrite <- TemporalCandidateMv_projection.
  apply TemporalCandidateMv_is_lowered.
Qed.

(** X25. If every vector stored for a position of the tile has 16-bit
    components and is at the precision of the frame, so is every candidate
    that FindMvStack leaves in the stack in use, and so are the global
    vectors in use. *)
Theorem FindMvStack_candidates_lowered (block : Block) (is_compound : bool)
    (pp : PredictionParameters) :
  neighbors_lowered block ->
  exists pp' contexts,
    FindMvStack block is_compound pp = Some (pp', contexts)
    /\ candidates_satisfy (lowered (frame_header (tile block))) is_compound
         (Nat.max (ref_mv_count pp') 2) pp'.
Proof.
  intros Hn.
  apply (FindMvStack_from block (fun _ => lowered (frame_header (tile block)))).
  - intros row column i j _ _. apply sign_adjusted_is_lowered, Hn.
  - intros row column i j _ _ _. apply Hn.
  - intros j cell _. apply projection_is_lowered.
  - intros j. apply SetupGlobalMv_is_lowered.
Qed.

Lemma ranking_block_neighbors_lowered : neighbors_lowered ranking_block.
Proof.
  intros row column i. cbn [ranking_block tile Parameters frame_header].
  unfold ranking_grid.
  repeat match goal with
         | |- context [if ?c then _ else _] => destruct c
         end;
    destruct i as [| i]; cbn [neighbor_with mv cmv_get cmv0 cmv1];
    (split; [split; unfold is_int16; cbn; lia | reflexivity]).
Qed.

Lemma FindMvStack_candidates_lowered_witness :
  exists pp' contexts,
    FindMvStack ranking_block false fresh_parameters = Some (pp', contexts)
    /\ candidates_satisfy (lowered static_header) false
         (Nat.max (ref_mv_count pp') 2) pp'.
Proof.
  exact (FindMvStack_candidates_lowered ranking_block false fresh_parameters
           ranking_block_neighbors_lowered).
Defined.

(** ** FindMvStack among intra blocks *)

Section IntraNeighbors.

Variable block : Block.

Hypothesis Hintra : intra_neighbors block.

Lemma AddReferenceMvCandidate_intra (row column : Z) (is_compound : bool)
    (w : Z) (st : ScanState) :
  neighbor_position block row column ->
  AddReferenceMvCandidate block (Parameters (tile block) row column)
    is_compound w st = st.
Proof.
  intros Hpos. unfold AddReferenceMvCandidate.
  destruct (Hintra row column Hpos) as (-> & _). reflexivity.
Qed.

Lemma ScanRow_intra (mv_column delta_row : Z) (is_compound : bool)
    (st : ScanState) :
  delta_row < 0 ->
  ScanRow block mv_column delta_row is_compound st = Some st.
Proof.
  intros Hd.
  destruct (ScanRow_total block mv_column delta_row is_compound st) as [st' E].
  rewrite E. f_equal. revert E. unfold ScanRow.
  destruct (negb _); [intros [= <-]; reflexivity |].
  apply (do_while_invariant _ _ (fun _ t => t = st) (fun t => t = st)).
  - apply AddReferenceMvCandidate_intra. left. lia.
  - intros i t -> _. apply AddReferenceMvCandidate_intra. left. lia.
  - intros i t -> _. reflexivity.
Qed.

Lemma ScanColumn_intra (mv_row delta_column : Z) (is_compound : bool)
    (st : ScanState) :
  delta_column < 0 ->
  ScanColumn block mv_row delta_column is_compound st = Some st.
Proof.
  intros Hd.
  destruct (ScanColumn_total block mv_row delta_column is_compound st) as [st' E].
  rewrite E. f_equal. revert E. unfold ScanColumn.
  destruct (negb _); [intros [= <-]; reflexivity |].
  apply (do_while_invariant _ _ (fun _ t => t = st) (fun t => t = st)).
  - apply AddReferenceMvCandidate_intra. right. lia.
  - intros i t -> _. apply AddReferenceMvCandidate_intra. right. lia.
  - intros i t -> _. reflexivity.
Qed.

Lemma ScanPoint_intra (delta_row delta_column : Z) (is_compound : bool)
    (st : ScanState) :
  delta_row < 0 ->
  ScanPoint block delta_row delta_column is_compound st = st.
Proof.
  intros Hd. unfold ScanPoint. destruct (_ || _); [reflexivity |].
  destruct (bool_decide _); [reflexivity |].
  apply AddReferenceMvCandidate_intra. left. lia.
Qed.

Lemma NearestScans_intra (is_compound : bool) (l : Locals) :
  NearestScans block is_compound l = Some l.
Proof.
  unfold NearestScans.
  rewrite ScanRow_intra by lia. option_step. rewrite leave_enter.
  rewrite ScanColumn_intra by lia. option_step. rewrite leave_enter.
  rewrite ScanPoint_intra by lia. rewrite leave_enter.
  destruct (_ <=? _); reflexivity.
Qed.

Lemma FarScans_intra (is_compound : bool) (l : Locals) :
  FarScans block is_compound l = Some l.
Proof.
  pose proof (land_1_range (row4x4 block)) as Hr.
  pose proof (land_1_range (column4x4 block)) as Hc.
  unfold FarScans.
  rewrite ScanPoint_intra by lia. rewrite leave_enter.
  rewrite ScanRow_intra by lia. option_step. rewrite leave_enter.
  rewrite ScanColumn_intra by lia. option_step. rewrite leave_enter.
  destruct (1 <? height4x4 block), (1 <? width4x4 block);
    rewrite ?ScanRow_intra by lia; option_step; rewrite ?leave_enter;
    rewrite ?ScanColumn_intra by lia; option_step; rewrite ?leave_enter;
    reflexivity.
Qed.

Lemma intra_reference_skipped (row column : Z) (i : nat) :
  neighbor_position block row column ->
  (reference_frame_value (reference_frame_at (Parameters (tile block) row column) i)
   <=? reference_frame_value kReferenceFrameIntra) = true.
Proof.
  intros Hpos. destruct (Hintra row column Hpos) as (_ & H0 & H1).
  apply Z.leb_le. destruct i; cbn [reference_frame_at reference_frame_value]; lia.
Qed.

Lemma ExtraSearchPass_intra (is_compound : bool) (pass num4x4 : Z)
    (s : ExtraState) :
  num4x4 <= 16 ->
  ExtraSearchPass block is_compound pass num4x4 s = Some s.
Proof.
  intros H16.
  destruct (ExtraSearchPass_total block is_compound pass num4x4 s H16) as [s' E].
  rewrite E. f_equal. revert E. unfold ExtraSearchPass.
  apply (while_loop_invariant _ _ (fun _ t => t = s) (fun t => t = s)).
  - intros i t -> _. destruct (negb _); [reflexivity |].
    assert (neighbor_position block
              (row4x4 block + (if pass =? 0 then -1 else i))
              (column4x4 block + (if pass =? 0 then i else -1))) as Hpos
      by (unfold neighbor_position; destruct (pass =? 0); lia).
    destruct is_compound.
    + unfold AddExtraCompoundMvCandidate. cbn [foldl].
      rewrite !intra_reference_skipped by exact Hpos. reflexivity.
    + unfold AddExtraSingleMvCandidate. cbn [foldl].
      rewrite !intra_reference_skipped by exact Hpos.
      destruct (2 <=? e_num_mv_found s)%nat; destruct s; reflexivity.
  - intros i t -> _. reflexivity.
  - reflexivity.
Qed.

(** X26. For a block whose references in use are frames: when no position
    above the block or to its left holds an inter block and
    use_ref_frame_mvs is off, FindMvStack finds nothing: all three contexts
    are 0 and nearest_mv_count is 0.  For single prediction ref_mv_count is
    0 and slots 0 and 1 hold the global motion vector; for compound
    prediction ref_mv_count is 2 and both slots hold the same pair of global
    motion vectors.  The weights of both slots are 0. *)
Theorem FindMvStack_without_inter_neighbors (is_compound : bool)
    (pp : PredictionParameters) :
  references_in_use block is_compound ->
  use_ref_frame_mvs (frame_header (tile block)) = false ->
  stacks_allocated pp ->
  exists pp',
    FindMvStack block is_compound pp = Some (pp', MkMvContexts 0 0 0)
    /\ nearest_mv_count pp' = 0%nat
    /\ ref_mv_count pp' = (if is_compound then 2%nat else 0%nat)
    /\ (forall i, (i < 2)%nat ->
          weight_index_stack pp' !! i = Some (packed i 0)
          /\ if is_compound
             then compound_ref_mv_stack pp' !! i
                  = Some (MkCompound (SetupGlobalMv block 0) (SetupGlobalMv block 1))
             else ref_mv_stack pp' !! i = Some (SetupGlobalMv block 0)).
Proof.
  intros _ Ht (Hs & Hc & Hw).
  unfold FindMvStack, AllScans.
  rewrite NearestScans_intra. option_step.
  unfold TemporalStep. rewrite Ht. option_step.
  cbn [l_found_new_mv l_found_row_match l_found_column_match l_dummy_bool
       l_num_mv_found l_prediction_parameters].
  rewrite FarScans_intra. option_step.
  cbn [l_found_new_mv l_found_row_match l_found_column_match l_dummy_bool
       l_num_mv_found l_prediction_parameters Nat.ltb Nat.leb].
  unfold ExtraSearch.
  set (num4x4 := Z.min _ 16). assert (num4x4 <= 16) as H16 by (subst num4x4; lia).
  cbn [e_num_mv_found Nat.ltb Nat.leb].
  rewrite ExtraSearchPass_intra by exact H16. option_step.
  cbn [e_num_mv_found Nat.ltb Nat.leb].
  rewrite ExtraSearchPass_intra by exact H16. option_step.
  cbn [e_num_mv_found e_prediction_parameters Nat.eqb].
  unfold kMaxRefMvStackSize in *.
  destruct pp as [gm stack cstack weights nearest count]; cbn in Hs, Hc, Hw.
  destruct stack as [| s0 [| s1 stack]]; try discriminate.
  destruct cstack as [| c0 [| c1 cstack]]; try discriminate.
  destruct weights as [| w0 [| w1 weights]]; try discriminate.
  destruct is_compound; eexists; (split; [reflexivity |]);
    (split; [reflexivity |]); (split; [reflexivity |]);
    intros [| [| i]] Hi; try lia; split; reflexivity.
Qed.

End IntraNeighbors.

Lemma among_intra_neighbors (own : BlockParameters) :
  intra_neighbors (among_intra own).
Proof.
  intros row column [Hrow | Hcolumn];
    cbn [among_intra tile Parameters row4x4 column4x4] in *;
    (assert (covers_2_2 row column = false) as ->
       by (unfold covers_2_2;
           destruct (Z.leb_spec 2 row), (Z.leb_spec 2 column);
           cbn [andb]; try reflexivity; try lia;
           destruct (row <? 4); reflexivity));
    (split; [reflexivity |]); split; cbn; lia.
Qed.

Lemma FindMvStack_without_inter_neighbors_witness :
  (exists pp',
     FindMvStack (among_intra compound_parameters) true fresh_parameters
     = Some (pp', MkMvContexts 0 0 0)
     /\ nearest_mv_count pp' = 0%nat
     /\ ref_mv_count pp' = 2%nat
     /\ (forall i, (i < 2)%nat ->
           weight_index_stack pp' !! i = Some (packed i 0)
           /\ compound_ref_mv_stack pp' !! i
              = Some (MkCompound (MkMv 0 0) (MkMv 8 (-16)))))
  /\ (exists pp',
        FindMvStack (among_intra still_block) false fresh_parameters
        = Some (pp', MkMvContexts 0 0 0)
        /\ nearest_mv_count pp' = 0%nat
        /\ ref_mv_count pp' = 0%nat
        /\ (forall i, (i < 2)%nat ->
              weight_index_stack pp' !! i = Some (packed i 0)
              /\ ref_mv_stack pp' !! i = Some (MkMv 0 0))).
Proof.
  split.
  - apply (FindMvStack_without_inter_neighbors (among_intra compound_parameters)
             (among_intra_neighbors compound_parameters) true).
    + split; [| intros _]; cbn; lia.
    + reflexivity.
    + split; [| split]; reflexivity.
  - apply (FindMvStack_without_inter_neighbors (among_intra still_block)
             (among_intra_neighbors still_block) false).
    + split; [cbn; lia | discriminate].
    + reflexivity.
    + split; [| split]; reflexivity.
Defined.

(** ** The theorems on the example data *)

Lemma fresh_parameters_allocated : stacks_allocated fresh_parameters.
Proof. split; [| split]; reflexivity. Qed.

Lemma FindMvStack_single_candidates_distinct_witness :
  exists pp' contexts,
    FindMvStack ranking_block false fresh_parameters = Some (pp', contexts)
    /\ NoDup (take (ref_mv_count pp') (ref_mv_stack pp')).
Proof.
  exact (FindMvStack_single_candidates_distinct ranking_block fresh_parameters
           fresh_parameters_allocated).
Defined.

Lemma FindMvStack_counts_witness :
  exists pp' contexts,
    FindMvStack corner_block false fresh_parameters = Some (pp', contexts)
    /\ (nearest_mv_count pp' <= ref_mv_count pp' <= kMaxRefMvStackSize)%nat
    /\ forall i, (ref_mv_count pp' <= i < 2)%nat ->
         ref_mv_stack pp' !! i = Some (SetupGlobalMv corner_block 0)
         /\ weight_index_stack pp' !! i = Some (packed i 0).
Proof.
  destruct (FindMvStack_counts corner_block false fresh_parameters
              fresh_parameters_allocated) as (pp' & contexts & E & H1 & _ & H3).
  exists pp', contexts. split; [exact E |]. split; [exact H1 |].
  exact (H3 eq_refl).
Defined.

Lemma FindMvStack_frame_witness :
  exists pp' contexts,
    FindMvStack compound_block true fresh_parameters = Some (pp', contexts)
    /\ global_mv pp' = (MkMv 0 0, MkMv 8 (-16))
    /\ other_stack_kept true fresh_parameters pp'.
Proof.
  apply (FindMvStack_frame compound_block true fresh_parameters).
  - split; [| intros _]; cbn; lia.
  - split; [| split]; reflexivity.
Defined.

Lemma FindMvStack_ranks_every_slot_witness :
  exists pp' contexts,
    FindMvStack ranking_block false fresh_parameters = Some (pp', contexts)
    /\ entry_index <$> take (ref_mv_count pp') (weight_index_stack pp')
       ≡ₚ Z.of_nat <$> seq 0 (ref_mv_count pp').
Proof.
  exact (FindMvStack_ranks_every_slot ranking_block false fresh_parameters
           fresh_parameters_allocated).
Defined.

Lemma scans_only_append_witness :
  exists st' zero',
    run_scans ranking_block false sample_scans
      (MkScanState false false 0 fresh_parameters, 0) = Some (st', zero')
    /\ num_mv_found st' = 5%nat
    /\ scan_extends false 0 fresh_parameters
         (num_mv_found st') (prediction_parameters st').
Proof.
  assert (exists st' zero',
            run_scans ranking_block false sample_scans
              (MkScanState false false 0 fresh_parameters, 0) = Some (st', zero')
            /\ num_mv_found st' = 5%nat) as (st' & zero' & E & Hn).
  { eexists; eexists. split; vm_compute; reflexivity. }
  exists st', zero'. split; [exact E |]. split; [exact Hn |].
  exact (scans_only_append ranking_block false sample_scans
           (MkScanState false false 0 fresh_parameters) st' 0 zero' E).
Defined.

Lemma temporal_sample_inside_witness :
  0 <= Z.land 2 15 + 2
  /\ IsInside (tile (temporal_block far_field)) 5 1 = true.
Proof.
  destruct (temporal_sample_inside (temporal_block far_field) (2, -2))
    as [H1 H2].
  - reflexivity.
  - left. reflexivity.
  - split; [exact H1 |]. apply H2.
    + split; [cbn; lia | split; [cbn; lia | exists 0; reflexivity]].
    + reflexivity.
    + reflexivity.
Defined.

Lemma WarpScans_valid_samples_witness :
  exists s q,
    WarpScans still_neighbors_block 0 0 (replicate 8 (0, 0, 0, 0)) = Some s
    /\ num_warp_samples s = 4%nat
    /\ candidates s !! 3%nat = Some q /\ sample_close still_neighbors_block q.
Proof.
  assert (exists s,
            WarpScans still_neighbors_block 0 0 (replicate 8 (0, 0, 0, 0)) = Some s
            /\ num_warp_samples s = 4%nat) as (s & E & Hn).
  { eexists. split; vm_compute; reflexivity. }
  destruct (WarpScans_valid_samples still_neighbors_block
              (replicate 8 (0, 0, 0, 0)) s eq_refl E 3%nat) as (q & Hq & Hc).
  - rewrite Hn. lia.
  - exists s, q. auto.
Defined.

Lemma SetupMotionField_without_usable_reference_witness :
  SetupMotionField wiping_kernel sample_header (sample_buffer 16 16 kFrameInter)
    intra_references 25 0 16 0 16 sample_field
  = (1, sample_field).
Proof.
  apply (SetupMotionField_without_usable_reference wiping_kernel sample_header
           (sample_buffer 16 16 kFrameInter) intra_references).
  intros i. reflexivity.
Defined.
